(* ===== verification/_CoqProject ===== *)
-Q . S2P
Prelude.v
OrderedMap.v
Utils.v
Files.v
ClusterInfo.v
Config.v
SecretKeys.v
Status.v
Proto.v
KVStore.v
SharedMutex.v
Lockable.v
ProxyKVStore.v
InMemoryKVStore.v
Sharding.v
ConcurInMemoryKVStore.v
WSConcurInMemoryKVStore.v
CacheEviction.v
HashRing.v
Locking.v
VersionStore.v
TemporalKVStore.v
RocksDBKVStore.v
RocksDBSpec.v
Instances.v
Event.v
Command.v
Metrics.v
KVPutCommand.v
KVGetCommand.v
KVDeleteCommand.v
KVImportCommand.v
KVTransCommand.v
KVGenerateCommand.v
KVEngineImpl.v
Loops.v
CommandProcessor.v
ProcessorThreads.v
ProcessorSpec.v
CommandsSpec.v
RaftEventStore.v
ReplyLoop.v
EventApplyLoop.v
ApplyLoopSpec.v
ReplicationSpec.v
Checkpoint.v
NetAdmin.v
GenerateSpec.v
TransSpec.v
EngineContract.v
Serial.v
ControlProto.v
Shards.v
Lifecycle.v
ScanCommand.v
OldRocksDBKVStore.v
ThreadPool.v
CallData.v
MigrationManager.v
MigrationSpec.v
ObjectStore.v
RetryClient.v
Admin.v
AdminSpec.v
ObjectStoreSpec.v
ClusterSet.v
Services.v
ManagerClient.v
ClusterSetSpec.v
RouteSpec.v
WatchCenter.v
WatchStream.v
ClusterClient.v
Witnesses.v
RaftWitnesses.v
ControlScenarios.v
Scenarios.v
Servers.v
StoreScenarios.v
AdminScenarios.v
