(* ===== verification/Prelude.v ===== *)
(** * Goblin: a verification library

    Goblin is a replicated key-value store (src/server/src). A key-value engine (kv-engine) executes commands on a
    leader, replicates their events through raft and applies them to RocksDB on every node. The object store
    (object-store) is the engine split into 4096 shards, many clusters of it sharing the shards, with scans, watches,
    and the migration of shards between clusters. The object manager (object-manager) places the shards on the clusters,
    and keeps its configuration in an engine of its own. An administration tool (admin) converts databases and
    logs. This library models these programs as functions on explicit states and proves what they guarantee.

    ** How the code is modelled

    Methods are definitions with the names of the source, in the effect monad of this file: a computation reads the
    clock, changes the state of its object, and ends with a value or with a fault (a failed assert, undefined behaviour, a
    wait for ever, an uncaught exception). Integers are Z with the wrap-around of their width written out. Maps without
    an order that matters are gmap, std::map is OrderedMap.v. Threads are step relations over every access of shared
    state. What is not in the repository is a class with the laws the code relies on, and Instances.v, Witnesses.v and
    RaftWitnesses.v have concrete instances: RocksDB, protobuf encodings, std::hash, the raft log and its views, the queue
    of the workers, encryption and its vault, the file system, gRPC, the name service.

    ** Parts, files and sources

    - Basics: OrderedMap.v; Utils.v (utils/StrUtil.h, the binary files of utils/FileUtil.h); Files.v (whole files, utils/FileUtil.h);
      ClusterInfo.v (utils/ClusterInfoUtil.cpp, utils/ClusterInfo.h); Config.v (utils/TlsUtil.h, AppUtil.h and .cpp, Util.h, TessDNSResolver.h);
      SecretKeys.v (crypto/); Status.v (utils/Status.h); Proto.v and ControlProto.v (src/protocols).
    - Stores (kv-engine/store): KVStore.v is the interface every store is an instance of; SharedMutex.v and Lockable.v are its locks;
      ProxyKVStore.v, InMemoryKVStore.v, ConcurInMemoryKVStore.v (4096 segments with a mutex each), WSConcurInMemoryKVStore.v
      (one of those per working set), TemporalKVStore.v (the overlay of a transaction), RocksDBKVStore.v and VersionStore.v are the
      files of the same names; Sharding.v is what the split stores share; CacheEviction.v is strategy/CacheEviction.cpp. Locking.v
      has any number of commands that lock keys at the same time, one mutex operation per step. RocksDBSpec.v states the persistent
      store as rows, batch and milestone.
    - Commands (kv-engine/model): Event.v, Command.v, Metrics.v (the time stamps of Command.h), KVPutCommand.v, KVGetCommand.v, KVDeleteCommand.v, KVImportCommand.v (also evict and
      connect), KVTransCommand.v, KVGenerateCommand.v (and object-store/model/user-define/TransferCommand.cpp).
    - Execution (kv-engine/execution, kv-engine/raft, KVEngineImpl.cpp): KVEngineImpl.v (calls, batches, workers), Loops.v (the
      threads of an engine and its end: Loop.h, QueueWorker.h, ExecutionServiceImpl.h), Lifecycle.v (KVEngineImpl::Init), CommandProcessor.v (one
      command), ProcessorThreads.v (the threads of the processor and the change of leader), Serial.v (commands that run at the same time), RaftEventStore.v (persist loop, load loop,
      readiness of a leader), ReplyLoop.v, EventApplyLoop.v, Checkpoint.v (createCheckpoint and takeSnapshotAndPersist),
      NetAdmin.v (network/NetAdminServer.h).
    - Object store: Shards.v and ObjectStore.v (ObjectStore.h and .cpp), ScanCommand.v (model/ScanCommand.cpp), MigrationManager.v
      (migration/MigrationManager.cpp), ThreadPool.v (utils/ThreadPoolService.cpp), WatchCenter.v and WatchStream.v (watch/, KVWatchCallData.cpp),
      RetryClient.v (network/ObjectStoreClient.cpp), ManagerClient.v (network/ObjectManagerClient.cpp).
    - Calls: CallData.v is the life of a call object (network/RequestReceiver.cpp, RequestCallData.h, the CallData files of rpc/ of both
      servers), Services.v what each call does.
    - Object manager: ClusterSet.v (module/, migration/ClusterProxy.cpp, network/rpc/), HashRing.v (route/HashRing.cpp), ClusterClient.v
      (migration/ClusterClient.cpp). It runs against EngineContract.v, the engine as a map with versions.
    - Servers: Servers.v (construction and shutdown of ObjectStore.cpp and ObjectManager.cpp, KVEngine.cpp).
    - Administration tool: Admin.v (Admin.cpp, Main.cpp), OldRocksDBKVStore.v.
    - Concrete runs: Witnesses.v, RaftWitnesses.v, Scenarios.v, ControlScenarios.v, StoreScenarios.v, AdminScenarios.v and the end of Servers.v, which apply the theorems
      to concrete inputs and run the counterexamples behind the deviations that were found.

    ** What the theorems show

    - Stores. The striped, sharded store answers every sequence of calls as one in-memory overlay does; locking is exclusive and free
      of deadlock for any set of commands; values survive their encoding for RocksDB; eviction takes the least recently used keys; versions are
      never handed out twice after a recovery.
    - Commands and processor (ProcessorSpec.v, CommandsSpec.v, TransSpec.v, GenerateSpec.v, ProcessorThreads.v, Serial.v). What is replicated is what is applied
      in memory, under one fresh version; locks are balanced however a command ends; a get sees the put before it; one effect per command
      and only from the leader; a transaction does on the store what its contract does on a map; a transfer is atomic; no command
      runs while a thread clears the stores to become leader, and the threads never block each other for good;
      gets, puts, deletes and transactions that run at the same time are serializable in the order of the log, and can all finish.
    - Replication (RaftEventStore.v, ReplyLoop.v, ApplyLoopSpec.v, ReplicationSpec.v, Checkpoint.v). The persist loop keeps the order; what the reply loop
      acknowledges is in the committed log; over any rounds and crashes the database is the replay of the log up to its milestone, and
      catches up; put together, an acknowledged put is read from the database of every node that has applied its entry; a
      checkpoint restores a node; stale reads are answered by a prefix of the committed log that never gets shorter, but one that misses
      releases reads of values that are not committed.
    - Calls and threads. Every call is answered at most once and no call object is used after its deletion; the tasks of the thread pool run
      once each, in order, and all of them can run.
    - Object store and manager (ObjectStoreSpec.v, MigrationSpec.v, WatchCenter.v, ClusterSetSpec.v, RouteSpec.v, HashRing.v, ClusterClient.v). A replicated
      command is on a shard of the node; with the route of the manager exactly one cluster accepts a key; a reported migration has finished;
      every watch gets the changes of its keys once and in order; requests leave the configuration consistent, under any interleaving with other
      managers; the route covers every shard once; a migration request reaches the leader.
    - Servers (Files.v, Config.v, SecretKeys.v, Loops.v, Lifecycle.v, Servers.v). A server starts as its settings say, with an engine that is ready; the
      keys it encrypts with are the vault's; ending an engine ends every thread of it, in any interleaving; a file that is replaced
      holds the old content or the new one after a crash; enabled certificates are used.
    - Administration tool (AdminSpec.v). A converted database holds the keys, a re-encrypted log decodes to the same bundles.

    Where the code does not do what it means to, the library proves what it does, with a theorem that is a counterexample.

    ** Bounds and fuel

    Loops that are structural in the source are Fixpoints on the data. The others have fuel, and running out of it is the fault
    [WouldBlock], never a value: the theorems that promise a result show that it is enough. The loops that wait for raft (waitLeader,
    loadNextBundle, waitTillLeaderIsReadyOrStepDown, waitTillCommittedOrQuit) take as many rounds as raft needs to show the state waited for;
    request of RetryClient.v needs one round over the nodes; probe of the hash ring one round over its 4096 places; evictLoop the length of its
    list; migrateLoop and compareLoop the number of entries. The constants of the source (segments, shards, batch sizes, retries) are
    kept. Counters are assumed to stay below 2^64 only where a theorem says so.

    ** Not modelled

    - Logging, the registry of metrics and thread names: they do not reach the modelled state. Time stamps are modelled by themselves (Metrics.v).
    - The Main.cpp files, which open the log file and run a server; constructors for tests; executeCmd, getHostname and syncFile, which only call
      the operating system.
    - The end of the reply loop and of the persist loop with their objects, after the engine has ended.
    - The back-off of idle loops; the truncation of the log, which only calls raft; raft itself, RocksDB and gRPC are libraries.
    - Weak memory: atomics and plain fields are read and written in one order. *)

From stdpp Require Export base gmap sets list strings pretty.
From Stdlib Require Export ZArith Lia Sorted.
From Stdlib Require Import Ascii.
From stdpp Require Import sorting.

#[global] Open Scope Z_scope.
#[global] Open Scope string_scope.
#[global] Open Scope list_scope.

(** ** Machine integers

    [uint64_t], [uint32_t] and [char] values are integers of type [Z] kept in
    range by an explicit wrap-around. *)

Definition u64 (z : Z) : Z := z mod 2 ^ 64.
Definition u32 (z : Z) : Z := z mod 2 ^ 32.
Definition u8 (z : Z) : Z := z mod 2 ^ 8.

(** A [char] is signed on the platforms the server is built for (x86_64). *)
Definition s8 (z : Z) : Z := (z + 2 ^ 7) mod 2 ^ 8 - 2 ^ 7.

Definition is_u64 (z : Z) : Prop := 0 <= z < 2 ^ 64.
Definition is_u32 (z : Z) : Prop := 0 <= z < 2 ^ 32.

Lemma u64_small z : is_u64 z -> u64 z = z.
Proof. apply Z.mod_small. Qed.

Lemma u64_range z : is_u64 (u64 z).
Proof. apply Z.mod_pos_bound; lia. Qed.

Lemma u32_small z : is_u32 z -> u32 z = z.
Proof. apply Z.mod_small. Qed.

Lemma u32_range z : is_u32 (u32 z).
Proof. apply Z.mod_pos_bound; lia. Qed.

Lemma s8_small z : -128 <= z < 128 -> s8 z = z.
Proof. intros. unfold s8. rewrite Z.mod_small by lia. lia. Qed.

Lemma s8_negative z : 128 <= z < 256 -> s8 z = z - 256.
Proof.
  intros. unfold s8.
  replace (z + 2 ^ 7) with (z - 128 + 1 * 2 ^ 8) by lia.
  rewrite Z.mod_add by lia. rewrite Z.mod_small; lia.
Qed.

(** ** Effects

    A method of the server runs on the object it mutates, reads the wall clock
    any number of times, and can stop the process: a failed [assert] (asserts
    stay enabled in release builds, see server/CMakeLists.txt), an access the
    language leaves undefined, a mutex that is not free, or an exception nothing
    catches. *)

Inductive fault :=
| AssertFail
| Undefined
| WouldBlock
| Uncaught.

#[global] Instance fault_eq_dec : EqDecision fault.
Proof. solve_decision. Defined.

(** The readings of [::time(0)] to come, in order. *)
Definition clock := nat -> Z.

Definition later (c : clock) : clock := fun n => c (S n).

Inductive outcome (S A : Type) :=
| Done (a : A) (c : clock) (s : S)
| Stop (f : fault).
Arguments Done {S A} a c s.
Arguments Stop {S A} f.

Definition M (S A : Type) : Type := clock -> S -> outcome S A.

Definition ret {S A} (a : A) : M S A := fun c s => Done a c s.

Definition bind {S A B} (m : M S A) (k : A -> M S B) : M S B :=
  fun c s => match m c s with
             | Done a c' s' => k a c' s'
             | Stop f => Stop f
             end.

Definition stop {S A} (f : fault) : M S A := fun _ _ => Stop f.
Definition get {S} : M S S := fun c s => Done s c s.
Definition put {S} (s : S) : M S unit := fun c _ => Done tt c s.
Definition modify {S} (f : S -> S) : M S unit := fun c s => Done tt c (f s).

Declare Scope goblin_scope.
Delimit Scope goblin_scope with goblin.
#[global] Open Scope goblin_scope.

Notation "'let*' p ':=' m 'in' k" := (bind m (fun x => match x with p => k end))
  (at level 10, p pattern, m at level 200, k at level 200,
   format "'[v' 'let*'  p  ':='  m  'in' '/' k ']'") : goblin_scope.
Notation "m ;;; k" := (bind m (fun _ => k))
  (at level 100, k at level 200, right associativity) : goblin_scope.

(** [assert(b)] *)
Definition assert_ {S} (b : bool) : M S unit :=
  if b then ret tt else stop AssertFail.

(** [utils::TimeUtil::secondsSinceEpoch]: [::time(0)] truncated to 32 bits. *)
Definition secondsSinceEpoch {S} : M S Z :=
  fun c s => Done (u32 (c O)) (later c) s.

(** [utils::TimeUtil::currentTimeInNanos]: the clock shows seconds, [tv_nsec] is the rest. *)
Definition currentTimeInNanos {S} (tv_nsec : Z) : M S Z :=
  fun c s => Done (u64 (c O * 1000000000 + tv_nsec)) (later c) s.

(** Run a method of a component of the state. *)
Definition zoom {S T A} (proj : S -> T) (upd : T -> S -> S) (m : M T A) : M S A :=
  fun c s => match m c (proj s) with
             | Done a c' t => Done a c' (upd t s)
             | Stop f => Stop f
             end.

(** [for (auto &x : l) body(x)], left to right. *)
Fixpoint forM {S A} (l : list A) (body : A -> M S unit) : M S unit :=
  match l with
  | [] => ret tt
  | x :: l => body x ;;; forM l body
  end.

Lemma bind_Done {S A B} (m : M S A) (k : A -> M S B) c s a c' s' :
  m c s = Done a c' s' -> bind m k c s = k a c' s'.
Proof. unfold bind. intros ->. reflexivity. Qed.

Lemma bind_Stop {S A B} (m : M S A) (k : A -> M S B) c s f :
  m c s = Stop f -> bind m k c s = Stop f.
Proof. unfold bind. intros ->. reflexivity. Qed.

Lemma bind_inv {S A B} (m : M S A) (k : A -> M S B) c s b c' s' :
  bind m k c s = Done b c' s' ->
  exists a c1 s1, m c s = Done a c1 s1 /\ k a c1 s1 = Done b c' s'.
Proof. unfold bind. destruct (m c s) eqn:E; [eauto 6 | discriminate]. Qed.

Lemma assert_inv {S} b c (s : S) u c' s' : assert_ b c s = Done u c' s' -> b = true /\ c' = c /\ s' = s.
Proof. destruct b; cbv; [|discriminate]. by intros [= _ -> ->]. Qed.

Lemma zoom_Done {S T A} (proj : S -> T) upd (m : M T A) c s a c' t :
  m c (proj s) = Done a c' t -> zoom proj upd m c s = Done a c' (upd t s).
Proof. unfold zoom. intros ->. reflexivity. Qed.

(** ** Automation

    [run] evaluates the monadic plumbing of the goal, [inv_run H] does the same
    in a hypothesis and splits its equations. *)

Ltac run :=
  cbv beta iota zeta delta [bind ret stop get put modify assert_ zoom secondsSinceEpoch];
  cbn beta iota.

Ltac run_in H :=
  cbv beta iota zeta delta [bind ret stop get put modify assert_ zoom secondsSinceEpoch] in H;
  cbn beta iota in H.

Ltac inv_run H :=
  run_in H; repeat case_match; simplify_eq/=.

(** ** Reasoning about methods

    [preserves I m]: an invariant [I] of the object survives [m]. [sim R m1 m2]:
    from related objects and the same clock the two methods return the same
    value, leave the same clock and related objects, or stop with the same
    fault. Both are compositional; the hints below drive them. *)

Definition preserves {S A} (I : S -> Prop) (m : M S A) : Prop :=
  forall c s a c' s', I s -> m c s = Done a c' s' -> I s'.

Lemma preserves_ret {S A} (I : S -> Prop) (a : A) : preserves I (ret a).
Proof. intros c s a' c' s' HI H. inv_run H. assumption. Qed.

Lemma preserves_get {S} (I : S -> Prop) : preserves I get.
Proof. intros c s a' c' s' HI H. inv_run H. assumption. Qed.

Lemma preserves_stop {S A} (I : S -> Prop) f : preserves I (stop (A := A) f).
Proof. intros c s a' c' s' HI H. inv_run H. Qed.

Lemma preserves_modify {S} (I : S -> Prop) f :
  (forall s, I s -> I (f s)) -> preserves I (modify f).
Proof. intros Hf c s a' c' s' HI H. inv_run H. auto. Qed.

Lemma preserves_bind {S A B} (I : S -> Prop) (m : M S A) (k : A -> M S B) :
  preserves I m -> (forall a, preserves I (k a)) -> preserves I (bind m k).
Proof.
  intros Hm Hk c s b c' s' HI H. apply bind_inv in H as (a & c1 & s1 & H1 & H2).
  eapply Hk; [|exact H2]. eapply Hm; eauto.
Qed.

Lemma preserves_assert {S} (I : S -> Prop) b : preserves I (assert_ b).
Proof. destruct b; [apply preserves_ret | apply preserves_stop]. Qed.

Lemma preserves_seconds {S} (I : S -> Prop) : preserves I secondsSinceEpoch.
Proof. intros c s a' c' s' HI H. inv_run H. assumption. Qed.

Lemma preserves_forM {S A} (I : S -> Prop) (l : list A) body :
  (forall x, preserves I (body x)) -> preserves I (forM l body).
Proof.
  intros Hb. induction l as [|x l IH]; cbn [forM]; [apply preserves_ret|].
  apply preserves_bind; auto.
Qed.

Lemma preserves_zoom {S T A} (I : S -> Prop) (proj : S -> T) upd (m : M T A) :
  (forall t s, I s -> I (upd t s)) -> preserves I (zoom proj upd m).
Proof. intros Hu c s a c' s' HI H. unfold zoom in H. case_match; simplify_eq. auto. Qed.

Definition sim_at {S T A} (R : S -> T -> Prop) (o1 : outcome S A) (o2 : outcome T A) : Prop :=
  match o1, o2 with
  | Done a1 c1 s1, Done a2 c2 s2 => a1 = a2 /\ c1 = c2 /\ R s1 s2
  | Stop f1, Stop f2 => f1 = f2
  | _, _ => False
  end.

Definition sim {S T A} (R : S -> T -> Prop) (m1 : M S A) (m2 : M T A) : Prop :=
  forall c s t, R s t -> sim_at R (m1 c s) (m2 c t).

Lemma sim_ret {S T A} (R : S -> T -> Prop) (a : A) : sim R (ret a) (ret a).
Proof. intros c s t HR. cbn. auto. Qed.

Lemma sim_stop {S T A} (R : S -> T -> Prop) f : sim R (stop (A := A) f) (stop f).
Proof. intros c s t HR. cbn. auto. Qed.

Lemma sim_assert {S T} (R : S -> T -> Prop) b : sim R (assert_ b) (assert_ b).
Proof. destruct b; [apply sim_ret | apply sim_stop]. Qed.

Lemma sim_modify {S T} (R : S -> T -> Prop) f g :
  (forall s t, R s t -> R (f s) (g t)) -> sim R (modify f) (modify g).
Proof. intros H c s t HR. cbn. auto. Qed.

Lemma sim_bind {S T A B} (R : S -> T -> Prop) (m1 : M S A) (m2 : M T A)
    (k1 : A -> M S B) (k2 : A -> M T B) :
  sim R m1 m2 -> (forall a, sim R (k1 a) (k2 a)) -> sim R (bind m1 k1) (bind m2 k2).
Proof.
  intros Hm Hk c s t HR. specialize (Hm c s t HR). unfold bind, sim_at in *.
  destruct (m1 c s) as [a1 c1 s1|f1], (m2 c t) as [a2 c2 s2|f2]; try done.
  destruct Hm as (-> & -> & HR'). apply Hk, HR'.
Qed.

Lemma sim_forM {S T A} (R : S -> T -> Prop) (l : list A) b1 b2 :
  (forall x, sim R (b1 x) (b2 x)) -> sim R (forM l b1) (forM l b2).
Proof.
  intros Hb. induction l as [|x l IH]; cbn [forM]; [apply sim_ret|].
  apply sim_bind; auto.
Qed.

Create HintDb goblin.
Create Rewrite HintDb goblin.

#[export] Hint Resolve u64_range u32_range : goblin.
#[export] Hint Resolve preserves_ret preserves_get preserves_stop preserves_bind
  preserves_assert preserves_seconds preserves_forM : goblin.
#[export] Hint Resolve sim_ret sim_stop sim_assert sim_bind sim_forM : goblin.
#[export] Hint Rewrite @lookup_insert_eq @lookup_delete_eq @lookup_empty
  u64_small u32_small using (solve [auto with goblin]) : goblin.

(** ** Decimal text *)

(** [std::to_string] *)
Definition to_string (z : Z) : string := pretty z.

#[global] Instance to_string_inj : Inj (=) (=) to_string.
Proof. apply _. Qed.

(** ** Reading decimal text

    [std::stoull]: white space, a sign, then the longest run of digits; it throws
    when there is no digit or the value does not fit. *)

Definition digit (a : Ascii.ascii) : option Z :=
  let n := Z.of_N (Ascii.N_of_ascii a) in
  if bool_decide (48 <= n <= 57) then Some (n - 48) else None.

Definition is_space (a : Ascii.ascii) : bool :=
  let n := Z.of_N (Ascii.N_of_ascii a) in bool_decide (n = 32 \/ 9 <= n <= 13).

Fixpoint read_digits (acc : Z) (s : string) : Z :=
  match s with
  | String a s => match digit a with Some d => read_digits (10 * acc + d) s | None => acc end
  | EmptyString => acc
  end.

Definition read_number (s : string) : option Z :=
  match s with
  | String a _ => match digit a with Some _ => Some (read_digits 0 s) | None => None end
  | EmptyString => None
  end.

Fixpoint skip_spaces (s : string) : string :=
  match s with
  | String a s' => if is_space a then skip_spaces s' else s
  | EmptyString => EmptyString
  end.

(** A minus sign negates modulo [2^64]. *)
Definition stoull (s : string) : option Z :=
  let '(neg, s) := match skip_spaces s with
                   | String "-"%char s => (true, s)
                   | String "+"%char s => (false, s)
                   | s => (false, s)
                   end in
  n ← read_number s;
  if bool_decide (n < 2 ^ 64) then Some (if (neg : bool) then u64 (- n) else n) else None.

Lemma digit_pretty d : (d < 10)%N -> digit (pretty_N_char d) = Some (Z.of_N d).
Proof.
  intros Hd. assert (d = 0 \/ d = 1 \/ d = 2 \/ d = 3 \/ d = 4 \/ d = 5 \/ d = 6 \/ d = 7
    \/ d = 8 \/ d = 9)%N as H by lia.
  repeat (destruct H as [->|H]; [reflexivity|]). by subst.
Qed.

(** Decimal text starts with a digit and reads back as the number. *)
Lemma read_pretty_go x s :
  read_digits 0 (pretty_N_go x s) = read_digits (Z.of_N x) s /\
  ((0 < x)%N -> exists a s' d, pretty_N_go x s = String a s' /\ digit a = Some d).
Proof.
  revert s. induction (N.lt_wf_0 x) as [x _ IH]; intros s.
  assert (x = 0 \/ 0 < x)%N as [->|Hx] by lia.
  { split; [by rewrite pretty_N_go_0 | lia]. }
  assert (x `mod` 10 < 10)%N as Hm by (apply N.mod_lt; lia).
  rewrite pretty_N_go_step by done.
  destruct (IH (x `div` 10)%N ltac:(by apply N.div_lt) (String (pretty_N_char (x `mod` 10)) s))
    as [IH1 IH2]. split.
  - rewrite IH1. cbn [read_digits]. rewrite digit_pretty by done. f_equal.
    pose proof (N.div_mod x 10 ltac:(lia)). lia.
  - intros _. destruct (N.eq_0_gt_0_cases (x `div` 10)%N) as [Hz|Hz]; [|auto].
    rewrite Hz, pretty_N_go_0. eexists _, _, _. split; [reflexivity|]. by apply digit_pretty.
Qed.

Lemma digit_not_space a d : digit a = Some d -> is_space a = false /\ a <> "-"%char /\ a <> "+"%char.
Proof.
  unfold digit, is_space. case_bool_decide as H; [|discriminate]. intros _. split_and!.
  - apply bool_decide_eq_false. lia.
  - intros ->. cbn in H. lia.
  - intros ->. cbn in H. lia.
Qed.

(** Decimal text is a run of digits. *)
Lemma to_string_shape n :
  0 <= n -> exists a s d, to_string n = String a s /\ digit a = Some d /\ read_digits 0 (String a s) = n.
Proof.
  intros Hn. unfold to_string. destruct n as [|p|p]; [| |lia].
  - eexists _, _, _. split_and!; reflexivity.
  - change (pretty (Z.pos p)) with (pretty_N_go (N.pos p) "").
    destruct (read_pretty_go (N.pos p) "") as [H1 H2]. destruct H2 as (a & s & d & Hs & Hd); [lia|].
    exists a, s, d. split_and!; [done|done|]. by rewrite <- Hs, H1.
Qed.

Lemma string_app_assoc a b c : (a +:+ b) +:+ c = a +:+ (b +:+ c).
Proof. induction a as [|x a IH]; [done|]. change (String x ((a +:+ b) +:+ c) = String x (a +:+ (b +:+ c))). by rewrite IH. Qed.

Lemma string_app_nil_r s : s +:+ "" = s.
Proof. induction s as [|a s IH]; [done|]. change (String a (s +:+ "") = String a s). by rewrite IH. Qed.

(** Whether every character is a digit. *)
Fixpoint all_digits (s : string) : bool :=
  match s with EmptyString => true | String a s => bool_decide (is_Some (digit a)) && all_digits s end.

Lemma pretty_go_digits x s : all_digits s = true -> all_digits (pretty_N_go x s) = true.
Proof.
  revert s. induction (N.lt_wf_0 x) as [x _ IH]; intros s Hs. assert (x = 0 \/ 0 < x)%N as [->|Hx] by lia.
  { by rewrite pretty_N_go_0. }
  rewrite pretty_N_go_step by done. apply IH; [by apply N.div_lt|]. cbn. rewrite Hs, digit_pretty by (apply N.mod_lt; lia).
  by rewrite bool_decide_eq_true_2 by done.
Qed.

Lemma to_string_digits n : 0 <= n -> all_digits (to_string n) = true.
Proof. intros Hn. unfold to_string. destruct n as [|p|p]; [done| |lia]. by apply pretty_go_digits. Qed.

(** [std::stoull(std::to_string(n)) == n] *)
Lemma stoull_to_string n : is_u64 n -> stoull (to_string n) = Some n.
Proof.
  intros Hn. destruct (to_string_shape n ltac:(apply Hn)) as (a & s & d & -> & Ha & Hr).
  destruct (digit_not_space a d Ha) as (Hsp & Hm & Hp).
  assert (stoull (String a s) =
    (n ← read_number (String a s); if bool_decide (n < 2 ^ 64) then Some n else None)) as ->.
  { unfold stoull. cbn [skip_spaces]. rewrite Hsp.
    destruct a as [[] [] [] [] [] [] [] []]; (reflexivity || by destruct Hm || by destruct Hp). }
  unfold read_number. rewrite Ha, Hr. cbn. unfold is_u64 in Hn.
  by rewrite bool_decide_eq_true_2 by lia.
Qed.

(** [std::stoi]: an [int], or an exception. *)
Definition stoi (s : string) : option Z :=
  let '(neg, s) := match skip_spaces s with
                   | String "-"%char s => (true, s)
                   | String "+"%char s => (false, s)
                   | s => (false, s)
                   end in
  n ← read_number s;
  let n := if (neg : bool) then - n else n in
  if bool_decide (- 2 ^ 31 <= n < 2 ^ 31) then Some n else None.

Lemma stoi_to_string n :
  0 <= n -> stoi (to_string n) = if bool_decide (n < 2 ^ 31) then Some n else None.
Proof.
  intros Hn. destruct (to_string_shape n Hn) as (a & s & d & -> & Ha & Hr).
  destruct (digit_not_space a d Ha) as (Hsp & Hm & Hp).
  assert (stoi (String a s) =
    (n ← read_number (String a s); if bool_decide (- 2 ^ 31 <= n < 2 ^ 31) then Some n else None)) as ->.
  { unfold stoi. cbn [skip_spaces]. rewrite Hsp.
    destruct a as [[] [] [] [] [] [] [] []]; (reflexivity || by destruct Hm || by destruct Hp). }
  unfold read_number. rewrite Ha, Hr. cbn. rewrite (bool_decide_ext (- 2 ^ 31 <= n < 2 ^ 31) (n < 2 ^ 31)) by lia.
  done.
Qed.

(** ** Ordered sets of strings

    A [std::set<std::string>] is the list of its elements in increasing order:
    what iterating over it yields. *)

Fixpoint set_insert (x : string) (l : list string) : list string :=
  match l with
  | [] => [x]
  | y :: l' => match String.compare x y with
               | Lt => x :: l
               | Eq => l
               | Gt => y :: set_insert x l'
               end
  end.

Definition set_of_list (l : list string) : list string :=
  fold_left (fun acc x => set_insert x acc) l [].

Lemma elem_of_set_insert x y l : y ∈ set_insert x l <-> y = x \/ y ∈ l.
Proof.
  induction l as [|z l IH]; cbn; [set_solver|].
  destruct (String.compare x z) eqn:E; [|set_solver|set_solver].
  apply String.compare_eq_iff in E. set_solver.
Qed.

Lemma length_set_insert x l : (length (set_insert x l) <= S (length l))%nat.
Proof. induction l as [|y l IH]; cbn; [lia|]. destruct (String.compare x y); cbn; lia. Qed.

Lemma elem_of_set_of_list_acc l acc x :
  x ∈ fold_left (fun acc x => set_insert x acc) l acc <-> x ∈ l \/ x ∈ acc.
Proof.
  revert acc. induction l as [|y l IH]; intros acc; cbn; [set_solver|].
  rewrite IH, elem_of_set_insert. set_solver.
Qed.

Lemma elem_of_set_of_list l x : x ∈ set_of_list l <-> x ∈ l.
Proof. unfold set_of_list. rewrite elem_of_set_of_list_acc. set_solver. Qed.

(** The order of the elements. *)
Definition string_lt (x y : string) : Prop := String.compare x y = Lt.

Lemma string_compare_refl x : String.compare x x = Eq.
Proof.
  induction x as [|a x IH]; cbn; [done|]. unfold Ascii.compare. by rewrite N.compare_refl.
Qed.

#[global] Instance string_lt_strict : StrictOrder string_lt.
Proof.
  unfold string_lt. split.
  - intros x H. rewrite string_compare_refl in H. discriminate.
  - intros x y z Hxy Hyz.
    assert (String.le x z) as Hxz.
    { trans y; unfold String.le, String.leb; [rewrite Hxy | rewrite Hyz]; done. }
    unfold String.le, String.leb in Hxz.
    destruct (String.compare x z) eqn:E; [|done|done].
    apply String.compare_eq_iff in E as <-.
    rewrite String.compare_antisym, Hxy in Hyz. discriminate.
Qed.

#[global] Instance string_lt_dec : RelDecision string_lt.
Proof.
  intros x y. unfold string_lt, Decision. destruct (String.compare x y); [right|left|right]; congruence.
Defined.

Lemma string_gt_lt x y : String.compare x y = Gt -> string_lt y x.
Proof. unfold string_lt. rewrite String.compare_antisym. by destruct (String.compare y x). Qed.

Lemma StronglySorted_NoDup {A} (R : A -> A -> Prop) `{!Irreflexive R} l :
  StronglySorted R l -> NoDup l.
Proof.
  induction 1 as [|x l _ IH Hf]; constructor; [|done]. rewrite Forall_forall in Hf.
  intros Hx. by apply (irreflexivity R x), Hf.
Qed.

(** A sorted list is known by its elements. *)
Lemma StronglySorted_ext {A} (R : A -> A -> Prop) `{!StrictOrder R} l1 l2 :
  StronglySorted R l1 -> StronglySorted R l2 -> (forall x, x ∈ l1 <-> x ∈ l2) -> l1 = l2.
Proof.
  intros H1 H2 Hx. assert (AntiSymm (=) R).
  { intros x y Hxy Hyx. exfalso. apply (irreflexivity R x). by transitivity y. }
  apply (StronglySorted_unique R); [done|done|].
  apply NoDup_Permutation; [by apply (StronglySorted_NoDup R)..|done].
Qed.

Lemma set_insert_sorted x l : StronglySorted string_lt l -> StronglySorted string_lt (set_insert x l).
Proof.
  induction 1 as [|y l Hs IH Hf]; cbn; [repeat constructor|].
  destruct (String.compare x y) eqn:E; [by constructor| |].
  - constructor; [by constructor|]. constructor; [done|].
    eapply Forall_impl; [exact Hf|]. intros z Hz. by etransitivity.
  - constructor; [done|]. apply Forall_forall. rewrite Forall_forall in Hf.
    intros z [->|Hz]%elem_of_set_insert; [by apply string_gt_lt | auto].
Qed.

Lemma set_of_list_sorted l : StronglySorted string_lt (set_of_list l).
Proof.
  unfold set_of_list. generalize (SSorted_nil string_lt). generalize (@nil string).
  induction l as [|x l IH]; intros acc H; cbn; [done|]. apply IH, set_insert_sorted, H.
Qed.

Lemma set_of_list_NoDup l : NoDup (set_of_list l).
Proof. apply (StronglySorted_NoDup string_lt), set_of_list_sorted. Qed.

(** [std::max] *)
Lemma max_least a b c : a <= c -> b <= c -> Z.max a b <= c.
Proof. lia. Qed.

(** ** Lists *)

Lemma filter_fmap {A B} (f : A -> B) (P : A -> Prop) (Q : B -> Prop)
    `{!forall x, Decision (P x)} `{!forall x, Decision (Q x)} (l : list A) :
  (forall x, x ∈ l -> P x <-> Q (f x)) -> filter Q (f <$> l) = f <$> filter P l.
Proof.
  induction l as [|x l IH]; intros HPQ; [done|]. cbn [fmap list_fmap].
  rewrite !filter_cons, (decide_ext (P x) (Q (f x))) by (apply HPQ; by left).
  rewrite IH by (intros y Hy; apply HPQ; by right). by destruct (decide (Q (f x))).
Qed.

Lemma filter_none {A} (P : A -> Prop) `{!forall x, Decision (P x)} (l : list A) :
  Forall (fun x => ~ P x) l -> filter P l = [].
Proof. induction 1 as [|x l Hx _ IH]; [done|]. by rewrite filter_cons, decide_False. Qed.

Lemma NoDup_fmap_elem {A B} (f : A -> B) (l : list A) x y :
  NoDup (f <$> l) -> x ∈ l -> y ∈ l -> f x = f y -> x = y.
Proof.
  intros Hnd Hx Hy Hf. apply list_elem_of_lookup in Hx as [i Hi]. apply list_elem_of_lookup in Hy as [j Hj].
  assert (i = j) as ->; [|congruence].
  eapply NoDup_lookup; [done| |]; rewrite list_lookup_fmap; [by rewrite Hi|by rewrite Hj, Hf].
Qed.

Lemma forM_app {S A} (l1 l2 : list A) (body : A -> M S unit) c s :
  forM (l1 ++ l2) body c s = (forM l1 body ;;; forM l2 body) c s.
Proof.
  revert c s. induction l1 as [|x l1 IH]; intros c s; cbn [app forM]; [by run|].
  run. destruct (body x c s); [|done]. specialize (IH c0 s0). run_in IH. by rewrite IH.
Qed.

(** ** Text *)

Lemma substring_all (s : string) : String.substring 0 (String.length s) s = s.
Proof. induction s as [|a s IH]; [done|]. cbn. by rewrite IH. Qed.
