(* ===== verification/OrderedMap.v ===== *)
(** * Ordered maps

    [std::map<K, V>]: the association list of its entries in increasing order of
    their keys, which is what iterating over it yields. Used where the order of the
    iteration shows (the generate command, the hash ring); maps that are only
    looked up are [gmap]s. *)

From S2P Require Import Prelude.

(** The order [std::less] of a key type. *)
Class KeyOrder (K : Type) := {
  compare_keys : K -> K -> comparison;
  compare_keys_eq x y : compare_keys x y = Eq <-> x = y;
  compare_keys_antisym x y : compare_keys y x = CompOpp (compare_keys x y);
  compare_keys_trans x y z : compare_keys x y = Lt -> compare_keys y z = Lt -> compare_keys x z = Lt;
}.

#[global] Instance string_KeyOrder : KeyOrder string.
Proof.
  refine {| compare_keys := String.compare |}.
  - intros x y. split; [apply String.compare_eq_iff|intros ->; apply string_compare_refl].
  - intros x y. apply String.compare_antisym.
  - intros x y z. apply (transitivity (R := string_lt)).
Defined.

#[global] Instance Z_KeyOrder : KeyOrder Z.
Proof.
  refine {| compare_keys := Z.compare |}.
  - apply Z.compare_eq_iff.
  - intros x y. apply Z.compare_antisym.
  - intros x y z. rewrite !Z.compare_lt_iff. lia.
Defined.

Abbreviation OMap K V := (list (K * V)) (only parsing).

Section OrderedMap.
Context {K V : Type} `{!KeyOrder K}.
Implicit Types (m : OMap K V) (k : K) (v : V).

Definition key_lt (x y : K) : Prop := compare_keys x y = Lt.

#[global] Instance key_lt_strict : StrictOrder key_lt.
Proof.
  split; [|intros x y z; apply compare_keys_trans].
  intros x H. unfold key_lt in H. assert (compare_keys x x = Eq) as E by (by apply compare_keys_eq). congruence.
Qed.

(** [m.find(k)] *)
Fixpoint omap_find (k : K) (m : OMap K V) : option V :=
  match m with
  | [] => None
  | (k', v) :: m => match compare_keys k k' with
                    | Eq => Some v
                    | _ => omap_find k m
                    end
  end.

(** [m[k] = v] *)
Fixpoint omap_put (k : K) (v : V) (m : OMap K V) : OMap K V :=
  match m with
  | [] => [(k, v)]
  | (k', v') :: m' => match compare_keys k k' with
                      | Lt => (k, v) :: m
                      | Eq => (k', v) :: m'
                      | Gt => (k', v') :: omap_put k v m'
                      end
  end.

(** [m.insert({k, v})]: an entry that is there stays. *)
Definition omap_insert (k : K) (v : V) (m : OMap K V) : OMap K V :=
  match omap_find k m with
  | Some _ => m
  | None => omap_put k v m
  end.

Definition omap_sorted m : Prop := StronglySorted key_lt m.*1.

Lemma key_gt_lt x y : compare_keys x y = Gt -> key_lt y x.
Proof. unfold key_lt. rewrite (compare_keys_antisym x y). by intros ->. Qed.

Lemma compare_keys_refl x : compare_keys x x = Eq.
Proof. by apply compare_keys_eq. Qed.

Lemma elem_of_omap_put_keys x k v m : x ∈ (omap_put k v m).*1 <-> x = k \/ x ∈ m.*1.
Proof.
  induction m as [|[k' v'] m IH]; cbn; [set_solver|].
  destruct (compare_keys k k') eqn:E; cbn; [|set_solver|set_solver].
  apply compare_keys_eq in E. set_solver.
Qed.

Lemma omap_put_sorted k v m : omap_sorted m -> omap_sorted (omap_put k v m).
Proof.
  unfold omap_sorted. induction m as [|[k' v'] m IH]; cbn; intros Hs; [repeat constructor|].
  inversion Hs as [|? ? Hs' Hf]; subst. destruct (compare_keys k k') eqn:E; cbn; [done| |].
  - constructor; [done|]. constructor; [done|]. eapply Forall_impl; [exact Hf|]. intros z Hz. by etransitivity.
  - constructor; [by apply IH|]. apply Forall_forall. rewrite Forall_forall in Hf.
    intros z [->|Hz]%elem_of_omap_put_keys; [by apply key_gt_lt|auto].
Qed.

Lemma omap_find_put k v m x :
  omap_find x (omap_put k v m) = match compare_keys x k with Eq => Some v | _ => omap_find x m end.
Proof.
  induction m as [|[k' v'] m IH]; cbn; [done|].
  destruct (compare_keys k k') eqn:E; cbn; [|done|].
  - apply compare_keys_eq in E as <-. by destruct (compare_keys x k).
  - rewrite IH. destruct (compare_keys x k') eqn:E1, (compare_keys x k) eqn:E2; try done.
    apply compare_keys_eq in E1 as ->. apply compare_keys_eq in E2 as ->.
    rewrite compare_keys_refl in E. discriminate.
Qed.

Lemma omap_find_put_eq k v m : omap_find k (omap_put k v m) = Some v.
Proof. by rewrite omap_find_put, compare_keys_refl. Qed.

Lemma omap_find_put_ne k v m x : x <> k -> omap_find x (omap_put k v m) = omap_find x m.
Proof.
  intros Hx. rewrite omap_find_put. destruct (compare_keys x k) eqn:E; try done.
  by apply compare_keys_eq in E.
Qed.

Lemma omap_find_Some k v m : omap_find k m = Some v -> (k, v) ∈ m.
Proof.
  induction m as [|[k' v'] m IH]; cbn; [done|]. destruct (compare_keys k k') eqn:E.
  - intros [= ->]. apply compare_keys_eq in E as ->. by left.
  - intros H. right. auto.
  - intros H. right. auto.
Qed.

Lemma omap_find_None k m : omap_find k m = None <-> k ∉ m.*1.
Proof.
  induction m as [|[k' v'] m IH]; cbn; [set_solver|].
  rewrite not_elem_of_cons. destruct (compare_keys k k') eqn:E.
  - apply compare_keys_eq in E. naive_solver.
  - rewrite IH. split; [|naive_solver]. intros H. split; [|done]. intros ->. by rewrite compare_keys_refl in E.
  - rewrite IH. split; [|naive_solver]. intros H. split; [|done]. intros ->. by rewrite compare_keys_refl in E.
Qed.

Lemma omap_sorted_NoDup m : omap_sorted m -> NoDup m.*1.
Proof. apply (StronglySorted_NoDup key_lt). Qed.

Lemma elem_of_omap k v m : omap_sorted m -> (k, v) ∈ m <-> omap_find k m = Some v.
Proof.
  intros Hs%omap_sorted_NoDup. split; [|apply omap_find_Some]. intros Hin.
  destruct (omap_find k m) as [v'|] eqn:E.
  - apply omap_find_Some in E. f_equal.
    assert ((k, v') = (k, v)) as [= ->] by (by eapply (NoDup_fmap_elem fst)). done.
  - apply omap_find_None in E. destruct E. by apply (list_elem_of_fmap_2 fst) in Hin.
Qed.

Lemma omap_insert_fresh k v m : omap_find k m = None -> omap_insert k v m = omap_put k v m.
Proof. unfold omap_insert. by intros ->. Qed.

Lemma elem_of_omap_put k v m x y :
  omap_sorted m -> (x, y) ∈ omap_put k v m <-> (x = k /\ y = v) \/ (x <> k /\ (x, y) ∈ m).
Proof.
  intros Hs. rewrite (elem_of_omap x y (omap_put k v m)) by (by apply omap_put_sorted).
  rewrite (elem_of_omap x y m) by done. rewrite omap_find_put.
  destruct (compare_keys x k) eqn:E; [apply compare_keys_eq in E as ->; naive_solver|..];
  (assert (x <> k) by (intros ->; by rewrite compare_keys_refl in E); naive_solver).
Qed.

Lemma omap_put_put k v v' m : omap_put k v (omap_put k v' m) = omap_put k v m.
Proof.
  induction m as [|[k' v0] m IH]; cbn; [by rewrite compare_keys_refl|].
  destruct (compare_keys k k') eqn:E; cbn; rewrite ?compare_keys_refl, ?E; [done|done|by rewrite IH].
Qed.

Lemma length_omap_put k v m : omap_find k m = None -> length (omap_put k v m) = S (length m).
Proof.
  induction m as [|[k' v'] m IH]; cbn; [done|]. destruct (compare_keys k k'); cbn; [done|done|].
  intros H. f_equal. auto.
Qed.

End OrderedMap.
