(* ===== verification/Utils.v ===== *)
(** * Small utilities

    Numbers and strings in binary files ([utils::FileUtil], kv-engine/utils/FileUtil.h) and text helpers
    ([utils::StrUtil], kv-engine/utils/StrUtil.h). *)

From Stdlib Require Import Ascii.
From S2P Require Import Prelude.

(** ** Binary files

    A file is the bytes that are to be read, or were written; [None] is the end of the process, by [exit] on a failed
    read or by a failed [assert]. *)

(** The bytes of a 64-bit number in the order of an x86_64. *)
Fixpoint le_bytes (n : nat) (v : Z) : string :=
  match n with
  | O => EmptyString
  | S n => String (ascii_of_N (Z.to_N (v mod 256))) (le_bytes n (v / 256))
  end.

Fixpoint of_le_bytes (s : string) : Z :=
  match s with
  | EmptyString => 0
  | String a s => Z.of_N (N_of_ascii a) + 256 * of_le_bytes s
  end.

(** [ifs.read(buffer, n); checkFileState(ifs)]: the next [n] bytes. *)
Fixpoint read_bytes (n : nat) (file : string) : option (string * string) :=
  match n, file with
  | O, _ => Some (EmptyString, file)
  | S n, String a file => '(s, rest) ← read_bytes n file; Some (String a s, rest)
  | S _, EmptyString => None
  end.

Definition writeUint64ToFile (file : string) (content : Z) : string := file +:+ le_bytes 8 content.

Definition readUint64FromFile (file : string) : option (Z * string) :=
  '(s, rest) ← read_bytes 8 file; Some (of_le_bytes s, rest).

Definition writeStrToFile (file content : string) : string :=
  writeUint64ToFile file (Z.of_nat (String.length content)) +:+ content.

(** [std::string(buffer.data())]: up to the first zero. *)
Fixpoint c_str (s : string) : string :=
  match s with
  | EmptyString => EmptyString
  | String a s => if bool_decide (a = zero) then EmptyString else String a (c_str s)
  end.

Definition readStrFromFile (file : string) : option (string * string) :=
  '(size, rest) ← readUint64FromFile file;
  if bool_decide (0 < size) then
    '(s, rest) ← read_bytes (Z.to_nat size) rest; Some (c_str s, rest)
  else None.

(** *** What was written is read *)

Lemma read_bytes_app s rest : read_bytes (String.length s) (s +:+ rest) = Some (s, rest).
Proof.
  induction s as [|a s IH]; [done|]. change (String a s +:+ rest) with (String a (s +:+ rest)). cbn [String.length read_bytes].
  by rewrite IH.
Qed.

Lemma le_bytes_length n v : String.length (le_bytes n v) = n.
Proof. revert v. induction n as [|n IH]; intros v; [done|]. cbn. by rewrite IH. Qed.

Lemma of_le_bytes_le n v : 0 <= v < 256 ^ Z.of_nat n -> of_le_bytes (le_bytes n v) = v.
Proof.
  revert v. induction n as [|n IH]; intros v Hv; [cbn in *; lia|]. cbn [le_bytes of_le_bytes].
  pose proof (Z.mod_pos_bound v 256 ltac:(lia)). rewrite N_ascii_embedding by lia. rewrite Z2N.id by lia.
  rewrite IH; [pose proof (Z.div_mod v 256 ltac:(lia)); lia|].
  rewrite Nat2Z.inj_succ, Z.pow_succ_r in Hv by lia. split; [apply Z.div_pos; lia|]. apply Z.div_lt_upper_bound; lia.
Qed.

Lemma uint64_roundtrip v rest : is_u64 v -> readUint64FromFile (le_bytes 8 v +:+ rest) = Some (v, rest).
Proof.
  intros Hv. unfold readUint64FromFile. pose proof (read_bytes_app (le_bytes 8 v) rest) as H. rewrite le_bytes_length in H. rewrite H.
  cbn -[le_bytes of_le_bytes]. by rewrite of_le_bytes_le.
Qed.

(** Whether a string has a zero. *)
Fixpoint has_zero (s : string) : bool :=
  match s with EmptyString => false | String a s => bool_decide (a = zero) || has_zero s end.

Lemma c_str_plain s : has_zero s = false -> c_str s = s.
Proof. induction s as [|a s IH]; [done|]. cbn. case_bool_decide; [done|]. cbn. intros Hz. by rewrite IH. Qed.

(** Strings written one after the other are read back in order, as long as each has characters and none of them is
    zero. *)
Theorem strings_roundtrip l file rest :
  Forall (fun s => s <> "" /\ has_zero s = false /\ is_u64 (Z.of_nat (String.length s))) l ->
  exists bytes, foldl writeStrToFile file l = file +:+ bytes /\
  forall k s, l !! k = Some s ->
  exists before after, foldl writeStrToFile "" (take k l) = before /\ bytes +:+ rest = before +:+ after /\
    exists after', readStrFromFile after = Some (s, after').
Proof.
  intros Hl. assert (forall l f, foldl writeStrToFile f l = f +:+ foldl writeStrToFile "" l) as Hsplit.
  { clear. induction l as [|s l IH]; intros f; [cbn; by rewrite string_app_nil_r|]. cbn [foldl]. rewrite IH, (IH (writeStrToFile "" s)).
    unfold writeStrToFile, writeUint64ToFile. by rewrite !string_app_assoc. }
  exists (foldl writeStrToFile "" l). split; [apply Hsplit|]. intros k s Hk.
  exists (foldl writeStrToFile "" (take k l)), (foldl writeStrToFile "" (drop k l) +:+ rest). split; [done|]. split.
  - rewrite <- string_app_assoc, <- Hsplit, <- foldl_app, take_drop. done.
  - rewrite (drop_S _ _ _ Hk). cbn [foldl]. rewrite Hsplit. exists (foldl writeStrToFile "" (drop (S k) l) +:+ rest).
    rewrite Forall_lookup in Hl. destruct (Hl k s Hk) as (Hne & Hz & Hu). unfold readStrFromFile, writeStrToFile, writeUint64ToFile.
    rewrite !string_app_assoc. change ("" +:+ ?x) with x. rewrite uint64_roundtrip by done. cbn -[read_bytes].
    rewrite bool_decide_eq_true_2 by (destruct s; [done|cbn; lia]). rewrite Nat2Z.id, read_bytes_app. cbn. by rewrite c_str_plain.
Qed.

(** A string with a zero is cut there, although the comment allows for zeros; and an empty string ends the process. *)
Theorem zero_cuts_string : readStrFromFile (writeStrToFile "" (String "a" (String zero "b"))) = Some ("a", "") /\
  readStrFromFile (writeStrToFile "" "") = None.
Proof. split; vm_compute; reflexivity. Qed.

(** ** Text *)

(** [str.find(delim, start)]: what comes before, and what is left from there. *)
Fixpoint break_at (delim : ascii) (s : string) : string * string :=
  match s with
  | String a s' => if bool_decide (a = delim) then (EmptyString, s) else let '(t, rest) := break_at delim s' in (String a t, rest)
  | EmptyString => (EmptyString, EmptyString)
  end.

(** [std::regex_replace(temp, std::regex("\n"), "")] *)
Fixpoint drop_newlines (s : string) : string :=
  match s with
  | EmptyString => EmptyString
  | String c s => if bool_decide (c = "010"%char) then drop_newlines s else String c (drop_newlines s)
  end.

(** [tokenize]: the maximal runs of characters other than [delim], without their
    newlines. [cur] is the run being read. *)
Fixpoint tokenize_from (delim : ascii) (cur s : string) : list string :=
  match s with
  | EmptyString => if bool_decide (cur = "") then [] else [drop_newlines cur]
  | String c s =>
      if bool_decide (c = delim) then
        if bool_decide (cur = "") then tokenize_from delim "" s
        else drop_newlines cur :: tokenize_from delim "" s
      else tokenize_from delim (cur +:+ String c "") s
  end.

Definition tokenize (str : string) (delim : ascii) : list string := tokenize_from delim "" str.

(** [StrUtil::endsWith] *)
Definition endsWith (str suffix : string) : bool :=
  (bool_decide (String.length suffix <= String.length str)%nat &&
   bool_decide (String.substring (String.length str - String.length suffix) (String.length suffix) str = suffix))%bool.

Definition hex_digit (n : N) : ascii := ascii_of_N (if bool_decide (n < 10)%N then 48 + n else 87 + n).

(** [StrUtil::hexStr] *)
Fixpoint hexStr (str : string) : string :=
  match str with
  | EmptyString => EmptyString
  | String a str => String (hex_digit (N.shiftr (N_of_ascii a) 4)) (String (hex_digit (N.land (N_of_ascii a) 15)) (hexStr str))
  end.

Lemma hex_digit_inj m n : (m < 16)%N -> (n < 16)%N -> hex_digit m = hex_digit n -> m = n.
Proof.
  intros Hm Hn H. apply (f_equal N_of_ascii) in H. unfold hex_digit in H.
  do 2 case_bool_decide; rewrite N_ascii_embedding in H by lia; rewrite N_ascii_embedding in H by lia; lia.
Qed.

(** The two digits of a byte. *)
Lemma byte_digits a : (N.shiftr (N_of_ascii a) 4 < 16)%N /\ (N.land (N_of_ascii a) 15 < 16)%N /\
  N_of_ascii a = (16 * N.shiftr (N_of_ascii a) 4 + N.land (N_of_ascii a) 15)%N.
Proof.
  pose proof (N_ascii_bounded a) as Hb. rewrite N.shiftr_div_pow2. change 15%N with (N.ones 4). rewrite N.land_ones. cbn.
  pose proof (N.div_mod (N_of_ascii a) 16 ltac:(lia)). pose proof (N.mod_lt (N_of_ascii a) 16 ltac:(lia)).
  split_and!; [apply N.Div0.div_lt_upper_bound; lia|done|done].
Qed.

(** Different strings have different texts. *)
Theorem hexStr_inj s t : hexStr s = hexStr t -> s = t.
Proof.
  revert t. induction s as [|a s IH]; intros [|b t] H; [done|done|done|]. cbn in H. injection H as H1 H2 H3.
  destruct (byte_digits a) as (Ha1 & Ha2 & Ha), (byte_digits b) as (Hb1 & Hb2 & Hb). apply hex_digit_inj in H1, H2; [|done..].
  rewrite (IH t H3). f_equal. rewrite <- (ascii_N_embedding a), <- (ascii_N_embedding b). congruence.
Qed.

(** *** What was joined is split *)

Fixpoint has_char (c : ascii) (s : string) : bool :=
  match s with EmptyString => false | String a s => bool_decide (a = c) || has_char c s end.

(** A text without delimiter and newline, of one character at least. *)
Definition token (delim : ascii) (s : string) : Prop := s <> "" /\ has_char delim s = false /\ has_char "010" s = false.

Lemma break_at_token delim s rest : has_char delim s = false -> (rest = "" \/ exists r, rest = String delim r) ->
  break_at delim (s +:+ rest) = (s, rest).
Proof.
  intros Hs Hr. induction s as [|a s IH].
  - change ("" +:+ rest) with rest. destruct Hr as [-> | [r ->]]; [done|]. cbn. by rewrite bool_decide_eq_true_2.
  - cbn in Hs. change (String a s +:+ rest) with (String a (s +:+ rest)). cbn. case_bool_decide; [done|]. by rewrite IH.
Qed.

Lemma drop_newlines_plain s : has_char "010" s = false -> drop_newlines s = s.
Proof. induction s as [|a s IH]; [done|]. cbn. case_bool_decide; [done|]. cbn. intros Hs. by rewrite IH. Qed.

Lemma tokenize_run delim h cur rest : has_char delim h = false -> tokenize_from delim cur (h +:+ rest) = tokenize_from delim (cur +:+ h) rest.
Proof.
  revert cur. induction h as [|a h IH]; intros cur Hh; [by rewrite string_app_nil_r|]. cbn in Hh. apply orb_false_iff in Hh as [Ha Hh].
  change (tokenize_from delim cur (String a (h +:+ rest)) = tokenize_from delim (cur +:+ String a h) rest). cbn [tokenize_from].
  rewrite Ha, IH by done. f_equal. by rewrite string_app_assoc.
Qed.

Theorem tokenize_concat delim l : Forall (token delim) l -> tokenize (String.concat (String delim "") l) delim = l.
Proof.
  unfold tokenize. induction l as [|s l IH]; [done|]. intros [(Hne & Hd & Hn) Hl]%Forall_cons. specialize (IH Hl).
  destruct l as [|t l].
  - cbn [String.concat]. rewrite <- (string_app_nil_r s), tokenize_run by done. cbn [tokenize_from].
    rewrite string_app_nil_r. change ("" +:+ s) with s. by rewrite bool_decide_eq_false_2, drop_newlines_plain.
  - change (String.concat (String delim "") (s :: t :: l)) with (s +:+ String delim (String.concat (String delim "") (t :: l))).
    rewrite tokenize_run by done. change ("" +:+ s) with s. cbn [tokenize_from].
    by rewrite (bool_decide_eq_true_2 (delim = delim)), bool_decide_eq_false_2, IH, drop_newlines_plain.
Qed.
