(* ===== verification/Files.v ===== *)
(** * Files

    [utils::FileUtil] (kv-engine/utils/FileUtil.h) on whole files, directories, descriptors and mapped memory; its binary format is in
    Utils.v. The file system is an interface, with what a crash of the machine may leave on the disk. *)

From Stdlib Require Import Ascii.
From S2P Require Import Prelude Utils.

(** ** The file system *)

Inductive Kind := RegularFile | Directory | OtherFile.

#[global] Instance Kind_eq_dec : EqDecision Kind.
Proof. solve_decision. Defined.

(** [fs_kind] is [stat]; [fs_create] opens a file for writing and empties it; [fs_write] appends to it and tells how many bytes were
    written, which are fewer when the disk is full; [fs_sync] is [fdatasync]; [fs_list] are the paths of a directory. What is found at a
    path after a crash is [after_crash], what is then in the file that is now there, under whatever name, [data_after_crash]. *)
Class FileSystem (F : Type) := {
  fs_kind : F -> string -> option Kind;
  fs_read : F -> string -> option string;
  fs_remove : string -> F -> option F;
  fs_create : string -> F -> option F;
  fs_write : string -> string -> F -> F * nat;
  fs_sync : string -> F -> option F;
  fs_rename : string -> string -> F -> option F;
  fs_list : F -> string -> list string;
  after_crash : F -> string -> option string -> Prop;
  data_after_crash : F -> string -> string -> Prop;
}.
#[global] Hint Mode FileSystem ! : typeclass_instances.

(** What POSIX promises of these calls: each is about its own path, [fdatasync] makes the contents durable, and [rename] is atomic: a crash
    leaves the old file or the new one. *)
Class FileSystemLaws (F : Type) `{!FileSystem F} := {
  create_read p (f f' : F) : fs_create p f = Some f' -> fs_read f' p = Some "";
  create_frame p q (f f' : F) o : fs_create p f = Some f' -> p <> q ->
    fs_read f' q = fs_read f q /\ (after_crash f' q o -> after_crash f q o);
  write_read p s (f f' : F) n old : fs_write p s f = (f', n) -> fs_read f p = Some old -> fs_read f' p = Some (old +:+ String.substring 0 n s);
  write_frame p q s (f f' : F) n o : fs_write p s f = (f', n) -> p <> q ->
    fs_read f' q = fs_read f q /\ (after_crash f' q o -> after_crash f q o);
  sync_read p (f f' : F) : fs_sync p f = Some f' -> forall q, fs_read f' q = fs_read f q;
  sync_frame p q (f f' : F) o : fs_sync p f = Some f' -> p <> q -> after_crash f' q o -> after_crash f q o;
  sync_durable p (f f' : F) s : fs_sync p f = Some f' -> data_after_crash f' p s -> fs_read f' p = Some s;
  rename_read p q (f f' : F) : fs_rename p q f = Some f' -> p <> q -> fs_read f' q = fs_read f p;
  rename_crash p q (f f' : F) o : fs_rename p q f = Some f' -> p <> q -> after_crash f' q o ->
    after_crash f q o \/ exists s, o = Some s /\ data_after_crash f p s;
}.
#[global] Hint Mode FileSystemLaws ! - : typeclass_instances.

Section FileUtil.
Context {F : Type} `{!FileSystem F}.

Definition fileExists (fileName : string) : M F bool :=
  let* f := get in ret (bool_decide (is_Some (fs_kind f fileName))).

Definition deleteFile (fileName : string) : M F bool :=
  let* f := get in
  match fs_remove fileName f with
  | None => ret false
  | Some f => put f ;;; ret true
  end.

(** [getFileContent]; [None] is the exception. *)
Definition getFileContent (fileName : string) : M F (option string) :=
  let* f := get in ret (fs_read f fileName).

(** [setFileContent]; nothing looks at the stream after the write. [false] is the exception. *)
Definition setFileContent (fileName content : string) : M F bool :=
  let* f := get in
  match fs_create fileName f with
  | None => ret false
  | Some f => put (fs_write fileName content f).1 ;;; ret true
  end.

(** [setFileContentWithSync] as the calls it makes, in order; nothing looks at the stream after the write. *)
Inductive Call := Create (p : string) | Write (p s : string) | Sync (p : string) | Rename (p q : string).

Definition tmp_of (fileName : string) : string := fileName +:+ ".tmp".

Definition replacement (fileName content : string) : list Call :=
  let tmpFileName := tmp_of fileName in
  [Create tmpFileName; Write tmpFileName content; Sync tmpFileName; Rename tmpFileName fileName].

(** Opening throws when it fails, the other two are asserted. *)
Definition perform (c : Call) : M F unit :=
  let* f := get in
  match c with
  | Create p => match fs_create p f with Some f => put f | None => stop Uncaught end
  | Write p s => put (fs_write p s f).1
  | Sync p => match fs_sync p f with Some f => put f | None => stop AssertFail end
  | Rename p q => match fs_rename p q f with Some f => put f | None => stop AssertFail end
  end.

Definition setFileContentWithSync (fileName content : string) : M F unit := forM (replacement fileName content) perform.

(** [listFiles] and [listDirs] *)
Definition list_kind (k : Kind) (dir : string) : M F (list string) :=
  let* f := get in
  if bool_decide (fs_kind f dir = Some Directory) then ret (filter (fun p => fs_kind f p = Some k) (fs_list f dir)) else ret [].
Definition listFiles (dir : string) : M F (list string) := list_kind RegularFile dir.
Definition listDirs (dir : string) : M F (list string) := list_kind Directory dir.

(** ** Replacing a file *)

Context `{!FileSystemLaws F}.

Lemma tmp_ne fileName : tmp_of fileName <> fileName.
Proof.
  unfold tmp_of. intros E. apply (f_equal String.length) in E. induction fileName as [|a s IH]; [done|]. cbn in E. apply IH. by injection E.
Qed.

(** Every byte of the contents is written. *)
Definition disk_has_room (fileName content : string) (f : F) : Prop :=
  forall f1, fs_create (tmp_of fileName) f = Some f1 -> (fs_write (tmp_of fileName) content f1).2 = String.length content.

(** The states the calls leave, one after the other. *)
Lemma replacement_states fileName content k c f u c' f' :
  forM (take k (replacement fileName content)) perform c f = Done u c' f' -> disk_has_room fileName content f ->
  (forall o, after_crash f' fileName o -> after_crash f fileName o \/ o = Some content) /\
  ((4 <= k)%nat -> fs_read f' fileName = Some content).
Proof.
  intros H Hroom. pose proof (tmp_ne fileName) as Hne. unfold replacement in H. set (tmp := tmp_of fileName) in *.
  destruct k as [|k]; [run_in H; injection H as <- <- <-; split; [by left|lia]|]. cbn [take forM] in H. unfold perform in H at 1. run_in H.
  destruct (fs_create tmp f) as [f1|] eqn:E1; [|done]. run_in H. pose proof (fun o => proj2 (create_frame _ _ _ _ o E1 Hne)) as C1.
  destruct k as [|k]; [injection H as <- <- <-; split; [by left; apply C1|lia]|]. cbn [take forM] in H. unfold perform in H at 1. run_in H.
  destruct (fs_write tmp content f1) as [f2 n] eqn:E2. cbn in H. pose proof (fun o => proj2 (write_frame _ _ _ _ _ _ o E2 Hne)) as C2.
  pose proof (Hroom f1 E1) as Hn. fold tmp in Hn. rewrite E2 in Hn. cbn in Hn. pose proof (write_read _ _ _ _ _ _ E2 (create_read _ _ _ E1)) as R2.
  rewrite Hn, substring_all in R2. change ("" +:+ content) with content in R2.
  destruct k as [|k]; [injection H as <- <- <-; split; [left; by apply C1, C2|lia]|]. cbn [take forM] in H. unfold perform in H at 1. run_in H.
  destruct (fs_sync tmp f2) as [f3|] eqn:E3; [|done]. run_in H. pose proof (fun o => sync_frame _ _ _ _ o E3 Hne) as C3.
  destruct k as [|k]; [injection H as <- <- <-; split; [left; by apply C1, C2, C3|lia]|]. cbn [take forM] in H. unfold perform in H at 1. run_in H.
  destruct (fs_rename tmp fileName f3) as [f4|] eqn:E4; [|done]. run_in H. replace (take k []) with (@nil Call) in H by (by destruct k).
  injection H as <- <- <-. pose proof (sync_read _ _ _ E3 tmp) as R3. rewrite R2 in R3. split.
  - intros o Ho. destruct (rename_crash _ _ _ _ _ E4 Hne Ho) as [Hold|(s & -> & Hs)]; [left; by apply C1, C2, C3|right].
    apply (sync_durable _ _ _ _ E3) in Hs. congruence.
  - intros _. by rewrite (rename_read _ _ _ _ E4 Hne).
Qed.

(** [setFileContentWithSync] replaces a file as a whole. When the machine crashes between any two of its calls, the file is found as
    a crash before the call could have left it, or with all of the new contents; and when the function returns the file has the new
    contents. *)
Theorem replacement_is_atomic fileName content k c f u c' f' :
  forM (take k (replacement fileName content)) perform c f = Done u c' f' -> disk_has_room fileName content f ->
  (forall o, after_crash f' fileName o -> after_crash f fileName o \/ o = Some content) /\
  (setFileContentWithSync fileName content c f = Done u c' f' -> fs_read f' fileName = Some content).
Proof.
  intros H Hroom. split; [by eapply replacement_states|]. intros Hall.
  apply (replacement_states fileName content 4 c f u c' f'); [exact Hall|done|lia].
Qed.

End FileUtil.

(** ** Descriptors and mapped memory *)

(** An open file: its bytes and the offset of the descriptor. *)
Record File := mkFile { bytes : list ascii; offset : Z }.

(** [lseek(fd, off, SEEK_SET)]: the new offset, or -1 for one that is negative. *)
Definition lseek_set (off : Z) (f : File) : Z * File := if bool_decide (off < 0) then (-1, f) else (off, mkFile (bytes f) off).

(** [write(fd, s, n)]; beyond the end the file is filled up with zeros. *)
Definition write_at (s : list ascii) (f : File) : File :=
  let o := Z.to_nat (offset f) in
  let b := bytes f ++ replicate (o - length (bytes f)) zero in
  mkFile (take o b ++ s ++ drop (o + length s) b) (offset f + Z.of_nat (length s)).

(** A 64-bit number as [off_t], and back. *)
Definition s64 (z : Z) : Z := (z + 2 ^ 63) mod 2 ^ 64 - 2 ^ 63.

Section Descriptors.
(** [sysconf(_SC_PAGESIZE)] *)
Context (pagesize : Z).

(** [getFileSize]: the stream seeks to the end. *)
Definition getFileSize : M File Z :=
  let* f := get in
  let size := Z.of_nat (length (bytes f)) in
  put (mkFile (bytes f) size) ;;; ret size.

(** [offset == fileSize - 1] compares as unsigned numbers. *)
Definition setFileSize (fileSize : Z) : M File unit :=
  assert_ (bool_decide (fileSize mod pagesize = 0)) ;;;
  let* f := get in
  let '(o, f) := lseek_set (s64 (u64 (fileSize - 1))) f in
  assert_ (bool_decide (u64 o = u64 (fileSize - 1))) ;;;
  put (write_at [zero] f).

(** The range [syncAt] gives to [msync]. *)
Definition syncAt (rawPtr length : Z) : Z * Z :=
  let delta := rawPtr mod pagesize in (u64 (rawPtr - delta), u64 (length + delta)).

(** The range starts at a page and ends where the caller's ends. *)
Theorem syncAt_covers rawPtr length :
  0 < pagesize -> is_u64 rawPtr -> 0 <= length -> rawPtr + length < 2 ^ 64 ->
  exists a n, syncAt rawPtr length = (a, n) /\ a mod pagesize = 0 /\ 0 <= a <= rawPtr /\ a + n = rawPtr + length.
Proof.
  intros Hp Hr Hl Hs. unfold is_u64 in Hr. pose proof (Z.mod_pos_bound rawPtr pagesize Hp). pose proof (Z.mod_le rawPtr pagesize ltac:(lia) Hp).
  eexists _, _. split; [reflexivity|]. rewrite !u64_small by (unfold is_u64; lia). split; [|lia].
  pose proof (Z.div_mod rawPtr pagesize ltac:(lia)) as E. replace (rawPtr - rawPtr mod pagesize) with (rawPtr / pagesize * pagesize) by lia. apply Z.mod_mul. lia.
Qed.

Lemma s64_small z : 0 <= z < 2 ^ 63 -> s64 z = z.
Proof. intros H. unfold s64. rewrite Z.mod_small by lia. lia. Qed.

(** A file grows to the size that is set, and keeps its bytes. *)
Theorem setFileSize_grows fileSize c f :
  fileSize mod pagesize = 0 -> Z.of_nat (length (bytes f)) < fileSize <= 2 ^ 63 ->
  exists f', setFileSize fileSize c f = Done tt c f' /\ Z.of_nat (length (bytes f')) = fileSize /\ take (length (bytes f)) (bytes f') = bytes f.
Proof.
  intros Hm Hs. unfold setFileSize. rewrite bool_decide_eq_true_2 by done. run.
  rewrite (u64_small (fileSize - 1)) by (unfold is_u64; lia). rewrite s64_small by lia. unfold lseek_set. rewrite bool_decide_eq_false_2 by lia.
  rewrite bool_decide_eq_true_2 by (rewrite u64_small by (unfold is_u64; lia); done). run. eexists. split; [reflexivity|]. unfold write_at. cbn [bytes offset].
  set (n := Z.to_nat (fileSize - 1)). set (b := bytes f) in *. assert (length b <= n)%nat as Hle by lia.
  assert (length (b ++ replicate (n - length b) zero) = n) as Hn by (rewrite length_app, length_replicate; lia).
  rewrite take_ge by lia. rewrite drop_ge by (cbn; lia). split.
  - rewrite !length_app, length_replicate. cbn. lia.
  - rewrite <- app_assoc, take_app_le by lia. by rewrite take_ge.
Qed.

End Descriptors.

(** A file does not shrink: a byte in the middle is overwritten. And the size 0 is not refused: the offset that [lseek] refuses equals the
    one asked for, so that a zero is written where the descriptor stands. *)
Theorem setFileSize_does_not_shrink c :
  setFileSize 4 4 c (mkFile ["a"; "b"; "c"; "d"; "e"; "f"]%char 0) = Done tt c (mkFile ["a"; "b"; "c"; zero; "e"; "f"]%char 4) /\
  setFileSize 4 0 c (mkFile ["a"; "b"; "c"]%char 0) = Done tt c (mkFile [zero; "b"; "c"]%char 1).
Proof. split; reflexivity. Qed.

(** ** A disk

    An instance of the file system: [unsynced] are the files of which a crash may leave only a part, [remains] what a crash may bring
    back at a path. *)

Record Disk := mkDisk {
  visible : gmap string string;
  unsynced : gset string;
  remains : gmap string (list (option string));
  room : nat;
}.

Definition remember (p : string) (d : Disk) : gmap string (list (option string)) :=
  <[p := (visible d !! p) :: default [] (remains d !! p)]> (remains d).

#[export] Instance Disk_FileSystem : FileSystem Disk := {
  fs_kind d p := match visible d !! p with Some _ => Some RegularFile | None => None end;
  fs_read d p := visible d !! p;
  fs_remove p d := match visible d !! p with Some _ => Some (mkDisk (delete p (visible d)) (unsynced d) (remember p d) (room d)) | None => None end;
  fs_create p d := Some (mkDisk (<[p := ""]> (visible d)) ({[p]} ∪ unsynced d) (remember p d) (room d));
  fs_write p s d :=
    let n := Nat.min (String.length s) (room d) in
    (mkDisk (<[p := default "" (visible d !! p) +:+ String.substring 0 n s]> (visible d)) ({[p]} ∪ unsynced d) (remains d) (room d - n), n);
  fs_sync p d := Some (mkDisk (visible d) (unsynced d ∖ {[p]}) (remains d) (room d));
  fs_rename p q d :=
    match visible d !! p with
    | Some s => Some (mkDisk (<[q := s]> (delete p (visible d)))
                             (if bool_decide (p ∈ unsynced d) then {[q]} ∪ unsynced d else unsynced d ∖ {[q]})
                             (remember q d) (room d))
    | None => None
    end;
  fs_list d _ := elements (dom (visible d));
  data_after_crash d p s := exists t, visible d !! p = Some t /\ if bool_decide (p ∈ unsynced d) then exists n, s = String.substring 0 n t else s = t;
  after_crash d p o :=
    o ∈ default [] (remains d !! p) \/ o = visible d !! p \/
    exists t s, o = Some s /\ visible d !! p = Some t /\ p ∈ unsynced d /\ exists n, s = String.substring 0 n t;
}.

#[export] Instance Disk_laws : FileSystemLaws Disk.
Proof.
  split; cbn.
  - intros p f f' [= <-]. cbn. by rewrite lookup_insert_eq.
  - intros p q f f' o [= <-] Hne. cbn. unfold remember. rewrite !lookup_insert_ne by done. set_solver.
  - intros p s f f' n old [= <- <-] E. cbn. by rewrite lookup_insert_eq, E.
  - intros p q s f f' n o [= <- <-] Hne. cbn. rewrite !lookup_insert_ne by done. set_solver.
  - by intros p f f' [= <-].
  - intros p q f f' o [= <-] Hne. cbn. set_solver.
  - intros p f f' s [= <-] (t & Ht & H). cbn in *. rewrite bool_decide_eq_false_2 in H by set_solver. by subst.
  - intros p q f f' H Hne. destruct (visible f !! p) as [s|]; [|done]. injection H as <-. cbn. by rewrite lookup_insert_eq.
  - intros p q f f' o H Hne. destruct (visible f !! p) as [s|] eqn:E; [|done]. injection H as <-. cbn. unfold remember. rewrite !lookup_insert_eq. cbn.
    intros [Ho|[->|(t & s' & -> & [= <-] & Hin & n & ->)]].
    + apply elem_of_cons in Ho as [->|Ho]; auto.
    + right. exists s. split; [done|]. exists s. split; [done|]. case_bool_decide; [|done]. exists (String.length s). by rewrite substring_all.
    + right. eexists. split; [done|]. exists s. split; [done|]. case_bool_decide; [by exists n|set_solver].
Qed.

(** The disk has a file. *)
Definition disk_of (p s : string) (room : nat) : Disk := mkDisk {[p := s]} ∅ ∅ room.

(** With a full disk the write is cut short, nothing notices, and the cut contents replace the file. *)
Theorem full_disk_truncates :
  match setFileContentWithSync "conf" "version=2" (fun _ => 0) (disk_of "conf" "version=1" 4) with
  | Done _ _ d => fs_read d "conf" = Some "vers"
  | Stop _ => False
  end.
Proof. vm_compute. reflexivity. Qed.

Lemma replacement_is_atomic_witness :
  exists d, forM (take 4 (replacement "conf" "version=2")) perform (fun _ => 0) (disk_of "conf" "version=1" 100) = Done tt (fun _ => 0) d /\
    (forall o, after_crash d "conf" o -> after_crash (disk_of "conf" "version=1" 100) "conf" o \/ o = Some "version=2") /\
    fs_read d "conf" = Some "version=2".
Proof.
  eexists. split; [reflexivity|]. edestruct (replacement_is_atomic "conf" "version=2" 4 (fun _ => 0) (disk_of "conf" "version=1" 100)) as [H1 H2].
  - reflexivity.
  - intros f1 [= <-]. reflexivity.
  - split; [exact H1|]. apply H2. reflexivity.
Defined.
