(* ===== verification/ClusterInfo.v ===== *)
(** * The cluster a server belongs to

    [utils::ClusterInfoUtil] (kv-engine/utils/ClusterInfoUtil.cpp) reads the nodes of the cluster from the setting
    [raft.default.cluster.conf], a text like [1@host1:5245,2@host2:5245], and finds the node this process is.

    The table of nodes is [gringofts::ClusterInfo], an interface here ([NodeTable]); the class of the same name in
    kv-engine/utils/ClusterInfo.h is an instance of it, and so is the splitting of texts by [StrUtil::tokenize]
    ([Tokenizer]). *)

From Stdlib Require Import Ascii.
From S2P Require Import Prelude OrderedMap Utils.

Record Node := mkNode { mNodeId : Z; mHostName : string; mPortForRaft : Z }.

(** [gringofts::ClusterInfo] *)
Class NodeTable := {
  ClusterInfo : Type;
  new_ClusterInfo : ClusterInfo;
  addNode : Node -> ClusterInfo -> ClusterInfo;
  getAllNodeInfo : ClusterInfo -> OMap Z Node;
}.

Class NodeTableLaws (T : NodeTable) := {
  no_nodes : getAllNodeInfo new_ClusterInfo = [];
  addNode_put n info : getAllNodeInfo (addNode n info) = omap_put (mNodeId n) n (getAllNodeInfo info);
}.

(** [gringofts::StrUtil::tokenize(str, ',')] *)
Class Tokenizer := split_nodes : string -> list string.

Class TokenizerLaws (T : Tokenizer) := split_concat l : Forall (token ",") l -> split_nodes (String.concat "," l) = l.

(** ** One node: [std::regex_search(raftNode, match, "([0-9]+)@([^:]+):([0-9]+)")] *)

Fixpoint digits_run (s : string) : string * string :=
  match s with
  | String a s' => if bool_decide (is_Some (digit a)) then let '(t, rest) := digits_run s' in (String a t, rest) else (EmptyString, s)
  | EmptyString => (EmptyString, EmptyString)
  end.

(** The match that starts at the first character. The characters of every group exclude the one that follows it, so
    that the longest groups are the only ones. *)
Definition match_here (s : string) : option (string * string * string) :=
  match digits_run s with
  | (String _ _ as id, String "@" s) =>
      match break_at ":" s with
      | (String _ _ as host, String ":" s) =>
          match digits_run s with
          | (String _ _ as port, _) => Some (id, host, port)
          | _ => None
          end
      | _ => None
      end
  | _ => None
  end.

(** The leftmost one. *)
Fixpoint regex_search (s : string) : option (string * string * string) :=
  match match_here s with
  | Some m => Some m
  | None => match s with String _ s => regex_search s | EmptyString => None end
  end.

(** ** The cluster

    The state is the static [mNodeMap], from node ids to host names. *)

Section ClusterInfoUtil.
Context {T : NodeTable} {K : Tokenizer}.

(** [parseToClusterInfo] *)
Fixpoint parse_nodes (expectId : Z) (raftCluster : list string) (info : ClusterInfo) : M (OMap Z string) ClusterInfo :=
  match raftCluster with
  | [] => ret info
  | raftNode :: raftCluster =>
      match regex_search raftNode with
      | None => stop Uncaught
      | Some (id, host, port) =>
          match stoull id with
          | None => stop Uncaught
          | Some peerId =>
              assert_ (bool_decide (peerId = expectId)) ;;;
              match stoi port with
              | None => stop Uncaught
              | Some p =>
                  modify (omap_put peerId host) ;;;
                  parse_nodes (expectId + 1) raftCluster (addNode (mkNode peerId host p) info)
              end
          end
      end
  end.

Definition parseToClusterInfo (clusterConf : string) : M (OMap Z string) ClusterInfo :=
  parse_nodes 1 (split_nodes clusterConf) new_ClusterInfo.

(** What [resolveAllClusters] reads: the settings, the variable [SELF_UDNS] and the name of the machine. *)
Record Environment := mkEnvironment {
  cluster_conf : option string;
  self_id : option Z;
  SELF_UDNS : option string;
  getHostname : string;
}.

(** The loop over the nodes, up to the first with the name. *)
Fixpoint node_of_host (host : string) (nodes : OMap Z Node) : option Z :=
  match nodes with
  | [] => None
  | (nodeId, node) :: nodes => if bool_decide (mHostName node = host) then Some nodeId else node_of_host host nodes
  end.

(** [resolveAllClusters]. The line that is logged reads [*myNodeId]. *)
Definition resolveAllClusters (e : Environment) : M (OMap Z string) (Z * ClusterInfo) :=
  let clusterConf := default "UNKNOWN" (cluster_conf e) in
  assert_ (bool_decide (clusterConf <> "UNKNOWN")) ;;;
  let* clusterInfo := parseToClusterInfo clusterConf in
  let nodes := getAllNodeInfo clusterInfo in
  let selfId := default (-1) (self_id e) in
  let* myNodeId :=
    (if bool_decide (selfId <> -1) then ret (u64 selfId)
     else
       let myHostname := default (getHostname e) (SELF_UDNS e) in
       match node_of_host myHostname nodes with
       | Some nodeId => ret nodeId
       | None => stop Undefined
       end) in
  assert_ (bool_decide (myNodeId <> 0)) ;;;
  ret (myNodeId, clusterInfo).

(** [TessDNSResolver::getIpByHostname] is a lookup in the name service. *)
Definition getIpOf (getIpByHostname : string -> string) (nodeId : option Z) : M (OMap Z string) string :=
  match nodeId with
  | Some id =>
      let* m := get in
      match omap_find id m with
      | Some host => ret (getIpByHostname host)
      | None => modify (omap_put id "") ;;; ret (getIpByHostname "")
      end
  | None => ret ""
  end.

(** ** A well-written setting *)

(** The text of node [i], of a host and a port. *)
Definition node_text (i : Z) (n : string * Z) : string := to_string i +:+ String "@" (fst n +:+ String ":" (to_string (snd n))).

Definition node_ok (n : string * Z) : Prop :=
  token "," (fst n) /\ has_char ":" (fst n) = false /\ 0 <= snd n < 2 ^ 31.

Fixpoint nodes_text (i : Z) (l : list (string * Z)) : list string :=
  match l with [] => [] | n :: l => node_text i n :: nodes_text (i + 1) l end.

Lemma digits_run_app s rest : all_digits s = true -> (forall a r, rest = String a r -> digit a = None) -> digits_run (s +:+ rest) = (s, rest).
Proof.
  intros Hs Hr. induction s as [|a s IH].
  - change ("" +:+ rest) with rest. destruct rest as [|a r]; [done|]. cbn. by rewrite (Hr a r eq_refl).
  - cbn in Hs. change (String a s +:+ rest) with (String a (s +:+ rest)). cbn. case_bool_decide; [|done]. by rewrite IH.
Qed.

Lemma number_text n : 0 <= n -> exists a s, to_string n = String a s.
Proof. intros Hn. destruct (to_string_shape n Hn) as (a & s & d & H & _). eauto. Qed.

Lemma regex_search_node i n : 0 <= i -> node_ok n -> regex_search (node_text i n) = Some (to_string i, fst n, to_string (snd n)).
Proof.
  intros Hi ((Hne & _) & Hc & Hp). assert (match_here (node_text i n) = Some (to_string i, fst n, to_string (snd n))) as H.
  { unfold match_here, node_text. rewrite digits_run_app; [|by apply to_string_digits|by intros a r [= <- <-]].
    destruct (number_text i Hi) as (a & s & ->). rewrite break_at_token by eauto. destruct (fst n) as [|b h]; [done|].
    rewrite <- (string_app_nil_r (to_string (snd n))) at 1. rewrite digits_run_app; [|apply to_string_digits; lia|done].
    by destruct (number_text (snd n) ltac:(lia)) as (a' & s' & ->). }
  destruct (node_text i n); cbn [regex_search]; by rewrite H.
Qed.

Lemma has_char_app c s t : has_char c (s +:+ t) = (has_char c s || has_char c t)%bool.
Proof. induction s as [|a s IH]; [done|]. change (String a s +:+ t) with (String a (s +:+ t)). cbn. by rewrite IH, orb_assoc. Qed.

Lemma all_digits_char c s : digit c = None -> all_digits s = true -> has_char c s = false.
Proof.
  intros Hc. induction s as [|a s IH]; [done|]. cbn. intros [Ha Hs]%andb_prop. rewrite IH by done.
  apply bool_decide_eq_true in Ha as [d Ha]. rewrite bool_decide_eq_false_2; [done|]. intros ->. congruence.
Qed.

Lemma node_text_token i n : 0 <= i -> node_ok n -> token "," (node_text i n).
Proof.
  intros Hi ((_ & Hc & Hn) & _ & Hp). assert (forall c, digit c = None -> c <> "@"%char -> c <> ":"%char -> has_char c (fst n) = false ->
    has_char c (node_text i n) = false) as H.
  { intros c Hd Ha Hco Hh. unfold node_text. rewrite has_char_app. cbn [has_char]. rewrite has_char_app. cbn [has_char].
    rewrite (all_digits_char c (to_string i)), (all_digits_char c (to_string (snd n))) by (done || (apply to_string_digits; lia)).
    rewrite Hh, !bool_decide_eq_false_2 by congruence. done. }
  unfold token. split_and!; [|by apply H|by apply H].
  unfold node_text. by destruct (number_text i Hi) as (a & s & ->).
Qed.

Context {TL : NodeTableLaws T} {KL : TokenizerLaws K}.

(** The nodes [l] with ids from [i] are in the table and the map of names. *)
Definition holds_nodes (i : Z) (l : list (string * Z)) (info : ClusterInfo) (m : OMap Z string) : Prop :=
  forall k n, l !! k = Some n ->
  omap_find (i + Z.of_nat k) (getAllNodeInfo info) = Some (mkNode (i + Z.of_nat k) (fst n) (snd n)) /\
  omap_find (i + Z.of_nat k) m = Some (fst n).

Lemma parse_nodes_run i l info c m : 0 <= i -> i + Z.of_nat (length l) < 2 ^ 64 -> Forall node_ok l ->
  exists info' m', parse_nodes i (nodes_text i l) info c m = Done info' c m' /\ holds_nodes i l info' m' /\
    (omap_sorted (getAllNodeInfo info) -> omap_sorted (getAllNodeInfo info')) /\
    forall id, id < i \/ i + Z.of_nat (length l) <= id ->
      omap_find id (getAllNodeInfo info') = omap_find id (getAllNodeInfo info) /\ omap_find id m' = omap_find id m.
Proof.
  revert i info m. induction l as [|n l IH]; intros i info m Hi Hlen Hl.
  { exists info, m. split; [done|]. split_and!; [by intros k ? ?|done|done]. }
  apply Forall_cons in Hl as [Hn Hl]. cbn [length] in *.
  destruct (IH (i + 1) (addNode (mkNode i (fst n) (snd n)) info) (omap_put i (fst n) m)) as (info' & m' & Hrun & Hin & Hsort & Hout); [lia|lia|done|].
  exists info', m'. split_and!.
  - cbn [nodes_text parse_nodes]. rewrite regex_search_node, stoull_to_string by (done || unfold is_u64; lia).
    rewrite stoi_to_string by apply Hn. rewrite !bool_decide_eq_true_2 by (done || apply Hn). run. done.
  - intros [|k] n' Hk; cbn in Hk.
    + injection Hk as <-. rewrite Z.add_0_r. destruct (Hout i ltac:(lia)) as [-> ->]. by rewrite addNode_put, !omap_find_put_eq.
    + destruct (Hin k n' Hk) as [H1 H2]. replace (i + Z.of_nat (S k)) with (i + 1 + Z.of_nat k) by lia. done.
  - intros Hs. apply Hsort. rewrite addNode_put. by apply omap_put_sorted.
  - intros id Hid. destruct (Hout id ltac:(lia)) as [-> ->]. rewrite addNode_put, !omap_find_put_ne by (cbn; lia). done.
Qed.

Lemma nodes_text_tokens i l : 0 <= i -> Forall node_ok l -> Forall (token ",") (nodes_text i l).
Proof.
  revert i. induction l as [|n l IH]; intros i Hi Hl; [constructor|]. apply Forall_cons in Hl as [Hn Hl].
  cbn. constructor; [by apply node_text_token|]. apply IH; [lia|done].
Qed.

Lemma written_cluster_run l c m : Forall node_ok l -> Z.of_nat (length l) < 2 ^ 31 ->
  exists info m', parseToClusterInfo (String.concat "," (nodes_text 1 l)) c m = Done info c m' /\
    holds_nodes 1 l info m' /\ omap_sorted (getAllNodeInfo info) /\
    forall id, id < 1 \/ Z.of_nat (length l) < id -> omap_find id (getAllNodeInfo info) = None /\ omap_find id m' = omap_find id m.
Proof.
  intros Hl Hlen. unfold parseToClusterInfo. rewrite split_concat by (apply nodes_text_tokens; [lia|done]).
  destruct (parse_nodes_run 1 l new_ClusterInfo c m) as (info & m' & Hrun & Hin & Hsort & Hout); [lia|lia|done|].
  exists info, m'. split_and!; [done|done|apply Hsort; rewrite no_nodes; constructor|]. intros id Hid. destruct (Hout id) as [-> ->]; [lia|]. by rewrite no_nodes.
Qed.

Lemma concat_not_unknown l : l <> [] -> String.concat "," (nodes_text 1 l) <> "UNKNOWN".
Proof.
  destruct l as [|n l]; [done|]. intros _. cbn [nodes_text]. generalize (nodes_text (1 + 1) l) as r. intros r.
  unfold node_text. change (to_string 1) with "1". by destruct r.
Qed.

Lemma node_of_host_sound host nodes id : node_of_host host nodes = Some id -> exists n, (id, n) ∈ nodes /\ mHostName n = host.
Proof.
  induction nodes as [|[i n] nodes IH]; [done|]. cbn. case_bool_decide as Hh; [intros [= ->]; exists n; split; [left|done]|].
  intros H. destruct (IH H) as (n' & Hn & E). exists n'. split; [by right|done].
Qed.

Lemma node_of_host_complete host nodes id n : (id, n) ∈ nodes -> mHostName n = host -> is_Some (node_of_host host nodes).
Proof.
  intros Hin Hh. induction nodes as [|[i x] nodes IH]; [by apply elem_of_nil in Hin|]. cbn. case_bool_decide; [eauto|].
  apply elem_of_cons in Hin as [[= <- <-]|Hin]; [done|auto].
Qed.

(** A process without [self.id] is a node of the setting with the name of its host, when there is one. *)
Theorem process_finds_itself l e c m k n : Forall node_ok l -> Z.of_nat (length l) < 2 ^ 31 ->
  cluster_conf e = Some (String.concat "," (nodes_text 1 l)) -> self_id e = None ->
  l !! k = Some n -> fst n = default (getHostname e) (SELF_UDNS e) ->
  exists j n' info m', l !! j = Some n' /\ fst n' = fst n /\ resolveAllClusters e c m = Done (1 + Z.of_nat j, info) c m' /\ holds_nodes 1 l info m'.
Proof.
  intros Hl Hlen Hc Hs Hk Hh. destruct (written_cluster_run l c m Hl Hlen) as (info & m' & Hrun & Hin & Hsort & Hout).
  destruct (node_of_host_complete (fst n) (getAllNodeInfo info) (1 + Z.of_nat k) (mkNode (1 + Z.of_nat k) (fst n) (snd n))) as [id Hid]; [|done|].
  { apply omap_find_Some, Hin. done. }
  destruct (node_of_host_sound _ _ _ Hid) as (x & Hx & Hxh). apply elem_of_omap in Hx; [|done].
  assert (1 <= id <= Z.of_nat (length l)) as Hr.
  { destruct (decide (id < 1 \/ Z.of_nat (length l) < id)) as [Ho|Ho]; [|lia]. destruct (Hout id Ho). congruence. }
  destruct (l !! Z.to_nat (id - 1)) as [n'|] eqn:En; [|apply lookup_ge_None in En; lia].
  destruct (Hin _ _ En) as [Hf _]. replace (1 + Z.of_nat (Z.to_nat (id - 1))) with id in * by lia.
  exists (Z.to_nat (id - 1)), n', info, m'. replace (1 + Z.of_nat (Z.to_nat (id - 1))) with id by lia.
  split_and!; [done|rewrite Hf in Hx; injection Hx as <-; done| |done].
  unfold resolveAllClusters. rewrite Hc, Hs. cbv zeta. change (default "UNKNOWN" (Some ?x)) with x.
  rewrite bool_decide_eq_true_2 by (apply concat_not_unknown; intros ->; done). run. rewrite Hrun.
  rewrite bool_decide_eq_false_2 by (intros []; done). rewrite <- Hh, Hid. by rewrite bool_decide_eq_true_2 by lia.
Qed.

(** A process without [self.id] whose host is not in the setting reads an empty [optional] when it logs its id, before the
    [assert] that was to catch it. *)
Theorem unknown_host_is_undefined e conf c m info m' :
  cluster_conf e = Some conf -> conf <> "UNKNOWN" -> self_id e = None ->
  parseToClusterInfo conf c m = Done info c m' ->
  node_of_host (default (getHostname e) (SELF_UDNS e)) (getAllNodeInfo info) = None ->
  resolveAllClusters e c m = Stop Undefined.
Proof.
  intros Hc Hne Hs Hp Hh. unfold resolveAllClusters. rewrite Hc, Hs. cbv zeta. change (default "UNKNOWN" (Some conf)) with conf.
  rewrite bool_decide_eq_true_2 by done. run. rewrite Hp. rewrite bool_decide_eq_false_2 by (intros []; done). by rewrite Hh.
Qed.

End ClusterInfoUtil.

(** ** The table and the splitting of this repository *)

#[global] Instance map_NodeTable : NodeTable :=
  {| ClusterInfo := OMap Z Node; new_ClusterInfo := []; addNode n info := omap_put (mNodeId n) n info; getAllNodeInfo info := info |}.

#[global] Instance map_NodeTable_laws : NodeTableLaws map_NodeTable.
Proof. by split. Qed.

#[global] Instance StrUtil_Tokenizer : Tokenizer := fun s => tokenize s ",".

#[global] Instance StrUtil_Tokenizer_laws : TokenizerLaws StrUtil_Tokenizer.
Proof. intros l Hl. by apply tokenize_concat. Qed.

Lemma process_finds_itself_witness :
  exists j n' info m', [("east", 5245); ("west", 5245)] !! j = Some n' /\ fst n' = "west" /\
  resolveAllClusters (mkEnvironment (Some "1@east:5245,2@west:5245") None None "west") (fun _ => 0) [] = Done (1 + Z.of_nat j, info) (fun _ => 0) m' /\
  holds_nodes 1 [("east", 5245); ("west", 5245)] info m'.
Proof.
  apply (process_finds_itself [("east", 5245); ("west", 5245)] (mkEnvironment (Some "1@east:5245,2@west:5245") None None "west") (fun _ => 0) [] 1 ("west", 5245)).
  - repeat constructor; cbn; done || lia.
  - cbn. lia.
  - reflexivity.
  - reflexivity.
  - reflexivity.
  - reflexivity.
Defined.
