(* ===== verification/Config.v ===== *)
(** * Settings

    What the servers read before they start: [utils::TlsUtil] (kv-engine/utils/TlsUtil.h), [utils::AppInfo] and [utils::AppUtil]
    (kv-engine/utils/AppUtil.h and .cpp), [utils::Util] (kv-engine/utils/Util.h) and [utils::TessDNSResolver]
    (kv-engine/utils/TessDNSResolver.h). *)

From Stdlib Require Import Ascii.
From S2P Require Import Prelude OrderedMap Utils Files ClusterInfo.

(** [INIReader] on one file: the values that are set, as text, and those that read as a number or as a truth value. *)
Record INIReader := mkReader {
  ParseError : Z;
  text : string -> string -> option string;
  number : string -> string -> option Z;
  flag : string -> string -> option bool;
}.
Definition Get (r : INIReader) (section name default_value : string) : string := default default_value (text r section name).
Definition GetInteger (r : INIReader) (section name : string) (default_value : Z) : Z := default default_value (number r section name).
Definition GetBoolean (r : INIReader) (section name : string) (default_value : bool) : bool := default default_value (flag r section name).

(** ** Certificates *)

Record TlsConf := mkTlsConf { key : string; cert : string; ca : string }.

(** [grpc::ServerCredentials] and [grpc::ChannelCredentials] *)
Inductive ServerCredentials := InsecureServerCredentials | SslServerCredentials (pem_key_cert_pairs : list (string * string)).
Inductive ChannelCredentials := InsecureChannelCredentials | SslCredentials (pem_root_certs : string).

Section Files.
Context {F : Type} `{!FileSystem F}.

(** A file that has to be there. *)
Definition content_of (fileName : string) : M F string :=
  let* o := getFileContent fileName in
  match o with Some s => ret s | None => stop Uncaught end.

Definition parseTlsConf (iniReader : INIReader) (section : string) : M F (option TlsConf) :=
  if GetBoolean iniReader section "enable" false then
    let keyFile := Get iniReader section "key.file" "" in
    let certFile := Get iniReader section "cert.file" "" in
    let caFile := Get iniReader section "ca.file" "" in
    if bool_decide (keyFile = "" \/ certFile = "" \/ caFile = "") then stop Uncaught
    else
      let* k := content_of keyFile in
      let* c := content_of certFile in
      let* a := content_of caFile in
      ret (Some (mkTlsConf k c a))
  else ret None.

Definition buildServerCredentials (tlsConfOpt : option TlsConf) : ServerCredentials :=
  match tlsConfOpt with
  | None => InsecureServerCredentials
  | Some tlsConf => SslServerCredentials [(key tlsConf, cert tlsConf)]
  end.

Definition buildChannelCredentials (tlsConfOpt : option TlsConf) : ChannelCredentials :=
  match tlsConfOpt with
  | None => InsecureChannelCredentials
  | Some tlsConf => SslCredentials (ca tlsConf)
  end.

(** A server whose settings enable TLS never starts without it: either it has the key and the certificate of the files the settings name, and its clients
    trust their authority, or it does not start. *)
Theorem enabled_tls_is_used reader section c (f : F) :
  flag reader section "enable" = Some true ->
  match parseTlsConf reader section c f with
  | Done conf _ _ =>
      exists k ce a, fs_read f (Get reader section "key.file" "") = Some k /\ fs_read f (Get reader section "cert.file" "") = Some ce /\
        fs_read f (Get reader section "ca.file" "") = Some a /\
        buildServerCredentials conf = SslServerCredentials [(k, ce)] /\ buildChannelCredentials conf = SslCredentials a
  | Stop e => e = Uncaught
  end.
Proof.
  intros He. unfold parseTlsConf, GetBoolean. rewrite He. change (default false (Some true)) with true. cbv iota. unfold content_of, getFileContent.
  case_bool_decide; [done|]. run.
  destruct (fs_read f (Get reader section "key.file" "")) as [k|] eqn:E1; [|done]. run.
  destruct (fs_read f (Get reader section "cert.file" "")) as [ce|] eqn:E2; [|done]. run.
  destruct (fs_read f (Get reader section "ca.file" "")) as [a|] eqn:E3; [|done]. run. by exists k, ce, a.
Qed.

(** ** The release *)

(** [AppUtil::getCurrentVersion] *)
Definition getCurrentVersion : M F string :=
  let* version := getFileContent "conf/app.version" in
  ret (default "UNKNOWN" version).

(** [Util::getDateTimeStamp], with [std::stod] as [stod]; it throws on a text that is no number. *)
Definition getDateTimeStamp {D} (zero_date : D) (stod : string -> option D) (fileName : string) : M F D :=
  let* date := getFileContent fileName in
  match date with
  | None => ret zero_date
  | Some s => match stod s with Some d => ret d | None => stop Uncaught end
  end.

End Files.

(** [AppUtil::getReleaseVersion]: the directory above the working directory, if it is a release. *)
Definition getReleaseVersion (cwd : string) : string :=
  let tokens := tokenize cwd "/" in
  if bool_decide (length tokens < 2)%nat then "UNKNOWN"
  else
    match tokens !! (length tokens - 2)%nat with
    | Some version => if endsWith version "unx" then version else "UNKNOWN"
    | None => "UNKNOWN"
    end.

(** The last directory but one of a path. *)
Theorem release_of_path (dirs : list string) version dir :
  Forall (token "/") (dirs ++ [version; dir]) ->
  getReleaseVersion (String.concat "/" (dirs ++ [version; dir])) = if endsWith version "unx" then version else "UNKNOWN".
Proof.
  intros H. unfold getReleaseVersion. rewrite tokenize_concat by done. rewrite length_app. cbn [length]. rewrite bool_decide_eq_false_2 by lia.
  rewrite lookup_app_r by lia. replace (length dirs + 2 - 2 - length dirs)%nat with O by lia. done.
Qed.

(** ** Addresses *)

(** [absl::StrSplit]: the parts between the separators, also empty ones; at least one. *)
Fixpoint StrSplit (delim : ascii) (s : string) : list string :=
  match s with
  | EmptyString => [EmptyString]
  | String a s =>
      let l := StrSplit delim s in
      if bool_decide (a = delim) then EmptyString :: l
      else match l with x :: l => String a x :: l | [] => [] end
  end.

(** [gethostbyname] and [inet_ntoa]; the answer to one question may differ from that to the next. *)
Class NameService := gethostbyname : nat -> string -> option string.

Section Resolver.
Context {NS : NameService}.

(** [TessDNSResolver::getIpByHostname] *)
Definition getIpByHostname (query : nat) (hostname : string) : string := default hostname (gethostbyname query hostname).

(** [TessDNSResolver::resolve]; without a port [subStrs[1]] is out of range. *)
Definition resolve (query : nat) (hostname : string) : option string :=
  match StrSplit ":" hostname with
  | host :: port :: _ => Some (getIpByHostname query host +:+ String ":" port)
  | _ => None
  end.

Lemma StrSplit_one delim s rest : has_char delim s = false -> StrSplit delim (s +:+ String delim rest) = s :: StrSplit delim rest.
Proof.
  induction s as [|a s IH]; intros H.
  { change ("" +:+ String delim rest) with (String delim rest). cbn [StrSplit]. by rewrite bool_decide_eq_true_2. }
  cbn [has_char] in H. apply orb_false_iff in H as [Ha H].
  apply bool_decide_eq_false in Ha. change (String a s +:+ String delim rest) with (String a (s +:+ String delim rest)).
  cbn [StrSplit]. rewrite bool_decide_eq_false_2 by done. by rewrite IH.
Qed.

Lemma StrSplit_last delim s : has_char delim s = false -> StrSplit delim s = [s].
Proof.
  induction s as [|a s IH]; intros H; [done|]. cbn [has_char] in H. apply orb_false_iff in H as [Ha H]. apply bool_decide_eq_false in Ha.
  cbn [StrSplit]. rewrite bool_decide_eq_false_2 by done. by rewrite IH.
Qed.

(** A host with its port is resolved to the address of the host, with the same port; a host that is not known is left as it is. *)
Theorem resolve_keeps_port query host port :
  has_char ":" host = false -> has_char ":" port = false ->
  resolve query (host +:+ String ":" port) = Some (getIpByHostname query host +:+ String ":" port) /\
  (gethostbyname query host = None -> resolve query (host +:+ String ":" port) = Some (host +:+ String ":" port)).
Proof.
  intros Hh Hp. assert (resolve query (host +:+ String ":" port) = Some (getIpByHostname query host +:+ String ":" port)) as E.
  { unfold resolve. by rewrite StrSplit_one, StrSplit_last. }
  split; [done|]. intros Hn. rewrite E. unfold getIpByHostname. by rewrite Hn.
Qed.

End Resolver.

(** ** The application *)

Record AppInfo {T : NodeTable} := mkAppInfo { mMyClusterInfo : ClusterInfo; mMyNodeId : Z; mAppVersion : string }.
Arguments mkAppInfo {T} _ _ _.

Section AppInfo.
Context {T : NodeTable} {K : Tokenizer} {F : Type} `{!FileSystem F}.

(** [INIReader raftReader(raftConfigPath)] *)
Context (open_ini : string -> INIReader) (self_udns : option string) (hostname : string).

Definition raft_environment (raftReader : INIReader) : Environment :=
  mkEnvironment (text raftReader "raft.default" "cluster.conf") (number raftReader "raft.default" "self.id") self_udns hostname.

(** The constructor; the state is the table of node names of [ClusterInfoUtil] and the files. *)
Definition new_AppInfo (reader : INIReader) : M (OMap Z string * F) AppInfo :=
  let raftConfigPath := Get reader "store" "raft.config.path" "UNKNOWN" in
  assert_ (bool_decide (raftConfigPath <> "UNKNOWN")) ;;;
  let* (myNodeId, myClusterInfo) := zoom fst (fun m s => (m, s.2)) (resolveAllClusters (raft_environment (open_ini raftConfigPath))) in
  let* version := zoom snd (fun f s => (s.1, f)) getCurrentVersion in
  ret (mkAppInfo myClusterInfo myNodeId version).

(** [getMyNode]; [None] when the id is not in the table, where [operator[]] makes up a node. *)
Definition getMyNode (a : AppInfo) : option Node := omap_find (mMyNodeId a) (getAllNodeInfo (mMyClusterInfo a)).
Definition getMyNodeAddress (a : AppInfo) : option string :=
  node ← getMyNode a; Some (mHostName node +:+ ":" +:+ to_string (mPortForRaft node)).

(** A process whose host is in the setting of the cluster gives as its own address one of the setting with that host. *)
Theorem application_knows_its_address `{!NodeTableLaws T} `{!TokenizerLaws K} reader l c m (f : F) path k n :
  text reader "store" "raft.config.path" = Some path -> path <> "UNKNOWN" ->
  Forall node_ok l -> Z.of_nat (length l) < 2 ^ 31 ->
  text (open_ini path) "raft.default" "cluster.conf" = Some (String.concat "," (nodes_text 1 l)) ->
  number (open_ini path) "raft.default" "self.id" = None ->
  l !! k = Some n -> fst n = default hostname self_udns ->
  exists a m' j n', new_AppInfo reader c (m, f) = Done a c (m', f) /\ l !! j = Some n' /\ fst n' = fst n /\
    getMyNodeAddress a = Some (fst n' +:+ ":" +:+ to_string (snd n')) /\
    mAppVersion a = default "UNKNOWN" (fs_read f "conf/app.version").
Proof.
  intros Hp Hne Hl Hlen Hc Hs Hk Hh.
  destruct (process_finds_itself l (raft_environment (open_ini path)) c m k n Hl Hlen Hc Hs Hk Hh) as (j & n' & info & m' & Hj & Hn' & Hrun & Hin).
  eexists _, m', j, n'. split; [|split_and!; [done|done| |]].
  - unfold new_AppInfo, Get. rewrite Hp. change (default "UNKNOWN" (Some path)) with path. rewrite bool_decide_eq_true_2 by done. run.
    cbn [fst snd]. rewrite Hrun. reflexivity.
  - unfold getMyNodeAddress, getMyNode. cbn [mMyNodeId mMyClusterInfo]. by rewrite (proj1 (Hin j n' Hj)).
  - done.
Qed.

End AppInfo.
