(* ===== verification/SecretKeys.v ===== *)
(** * Secret keys

    [crypto::MicrovaultClient] (kv-engine/crypto/microvaultclient/MicrovaultClient.cpp), [crypto::MicrovaultSecretKey]
    (kv-engine/crypto/MicrovaultSecretKey.cpp) and [crypto::SecretKeyFactory] (kv-engine/crypto/SecretKeyFactory.h): the keys the log is
    encrypted with, one per version, fetched from a vault beside the server and kept. *)

From S2P Require Import Prelude Config.

(** ** The vault *)

(** The end of a call: an answer, the code [NOT_FOUND], or another code. *)
Inductive Grpc (A : Type) := GOk (a : A) | GNotFound | GError.
Arguments GOk {A} _.
Arguments GNotFound {A}.
Arguments GError {A}.

(** [V] is the vault and the network. [uses] is how many calls the [ClientContext] was used for before; gRPC does not allow any,
    and [None] is the end of the process there. *)
Class Vault (V : Type) := {
  GetKeyInfo : forall (uses : nat) (keyref : string), V -> option (Grpc Z * V);
  ExportKey : forall (uses : nat) (keyref : string), V -> option (Grpc string * V);
}.
#[global] Hint Mode Vault ! : typeclass_instances.

(** A version of a key, once there, is never changed. *)
Class VaultLaws (V : Type) `{!Vault V} := {
  material : string -> string;
  ExportKey_material n ref (v v' : V) s : ExportKey n ref v = Some (GOk s, v') -> s = material ref;
}.
#[global] Hint Mode VaultLaws ! - : typeclass_instances.

(** ** The client *)

(** [mStub] is the number of channels made so far. *)
Record MicrovaultClient := mkClient { mEndPoint : string; mStub : nat }.

Definition kMaxRetryTimes : nat := 3.

Section Client.
Context {V : Type} `{!Vault V}.

Definition refreshChannel : M (MicrovaultClient * V) unit := modify (fun s => (mkClient (mEndPoint s.1) (S (mStub s.1)), s.2)).

Definition new_MicrovaultClient (port : Z) : MicrovaultClient := mkClient ("0.0.0.0:" +:+ to_string port) 1.

Definition call {A} (rpc : V -> option (Grpc A * V)) : M (MicrovaultClient * V) (Grpc A) :=
  let* (cl, v) := get in
  match rpc v with
  | None => stop Uncaught
  | Some (r, v) => put (cl, v) ;;; ret r
  end.

(** The loop of both calls: [attempt i] is the call of round [i]. *)
Fixpoint retry {A} (rounds i : nat) (attempt : nat -> V -> option (Grpc A * V)) (status : Grpc A) : M (MicrovaultClient * V) (Grpc A) :=
  match rounds with
  | O => ret status
  | S rounds =>
      let* status := call (attempt i) in
      match status with
      | GOk a => ret status
      | GNotFound => ret status
      | GError => refreshChannel ;;; retry rounds (S i) attempt status
      end
  end.

(** [getLatestVersion]: a context for every call. *)
Definition getLatestVersion (keyPath : string) : M (MicrovaultClient * V) (Grpc Z) :=
  retry kMaxRetryTimes 0 (fun _ => GetKeyInfo 0 keyPath) GError.

Definition version_ref (keyPath : string) (version : Z) : string := keyPath +:+ "/versions/" +:+ to_string version.

(** [getSecretByVersion]: one context for all calls. *)
Definition getSecretByVersion (keyPath : string) (version : Z) : M (MicrovaultClient * V) (Grpc string) :=
  retry kMaxRetryTimes 0 (fun i => ExportKey i (version_ref keyPath version)) GError.

End Client.

(** ** The keys *)

(** [gringofts::SecretKey] of the library is the base class: its constants, the type of a key, and [decodeBase64Key]. *)
Class KeyFormat := {
  Key : Type;
  unset_key : Key;
  decodeBase64Key : string -> Key;
  kOldestVersion : Z;
}.

Section Keys.
Context {V : Type} `{!Vault V} {KF : KeyFormat}.

Record MicrovaultSecretKey := mkKeys { mKeyPath : string; mAllKeys : list Key; mLatestVersion : Z }.

Definition State : Type := MicrovaultSecretKey * (MicrovaultClient * V).

Definition in_client {A} (m : M (MicrovaultClient * V) A) : M State A := zoom snd (fun c s => (s.1, c)) m.

(** [mAllKeys.resize(n)] *)
Definition resize_keys (n : nat) (l : list Key) : list Key := take n l ++ replicate (n - length l) unset_key.

Definition set_keys (l : list Key) (latest : Z) (s : State) : State := (mkKeys (mKeyPath s.1) l latest, s.2).

(** The loop over the versions [v], ..., [v + n - 1]; [failed] is what happens when one of them cannot be had. *)
Fixpoint fetch (n : nat) (v : Z) (failed : fault) : M State unit :=
  match n with
  | O => ret tt
  | S n =>
      let* s := get in
      let* r := in_client (getSecretByVersion (mKeyPath s.1) v) in
      match r with
      | GOk encodedKey =>
          modify (fun s => set_keys (<[Z.to_nat v := decodeBase64Key encodedKey]> (mAllKeys s.1)) (mLatestVersion s.1) s) ;;;
          fetch n (v + 1) failed
      | _ => stop failed
      end
  end.

(** The constructor, on an object without keys. *)
Definition new_MicrovaultSecretKey : M State unit :=
  let* s := get in
  let* r := in_client (getLatestVersion (mKeyPath s.1)) in
  match r with
  | GOk latestVersion =>
      assert_ (bool_decide (kOldestVersion <= latestVersion)) ;;;
      modify (fun s => set_keys (resize_keys (Z.to_nat (latestVersion + 1)) (mAllKeys s.1)) latestVersion s) ;;;
      fetch (Z.to_nat (latestVersion + 1 - kOldestVersion)) kOldestVersion AssertFail
  | _ => stop AssertFail
  end.

(** [getKeyByVersion]; a version that cannot be had ends the process ([exit(1)]). *)
Definition getKeyByVersion (version : Z) : M State Key :=
  let* s := get in
  (if bool_decide (mLatestVersion s.1 < version) then
     modify (fun s => set_keys (resize_keys (Z.to_nat (version + 1)) (mAllKeys s.1)) (mLatestVersion s.1) s) ;;;
     fetch (Z.to_nat (version - mLatestVersion s.1)) (mLatestVersion s.1 + 1) Uncaught ;;;
     modify (fun s => set_keys (mAllKeys s.1) version s)
   else ret tt) ;;;
  let* s := get in
  if bool_decide (0 <= version) then
    match mAllKeys s.1 !! Z.to_nat version with
    | Some k => ret k
    | None => stop Undefined
    end
  else stop Undefined.

(** [SecretKeyFactory::create]: the port and the path of the vault's key, or the keys of the library. *)
Definition create (reader : INIReader) : option (MicrovaultClient * MicrovaultSecretKey) :=
  let port := GetInteger reader "aes" "microvault.port" 10000 in
  let keyPathOnMicrovault := Get reader "aes" "microvault.key_path" "" in
  if bool_decide (keyPathOnMicrovault <> "") then Some (new_MicrovaultClient port, mkKeys keyPathOnMicrovault [] 0) else None.

(** ** The keys are the vault's *)

Context `{!VaultLaws V}.
Hypothesis oldest_pos : 0 <= kOldestVersion.

Definition secret (s : State) (v : Z) : Key := decodeBase64Key (material (V := V) (version_ref (mKeyPath s.1) v)).

(** The keys below version [top] are the vault's. *)
Definition has_keys (top : Z) (s : State) : Prop :=
  forall v, kOldestVersion <= v < top -> mAllKeys s.1 !! Z.to_nat v = Some (secret s v).

Lemma retry_ok {A} (P : A -> Prop) rounds attempt : (forall i (v v' : V) a, attempt i v = Some (GOk a, v') -> P a) ->
  forall i status c s a c' s', (forall a, status = GOk a -> P a) -> retry rounds i attempt status c s = Done (GOk a) c' s' -> P a.
Proof.
  intros Hat. induction rounds as [|rounds IH]; intros i status c s a c' s' Hst H; [injection H as -> <- <-; by apply Hst|].
  cbn [retry] in H. apply bind_inv in H as (r & c1 & s1 & Hc & H). unfold call in Hc. run_in Hc. destruct s as [cl v].
  destruct (attempt i v) as [[r0 v1]|] eqn:E; [|done]. injection Hc as <- <- <-. destruct r0 as [b| |].
  - injection H as <- <- <-. by eapply Hat.
  - done.
  - apply bind_inv in H as ([] & c2 & s2 & _ & H). eapply IH; [|exact H]. done.
Qed.

Lemma getSecret_material keyPath v c (s : MicrovaultClient * V) m c' s' : getSecretByVersion keyPath v c s = Done (GOk m) c' s' -> m = material (V := V) (version_ref keyPath v).
Proof. intros H. unfold getSecretByVersion in H. eapply (retry_ok (fun m => m = material (V := V) (version_ref keyPath v))) in H; [done| |done]. intros i w w' a Ha. by eapply ExportKey_material. Qed.

Lemma fetch_keys n : forall v failed c s u c' s', kOldestVersion <= v -> 0 <= v -> (Z.to_nat v + n <= length (mAllKeys s.1))%nat ->
  fetch n v failed c s = Done u c' s' -> has_keys v s ->
  has_keys (v + Z.of_nat n) s' /\ mKeyPath s'.1 = mKeyPath s.1 /\ length (mAllKeys s'.1) = length (mAllKeys s.1) /\ mLatestVersion s'.1 = mLatestVersion s.1.
Proof.
  induction n as [|n IH]; intros v failed c s u c' s' Ho Hv Hlen H Hk; [injection H as <- <- <-; by rewrite Z.add_0_r|].
  cbn [fetch] in H. unfold in_client in H. run_in H. destruct (getSecretByVersion (mKeyPath s.1) v c s.2) as [r c1 cl1|] eqn:E; [|done].
  destruct r as [m| |]; [|done..]. apply getSecret_material in E as ->. set (s1 := set_keys _ _ _) in H.
  assert (length (mAllKeys s1.1) = length (mAllKeys s.1)) as Hl by (cbn; apply length_insert).
  destruct (IH (v + 1) failed c1 s1 u c' s') as (H1 & H2 & H3 & H4); [lia|lia|rewrite Hl; lia|exact H| |].
  - intros w Hw. unfold s1. cbn [fst snd set_keys mAllKeys mKeyPath]. destruct (decide (w = v)) as [->|Hne].
    + rewrite list_lookup_insert_eq by lia. done.
    + rewrite list_lookup_insert_ne by lia. apply Hk. lia.
  - replace (v + Z.of_nat (S n)) with (v + 1 + Z.of_nat n) by lia. by rewrite H3, Hl.
Qed.

Lemma resize_length n l : length (resize_keys n l) = n.
Proof. unfold resize_keys. rewrite length_app, length_take, length_replicate. lia. Qed.

Lemma resize_lookup n l i k : l !! i = Some k -> (i < n)%nat -> resize_keys n l !! i = Some k.
Proof.
  intros H Hi. unfold resize_keys. pose proof (lookup_lt_Some _ _ _ H). rewrite lookup_app_l by (rewrite length_take; lia). by rewrite lookup_take_lt.
Qed.

(** The keys of all versions up to the latest are there. *)
Record keys_ok (s : State) : Prop := {
  ko_keys : has_keys (mLatestVersion s.1 + 1) s;
  ko_latest : kOldestVersion <= mLatestVersion s.1;
  ko_length : length (mAllKeys s.1) = Z.to_nat (mLatestVersion s.1 + 1);
}.

Lemma new_keys_ok c s u c' s' : mAllKeys s.1 = [] -> new_MicrovaultSecretKey c s = Done u c' s' -> keys_ok s' /\ mKeyPath s'.1 = mKeyPath s.1.
Proof.
  intros He H. unfold new_MicrovaultSecretKey, in_client in H. run_in H. destruct (getLatestVersion (mKeyPath s.1) c s.2) as [r c1 cl1|]; [|done].
  destruct r as [latest| |]; [|done..]. case_bool_decide as Hle; [|done]. cbv beta iota in H. set (s1 := set_keys _ _ _) in H.
  destruct (fetch_keys (Z.to_nat (latest + 1 - kOldestVersion)) kOldestVersion AssertFail c1 s1 u c' s') as (H1 & H2 & H3 & H4);
    [lia|lia|cbn; rewrite resize_length; lia|exact H|intros w Hw; lia|].
  cbn in H2, H3, H4. rewrite resize_length in H3. split; [|done]. replace (kOldestVersion + Z.of_nat (Z.to_nat (latest + 1 - kOldestVersion))) with (latest + 1) in H1 by lia.
  split; rewrite H4; [done|done|done].
Qed.

Lemma getKey_ok version c s k c' s' : keys_ok s -> kOldestVersion <= version -> getKeyByVersion version c s = Done k c' s' ->
  k = secret s version /\ keys_ok s' /\ mKeyPath s'.1 = mKeyPath s.1 /\ (version <= mLatestVersion s.1 -> s' = s).
Proof.
  intros [Hk Hl Hlen] Hv H. unfold getKeyByVersion in H. run_in H. rewrite (bool_decide_eq_true_2 (0 <= version)) in H by lia. case_bool_decide as Hgt.
  - set (s1 := set_keys _ _ _) in H at 1.
    destruct (fetch (Z.to_nat (version - mLatestVersion s.1)) (mLatestVersion s.1 + 1) Uncaught c s1) as [[] c1 s2|] eqn:E; [|done].
    destruct (fetch_keys (Z.to_nat (version - mLatestVersion s.1)) (mLatestVersion s.1 + 1) Uncaught c s1 tt c1 s2) as (H1 & H2 & H3 & H4);
      [lia|lia|cbn; rewrite resize_length; lia|exact E| |].
    { intros w Hw. cbn. apply resize_lookup; [apply Hk; lia|lia]. }
    cbn in H2, H3, H4. rewrite resize_length in H3. replace (mLatestVersion s.1 + 1 + Z.of_nat (Z.to_nat (version - mLatestVersion s.1))) with (version + 1) in H1 by lia.
    cbn in H. rewrite (H1 version) in H by lia. injection H as <- <- <-. unfold secret. rewrite H2. split_and!; [done| |done|lia]. by split; cbn; [|lia|].
  - rewrite (Hk version) in H by lia. injection H as <- <- <-. by split_and!.
Qed.

(** Requests for keys, one after the other. *)
Fixpoint getKeys (l : list Z) : M State (list Key) :=
  match l with
  | [] => ret []
  | v :: l => let* k := getKeyByVersion v in let* ks := getKeys l in ret (k :: ks)
  end.

Lemma getKeys_ok l : forall c s ks c' s', keys_ok s -> Forall (fun v => kOldestVersion <= v) l -> getKeys l c s = Done ks c' s' ->
  ks = secret s <$> l /\ keys_ok s' /\ mKeyPath s'.1 = mKeyPath s.1.
Proof.
  induction l as [|v l IH]; intros c s ks c' s' Hs Hl H; [by injection H as <- <- <-|]. apply Forall_cons in Hl as [Hv Hl]. cbn [getKeys] in H.
  apply bind_inv in H as (k & c1 & s1 & H1 & H). apply bind_inv in H as (ks1 & c2 & s2 & H2 & H). injection H as <- <- <-.
  destruct (getKey_ok v c s k c1 s1 Hs Hv H1) as (-> & Hs1 & Hp & _). destruct (IH c1 s1 ks1 c2 s2 Hs1 Hl H2) as (-> & Hs2 & Hp2).
  split_and!; [|done|congruence]. cbn. f_equal. apply list_fmap_ext. intros i x _. unfold secret. by rewrite Hp.
Qed.

(** The vault has every version and answers. *)
Definition vault_answers (keyPath : string) (latest : Z) : Prop :=
  (forall v : V, exists v', GetKeyInfo 0 keyPath v = Some (GOk latest, v')) /\
  forall version (v : V), exists v', ExportKey 0 (version_ref keyPath version) v = Some (GOk (material (V := V) (version_ref keyPath version)), v').

Lemma fetch_runs n latest : forall v failed c s, vault_answers (mKeyPath s.1) latest -> exists s', fetch n v failed c s = Done tt c s'.
Proof.
  induction n as [|n IH]; intros v failed c s Ha; [by exists s|]. cbn [fetch]. destruct (proj2 Ha v s.2.2) as [v' Hv].
  unfold in_client. run. unfold getSecretByVersion, retry, kMaxRetryTimes, call. run. destruct s as [k [cl w]]. cbn in Hv |- *. rewrite Hv. by apply IH.
Qed.

Lemma new_runs latest c s : vault_answers (mKeyPath s.1) latest -> kOldestVersion <= latest -> exists s', new_MicrovaultSecretKey c s = Done tt c s'.
Proof.
  intros Ha Hle. unfold new_MicrovaultSecretKey, in_client. destruct (proj1 Ha s.2.2) as [v' Hv]. run. unfold getLatestVersion, retry, kMaxRetryTimes, call. run.
  destruct s as [k [cl w]]. cbn in Hv |- *. rewrite Hv. rewrite bool_decide_eq_true_2 by done. by eapply fetch_runs.
Qed.

Lemma getKey_runs latest version c s : vault_answers (mKeyPath s.1) latest -> keys_ok s -> kOldestVersion <= version ->
  exists k s', getKeyByVersion version c s = Done k c s'.
Proof.
  intros Ha [Hk Hl Hlen] Hv. unfold getKeyByVersion. run. rewrite (bool_decide_eq_true_2 (0 <= version)) by lia. case_bool_decide as Hgt.
  - set (s1 := set_keys _ _ _) at 1. destruct (fetch_runs (Z.to_nat (version - mLatestVersion s.1)) latest (mLatestVersion s.1 + 1) Uncaught c s1 Ha) as [s2 E].
    rewrite E. destruct (fetch_keys (Z.to_nat (version - mLatestVersion s.1)) (mLatestVersion s.1 + 1) Uncaught c s1 tt c s2) as (H1 & _);
      [lia|lia|cbn; rewrite resize_length; lia|exact E| |].
    { intros w Hw. cbn. apply resize_lookup; [apply Hk; lia|lia]. }
    cbn. rewrite (H1 version) by lia. by eexists _, _.
  - rewrite (Hk version) by lia. by eexists _, _.
Qed.

Lemma getKeys_runs latest l : forall c s, vault_answers (mKeyPath s.1) latest -> keys_ok s -> Forall (fun v => kOldestVersion <= v) l ->
  exists ks s', getKeys l c s = Done ks c s'.
Proof.
  induction l as [|v l IH]; intros c s Ha Hs Hl; [by eexists _, _|]. apply Forall_cons in Hl as [Hv Hl]. cbn [getKeys].
  destruct (getKey_runs latest v c s Ha Hs Hv) as (k & s1 & E). destruct (getKey_ok v c s k c s1 Hs Hv E) as (_ & Hs1 & Hp & _).
  destruct (IH c s1) as (ks & s2 & E2); [by rewrite Hp|done|done|]. rewrite (bind_Done _ _ _ _ _ _ _ E), (bind_Done _ _ _ _ _ _ _ E2). by eexists _, _.
Qed.

(** C26: the keys are the vault's. With a vault that answers, the server starts; whatever versions are asked for then, in any order and any number of
    times, every key is the one the vault keeps under that version, and a version that is known is served without asking the
    vault. *)
Theorem keys_are_the_vaults l latest version c s :
  mAllKeys s.1 = [] -> vault_answers (mKeyPath s.1) latest -> kOldestVersion <= latest ->
  Forall (fun v => kOldestVersion <= v) l -> kOldestVersion <= version ->
  exists s1 s2 s3, new_MicrovaultSecretKey c s = Done tt c s1 /\ getKeys l c s1 = Done (secret s <$> l) c s2 /\
    getKeyByVersion version c s2 = Done (secret s version) c s3 /\ (version <= mLatestVersion s2.1 -> s3 = s2).
Proof.
  intros He Ha Hla Hl Hv. destruct (new_runs latest c s Ha Hla) as [s1 E1]. destruct (new_keys_ok c s tt c s1 He E1) as [Hs1 Hp1].
  destruct (getKeys_runs latest l c s1) as (ks & s2 & E2); [by rewrite Hp1|done|done|]. destruct (getKeys_ok l c s1 ks c s2 Hs1 Hl E2) as (-> & Hs2 & Hp2).
  destruct (getKey_runs latest version c s2) as (k & s3 & E3); [by rewrite Hp2, Hp1|done|done|].
  destruct (getKey_ok version c s2 k c s3 Hs2 Hv E3) as (-> & _ & _ & Hsame). exists s1, s2, s3. unfold secret in *. rewrite Hp2, Hp1 in E3.
  split_and!; [done| |done|done]. by rewrite E2, Hp1.
Qed.

End Keys.

(** ** Failures *)

Section Failures.
Context {V : Type} `{!Vault V}.

(** A key that is not there is not asked for again. *)
Theorem missing_key_is_final keyPath version c cl (v v' : V) :
  ExportKey 0 (version_ref keyPath version) v = Some (GNotFound, v') ->
  getSecretByVersion keyPath version c (cl, v) = Done GNotFound c (cl, v').
Proof. intros H. unfold getSecretByVersion, kMaxRetryTimes. cbn [retry]. unfold call. run. by rewrite H. Qed.

(** The latest version is asked for again after a failure, on a new channel. *)
Theorem latest_version_is_retried keyPath c cl (v v1 v2 : V) latest :
  GetKeyInfo 0 keyPath v = Some (GError, v1) -> GetKeyInfo 0 keyPath v1 = Some (GOk latest, v2) ->
  getLatestVersion keyPath c (cl, v) = Done (GOk latest) c (mkClient (mEndPoint cl) (S (mStub cl)), v2).
Proof. intros H1 H2. unfold getLatestVersion, kMaxRetryTimes. cbn [retry]. unfold call, refreshChannel. run. rewrite H1. cbn. by rewrite H2. Qed.

(** A secret is not: the call is made again with the context of the first, which gRPC does not allow. *)
Theorem secret_retry_reuses_context keyPath version c cl (v v1 : V) :
  (forall n ref (w : V), ExportKey (S n) ref w = None) -> ExportKey 0 (version_ref keyPath version) v = Some (GError, v1) ->
  getSecretByVersion keyPath version c (cl, v) = Stop Uncaught.
Proof. intros Hreuse H. unfold getSecretByVersion, kMaxRetryTimes. cbn [retry]. unfold call, refreshChannel. run. rewrite H. cbn. by rewrite Hreuse. Qed.

End Failures.

(** ** A vault *)

#[local] Instance plain_vault : Vault unit := {
  GetKeyInfo _ _ v := Some (GOk 2, v);
  ExportKey uses ref v := match uses with O => Some (GOk ("key of " +:+ ref), v) | S _ => None end;
}.

#[local] Instance plain_vault_laws : VaultLaws unit.
Proof. refine {| material ref := "key of " +:+ ref |}. by intros [|n] ref v v' s [= <- _]. Defined.

#[local] Instance plain_keys : KeyFormat := {| Key := string; unset_key := ""; decodeBase64Key s := s; kOldestVersion := 1 |}.

Definition started_keys : State := (mkKeys "aes" [] 0, (new_MicrovaultClient 10000, tt)).

Lemma keys_are_the_vaults_witness :
  exists s1 s2 s3, new_MicrovaultSecretKey (fun _ => 0) started_keys = Done tt (fun _ => 0) s1 /\
    getKeys [1; 4; 2] (fun _ => 0) s1 = Done ["key of aes/versions/1"; "key of aes/versions/4"; "key of aes/versions/2"] (fun _ => 0) s2 /\
    getKeyByVersion 3 (fun _ => 0) s2 = Done "key of aes/versions/3" (fun _ => 0) s3 /\ (3 <= mLatestVersion s2.1 -> s3 = s2).
Proof.
  destruct (keys_are_the_vaults (V := unit) (KF := plain_keys) ltac:(cbn; lia) [1; 4; 2] 2 3 (fun _ => 0) started_keys) as (s1 & s2 & s3 & H1 & H2 & H3 & H4).
  - reflexivity.
  - split; [intros []; by exists tt|intros n []; by exists tt].
  - cbn. lia.
  - repeat constructor; cbn; lia.
  - cbn. lia.
  - exists s1, s2, s3. split; [exact H1|]. split; [rewrite H2; vm_compute; reflexivity|]. split; [rewrite H3; vm_compute; reflexivity|exact H4].
Defined.
