(* ===== verification/Status.v ===== *)
(** * Status codes

    [utils::Status] (kv-engine/utils/Status.h): the result of every engine
    operation, a code and a message. *)

From S2P Require Import Prelude.

Module Status.

Inductive Code :=
| OK
| ERROR
| OOM
| NOTFOUND
| PRECOND_UNMATCHED
| NOTSUPPORTED
| INVALID_ARG
| EXPIRED
| NOT_LEADER
| STOPPED
| CLIENT_ROUTE_OUT_OF_DATE
| SERVER_ROUTE_OUT_OF_DATE
| OUT_OF_SERVICE
| WRONG_ROUTE
| MIGRATED_ROUTE.

#[global] Instance Code_eq_dec : EqDecision Code.
Proof. solve_decision. Defined.

Record t := mk { mCode : Code; mMsg : string }.

#[global] Instance t_eq_dec : EqDecision t.
Proof. solve_decision. Defined.

Definition has (code : Code) (s : t) : bool := bool_decide (mCode s = code).

Definition isOK (s : t) : bool := has OK s.
Definition isNotFound (s : t) : bool := has NOTFOUND s.
Definition isPrecondUnMatched (s : t) : bool := has PRECOND_UNMATCHED s.
Definition isNotSupported (s : t) : bool := has NOTSUPPORTED s.
Definition isInvalidArg (s : t) : bool := has INVALID_ARG s.
Definition isExpired (s : t) : bool := has EXPIRED s.
Definition isNotLeader (s : t) : bool := has NOT_LEADER s.
Definition isClientRouteOutOfDate (s : t) : bool := has CLIENT_ROUTE_OUT_OF_DATE s.
Definition isServerRouteOutOfDate (s : t) : bool := has SERVER_ROUTE_OUT_OF_DATE s.
Definition isWrongRoute (s : t) : bool := has WRONG_ROUTE s.
Definition isMigratedRoute (s : t) : bool := has MIGRATED_ROUTE s.

Definition getDetail (s : t) : string := mMsg s.

Definition ok : t := mk OK "".
Definition error (msg : string) : t := mk ERROR msg.
Definition notFound (msg : string) : t := mk NOTFOUND msg.
Definition precondUnmatched (msg : string) : t := mk PRECOND_UNMATCHED msg.
Definition notSupported (msg : string) : t := mk NOTSUPPORTED msg.
Definition invalidArg (msg : string) : t := mk INVALID_ARG msg.
Definition expired (msg : string) : t := mk EXPIRED msg.
Definition notLeader (msg : string) : t := mk NOT_LEADER msg.
Definition stopped (msg : string) : t := mk STOPPED msg.
Definition clientRouteOutOfDate (msg : string) : t := mk CLIENT_ROUTE_OUT_OF_DATE msg.
Definition serverRouteOutOfDate (msg : string) : t := mk SERVER_ROUTE_OUT_OF_DATE msg.
Definition outOfService (msg : string) : t := mk OUT_OF_SERVICE msg.
Definition wrongRoute (msg : string) : t := mk WRONG_ROUTE msg.
Definition migratedRoute (msg : string) : t := mk MIGRATED_ROUTE msg.

Lemma isOK_code s : isOK s = true <-> mCode s = OK.
Proof. apply bool_decide_eq_true. Qed.

Lemma isNotFound_code s : isNotFound s = true <-> mCode s = NOTFOUND.
Proof. apply bool_decide_eq_true. Qed.

(** No status is both a success and a miss. *)
Lemma isOK_not_isNotFound s : isOK s = true -> isNotFound s = false.
Proof. rewrite isOK_code. unfold isNotFound, has. intros ->. reflexivity. Qed.

End Status.

(** [proto::ResponseCode] (protocols/common.proto) *)
Inductive ResponseCode :=
| RC_UNKNOWN
| RC_PROCESSING
| RC_OK
| RC_CREATED
| RC_KEY_NOT_EXIST
| RC_IGNORED_REQUEST
| RC_NOT_LEADER
| RC_BAD_REQUEST
| RC_PRECOND_NOT_MATCHED
| RC_WRONG_ROUTE
| RC_MIGRATED_ROUTE
| RC_CLIENT_ROUTE_OUT_OF_DATE
| RC_SERVER_ROUTE_OUT_OF_DATE
| RC_GENERAL_ERROR.

#[global] Instance ResponseCode_eq_dec : EqDecision ResponseCode.
Proof. solve_decision. Defined.
