(* ===== verification/Proto.v ===== *)
(** * Messages

    The protocol-buffer messages the engine reads and builds
    (protocols/userdefine.proto, storage.proto, model.proto, service.proto,
    common.proto). A singular sub-message whose presence the code tests
    ([has_udfmeta]) is an option; one it only reads through its accessor, which
    yields the default instance when unset, is a plain record. *)

From S2P Require Import Prelude Status.

(** [goblin.proto.UserDefinedMeta] *)
Record UserDefinedMeta := mkUdf {
  uintfield : list Z;
  strfield : list string;
}.

#[global] Instance UserDefinedMeta_eq_dec : EqDecision UserDefinedMeta.
Proof. solve_decision. Defined.

(** [store::DEFAULT_UDFMETA] *)
Definition DEFAULT_UDFMETA : UserDefinedMeta := mkUdf [] [].

(** The test every store makes before it keeps a user-defined meta:
    [!udfMeta.uintfield().empty() || !udfMeta.strfield().empty()]. *)
Definition udf_nonempty (u : UserDefinedMeta) : bool :=
  match uintfield u, strfield u with [], [] => false | _, _ => true end.

Lemma udf_nonempty_false u : udf_nonempty u = false <-> u = DEFAULT_UDFMETA.
Proof. unfold DEFAULT_UDFMETA. destruct u as [[|] [|]]; cbn; split; congruence. Qed.

(** What the loops [for (val : u.uintfield()) m->mutable_udfmeta()->add_uintfield(val)]
    (and the same for [strfield]) leave in a message [m] whose [udfmeta] was
    [old]: the sub-message is created by the first [mutable_udfmeta()] only. *)
Definition append_udf (u : UserDefinedMeta) (old : option UserDefinedMeta) : option UserDefinedMeta :=
  if udf_nonempty u
  then let o := default DEFAULT_UDFMETA old in
       Some (mkUdf (uintfield o ++ uintfield u) (strfield o ++ strfield u))
  else old.

Lemma append_udf_fresh u :
  append_udf u None = if udf_nonempty u then Some u else None.
Proof. unfold append_udf. destruct u; destruct (udf_nonempty _); reflexivity. Qed.

(** [proto::Meta::DataType]; [OTHERS] stands for every other value of the
    open enumeration. *)
Inductive DataType := NORMAL | NORMAL_WITH_TTL | OTHERS (z : Z).

(** [proto::Meta::OpType] *)
Inductive OpType := SINGLE | SET_ADD | SET_REMOVE.

#[global] Instance DataType_eq_dec : EqDecision DataType.
Proof. solve_decision. Defined.
#[global] Instance OpType_eq_dec : EqDecision OpType.
Proof. solve_decision. Defined.

(** [goblin.proto.Meta] *)
Record Meta := mkMeta {
  m_dataType : DataType;
  m_version : Z;
  m_ttl : Z;
  m_deadline : Z;
  m_opType : OpType;
  m_updateTime : Z;
  m_udfMeta : option UserDefinedMeta;
}.

#[global] Instance Meta_eq_dec : EqDecision Meta.
Proof. solve_decision. Defined.

(** A freshly declared [proto::Meta meta;] *)
Definition empty_meta : Meta := mkMeta NORMAL 0 0 0 SINGLE 0 None.

(** [goblin.proto.Data]: a single value, several values, or nothing set. *)
Inductive Data :=
| SingleValue (value : string)
| MultiValue (values : list string)
| NoData.

#[global] Instance Data_eq_dec : EqDecision Data.
Proof. solve_decision. Defined.

(** [goblin.proto.Payload] *)
Record Payload := mkPayload { p_meta : Meta; p_data : Data }.

(** ** Requests and responses (service.proto, common.proto) *)

Record RequestHeader := mkReqHeader { rq_knownVersion : Z; rq_routeVersion : Z }.

Record ResponseHeader := mkRespHeader {
  h_code : ResponseCode;
  h_message : string;
  h_latestVersion : Z;
  h_leaderHint : string;
  h_routeHint : list string;
  h_leaderIp : string;
}.

Definition empty_header : ResponseHeader := mkRespHeader RC_UNKNOWN "" 0 "" [] "".

Record WriteEntry := mkWriteEntry {
  we_key : string;
  we_value : string;
  we_enableTTL : bool;
  we_ttl : Z;
  we_version : Z;
  we_updateTime : Z;
  we_udfMeta : UserDefinedMeta;
}.

Record WriteResult := mkWriteResult { wr_code : ResponseCode; wr_version : Z }.
Definition empty_write_result : WriteResult := mkWriteResult RC_UNKNOWN 0.

Record ReadEntry := mkReadEntry { re_key : string; re_version : Z }.

Record ReadResult := mkReadResult {
  rr_code : ResponseCode;
  rr_version : Z;
  rr_value : string;
  rr_updateTime : Z;
  rr_udfMeta : option UserDefinedMeta;
}.
Definition empty_read_result : ReadResult := mkReadResult RC_UNKNOWN 0 "" 0 None.

Record RemoveEntry := mkRemoveEntry { de_key : string; de_version : Z }.

Record RemoveResult := mkRemoveResult {
  dr_code : ResponseCode;
  dr_version : Z;
  dr_value : string;
}.
Definition empty_remove_result : RemoveResult := mkRemoveResult RC_UNKNOWN 0 "".

(** [ReadWrite.Entry], a oneof that may be unset. *)
Inductive ReadWriteEntry :=
| RWWrite (e : WriteEntry)
| RWRead (e : ReadEntry)
| RWRemove (e : RemoveEntry)
| RWUnset.

(** [ReadWrite.Result] *)
Inductive ReadWriteResult :=
| WriteRes (r : WriteResult)
| ReadRes (r : ReadResult)
| RemoveRes (r : RemoveResult)
| UnsetRes.

(** [Precondition.CompareOp] *)
Inductive CompareOp := EQUAL | GREATER | LESS | NOT_EQUAL | OtherOp (z : Z).

(** [UserMetaCondition.UdfMetaType] *)
Inductive UdfMetaType := NOT_SPECIFIED | NUM | STR | OtherMeta (z : Z).

#[global] Instance CompareOp_eq_dec : EqDecision CompareOp.
Proof. solve_decision. Defined.
#[global] Instance UdfMetaType_eq_dec : EqDecision UdfMetaType.
Proof. solve_decision. Defined.

(** [Precondition], a oneof that may be unset. *)
Inductive Precondition :=
| VersionCond (key : string) (version : Z) (op : CompareOp)
| ExistCond (key : string) (shouldExist : bool)
| UserMetaCond (key : string) (metaType : UdfMetaType) (udf : UserDefinedMeta)
    (pos : Z) (op : CompareOp)
| CondUnset.

Record PutRequest := mkPutRequest { pq_header : RequestHeader; pq_entry : WriteEntry }.
Record PutResponse := mkPutResponse { pp_header : ResponseHeader; pp_result : WriteResult }.

Record GetRequest := mkGetRequest {
  gq_header : RequestHeader;
  gq_entry : ReadEntry;
  gq_allowStale : bool;
  gq_isMetaReturned : bool;
}.
Record GetResponse := mkGetResponse { gp_header : ResponseHeader; gp_result : ReadResult }.

Record DeleteRequest := mkDeleteRequest {
  dq_header : RequestHeader;
  dq_entry : RemoveEntry;
  dq_returnValue : bool;
}.
Record DeleteResponse := mkDeleteResponse { dp_header : ResponseHeader; dp_result : RemoveResult }.

Record TransRequest := mkTransRequest {
  tq_header : RequestHeader;
  tq_preconds : list Precondition;
  tq_entries : list ReadWriteEntry;
  tq_isMetaReturned : bool;
  tq_allowStale : bool;
}.
Record TransResponse := mkTransResponse {
  tp_header : ResponseHeader;
  tp_results : list ReadWriteResult;
  tp_ignoredPutKeys : list string;
}.

Record ExeBatchRequest := mkExeBatchRequest { bq_header : RequestHeader; bq_entries : list ReadWriteEntry }.
Record ExeBatchResponse := mkExeBatchResponse { bp_header : ResponseHeader; bp_results : list ReadWriteResult }.

Record MigrateBatchRequest := mkMigrateBatchRequest { mq_header : RequestHeader; mq_entries : list WriteEntry }.
Record MigrateBatchResponse := mkMigrateBatchResponse { mb_header : ResponseHeader; mb_results : list WriteResult }.

Record GenerateRequest := mkGenerateRequest {
  nq_header : RequestHeader;
  nq_srcKeys : list string;
  nq_tgtKeys : list string;
  nq_inputInfo : string;
}.
(** [partials] and [message] of the result are never set. *)
Record GenerateResult := mkGenerateResult { nr_code : ResponseCode; nr_outputInfo : string }.
Record GenerateResponse := mkGenerateResponse { np_header : ResponseHeader; np_result : GenerateResult }.

(** ** Replicated events (model.proto) *)

Record ProtoWriteEvent := mkProtoWrite {
  pw_key : string;
  pw_value : string;
  pw_version : Z;
  pw_enableTTL : bool;
  pw_ttl : Z;
  pw_deadline : Z;
  pw_updateTime : Z;
  pw_isNoop : bool;
  pw_udfMeta : option UserDefinedMeta;
}.

Record ProtoDeleteEvent := mkProtoDelete {
  pd_key : string;
  pd_deletedValue : string;
  pd_deletedVersion : Z;
  pd_version : Z;
}.

(** [goblin.proto.Event], a oneof; [PAppend] carries no data and [PUnset] is
    the event with nothing set. *)
Inductive ProtoEvent :=
| PWrite (w : ProtoWriteEvent)
| PDelete (d : ProtoDeleteEvent)
| PAppend
| PUnset.

(** [goblin.proto.Bundle] *)
Definition Bundle := list ProtoEvent.
