(* ===== verification/KVStore.v ===== *)
(** * The store interface

    [store::KVStore] (kv-engine/store/KVStore.h) is the virtual interface every
    store implements: the RocksDB store, the three in-memory stores, the
    temporal store of a transaction and the proxies between them. It is a type
    class of operations in the effect monad; the default bodies of the base
    class are definitions the instances share. The defaulted parameter
    [wsLookup] is [nullptr] at every call of the repository and is left out of
    the interface; [RocksDBKVStore.v] keeps it where it is consulted. *)

From S2P Require Import Prelude Status Proto.

(** ** Types (kv-engine/types.h, KVStore.h) *)

Abbreviation KeyType := string (only parsing).
Abbreviation ValueType := string (only parsing).
Abbreviation VersionType := Z (only parsing).
Abbreviation TTLType := Z (only parsing).
Abbreviation TimeType := Z (only parsing).
Abbreviation WSName := string (only parsing).

(** The [WSLookupFunc] a store is built with: the working set of a key. *)
Class WSLookup := mDefaultWSLookupFunc : KeyType -> WSName.

Definition INFINITE_TTL : Z := 0.
Definition NEVER_EXPIRE : Z := 0.
Definition NOT_UPDATED : Z := 0.

(** [VersionStore::kInvalidVersion] *)
Definition kInvalidVersion : Z := 0.

(** The out-parameters [ValueType *outValue, TTLType *outTTL, VersionType
    *outVersion] of a read: what the caller's variables hold. A read returns
    them as it leaves them. *)
Record ReadOut := mkOut { outValue : string; outTTL : Z; outVersion : Z }.

(** The caller's variables initialised as the commands do. *)
Definition fresh_out : ReadOut := mkOut "" INFINITE_TTL kInvalidVersion.

Definition set_outVersion (v : Z) (o : ReadOut) : ReadOut :=
  mkOut (outValue o) (outTTL o) v.

(** [KVStore::isTimeOut]: the clock is read only when the key has a ttl. *)
Definition isTimeOut {S} (deadline ttl : Z) : M S bool :=
  if bool_decide (ttl = INFINITE_TTL) then ret false
  else let* now := secondsSinceEpoch in ret (bool_decide (deadline <= now)).

(** ** The interface *)

Class KVStore (S : Type) := {
  kvOpen : M S Status.t;
  kvClose : M S Status.t;
  kvLock : list KeyType -> bool -> M S Status.t;
  kvUnlock : list KeyType -> bool -> M S Status.t;
  kvWriteKV : KeyType -> ValueType -> VersionType -> TimeType -> UserDefinedMeta ->
              M S Status.t;
  kvWriteTTLKV : KeyType -> ValueType -> VersionType -> TTLType -> TimeType -> TimeType ->
                 UserDefinedMeta -> M S Status.t;
  kvReadKV : KeyType -> ReadOut -> M S (Status.t * ReadOut);
  kvDeleteKV : KeyType -> VersionType -> VersionType -> M S Status.t;
  kvReadKVFromProxy : KeyType -> ReadOut -> M S (Status.t * ReadOut);
  kvReadMeta : KeyType -> Meta -> M S (Status.t * Meta);
  kvReadMetaFromProxy : KeyType -> Meta -> M S (Status.t * Meta);
  kvCommit : Z -> M S Status.t;
  kvLoadMilestone : Z -> M S (Status.t * Z);
  kvClear : M S unit;
  kvFlush : M S Status.t;
  kvEvictKV : list KeyType -> VersionType -> M S Status.t;
}.
#[global] Hint Mode KVStore ! : typeclass_instances.

(** The default bodies of [KVStore]: [lock]/[unlock]/[flush] do nothing,
    [readKVFromProxy], [readMetaFromProxy] and [evictKV] assert. *)
Definition default_lock {S} (targetKeys : list KeyType) (isExclusive : bool) : M S Status.t :=
  ret Status.ok.
Definition default_unlock {S} (targetKeys : list KeyType) (isExclusive : bool) : M S Status.t :=
  ret Status.ok.
Definition default_flush {S} : M S Status.t := ret Status.ok.
Definition not_supported {S A} : M S A := stop AssertFail.

(** A [KVIterator] over a snapshot: the keys of a working set in order with what is stored for
    them, and a position, past the end when the iterator is not valid. *)
Record KVIterator := mkIterator { it_entries : list (string * string); it_pos : nat }.

(** ** Observers

    [observers] and the four notification loops [onReadValue], [onWriteValue],
    [onDeleteKey], [onEvictKeys]. An observer is known by an index; what it is
    told is logged in call order, and the observers' own state is a function of
    that log (WatchCenter.v, CacheEviction.v). *)

Inductive Notification :=
| OnRead (key : string)
| OnWrite (key value : string) (version : Z)
| OnDelete (key : string) (version deleteRecordVersion : Z)
| OnEvict (keys : list string).

Record Observed := mkObserved {
  observers : list nat;
  told : list (nat * Notification);
}.

Definition no_observers : Observed := mkObserved [] [].

(** [KVStore::registerObserver] *)
Definition registerObserver (id : nat) (o : Observed) : Observed :=
  mkObserved (observers o ++ [id]) (told o).

(** [for (auto &observer : observers) observer->on...(...)] *)
Definition notify (n : Notification) (o : Observed) : Observed :=
  mkObserved (observers o) (told o ++ ((fun id => (id, n)) <$> observers o)).

Lemma observers_notify n o : observers (notify n o) = observers o.
Proof. reflexivity. Qed.

(** ** Client calls

    The calls a command makes on a store, as data: two stores are compared by
    running the same list of calls on both. *)

Inductive StoreCall :=
| CallOpen
| CallClose
| CallWrite (key value : string) (version updateTime : Z) (udfMeta : UserDefinedMeta)
| CallWriteTTL (key value : string) (version ttl deadline updateTime : Z)
    (udfMeta : UserDefinedMeta)
| CallRead (key : string) (out : ReadOut)
| CallDelete (key : string) (deleteRecordVersion deletedVersion : Z)
| CallReadFromProxy (key : string) (out : ReadOut)
| CallReadMeta (key : string) (meta : Meta)
| CallReadMetaFromProxy (key : string) (meta : Meta)
| CallClear
| CallEvict (keys : list string) (guardVersion : Z).

Inductive StoreReply :=
| ReplyStatus (s : Status.t)
| ReplyRead (s : Status.t) (out : ReadOut)
| ReplyMeta (s : Status.t) (meta : Meta)
| ReplyNone.

Section Calls.
Context {S : Type} `{!KVStore S}.

Definition call (op : StoreCall) : M S StoreReply :=
  match op with
  | CallOpen => let* s := kvOpen in ret (ReplyStatus s)
  | CallClose => let* s := kvClose in ret (ReplyStatus s)
  | CallWrite k v ver t u => let* s := kvWriteKV k v ver t u in ret (ReplyStatus s)
  | CallWriteTTL k v ver ttl d t u =>
      let* s := kvWriteTTLKV k v ver ttl d t u in ret (ReplyStatus s)
  | CallRead k o => let* (s, o') := kvReadKV k o in ret (ReplyRead s o')
  | CallDelete k r d => let* s := kvDeleteKV k r d in ret (ReplyStatus s)
  | CallReadFromProxy k o => let* (s, o') := kvReadKVFromProxy k o in ret (ReplyRead s o')
  | CallReadMeta k m => let* (s, m') := kvReadMeta k m in ret (ReplyMeta s m')
  | CallReadMetaFromProxy k m => let* (s, m') := kvReadMetaFromProxy k m in ret (ReplyMeta s m')
  | CallClear => kvClear ;;; ret ReplyNone
  | CallEvict ks g => let* s := kvEvictKV ks g in ret (ReplyStatus s)
  end.

Fixpoint calls (ops : list StoreCall) : M S (list StoreReply) :=
  match ops with
  | [] => ret []
  | op :: ops => let* r := call op in let* rs := calls ops in ret (r :: rs)
  end.

End Calls.

(** [for (...) { s = body(x); if (!s.isOK()) break; } return s;] *)
Fixpoint until_error {S A} (l : list A) (body : A -> M S Status.t) (s : Status.t) : M S Status.t :=
  match l with
  | [] => ret s
  | x :: l => let* s := body x in
              if Status.isOK s then until_error l body s else ret s
  end.

(** A loop whose body cannot fail runs to its end. *)
Lemma until_error_ok {S A} (l : list A) (body : A -> M S Status.t) (body' : A -> M S unit) c s :
  (forall x c s, body x c s = (body' x ;;; ret Status.ok) c s) ->
  until_error l body Status.ok c s = (forM l body' ;;; ret Status.ok) c s.
Proof.
  intros Hb. revert c s. induction l as [|x l IH]; intros c s; cbn [until_error forM]; [done|].
  unfold bind. rewrite Hb. unfold bind. destruct (body' x c s); [|done]. apply IH.
Qed.
