(* ===== verification/SharedMutex.v ===== *)
(** * [std::shared_mutex]

    A mutex as the thread that runs sees it: who holds it. A call that would
    wait stops with [WouldBlock], so that a run that ends is a run that got
    every lock; how several threads wait for each other is the subject of
    Locking.v. *)

From S2P Require Import Prelude.

Inductive SharedMutex :=
| Free
| Shared (readers : positive)
| Exclusive.

#[global] Instance SharedMutex_eq_dec : EqDecision SharedMutex.
Proof. solve_decision. Defined.

Definition acquire (isExclusive : bool) (m : SharedMutex) : option SharedMutex :=
  match isExclusive, m with
  | true, Free => Some Exclusive
  | false, Free => Some (Shared 1)
  | false, Shared n => Some (Shared (Pos.succ n))
  | _, _ => None
  end.

(** Releasing a mutex that is not held in that mode is undefined. *)
Definition release (isExclusive : bool) (m : SharedMutex) : option SharedMutex :=
  match isExclusive, m with
  | true, Exclusive => Some Free
  | false, Shared 1 => Some Free
  | false, Shared n => Some (Shared (Pos.pred n))
  | _, _ => None
  end.

Definition lift_mutex (f : fault) (g : SharedMutex -> option SharedMutex) : M SharedMutex unit :=
  fun c m => match g m with Some m' => Done tt c m' | None => Stop f end.

(** [lock()] / [lock_shared()] *)
Definition lock_mutex (isExclusive : bool) : M SharedMutex unit :=
  lift_mutex WouldBlock (acquire isExclusive).

(** [unlock()] / [unlock_shared()] *)
Definition unlock_mutex (isExclusive : bool) : M SharedMutex unit :=
  lift_mutex Undefined (release isExclusive).

(** Releasing undoes acquiring. *)
Lemma release_acquire e m m' : acquire e m = Some m' -> release e m' = Some m.
Proof.
  destruct e, m as [|n|]; cbn; intros; simplify_eq; try reflexivity.
  destruct (Pos.succ n) eqn:E; [| |lia]; cbn; rewrite <- E, Pos.pred_succ; reflexivity.
Qed.

(** An exclusive holder excludes everyone. *)
Lemma acquire_exclusive e : acquire e Exclusive = None.
Proof. destruct e; reflexivity. Qed.

(** ** Families of mutexes

    [moved f l ms ms']: from the family [ms] to [ms'], every mutex of [l] took
    the transition [f] and no other mutex changed. *)

Section Families.
Context {K : Type} `{!EqDecision K}.
Implicit Types (ms : K -> option SharedMutex) (l : list K).

Definition moved (f : SharedMutex -> option SharedMutex) l ms ms' : Prop :=
  forall i, if decide (i ∈ l)
            then exists m m', ms i = Some m /\ f m = Some m' /\ ms' i = Some m'
            else ms' i = ms i.

Lemma moved_nil f ms : moved f [] ms ms.
Proof. intros i. rewrite decide_False by set_solver. reflexivity. Qed.

Lemma moved_app f l1 l2 ms1 ms2 ms3 :
  (forall i, i ∈ l1 -> i ∉ l2) ->
  moved f l1 ms1 ms2 -> moved f l2 ms2 ms3 -> moved f (l1 ++ l2) ms1 ms3.
Proof.
  intros Hd H1 H2 i. specialize (H1 i). specialize (H2 i). specialize (Hd i).
  destruct (decide (i ∈ l1)), (decide (i ∈ l2)).
  - set_solver.
  - rewrite decide_True by set_solver. rewrite H2. exact H1.
  - rewrite decide_True by set_solver. rewrite <- H1. exact H2.
  - rewrite decide_False by set_solver. congruence.
Qed.

(** Transitions that undo each other do so on families. *)
Lemma moved_undo f g l ms ms' ms'' :
  (forall m m', f m = Some m' -> g m' = Some m) ->
  moved f l ms ms' -> moved g l ms' ms'' -> forall i, ms'' i = ms i.
Proof.
  intros Hfg H1 H2 i. specialize (H1 i). specialize (H2 i).
  destruct (decide (i ∈ l)); [|congruence].
  destruct H1 as (m & m' & H1 & Hf & H1'), H2 as (n & n' & H2 & Hg & H2').
  rewrite H2 in H1'. simplify_eq. apply Hfg in Hf. congruence.
Qed.

Lemma moved_defined f g l ms ms' :
  (forall m m', f m = Some m' -> g m' = Some m) ->
  moved f l ms ms' -> forall i, i ∈ l -> exists m m', ms' i = Some m /\ g m = Some m'.
Proof.
  intros Hfg H i Hi. specialize (H i). rewrite decide_True in H by done.
  destruct H as (m & m' & _ & Hf & ->). eauto.
Qed.

End Families.
