(* ===== verification/Lockable.v ===== *)
(** * What a store promises about its locks

    The command processor locks a set of keys, runs a command against the store
    and unlocks them. Its theorems only need the laws below: taking locks moves
    exactly the mutexes of the keys' footprint, no data operation touches a
    mutex, and releasing needs nothing but that the mutexes are held.
    WSConcurInMemoryKVStore.v discharges them for the engine's store. *)

From S2P Require Import Prelude Status Proto KVStore SharedMutex.

(** [m] leaves the family of mutexes [view] as it is. *)
Definition keeps_locks {S K A} (view : S -> K -> option SharedMutex) (m : M S A) : Prop :=
  forall ms, preserves (fun s => forall i, view s i = ms i) m.

Class Lockable (S : Type) `{!KVStore S} (K : Type) `{!EqDecision K} := {
  lock_view : S -> K -> option SharedMutex;
  footprint : list KeyType -> list K;
  kvLock_moves ks e c s x c' s' :
    kvLock ks e c s = Done x c' s' ->
    x = Status.ok /\ c' = c /\
    moved (acquire e) (footprint ks) (lock_view s) (lock_view s');
  kvUnlock_moves ks e c s :
    (forall i, i ∈ footprint ks ->
       exists m m', lock_view s i = Some m /\ release e m = Some m') ->
    exists s', kvUnlock ks e c s = Done Status.ok c s' /\
      moved (release e) (footprint ks) (lock_view s) (lock_view s');
  kvWriteKV_keeps k v ver t u : keeps_locks lock_view (kvWriteKV k v ver t u);
  kvWriteTTLKV_keeps k v ver ttl dl t u :
    keeps_locks lock_view (kvWriteTTLKV k v ver ttl dl t u);
  kvReadKV_keeps k o : keeps_locks lock_view (kvReadKV k o);
  kvDeleteKV_keeps k r d : keeps_locks lock_view (kvDeleteKV k r d);
  kvReadKVFromProxy_keeps k o : keeps_locks lock_view (kvReadKVFromProxy k o);
  kvReadMeta_keeps k m : keeps_locks lock_view (kvReadMeta k m);
  kvReadMetaFromProxy_keeps k m : keeps_locks lock_view (kvReadMetaFromProxy k m);
  kvEvictKV_keeps ks g : keeps_locks lock_view (kvEvictKV ks g);
  kvClear_keeps : keeps_locks lock_view kvClear;
  kvFlush_keeps : keeps_locks lock_view kvFlush;
}.

Section Balance.
Context {S K : Type} `{!KVStore S} `{!EqDecision K} `{!Lockable S K}.

Lemma keeps_ret {A} (a : A) : keeps_locks lock_view (ret a : M S A).
Proof. intros ms. apply preserves_ret. Qed.

Lemma keeps_get : keeps_locks lock_view (get : M S S).
Proof. intros ms. apply preserves_get. Qed.

Lemma keeps_stop {A} f : keeps_locks lock_view (stop f : M S A).
Proof. intros ms. apply preserves_stop. Qed.

Lemma keeps_assert b : keeps_locks lock_view (assert_ b : M S unit).
Proof. intros ms. apply preserves_assert. Qed.

Lemma keeps_seconds : keeps_locks lock_view (secondsSinceEpoch : M S Z).
Proof. intros ms. apply preserves_seconds. Qed.

Lemma keeps_bind {A B} (m : M S A) (k : A -> M S B) :
  keeps_locks lock_view m -> (forall a, keeps_locks lock_view (k a)) ->
  keeps_locks lock_view (bind m k).
Proof. intros Hm Hk ms. apply preserves_bind; [apply Hm | intros; apply Hk]. Qed.

Lemma keeps_forM {A} (l : list A) (b : A -> M S unit) :
  (forall x, keeps_locks lock_view (b x)) -> keeps_locks lock_view (forM l b).
Proof. intros Hb ms. apply preserves_forM. intros. apply Hb. Qed.

(** A body that leaves the mutexes alone, run between [lock] and [unlock] of the
    same keys in the same mode, ends with every mutex as it was. *)
Definition locked {A} (keys : list KeyType) (isExclusive : bool) (body : M S A) : M S A :=
  kvLock keys isExclusive ;;;
  let* a := body in
  kvUnlock keys isExclusive ;;;
  ret a.

Lemma locked_inv {A} ks e (body : M S A) c s a c' s' :
  keeps_locks lock_view body ->
  locked ks e body c s = Done a c' s' ->
  (forall i, lock_view s' i = lock_view s i) /\
  exists s1 s2, kvLock ks e c s = Done Status.ok c s1 /\ body c s1 = Done a c' s2 /\
    kvUnlock ks e c' s2 = Done Status.ok c' s'.
Proof.
  intros Hb H. unfold locked in H.
  apply bind_inv in H as (x & c1 & s1 & Hlock & H).
  apply bind_inv in H as (a' & c2 & s2 & Hbody & H).
  destruct (kvLock_moves _ _ _ _ _ _ _ Hlock) as (-> & -> & Hmv).
  assert (forall i, lock_view s2 i = lock_view s1 i) as Hv.
  { apply (Hb (lock_view s1) c s1 a' c2 s2); [done | exact Hbody]. }
  destruct (kvUnlock_moves ks e c2 s2) as (s3 & Hun & Hmv3).
  { intros i Hi. rewrite Hv. eapply moved_defined; [|exact Hmv|exact Hi]. apply release_acquire. }
  rewrite (bind_Done _ _ _ _ _ _ _ Hun) in H. run_in H. simplify_eq.
  split; [|eauto 6].
  eapply moved_undo; [apply release_acquire | exact Hmv |].
  intros i. specialize (Hmv3 i). rewrite Hv in Hmv3. exact Hmv3.
Qed.

End Balance.

#[export] Hint Resolve keeps_ret keeps_get keeps_stop keeps_assert keeps_seconds keeps_bind
  keeps_forM kvWriteKV_keeps kvWriteTTLKV_keeps kvReadKV_keeps kvDeleteKV_keeps
  kvReadKVFromProxy_keeps kvReadMeta_keeps kvReadMetaFromProxy_keeps kvEvictKV_keeps
  kvClear_keeps kvFlush_keeps : goblin.

(** Split a method into its calls; each keeps the locks by a hint. *)
Ltac keeps := repeat (intros; first [ solve [auto with goblin] | apply keeps_bind | case_match ]).
