(* ===== verification/ProxyKVStore.v ===== *)
(** * Proxy stores

    [ProxyKVStore], [ReadOnlyKVStore] and [WriteOnlyKVStore]
    (kv-engine/store/ProxyKVStore.h, ReadOnlyKVStore.h, WriteOnlyKVStore.h):
    stores that forward to a delegate. The read-only proxy is what stands
    between the in-memory stores and RocksDB. *)

From S2P Require Import Prelude Status Proto KVStore.

Record ProxyKVStore (D : Type) := mkProxy { mDelegateKVStore : D }.
Arguments mkProxy {D} _.
Arguments mDelegateKVStore {D} _.

Definition delegate {D A} (m : M D A) : M (ProxyKVStore D) A :=
  zoom mDelegateKVStore (fun d _ => mkProxy d) m.

(** [ProxyKVStore] forwards everything but what it does not override: [lock],
    [unlock], [flush], [readKVFromProxy], [readMetaFromProxy] and [evictKV] keep
    the bodies of [KVStore]. *)
#[global] Instance ProxyKVStore_KVStore {D} `{!KVStore D} : KVStore (ProxyKVStore D) := {
  kvOpen := delegate kvOpen;
  kvClose := delegate kvClose;
  kvLock := default_lock;
  kvUnlock := default_unlock;
  kvWriteKV k v ver t u := delegate (kvWriteKV k v ver t u);
  kvWriteTTLKV k v ver ttl d t u := delegate (kvWriteTTLKV k v ver ttl d t u);
  kvReadKV k o := delegate (kvReadKV k o);
  kvDeleteKV k r d := delegate (kvDeleteKV k r d);
  kvReadKVFromProxy _ _ := not_supported;
  kvReadMeta k m := delegate (kvReadMeta k m);
  kvReadMetaFromProxy _ _ := not_supported;
  kvCommit m := delegate (kvCommit m);
  kvLoadMilestone m := delegate (kvLoadMilestone m);
  kvClear := delegate kvClear;
  kvFlush := default_flush;
  kvEvictKV _ _ := not_supported;
}.

Record ReadOnlyKVStore (D : Type) := mkReadOnly { ro_proxy : ProxyKVStore D }.
Arguments mkReadOnly {D} _.
Arguments ro_proxy {D} _.

Definition ro {D A} (m : M (ProxyKVStore D) A) : M (ReadOnlyKVStore D) A :=
  zoom ro_proxy (fun p _ => mkReadOnly p) m.

(** [ReadOnlyKVStore] asserts on every operation that would change its
    delegate, and inherits the rest from [ProxyKVStore]. *)
#[global] Instance ReadOnlyKVStore_KVStore {D} `{!KVStore D} : KVStore (ReadOnlyKVStore D) := {
  kvOpen := ro kvOpen;
  kvClose := ro kvClose;
  kvLock k e := ro (kvLock k e);
  kvUnlock k e := ro (kvUnlock k e);
  kvWriteKV _ _ _ _ _ := not_supported;
  kvWriteTTLKV _ _ _ _ _ _ _ := not_supported;
  kvReadKV k o := ro (kvReadKV k o);
  kvDeleteKV _ _ _ := not_supported;
  kvReadKVFromProxy k o := ro (kvReadKVFromProxy k o);
  kvReadMeta k m := ro (kvReadMeta k m);
  kvReadMetaFromProxy k m := ro (kvReadMetaFromProxy k m);
  kvCommit _ := not_supported;
  kvLoadMilestone _ := not_supported;
  kvClear := not_supported;
  kvFlush := ro kvFlush;
  kvEvictKV k g := ro (kvEvictKV k g);
}.

Record WriteOnlyKVStore (D : Type) := mkWriteOnly { wo_proxy : ProxyKVStore D }.
Arguments mkWriteOnly {D} _.
Arguments wo_proxy {D} _.

Definition wo {D A} (m : M (ProxyKVStore D) A) : M (WriteOnlyKVStore D) A :=
  zoom wo_proxy (fun p _ => mkWriteOnly p) m.

(** [WriteOnlyKVStore] asserts on [readKV] only. *)
#[global] Instance WriteOnlyKVStore_KVStore {D} `{!KVStore D} : KVStore (WriteOnlyKVStore D) := {
  kvOpen := wo kvOpen;
  kvClose := wo kvClose;
  kvLock k e := wo (kvLock k e);
  kvUnlock k e := wo (kvUnlock k e);
  kvWriteKV k v ver t u := wo (kvWriteKV k v ver t u);
  kvWriteTTLKV k v ver ttl d t u := wo (kvWriteTTLKV k v ver ttl d t u);
  kvReadKV _ _ := not_supported;
  kvDeleteKV k r d := wo (kvDeleteKV k r d);
  kvReadKVFromProxy k o := wo (kvReadKVFromProxy k o);
  kvReadMeta k m := wo (kvReadMeta k m);
  kvReadMetaFromProxy k m := wo (kvReadMetaFromProxy k m);
  kvCommit m := wo (kvCommit m);
  kvLoadMilestone m := wo (kvLoadMilestone m);
  kvClear := wo kvClear;
  kvFlush := wo kvFlush;
  kvEvictKV k g := wo (kvEvictKV k g);
}.

Section ReadOnlyFacts.
Context {D : Type} `{!KVStore D}.

(** The store a read-only proxy forwards to. *)
Definition behind (s : ReadOnlyKVStore D) : D := mDelegateKVStore (ro_proxy s).
Definition wrap (d : D) : ReadOnlyKVStore D := mkReadOnly (mkProxy d).

Lemma behind_wrap d : behind (wrap d) = d.
Proof. reflexivity. Qed.

Lemma wrap_behind s : wrap (behind s) = s.
Proof. destruct s as [[d]]. reflexivity. Qed.

Lemma ro_readKV k o c s :
  kvReadKV k o c s = zoom behind (fun d _ => wrap d) (kvReadKV k o) c s.
Proof.
  cbn. unfold ro, delegate, zoom, behind. destruct s as [[d]]; cbn.
  destruct (kvReadKV k o c d); reflexivity.
Qed.

Lemma ro_readMeta k m c s :
  kvReadMeta k m c s = zoom behind (fun d _ => wrap d) (kvReadMeta k m) c s.
Proof.
  cbn. unfold ro, delegate, zoom, behind. destruct s as [[d]]; cbn.
  destruct (kvReadMeta k m c d); reflexivity.
Qed.
End ReadOnlyFacts.
