(* ===== verification/InMemoryKVStore.v ===== *)
(** * The in-memory store

    [store::InMemoryKVStore] (kv-engine/store/InMemoryKVStore.h/.cpp): the
    leader's write-through overlay. Recent writes are in [mData], recent deletes
    leave a tombstone in [mDeletedData], everything else is read from the
    delegate. *)

From S2P Require Import Prelude Status Proto KVStore.

(** The tuple [<ValueType, VersionType, TTLType, TimeType, TimeType>] of
    [mData]. *)
Record Entry := mkEntry {
  e_value : ValueType;
  e_version : VersionType;
  e_ttl : TTLType;
  e_deadline : TimeType;
  e_updateTime : TimeType;
}.

#[global] Instance Entry_eq_dec : EqDecision Entry.
Proof. solve_decision. Defined.

(** The store's own fields. *)
Record Bucket := mkBucket {
  mData : gmap string Entry;
  mUdfMetaMap : gmap string UserDefinedMeta;
  mDeletedData : gmap string Z;
  mObserved : Observed;
}.

Definition empty_bucket : Bucket := mkBucket ∅ ∅ ∅ no_observers.

(** The store: its fields and the delegate it reads through. *)
Record InMemoryKVStore (D : Type) := mkInMemory {
  bucket : Bucket;
  mDelegate : D;
}.
Arguments mkInMemory {D} _ _.
Arguments bucket {D} _.
Arguments mDelegate {D} _.

Section InMemoryKVStore.
Context {D : Type} `{!KVStore D}.

Definition on_bucket (f : Bucket -> Bucket) : M (InMemoryKVStore D) unit :=
  modify (fun s => mkInMemory (f (bucket s)) (mDelegate s)).

Definition on_delegate {A} (m : M D A) : M (InMemoryKVStore D) A :=
  zoom mDelegate (fun d s => mkInMemory (bucket s) d) m.

(** [mData[key] = ...; if (...) mUdfMetaMap[key] = udfMeta; mDeletedData.erase(key)] *)
Definition insert_entry (key : KeyType) (e : Entry) (udfMeta : UserDefinedMeta) (b : Bucket) : Bucket :=
  mkBucket (<[key := e]> (mData b))
           (if udf_nonempty udfMeta then <[key := udfMeta]> (mUdfMetaMap b) else mUdfMetaMap b)
           (delete key (mDeletedData b))
           (mObserved b).

Definition notify_bucket (n : Notification) (b : Bucket) : Bucket :=
  mkBucket (mData b) (mUdfMetaMap b) (mDeletedData b) (notify n (mObserved b)).

Definition erase_data (key : KeyType) (b : Bucket) : Bucket :=
  mkBucket (delete key (mData b)) (mUdfMetaMap b) (mDeletedData b) (mObserved b).

Definition clear_bucket (b : Bucket) : Bucket :=
  mkBucket ∅ ∅ ∅ (mObserved b).

Definition writeKV (key : KeyType) (value : ValueType) (version : VersionType)
    (updateTime : TimeType) (udfMeta : UserDefinedMeta) : M (InMemoryKVStore D) Status.t :=
  on_bucket (insert_entry key (mkEntry value version INFINITE_TTL NEVER_EXPIRE updateTime) udfMeta) ;;;
  on_bucket (notify_bucket (OnWrite key value version)) ;;;
  ret Status.ok.

Definition writeTTLKV (key : KeyType) (value : ValueType) (version : VersionType)
    (ttl : TTLType) (deadline updateTime : TimeType) (udfMeta : UserDefinedMeta)
    : M (InMemoryKVStore D) Status.t :=
  on_bucket (insert_entry key (mkEntry value version ttl deadline updateTime) udfMeta) ;;;
  on_bucket (notify_bucket (OnWrite key value version)) ;;;
  ret Status.ok.

Definition readKV (key : KeyType) (out : ReadOut) : M (InMemoryKVStore D) (Status.t * ReadOut) :=
  let* s := get in
  match mData (bucket s) !! key with
  | None =>
      match mDeletedData (bucket s) !! key with
      | Some v => ret (Status.notFound (key +:+ " not found"), set_outVersion v out)
      | None => on_delegate (kvReadKV key out)
      end
  | Some e =>
      let* timeout := isTimeOut (e_deadline e) (e_ttl e) in
      if (timeout : bool) then
        on_bucket (erase_data key) ;;;
        ret (Status.notFound (key +:+ " not found"), out)
      else
        on_bucket (notify_bucket (OnRead key)) ;;;
        ret (Status.ok, mkOut (e_value e) (e_ttl e) (e_version e))
  end.

Definition readKVFromProxy (key : KeyType) (out : ReadOut) : M (InMemoryKVStore D) (Status.t * ReadOut) :=
  on_delegate (kvReadKV key out).

(** [mData.erase(key); mUdfMetaMap.erase(key); mDeletedData.emplace(key, v)]:
    [emplace] keeps a tombstone that is already there. *)
Definition bury (key : KeyType) (v : VersionType) (b : Bucket) : Bucket :=
  mkBucket (delete key (mData b)) (delete key (mUdfMetaMap b))
           (match mDeletedData b !! key with
            | Some _ => mDeletedData b
            | None => <[key := v]> (mDeletedData b)
            end)
           (mObserved b).

Definition deleteKV (key : KeyType) (deleteRecordVersion deletedVersion : VersionType)
    : M (InMemoryKVStore D) Status.t :=
  let* s := get in
  match mData (bucket s) !! key with
  | None => ret Status.ok
  | Some _ => on_bucket (bury key deleteRecordVersion) ;;; ret Status.ok
  end.

(** The fields [readMeta] sets on the caller's message. *)
Definition fill_meta (e : Entry) (udf : option UserDefinedMeta) (meta : Meta) : Meta :=
  mkMeta (m_dataType meta) (e_version e) (e_ttl e) (e_deadline e) (m_opType meta)
         (e_updateTime e)
         (match udf with Some u => append_udf u (m_udfMeta meta) | None => m_udfMeta meta end).

Definition readMeta (key : KeyType) (meta : Meta) : M (InMemoryKVStore D) (Status.t * Meta) :=
  let* s := get in
  match mData (bucket s) !! key with
  | None => on_delegate (kvReadMeta key meta)
  | Some e =>
      on_bucket (notify_bucket (OnRead key)) ;;;
      ret (Status.ok, fill_meta e (mUdfMetaMap (bucket s) !! key) meta)
  end.

Definition readMetaFromProxy (key : KeyType) (meta : Meta) : M (InMemoryKVStore D) (Status.t * Meta) :=
  on_delegate (kvReadMeta key meta).

Definition clear : M (InMemoryKVStore D) unit := on_bucket clear_bucket.

Definition open : M (InMemoryKVStore D) Status.t := clear ;;; ret Status.ok.
Definition close : M (InMemoryKVStore D) Status.t := clear ;;; ret Status.ok.

(** [mData.erase(key); mUdfMetaMap.erase(key); mDeletedData.erase(key)] *)
Definition drop_key (key : KeyType) (b : Bucket) : Bucket :=
  mkBucket (delete key (mData b)) (delete key (mUdfMetaMap b)) (delete key (mDeletedData b))
           (mObserved b).

(** One round of the loop of [evictKV]. The out-variables start uninitialised;
    they are only looked at after a successful read, which sets them. *)
Definition evict_one (guardVersion : VersionType) (key : KeyType) : M (InMemoryKVStore D) unit :=
  let* (s, out) := readKV key fresh_out in
  if Status.isOK s then
    if bool_decide (guardVersion < outVersion out) then ret tt
    else on_bucket (drop_key key)
  else ret tt.

Definition evictKV (keys : list KeyType) (guardVersion : VersionType) : M (InMemoryKVStore D) Status.t :=
  forM keys (evict_one guardVersion) ;;;
  on_bucket (notify_bucket (OnEvict keys)) ;;;
  ret Status.ok.

#[global] Instance InMemoryKVStore_KVStore : KVStore (InMemoryKVStore D) := {
  kvOpen := open;
  kvClose := close;
  kvLock := default_lock;
  kvUnlock := default_unlock;
  kvWriteKV := writeKV;
  kvWriteTTLKV := writeTTLKV;
  kvReadKV := readKV;
  kvDeleteKV := deleteKV;
  kvReadKVFromProxy := readKVFromProxy;
  kvReadMeta := readMeta;
  kvReadMetaFromProxy := readMetaFromProxy;
  kvCommit _ := not_supported;
  kvLoadMilestone _ := not_supported;
  kvClear := clear;
  kvFlush := default_flush;
  kvEvictKV := evictKV;
}.

(** ** Invariant

    No key is both live and buried. *)

Definition disjoint (b : Bucket) : Prop :=
  forall k, mData b !! k = None \/ mDeletedData b !! k = None.

Definition wf (s : InMemoryKVStore D) : Prop := disjoint (bucket s).

Lemma disjoint_insert_entry k e u b : disjoint b -> disjoint (insert_entry k e u b).
Proof.
  intros H j. cbn. destruct (decide (j = k)) as [->|Hne].
  - right. apply lookup_delete_eq.
  - rewrite lookup_insert_ne, lookup_delete_ne by congruence. apply H.
Qed.

Lemma disjoint_erase_data k b : disjoint b -> disjoint (erase_data k b).
Proof.
  intros H j. cbn. destruct (decide (j = k)) as [->|Hne].
  - left. apply lookup_delete_eq.
  - rewrite lookup_delete_ne by congruence. apply H.
Qed.

Lemma disjoint_bury k v b : disjoint b -> disjoint (bury k v b).
Proof.
  intros H j. cbn. destruct (decide (j = k)) as [->|Hne].
  - left. apply lookup_delete_eq.
  - rewrite lookup_delete_ne by congruence.
    destruct (mDeletedData b !! k); [apply H|].
    rewrite lookup_insert_ne by congruence. apply H.
Qed.

Lemma disjoint_drop_key k b : disjoint b -> disjoint (drop_key k b).
Proof.
  intros H j. cbn. destruct (decide (j = k)) as [->|Hne].
  - left. apply lookup_delete_eq.
  - rewrite !lookup_delete_ne by congruence. apply H.
Qed.

Lemma disjoint_notify n b : disjoint b -> disjoint (notify_bucket n b).
Proof. exact id. Qed.

Lemma disjoint_clear b : disjoint (clear_bucket b).
Proof. intros k. left. apply lookup_empty. Qed.

#[local] Hint Resolve disjoint_insert_entry disjoint_erase_data disjoint_bury
  disjoint_drop_key disjoint_notify disjoint_clear : goblin.

Lemma preserves_on_bucket f :
  (forall b, disjoint b -> disjoint (f b)) -> preserves wf (on_bucket f).
Proof. intros H. apply preserves_modify. intros s. apply H. Qed.

Lemma preserves_on_delegate {A} (m : M D A) : preserves wf (on_delegate m).
Proof. apply preserves_zoom. auto. Qed.

Lemma preserves_isTimeOut d t : preserves wf (isTimeOut d t).
Proof. unfold isTimeOut. case_bool_decide; auto with goblin. Qed.

#[local] Hint Resolve preserves_on_bucket preserves_on_delegate preserves_isTimeOut : goblin.

Lemma readKV_preserves_wf key out : preserves wf (readKV key out).
Proof.
  apply preserves_bind; [auto with goblin|]. intros s.
  repeat case_match; auto with goblin.
  apply preserves_bind; [auto with goblin|]. intros []; auto with goblin.
Qed.

Lemma evictKV_preserves_wf keys guard : preserves wf (evictKV keys guard).
Proof.
  apply preserves_bind; [|auto with goblin].
  apply preserves_forM. intros key. apply preserves_bind; [apply readKV_preserves_wf|].
  intros [s out]. repeat case_match; auto with goblin.
Qed.

Lemma deleteKV_preserves_wf key r d : preserves wf (deleteKV key r d).
Proof.
  apply preserves_bind; [auto with goblin|]. intros s. case_match; auto with goblin.
Qed.

Lemma readMeta_preserves_wf key m : preserves wf (readMeta key m).
Proof.
  apply preserves_bind; [auto with goblin|]. intros s. case_match; auto with goblin.
Qed.

Lemma call_preserves_wf op : preserves wf (call op).
Proof.
  destruct op; cbn [call kvOpen kvClose kvWriteKV kvWriteTTLKV kvReadKV kvDeleteKV
    kvReadKVFromProxy kvReadMeta kvReadMetaFromProxy kvClear kvEvictKV
    InMemoryKVStore_KVStore];
    (apply preserves_bind; [|intros; repeat case_match; auto with goblin]).
  all: first [ apply readKV_preserves_wf | apply deleteKV_preserves_wf
             | apply readMeta_preserves_wf | apply evictKV_preserves_wf
             | unfold open, close, clear, writeKV, writeTTLKV, readKVFromProxy,
                 readMetaFromProxy; auto 6 with goblin ].
Qed.

(** ** What each operation does *)

Lemma writeKV_run k v ver t u c b d :
  writeKV k v ver t u c (mkInMemory b d) =
  Done Status.ok c (mkInMemory (notify_bucket (OnWrite k v ver)
    (insert_entry k (mkEntry v ver INFINITE_TTL NEVER_EXPIRE t) u b)) d).
Proof. reflexivity. Qed.

Lemma writeTTLKV_run k v ver ttl dl t u c b d :
  writeTTLKV k v ver ttl dl t u c (mkInMemory b d) =
  Done Status.ok c (mkInMemory (notify_bucket (OnWrite k v ver)
    (insert_entry k (mkEntry v ver ttl dl t) u b)) d).
Proof. reflexivity. Qed.

(** Reading a live key whose ttl has not run out. *)
Lemma readKV_live k o c b d e :
  mData b !! k = Some e ->
  (e_ttl e = INFINITE_TTL \/ u32 (c O) < e_deadline e) ->
  exists c', readKV k o c (mkInMemory b d) =
    Done (Status.ok, mkOut (e_value e) (e_ttl e) (e_version e)) c'
         (mkInMemory (notify_bucket (OnRead k) b) d).
Proof.
  intros He Ht. unfold readKV, isTimeOut. run; cbn [bucket]; cbn [bucket mDelegate]. rewrite He.
  case_bool_decide; [eauto|].
  rewrite bool_decide_eq_false_2 by (destruct Ht; [contradiction|lia]). eauto.
Qed.

(** Reading a live key whose ttl has run out: a miss, and the entry is gone. *)
Lemma readKV_expired k o c b d e :
  mData b !! k = Some e ->
  e_ttl e <> INFINITE_TTL -> e_deadline e <= u32 (c O) ->
  readKV k o c (mkInMemory b d) =
    Done (Status.notFound (k +:+ " not found"), o) (later c) (mkInMemory (erase_data k b) d).
Proof.
  intros He Ht Hd. unfold readKV, isTimeOut. run; cbn [bucket]; cbn [bucket mDelegate]. rewrite He.
  rewrite bool_decide_eq_false_2 by done. cbn. rewrite bool_decide_eq_true_2 by done.
  reflexivity.
Qed.

Lemma readKV_buried k o c b d v :
  mData b !! k = None -> mDeletedData b !! k = Some v ->
  readKV k o c (mkInMemory b d) =
    Done (Status.notFound (k +:+ " not found"), set_outVersion v o) c (mkInMemory b d).
Proof. intros He Hd. unfold readKV. run; cbn [bucket mDelegate]. rewrite He. rewrite Hd. reflexivity. Qed.

Lemma readKV_absent k o c b d :
  mData b !! k = None -> mDeletedData b !! k = None ->
  readKV k o c (mkInMemory b d) = on_delegate (kvReadKV k o) c (mkInMemory b d).
Proof. intros He Hd. unfold readKV. run; cbn [bucket mDelegate]. rewrite He, Hd. reflexivity. Qed.

Lemma deleteKV_live k r dv c b d e :
  mData b !! k = Some e ->
  deleteKV k r dv c (mkInMemory b d) = Done Status.ok c (mkInMemory (bury k r b) d).
Proof. intros He. unfold deleteKV. run; cbn [bucket mDelegate]. rewrite He. reflexivity. Qed.

Lemma deleteKV_not_live k r dv c b d :
  mData b !! k = None ->
  deleteKV k r dv c (mkInMemory b d) = Done Status.ok c (mkInMemory b d).
Proof. intros He. unfold deleteKV. run; cbn [bucket mDelegate]. rewrite He. reflexivity. Qed.

(** ** Locality

    An operation on a key looks at and changes the store at that key only. This
    is what lets the store be split into segments. *)

Definition same_at (k : KeyType) (b1 b2 : Bucket) : Prop :=
  mData b1 !! k = mData b2 !! k /\
  mUdfMetaMap b1 !! k = mUdfMetaMap b2 !! k /\
  mDeletedData b1 !! k = mDeletedData b2 !! k.

#[global] Instance same_at_equiv k : Equivalence (same_at k).
Proof.
  unfold same_at. split; [done | intros ?? (?&?&?); auto |].
  intros ??? (?&?&?) (?&?&?). repeat split; congruence.
Qed.

(** Two outcomes agree at [k] and leave every other key of the first bucket
    as it was. *)
Definition agree (k : KeyType) {A} (b1 : Bucket) (o1 o2 : outcome (InMemoryKVStore D) A) : Prop :=
  match o1, o2 with
  | Done a1 c1 s1, Done a2 c2 s2 =>
      a1 = a2 /\ c1 = c2 /\ mDelegate s1 = mDelegate s2 /\
      same_at k (bucket s1) (bucket s2) /\
      (forall j, j <> k -> same_at j b1 (bucket s1))
  | Stop f1, Stop f2 => f1 = f2
  | _, _ => False
  end.

Definition local (k : KeyType) {A} (m : M (InMemoryKVStore D) A) : Prop :=
  forall c b1 b2 d, same_at k b1 b2 ->
    agree k b1 (m c (mkInMemory b1 d)) (m c (mkInMemory b2 d)).

Lemma local_ret k {A} (a : A) : local k (ret a).
Proof. intros c b1 b2 d H. cbn. repeat split; auto; apply H. Qed.

Lemma local_bind k {A B} (m : M (InMemoryKVStore D) A) (f : A -> M (InMemoryKVStore D) B) :
  local k m -> (forall a, local k (f a)) -> local k (bind m f).
Proof.
  intros Hm Hf c b1 b2 d H. specialize (Hm c b1 b2 d H). unfold bind, agree in *.
  destruct (m c (mkInMemory b1 d)) as [a1 c1 [b1' d1]|],
           (m c (mkInMemory b2 d)) as [a2 c2 [b2' d2]|]; try done.
  destruct Hm as (-> & -> & Hd & Hs & Hj). cbn in Hd, Hs, Hj. subst d2.
  specialize (Hf a2 c2 b1' b2' d1 Hs). unfold agree in Hf.
  destruct (f a2 c2 (mkInMemory b1' d1)), (f a2 c2 (mkInMemory b2' d1)); try done.
  destruct Hf as (? & ? & ? & ? & Hj'). repeat split_and; auto.
  intros j Hne. etransitivity; [apply Hj, Hne | apply Hj', Hne].
Qed.

Lemma local_on_delegate k {A} (m : M D A) : local k (on_delegate m).
Proof.
  intros c b1 b2 d H. unfold on_delegate, zoom, agree. cbn.
  destruct (m c d); cbn; repeat split_and; auto. reflexivity.
Qed.

Lemma local_on_bucket k f :
  (forall b1 b2, same_at k b1 b2 -> same_at k (f b1) (f b2)) ->
  (forall b j, j <> k -> same_at j b (f b)) ->
  local k (on_bucket f).
Proof. intros Hf Hj c b1 b2 d H. cbn. repeat split_and; auto. Qed.

(** Case analysis on what the store holds at [k]. *)
Lemma local_cases k {A} (f : option Entry -> option UserDefinedMeta -> option Z ->
    M (InMemoryKVStore D) A) :
  (forall x y z, local k (f x y z)) ->
  local k (let* s := get in
           f (mData (bucket s) !! k) (mUdfMetaMap (bucket s) !! k) (mDeletedData (bucket s) !! k)).
Proof.
  intros Hf c b1 b2 d H. pose proof H as (H1 & H2 & H3). run; cbn [bucket mDelegate]. rewrite H1, H2, H3.
  apply Hf, H.
Qed.

Lemma local_insert_entry k e u : local k (on_bucket (insert_entry k e u)).
Proof.
  apply local_on_bucket.
  - intros b1 b2 (H1 & H2 & H3). unfold same_at. cbn.
    rewrite !lookup_insert_eq, !lookup_delete_eq.
    destruct (udf_nonempty u); rewrite ?lookup_insert_eq; auto.
  - intros b j Hne. unfold same_at. cbn.
    rewrite lookup_insert_ne, lookup_delete_ne by congruence.
    destruct (udf_nonempty u); rewrite ?lookup_insert_ne by congruence; auto.
Qed.

Lemma local_notify k n : local k (on_bucket (notify_bucket n)).
Proof. apply local_on_bucket; [auto|]. intros b j _. split_and!; reflexivity. Qed.

Lemma local_erase_data k : local k (on_bucket (erase_data k)).
Proof.
  apply local_on_bucket.
  - intros b1 b2 (H1 & H2 & H3). split_and!; cbn; rewrite ?lookup_delete_eq; auto.
  - intros b j Hne. split_and!; cbn; rewrite ?lookup_delete_ne by congruence; auto.
Qed.

Lemma local_drop_key k : local k (on_bucket (drop_key k)).
Proof.
  apply local_on_bucket.
  - intros b1 b2 (H1 & H2 & H3). split_and!; cbn; rewrite ?lookup_delete_eq; auto.
  - intros b j Hne. split_and!; cbn; rewrite ?lookup_delete_ne by congruence; auto.
Qed.

Lemma local_bury k v : local k (on_bucket (bury k v)).
Proof.
  apply local_on_bucket.
  - intros b1 b2 (H1 & H2 & H3). split_and!; cbn; rewrite ?lookup_delete_eq; auto.
    rewrite H3. destruct (mDeletedData b2 !! k) eqn:E; [congruence|]. by rewrite !lookup_insert_eq.
  - intros b j Hne. split_and!; cbn; rewrite ?lookup_delete_ne by congruence; auto.
    destruct (mDeletedData b !! k); [auto|]. by rewrite lookup_insert_ne by congruence.
Qed.

Lemma local_isTimeOut k dl ttl : local k (isTimeOut dl ttl).
Proof.
  unfold isTimeOut. case_bool_decide; [apply local_ret|].
  intros c b1 b2 d H'. cbn. split_and!; auto. reflexivity.
Qed.

#[local] Hint Resolve local_ret local_bind local_on_delegate local_insert_entry local_notify
  local_erase_data local_drop_key local_bury local_isTimeOut : goblin.

Lemma local_readKV k o : local k (readKV k o).
Proof.
  apply (local_cases k (fun x _ z =>
    match x with
    | None => match z with
              | Some v => ret (Status.notFound (k +:+ " not found"), set_outVersion v o)
              | None => on_delegate (kvReadKV k o)
              end
    | Some e => let* timeout := isTimeOut (e_deadline e) (e_ttl e) in
                if (timeout : bool) then
                  on_bucket (erase_data k) ;;; ret (Status.notFound (k +:+ " not found"), o)
                else on_bucket (notify_bucket (OnRead k)) ;;;
                  ret (Status.ok, mkOut (e_value e) (e_ttl e) (e_version e))
    end)).
  intros [e|] _ [v|]; auto with goblin;
    (apply local_bind; [auto with goblin|]; intros []; auto with goblin).
Qed.

Lemma local_deleteKV k r dv : local k (deleteKV k r dv).
Proof.
  apply (local_cases k (fun x _ _ => match x with
    | None => ret Status.ok | Some _ => on_bucket (bury k r) ;;; ret Status.ok end)).
  intros [e|] _ _; auto with goblin.
Qed.

Lemma local_readMeta k m : local k (readMeta k m).
Proof.
  apply (local_cases k (fun x y _ => match x with
    | None => on_delegate (kvReadMeta k m)
    | Some e => on_bucket (notify_bucket (OnRead k)) ;;; ret (Status.ok, fill_meta e y m) end)).
  intros [e|] u _; auto with goblin.
Qed.

Lemma local_evict_one k g : local k (evict_one g k).
Proof.
  apply local_bind; [apply local_readKV|]. intros [s o].
  repeat case_match; auto with goblin.
Qed.

Lemma local_writeKV k v ver t u : local k (writeKV k v ver t u).
Proof. unfold writeKV. auto with goblin. Qed.

Lemma local_writeTTLKV k v ver ttl dl t u : local k (writeTTLKV k v ver ttl dl t u).
Proof. unfold writeTTLKV. auto with goblin. Qed.

Lemma local_evictKV k g : local k (evictKV [k] g).
Proof.
  apply local_bind; [|auto with goblin]. cbn [forM].
  apply local_bind; [apply local_evict_one | auto with goblin].
Qed.

End InMemoryKVStore.

(** ** Entries without a ttl *)

(** Two buckets that differ in what observers were told only. *)
Definition same_data (b1 b2 : Bucket) : Prop :=
  mData b1 = mData b2 /\ mUdfMetaMap b1 = mUdfMetaMap b2 /\ mDeletedData b1 = mDeletedData b2.

#[global] Instance same_data_equiv : Equivalence same_data.
Proof. unfold same_data. split; [done|intros ??; naive_solver|intros ???; naive_solver congruence]. Qed.

(** [k] is in memory, without a ttl. *)
Definition plain_entry (b : Bucket) (k : KeyType) (v : ValueType) (ver : VersionType) : Prop :=
  exists e, mData b !! k = Some e /\ e_value e = v /\ e_version e = ver /\ e_ttl e = INFINITE_TTL.

Lemma plain_entry_same b1 b2 k v ver : same_data b1 b2 -> plain_entry b1 k v ver -> plain_entry b2 k v ver.
Proof. intros (Hd & _) (e & He & ?). exists e. by rewrite <- Hd. Qed.

Lemma plain_entry_inj b k v1 ver1 v2 ver2 :
  plain_entry b k v1 ver1 -> plain_entry b k v2 ver2 -> v1 = v2 /\ ver1 = ver2.
Proof. intros (e1 & H1 & <- & <- & _) (e2 & H2 & <- & <- & _). rewrite H1 in H2. by simplify_eq. Qed.

Lemma read_plain {D} `{!KVStore D} k o c b (d : D) v ver :
  plain_entry b k v ver ->
  exists c' b', kvReadKV k o c (mkInMemory b d) = Done (Status.ok, mkOut v INFINITE_TTL ver) c' (mkInMemory b' d) /\
    same_data b b'.
Proof.
  intros (e & He & <- & <- & Ht). destruct (readKV_live k o c b d e He ltac:(by left)) as (c' & Hr).
  rewrite Ht in Hr. eexists c', _. split; [exact Hr|]. done.
Qed.
