(* ===== verification/Sharding.v ===== *)
(** * Stores split by key

    A store that keeps each key in one of many [InMemoryKVStore]s over a common
    delegate. [serves k m1 m] says a method [m1] of the split store does, in the
    bucket of [k], what [m] does there, and nothing at other keys. The generic
    simulation lemmas below turn this into equivalence with one single
    [InMemoryKVStore]; ConcurInMemoryKVStore.v and WSConcurInMemoryKVStore.v use
    them. *)

From S2P Require Import Prelude Status Proto KVStore InMemoryKVStore.

Section Sharding.
Context {D : Type} `{!KVStore D}.

(** Stores that differ in what their observers were told only. *)
Definition same_store (s1 s2 : InMemoryKVStore D) : Prop :=
  mDelegate s1 = mDelegate s2 /\ forall k, same_at k (bucket s1) (bucket s2).

Lemma same_store_refl s : same_store s s.
Proof. split; [done|]. intros k. reflexivity. Qed.

Lemma local_frame k {A} (m : M (InMemoryKVStore D) A) c b d a c' s' j :
  local k m -> m c (mkInMemory b d) = Done a c' s' -> j <> k -> same_at j b (bucket s').
Proof.
  intros Hl Hm Hne. specialize (Hl c b b d (reflexivity b)). rewrite Hm in Hl.
  apply Hl, Hne.
Qed.

Lemma local_same_store k {A} (m : M (InMemoryKVStore D) A) : local k m -> sim same_store m m.
Proof.
  intros Hl c [b1 d1] [b2 d2] [Hd Hs]. cbn in Hd, Hs. subst d2.
  pose proof (Hl c b1 b2 d1 (Hs k)) as Ha. unfold agree, sim_at in *.
  destruct (m c (mkInMemory b1 d1)) as [a1 c1 s1|] eqn:E1,
           (m c (mkInMemory b2 d1)) as [a2 c2 s2|] eqn:E2; try done.
  destruct Ha as (-> & -> & Hd & Hk & _). split_and!; [done..|]. split; [done|].
  intros j. destruct (decide (j = k)) as [->|Hne]; [done|].
  rewrite <- (local_frame k m c b1 d1 _ _ _ j Hl E1 Hne).
  rewrite <- (local_frame k m c b2 d1 _ _ _ j Hl E2 Hne). apply Hs.
Qed.

Context {T : Type} (wfT : T -> Prop) (shard : T -> KeyType -> Bucket) (dele : T -> D).

Definition serves (k : KeyType) {A} (m1 : M T A) (m : M (InMemoryKVStore D) A) : Prop :=
  forall c t, wfT t ->
    match m c (mkInMemory (shard t k) (dele t)) with
    | Done a c' im =>
        exists t', m1 c t = Done a c' t' /\ wfT t' /\ dele t' = mDelegate im /\
          same_at k (shard t' k) (bucket im) /\
          forall j, j <> k -> same_at j (shard t' j) (shard t j)
    | Stop f => m1 c t = Stop f
    end.

(** The split store [t] holds what the single store [im] holds. *)
Definition merged (t : T) (im : InMemoryKVStore D) : Prop :=
  wfT t /\ dele t = mDelegate im /\ forall k, same_at k (shard t k) (bucket im).

Lemma serves_sim k {A} (m1 : M T A) (m : M (InMemoryKVStore D) A) :
  local k m -> serves k m1 m -> sim merged m1 m.
Proof.
  intros Hl Hs c t [b d] (Hwf & Hd & Hk). cbn in Hd, Hk. subst d.
  specialize (Hs c t Hwf). pose proof (Hl c _ b (dele t) (Hk k)) as Ha.
  unfold agree, sim_at in *.
  destruct (m c (mkInMemory (shard t k) (dele t))) as [a1 c1 s1|] eqn:E1,
           (m c (mkInMemory b (dele t))) as [a2 c2 s2|] eqn:E2; try done.
  2: { rewrite Hs. done. }
  destruct Hs as (t' & -> & Hwf' & Hd' & Hk' & Hj').
  destruct Ha as (-> & -> & Hd & Hb & _). split_and!; [done..|].
  split_and!; [done | congruence |]. intros j.
  destruct (decide (j = k)) as [->|Hne]; [by rewrite Hk'|].
  rewrite (Hj' j Hne), (Hk j). eapply local_frame; eauto.
Qed.

Lemma merged_same_store t s1 s2 : merged t s1 -> same_store s1 s2 -> merged t s2.
Proof.
  intros (H1 & H2 & H3) [H4 H5]. split_and!; [done | congruence |].
  intros k. rewrite (H3 k). apply H5.
Qed.

Lemma sim_merged_same {A} (m1 : M T A) (m2 m3 : M (InMemoryKVStore D) A) :
  sim merged m1 m2 -> sim same_store m2 m3 -> sim merged m1 m3.
Proof.
  intros H1 H2 c t s H. specialize (H1 c t s H). specialize (H2 c s s (same_store_refl s)).
  unfold sim_at in *.
  destruct (m1 c t), (m2 c s), (m3 c s); try done; [|congruence].
  destruct H1 as (-> & -> & ?), H2 as (-> & -> & ?). split_and!; [done..|].
  eapply merged_same_store; eauto.
Qed.

(** Evicting one key through a segment's own [evictKV] is one round of the
    single store's loop: they differ in a notification. *)
Lemma evictKV_single k g :
  sim same_store (InMemoryKVStore.evictKV [k] g ;;; ret tt) (InMemoryKVStore.evict_one g k).
Proof.
  intros c s1 s2 H. pose proof (local_same_store k _ (local_evict_one k g) c s1 s2 H) as Hs.
  unfold InMemoryKVStore.evictKV. cbn [forM]. unfold sim_at in *. run.
  destruct (evict_one g k c s1) as [[] c1 s1'|], (evict_one g k c s2) as [[] c2 s2'|]; try done.
Qed.

Section Implementation.
Context `{!KVStore T}.

(** What a split store has to provide for each key. *)
Class Serves := {
  serves_writeKV k v ver t u :
    serves k (kvWriteKV k v ver t u) (InMemoryKVStore.writeKV k v ver t u);
  serves_writeTTLKV k v ver ttl dl t u :
    serves k (kvWriteTTLKV k v ver ttl dl t u) (InMemoryKVStore.writeTTLKV k v ver ttl dl t u);
  serves_readKV k o : serves k (kvReadKV k o) (InMemoryKVStore.readKV k o);
  serves_deleteKV k r dv : serves k (kvDeleteKV k r dv) (InMemoryKVStore.deleteKV k r dv);
  serves_readKVFromProxy k o :
    serves k (kvReadKVFromProxy k o) (InMemoryKVStore.readKVFromProxy k o);
  serves_readMeta k m : serves k (kvReadMeta k m) (InMemoryKVStore.readMeta k m);
  serves_readMetaFromProxy k m :
    serves k (kvReadMetaFromProxy k m) (InMemoryKVStore.readMetaFromProxy k m);
  sim_evictKV ks g : sim merged (kvEvictKV ks g) (InMemoryKVStore.evictKV ks g);
  sim_open : sim merged kvOpen InMemoryKVStore.open;
  sim_close : sim merged kvClose InMemoryKVStore.close;
  sim_clear : sim merged kvClear InMemoryKVStore.clear;
}.

Lemma sim_call `{!Serves} op : sim merged (call op) (call op).
Proof.
  destruct op; (apply sim_bind; [|intros; repeat case_match; apply sim_ret]);
    [ apply sim_open | apply sim_close
    | eapply serves_sim; [apply local_writeKV | apply serves_writeKV]
    | eapply serves_sim; [apply local_writeTTLKV | apply serves_writeTTLKV]
    | eapply serves_sim; [apply local_readKV | apply serves_readKV]
    | eapply serves_sim; [apply local_deleteKV | apply serves_deleteKV]
    | eapply serves_sim; [apply local_on_delegate | apply serves_readKVFromProxy]
    | eapply serves_sim; [apply local_readMeta | apply serves_readMeta]
    | eapply serves_sim; [apply local_on_delegate | apply serves_readMetaFromProxy]
    | apply sim_clear | apply sim_evictKV ].
Qed.

Lemma sim_calls `{!Serves} ops : sim merged (calls ops) (calls ops).
Proof.
  induction ops as [|op ops IH]; cbn [calls]; [apply sim_ret|].
  apply sim_bind; [apply sim_call|]. intros r.
  apply sim_bind; [exact IH|]. intros rs. apply sim_ret.
Qed.

End Implementation.
End Sharding.

Arguments Serves {D _ T} wfT shard dele {_}.
