(* ===== verification/ConcurInMemoryKVStore.v ===== *)
(** * The segmented in-memory store

    [store::ConcurInMemoryKVStore] (kv-engine/store/ConcurInMemoryKVStore.h/.cpp):
    4096 in-memory stores, each behind a shared mutex, a key being served by the
    segment its hash selects. All segments read through the same delegate.

    The refinement theorem says the segmentation is invisible: any sequence of
    calls answers as one [InMemoryKVStore] does. *)

From S2P Require Import Prelude Status Proto KVStore SharedMutex Lockable InMemoryKVStore Sharding.

(** [std::hash<std::string>]: a function of the key, with values in [size_t]. *)
Class StdHash := std_hash : string -> Z.

Definition kConcurLevel : Z := 4096.
Definition kSegmentMask : Z := kConcurLevel - 1.
Definition kSegmentShift : Z := 64 - 12.

Record Segment := mkSegment { mMutex : SharedMutex; mBucketKVStore : Bucket }.

Definition empty_segment : Segment := mkSegment Free empty_bucket.

Record Concur := mkConcur {
  mSegments : list Segment;
  mConcurObserved : Observed;
  mConcurrent : Z;
}.

(** The store: its segments and the delegate they share. *)
Record ConcurInMemoryKVStore (D : Type) := mkConcurStore {
  concur : Concur;
  mConcurDelegate : D;
}.
Arguments mkConcurStore {D} _ _.
Arguments concur {D} _.
Arguments mConcurDelegate {D} _.

Section ConcurInMemoryKVStore.
Context {D : Type} `{!KVStore D} {HASH : StdHash}.

(** The constructor. *)
Definition new_Concur : Concur :=
  mkConcur (replicate (Z.to_nat kConcurLevel) empty_segment) no_observers 0.

Definition set_mSegments (l : list Segment) (s : Concur) : Concur :=
  mkConcur l (mConcurObserved s) (mConcurrent s).
Definition set_mConcurrent (n : Z) (s : Concur) : Concur :=
  mkConcur (mSegments s) (mConcurObserved s) n.
Definition notify_concur (n : Notification) (s : Concur) : Concur :=
  mkConcur (mSegments s) (notify n (mConcurObserved s)) (mConcurrent s).

Definition on_concur (f : Concur -> Concur) : M (ConcurInMemoryKVStore D) unit :=
  modify (fun s => mkConcurStore (f (concur s)) (mConcurDelegate s)).

(** [mSegments[i]->mBucketKVStore.m(...)] *)
Definition in_bucket (i : nat) {A} (m : M (InMemoryKVStore D) A) : M (ConcurInMemoryKVStore D) A :=
  fun c s =>
    match mSegments (concur s) !! i with
    | None => Stop Undefined
    | Some seg =>
        match m c (mkInMemory (mBucketKVStore seg) (mConcurDelegate s)) with
        | Done a c' im =>
            Done a c' (mkConcurStore
              (set_mSegments (<[i := mkSegment (mMutex seg) (bucket im)]> (mSegments (concur s)))
                             (concur s))
              (mDelegate im))
        | Stop f => Stop f
        end
    end.

(** [mSegments[i]->mMutex.m()] *)
Definition in_mutex (i : nat) {A} (m : M SharedMutex A) : M (ConcurInMemoryKVStore D) A :=
  fun c s =>
    match mSegments (concur s) !! i with
    | None => Stop Undefined
    | Some seg =>
        match m c (mMutex seg) with
        | Done a c' mu =>
            Done a c' (mkConcurStore
              (set_mSegments (<[i := mkSegment mu (mBucketKVStore seg)]> (mSegments (concur s)))
                             (concur s))
              (mConcurDelegate s))
        | Stop f => Stop f
        end
    end.

Definition calculateSegmentIndex (key : KeyType) : nat :=
  Z.to_nat (Z.land (Z.shiftr (u64 (std_hash key)) kSegmentShift) kSegmentMask).

(** [auto index = calculateSegmentIndex(key); assert(index < kConcurLevel);] *)
Definition segment_of (key : KeyType) : M (ConcurInMemoryKVStore D) nat :=
  let index := calculateSegmentIndex key in
  assert_ (bool_decide (Z.of_nat index < kConcurLevel)) ;;; ret index.

Definition all_segments : list nat := seq 0 (Z.to_nat kConcurLevel).

Definition open : M (ConcurInMemoryKVStore D) Status.t :=
  until_error all_segments (fun i => in_bucket i InMemoryKVStore.open) Status.ok.

Definition close : M (ConcurInMemoryKVStore D) Status.t :=
  until_error all_segments (fun i => in_bucket i InMemoryKVStore.close) Status.ok.

(** The segments of a set of keys: the indices [i], in increasing order, whose
    flag [indexFlags[i]] the first loop of [lock] and [unlock] sets. *)
Definition indexFlags (targetKeys : list KeyType) : list nat :=
  let flagged := calculateSegmentIndex <$> targetKeys in
  filter (fun i => i ∈ flagged) all_segments.

Definition check_indices (targetKeys : list KeyType) : M (ConcurInMemoryKVStore D) unit :=
  forM targetKeys (fun key => segment_of key ;;; ret tt).

Definition lock_segment (isExclusive : bool) (i : nat) : M (ConcurInMemoryKVStore D) unit :=
  in_mutex i (lock_mutex isExclusive) ;;;
  on_concur (fun s => set_mConcurrent (u64 (mConcurrent s + 1)) s).

Definition unlock_segment (isExclusive : bool) (i : nat) : M (ConcurInMemoryKVStore D) unit :=
  in_mutex i (unlock_mutex isExclusive) ;;;
  on_concur (fun s => set_mConcurrent (u64 (mConcurrent s - 1)) s).

Definition lock (targetKeys : list KeyType) (isExclusive : bool) : M (ConcurInMemoryKVStore D) Status.t :=
  check_indices targetKeys ;;;
  forM (indexFlags targetKeys) (lock_segment isExclusive) ;;;
  ret Status.ok.

Definition unlock (targetKeys : list KeyType) (isExclusive : bool) : M (ConcurInMemoryKVStore D) Status.t :=
  check_indices targetKeys ;;;
  forM (indexFlags targetKeys) (unlock_segment isExclusive) ;;;
  ret Status.ok.

Definition writeKV (key : KeyType) (value : ValueType) (version : VersionType)
    (updateTime : TimeType) (udfMeta : UserDefinedMeta) : M (ConcurInMemoryKVStore D) Status.t :=
  let* index := segment_of key in
  in_bucket index (InMemoryKVStore.writeKV key value version updateTime udfMeta).

Definition writeTTLKV (key : KeyType) (value : ValueType) (version : VersionType)
    (ttl : TTLType) (deadline updateTime : TimeType) (udfMeta : UserDefinedMeta)
    : M (ConcurInMemoryKVStore D) Status.t :=
  let* index := segment_of key in
  in_bucket index (InMemoryKVStore.writeTTLKV key value version ttl deadline updateTime udfMeta).

Definition readKV (key : KeyType) (out : ReadOut) : M (ConcurInMemoryKVStore D) (Status.t * ReadOut) :=
  let* index := segment_of key in
  in_bucket index (InMemoryKVStore.readKV key out).

Definition readKVFromProxy (key : KeyType) (out : ReadOut) : M (ConcurInMemoryKVStore D) (Status.t * ReadOut) :=
  let* index := segment_of key in
  in_bucket index (InMemoryKVStore.readKVFromProxy key out).

Definition deleteKV (key : KeyType) (deleteRecordVersion deletedVersion : VersionType)
    : M (ConcurInMemoryKVStore D) Status.t :=
  let* index := segment_of key in
  in_bucket index (InMemoryKVStore.deleteKV key deleteRecordVersion deletedVersion).

Definition readMeta (key : KeyType) (meta : Meta) : M (ConcurInMemoryKVStore D) (Status.t * Meta) :=
  let* index := segment_of key in
  in_bucket index (InMemoryKVStore.readMeta key meta).

Definition readMetaFromProxy (key : KeyType) (meta : Meta) : M (ConcurInMemoryKVStore D) (Status.t * Meta) :=
  let* index := segment_of key in
  in_bucket index (InMemoryKVStore.readMetaFromProxy key meta).

Definition clear : M (ConcurInMemoryKVStore D) unit :=
  forM all_segments (fun i => in_bucket i InMemoryKVStore.clear).

Definition evictKV (keys : list KeyType) (guardVersion : VersionType) : M (ConcurInMemoryKVStore D) Status.t :=
  forM keys (fun key =>
    let* index := segment_of key in
    in_bucket index (InMemoryKVStore.evictKV [key] guardVersion) ;;; ret tt) ;;;
  on_concur (notify_concur (OnEvict keys)) ;;;
  ret Status.ok.

(** [registerObserver]: every segment's store and the store itself. *)
Definition registerObserver (id : nat) : M (ConcurInMemoryKVStore D) Status.t :=
  forM all_segments (fun i => in_bucket i (on_bucket (fun b =>
    mkBucket (mData b) (mUdfMetaMap b) (mDeletedData b)
             (KVStore.registerObserver id (mObserved b))))) ;;;
  on_concur (fun s => mkConcur (mSegments s) (KVStore.registerObserver id (mConcurObserved s))
                               (mConcurrent s)) ;;;
  ret Status.ok.

#[global] Instance ConcurInMemoryKVStore_KVStore : KVStore (ConcurInMemoryKVStore D) := {
  kvOpen := open;
  kvClose := close;
  kvLock := lock;
  kvUnlock := unlock;
  kvWriteKV := writeKV;
  kvWriteTTLKV := writeTTLKV;
  kvReadKV := readKV;
  kvDeleteKV := deleteKV;
  kvReadKVFromProxy := readKVFromProxy;
  kvReadMeta := readMeta;
  kvReadMetaFromProxy := readMetaFromProxy;
  kvCommit _ := not_supported;
  kvLoadMilestone _ := not_supported;
  kvClear := clear;
  kvFlush := default_flush;
  kvEvictKV := evictKV;
}.

(** ** Segments *)

Definition wf (s : ConcurInMemoryKVStore D) : Prop :=
  length (mSegments (concur s)) = Z.to_nat kConcurLevel.

Lemma wf_new d : wf (mkConcurStore new_Concur d).
Proof. apply length_replicate. Qed.

Lemma calculateSegmentIndex_range key :
  Z.of_nat (calculateSegmentIndex key) < kConcurLevel.
Proof.
  unfold calculateSegmentIndex.
  change kSegmentMask with (Z.ones 12). rewrite Z.land_ones by lia.
  pose proof (Z.mod_pos_bound (u64 (std_hash key) ≫ kSegmentShift) (2 ^ 12)).
  unfold kConcurLevel. lia.
Qed.

Lemma segment_of_run key c s :
  segment_of key c s = Done (calculateSegmentIndex key) c s.
Proof.
  unfold segment_of. rewrite bool_decide_eq_true_2 by apply calculateSegmentIndex_range.
  reflexivity.
Qed.

Lemma segment_exists s key :
  wf s -> exists seg, mSegments (concur s) !! calculateSegmentIndex key = Some seg.
Proof.
  intros Hwf. apply lookup_lt_is_Some. rewrite Hwf.
  pose proof (calculateSegmentIndex_range key). lia.
Qed.

(** The bucket that serves a key. *)
Definition shard (s : ConcurInMemoryKVStore D) (key : KeyType) : Bucket :=
  match mSegments (concur s) !! calculateSegmentIndex key with
  | Some seg => mBucketKVStore seg
  | None => empty_bucket
  end.

Lemma serves_segment k {A} (m : M (InMemoryKVStore D) A) :
  local k m ->
  serves wf shard mConcurDelegate k (let* index := segment_of k in in_bucket index m) m.
Proof.
  intros Hl c s Hwf. unfold bind. rewrite segment_of_run.
  destruct (segment_exists s k Hwf) as [seg Hseg].
  unfold in_bucket. unfold shard at 1. rewrite Hseg.
  destruct (m c _) as [a c' im|f] eqn:E; [|reflexivity].
  eexists; split_and!; [reflexivity | by unfold wf; cbn; rewrite length_insert | reflexivity | |].
  - unfold shard. cbn. rewrite list_lookup_insert_eq by (apply lookup_lt_is_Some; eauto).
    reflexivity.
  - intros j Hne. unfold shard. cbn.
    destruct (decide (calculateSegmentIndex j = calculateSegmentIndex k)) as [Hi|Hi].
    + rewrite Hi, Hseg, list_lookup_insert_eq by (apply lookup_lt_is_Some; eauto). cbn.
      symmetry. eapply local_frame; eauto.
    + rewrite list_lookup_insert_ne by congruence. reflexivity.
Qed.

(** ** Loops over all segments *)

(** The effect of clearing the segments of [l]. *)
Lemma clear_loop l c s :
  (forall i, i ∈ l -> (i < length (mSegments (concur s)))%nat) ->
  exists s', forM l (fun i => in_bucket i InMemoryKVStore.clear) c s = Done tt c s' /\
    length (mSegments (concur s')) = length (mSegments (concur s)) /\
    mConcurDelegate s' = mConcurDelegate s /\
    (forall i, mMutex <$> mSegments (concur s') !! i = mMutex <$> mSegments (concur s) !! i) /\
    forall i seg', mSegments (concur s') !! i = Some seg' ->
      (exists seg, mSegments (concur s) !! i = Some seg /\
         (i ∉ l -> seg' = seg) /\ (i ∈ l -> mBucketKVStore seg' = clear_bucket (mBucketKVStore seg))).
Proof.
  revert s. induction l as [|i l IH]; intros s Hl; cbn [forM].
  { eexists. split_and!; [reflexivity..|]. intros i seg' H. eexists. split_and!; [exact H|done|].
    set_solver. }
  destruct (lookup_lt_is_Some_2 (mSegments (concur s)) i) as [seg Hseg]; [set_solver|].
  set (s1 := mkConcurStore (set_mSegments
    (<[i := mkSegment (mMutex seg) (clear_bucket (mBucketKVStore seg))]> (mSegments (concur s)))
    (concur s)) (mConcurDelegate s)).
  destruct (IH s1) as (s' & Hrun & Hlen & Hd & Hmx & Hs').
  { cbn. rewrite length_insert. set_solver. }
  exists s'. cbn in Hlen. rewrite length_insert in Hlen. split_and!; [|done|done| |].
  - rewrite <- Hrun. unfold bind, in_bucket. rewrite Hseg. reflexivity.
  - intros j. rewrite Hmx. cbn. destruct (decide (j = i)) as [->|Hne].
    + rewrite list_lookup_insert_eq by (apply lookup_lt_is_Some; eauto). by rewrite Hseg.
    + by rewrite list_lookup_insert_ne by congruence.
  - intros j seg' Hj. destruct (Hs' j seg' Hj) as (seg1 & H1 & Hout & Hin). cbn in H1.
    destruct (decide (j = i)) as [->|Hne].
    + rewrite list_lookup_insert_eq in H1 by (apply lookup_lt_is_Some; eauto). simplify_eq.
      exists seg. split_and!; [done|set_solver|]. intros _.
      destruct (decide (i ∈ l)) as [Hi|Hi]; [rewrite (Hin Hi) | rewrite (Hout Hi)]; reflexivity.
    + rewrite list_lookup_insert_ne in H1 by congruence. exists seg1.
      split_and!; [done | set_solver | set_solver].
Qed.

Lemma clear_run c s :
  wf s -> exists s', clear c s = Done tt c s' /\ wf s' /\
    mConcurDelegate s' = mConcurDelegate s /\
    (forall i, mMutex <$> mSegments (concur s') !! i = mMutex <$> mSegments (concur s) !! i) /\
    forall k, same_at k (shard s' k) empty_bucket.
Proof.
  intros Hwf. destruct (clear_loop all_segments c s) as (s' & Hrun & Hlen & Hd & Hmx & Hs').
  { intros i Hi%elem_of_seq. rewrite Hwf. lia. }
  assert (wf s') as Hwf' by (unfold wf in *; congruence).
  exists s'. split_and!; try done. intros k. unfold shard.
  destruct (segment_exists s' k Hwf') as [seg' Hseg]. rewrite Hseg.
  destruct (Hs' _ _ Hseg) as (seg & _ & _ & Hin). rewrite Hin; [split_and!; reflexivity|].
  apply elem_of_seq. pose proof (calculateSegmentIndex_range k). lia.
Qed.

(** [open] and [close] run [clear] on every segment and never break out. *)
Lemma open_is_clear (body : M (InMemoryKVStore D) Status.t) c s :
  body = (InMemoryKVStore.clear ;;; ret Status.ok) ->
  until_error all_segments (fun i => in_bucket i body) Status.ok c s =
  (clear ;;; ret Status.ok) c s.
Proof.
  intros ->. apply until_error_ok. intros i c0 s0. unfold bind, in_bucket.
  by destruct (mSegments (concur s0) !! i).
Qed.

#[local] Abbreviation merged := (merged wf shard mConcurDelegate).

Lemma sim_clear_concur : sim merged clear InMemoryKVStore.clear.
Proof.
  intros c s im (Hwf & Hd & Hk). destruct (clear_run c s Hwf) as (s' & -> & Hwf' & Hd' & _ & Hk').
  cbn. split_and!; [done..|]. split_and!; [done | cbn; congruence |].
  intros k. rewrite (Hk' k). split_and!; reflexivity.
Qed.

Lemma sim_open_concur (body : M (InMemoryKVStore D) Status.t) :
  body = (InMemoryKVStore.clear ;;; ret Status.ok) ->
  sim merged (until_error all_segments (fun i => in_bucket i body) Status.ok) body.
Proof.
  intros Hb c s im H. rewrite (open_is_clear body c s Hb). subst body.
  apply (sim_bind merged clear); [apply sim_clear_concur | intros; apply sim_ret | exact H].
Qed.

Lemma sim_evictKV_concur ks g : sim merged (evictKV ks g) (InMemoryKVStore.evictKV ks g).
Proof.
  apply sim_bind.
  - apply sim_forM. intros key.
    apply (sim_merged_same wf shard mConcurDelegate _ (InMemoryKVStore.evictKV [key] g ;;; ret tt));
      [|apply evictKV_single].
    intros c s im H.
    pose proof (local_evictKV (D := D) key g) as Hl.
    pose proof (serves_sim wf shard mConcurDelegate key _ _ Hl (serves_segment key _ Hl) c s im H) as Hs.
    unfold sim_at in *. unfold bind in *. rewrite segment_of_run in *.
    destruct (in_bucket _ _ c s), (InMemoryKVStore.evictKV [key] g c im); try done.
    cbn. by destruct Hs as (_ & ? & ?).
  - intros _ c s im (Hwf & Hd & Hk). cbn. split_and!; [done..|]. split_and!; [done|done|].
    intros k. exact (Hk k).
Qed.

Lemma serves_evictKV_concur k g :
  serves wf shard mConcurDelegate k (evictKV [k] g) (InMemoryKVStore.evictKV [k] g).
Proof.
  intros c s Hwf. pose proof (serves_segment k _ (local_evictKV (D := D) k g) c s Hwf) as Hs.
  unfold evictKV. cbn [forM]. unfold bind in *. rewrite segment_of_run in *.
  destruct (InMemoryKVStore.evictKV [k] g c _) as [a c' im|f] eqn:E; [|by rewrite Hs].
  assert (a = Status.ok) as ->.
  { unfold InMemoryKVStore.evictKV in E. apply bind_inv in E as (? & ? & ? & _ & E).
    by inv_run E. }
  destruct Hs as (t' & -> & Hwf' & Hd & Hk & Hj). eexists. split_and!; [reflexivity|done..].
Qed.

#[global] Instance ConcurInMemoryKVStore_Serves : Serves wf shard mConcurDelegate.
Proof.
  split; intros;
    [ apply serves_segment, local_writeKV | apply serves_segment, local_writeTTLKV
    | apply serves_segment, local_readKV | apply serves_segment, local_deleteKV
    | apply serves_segment, local_on_delegate | apply serves_segment, local_readMeta
    | apply serves_segment, local_on_delegate
    | apply sim_evictKV_concur | by apply sim_open_concur | by apply sim_open_concur
    | apply sim_clear_concur ].
Qed.

Lemma merged_new d : merged (mkConcurStore new_Concur d) (mkInMemory empty_bucket d).
Proof.
  split_and!; [apply wf_new | done |]. intros k. unfold shard.
  destruct (segment_exists (mkConcurStore new_Concur d) k (wf_new d)) as [seg Hseg].
  rewrite Hseg. cbn in Hseg. apply lookup_replicate in Hseg as [-> _]. reflexivity.
Qed.

(** ** Locks *)

Definition mutexes (s : ConcurInMemoryKVStore D) (i : nat) : option SharedMutex :=
  mMutex <$> mSegments (concur s) !! i.

(** The same data behind other mutexes. *)
Definition same_data (s s' : ConcurInMemoryKVStore D) : Prop :=
  mBucketKVStore <$> mSegments (concur s') = mBucketKVStore <$> mSegments (concur s) /\
  mConcurObserved (concur s') = mConcurObserved (concur s) /\
  mConcurDelegate s' = mConcurDelegate s.

#[global] Instance same_data_preorder : PreOrder same_data.
Proof.
  unfold same_data. split; [done|]. intros s1 s2 s3 (?&?&?) (?&?&?). split_and!; congruence.
Qed.

(** One round of the loop of [lock] or [unlock]: segment [i] takes the
    transition [g] and the counter of held locks moves by [n]. *)
Definition mutex_round (f : fault) (g : SharedMutex -> option SharedMutex) (n : Z) (i : nat)
    : M (ConcurInMemoryKVStore D) unit :=
  in_mutex i (lift_mutex f g) ;;;
  on_concur (fun s => set_mConcurrent (u64 (mConcurrent s + n)) s).

Lemma mutex_round_run f g n i c s m m' :
  mutexes s i = Some m -> g m = Some m' ->
  exists s', mutex_round f g n i c s = Done tt c s' /\
    moved g [i] (mutexes s) (mutexes s') /\ same_data s s' /\
    mConcurrent (concur s') = u64 (mConcurrent (concur s) + n).
Proof.
  unfold mutexes. intros Hm Hg. apply fmap_Some in Hm as (seg & Hseg & ->).
  unfold mutex_round, bind, in_mutex, lift_mutex. rewrite Hseg, Hg.
  eexists. split_and!; [reflexivity | | | reflexivity].
  - intros j. cbn. destruct (decide (j ∈ [i])) as [Hj|Hj].
    + apply list_elem_of_singleton in Hj as ->.
      rewrite Hseg, list_lookup_insert_eq by (apply lookup_lt_is_Some; eauto). cbn. eauto.
    + rewrite list_lookup_insert_ne by set_solver. reflexivity.
  - split_and!; [|reflexivity..]. cbn. rewrite list_fmap_insert. cbn.
    apply list_insert_id. rewrite list_lookup_fmap, Hseg. reflexivity.
Qed.

(** A round that succeeds found its transition. *)
Lemma mutex_round_inv f g n i c s x c' s' :
  mutex_round f g n i c s = Done x c' s' ->
  exists m m', mutexes s i = Some m /\ g m = Some m'.
Proof.
  unfold mutex_round, bind, in_mutex, lift_mutex, mutexes. intros H.
  destruct (mSegments (concur s) !! i) as [seg|]; [|discriminate]. cbn.
  destruct (g (mMutex seg)) eqn:E; [eauto|discriminate].
Qed.

Lemma mutex_rounds_run f g n l c s :
  NoDup l ->
  (forall i, i ∈ l -> exists m m', mutexes s i = Some m /\ g m = Some m') ->
  exists s', forM l (mutex_round f g n) c s = Done tt c s' /\
    moved g l (mutexes s) (mutexes s') /\ same_data s s'.
Proof.
  intros Hnd. revert s. induction Hnd as [|i l Hi Hnd IH]; intros s Hl; cbn [forM].
  { eexists. split_and!; [reflexivity | apply moved_nil | reflexivity]. }
  destruct (Hl i) as (m & m' & Hm & Hg); [set_solver|].
  destruct (mutex_round_run f g n i c s m m' Hm Hg) as (s1 & Hrun & Hmv & Hdat & _).
  destruct (IH s1) as (s2 & Hrun2 & Hmv2 & Hdat2).
  { intros j Hj. specialize (Hmv j). rewrite decide_False in Hmv by set_solver.
    rewrite Hmv. apply Hl. set_solver. }
  exists s2. split_and!; [by rewrite (bind_Done _ _ _ _ _ _ _ Hrun) | | by etransitivity].
  apply (moved_app g [i] l _ (mutexes s1)); [set_solver | done..].
Qed.

Lemma mutex_rounds_inv f g n l c s x c' s' :
  NoDup l -> forM l (mutex_round f g n) c s = Done x c' s' ->
  c' = c /\ moved g l (mutexes s) (mutexes s') /\ same_data s s'.
Proof.
  intros Hnd. revert c s. induction Hnd as [|i l Hi Hnd IH]; intros c s H; cbn [forM] in H.
  { inv_run H. split_and!; [reflexivity | apply moved_nil | reflexivity]. }
  apply bind_inv in H as ([] & c1 & s1 & H1 & H2).
  destruct (mutex_round_inv _ _ _ _ _ _ _ _ _ H1) as (m & m' & Hm & Hg).
  destruct (mutex_round_run f g n i c s m m' Hm Hg) as (s1' & Hrun & Hmv & Hdat & _).
  rewrite Hrun in H1. simplify_eq.
  destruct (IH _ _ H2) as (-> & Hmv2 & Hdat2). split_and!; [done | | by etransitivity].
  apply (moved_app g [i] l _ (mutexes s1)); [set_solver | done..].
Qed.

(** The data operations leave the mutexes alone. *)
Lemma in_bucket_keeps i {A} (m : M (InMemoryKVStore D) A) : keeps_locks mutexes (in_bucket i m).
Proof.
  intros ms c s a c' s' HI H j. rewrite <- HI. unfold in_bucket in H. unfold mutexes.
  destruct (mSegments (concur s) !! i) as [seg|] eqn:E; [|discriminate].
  destruct (m c _); [|discriminate]. simplify_eq. cbn.
  destruct (decide (j = i)) as [->|Hne].
  - by rewrite list_lookup_insert_eq, E by (apply lookup_lt_is_Some; eauto).
  - by rewrite list_lookup_insert_ne by congruence.
Qed.

Lemma segment_keeps k {A} (m : M (InMemoryKVStore D) A) :
  keeps_locks mutexes (let* index := segment_of k in in_bucket index m).
Proof.
  intros ms. apply preserves_bind; [|intros; apply in_bucket_keeps].
  apply preserves_bind; [apply preserves_assert | intros; apply preserves_ret].
Qed.

Lemma evictKV_keeps ks g : keeps_locks mutexes (evictKV ks g).
Proof.
  intros ms. apply preserves_bind.
  - apply preserves_forM. intros k.
    apply preserves_bind; [|intros].
    + apply preserves_bind; [apply preserves_assert | intros; apply preserves_ret].
    + apply preserves_bind; [apply in_bucket_keeps | intros; apply preserves_ret].
  - intros _. apply preserves_bind; [by apply preserves_modify | intros; apply preserves_ret].
Qed.

Lemma check_indices_run ks c s : check_indices ks c s = Done tt c s.
Proof.
  revert c s. induction ks as [|k ks IH]; intros c s; [reflexivity|].
  unfold check_indices. cbn [forM]. unfold bind. rewrite segment_of_run. apply IH.
Qed.

Lemma indexFlags_NoDup ks : NoDup (indexFlags ks).
Proof. apply NoDup_filter, NoDup_seq. Qed.

(** Segments are locked in strictly increasing order. *)
Lemma indexFlags_sorted ks : StronglySorted lt (indexFlags ks).
Proof.
  unfold indexFlags, all_segments.
  assert (forall n m, StronglySorted lt (seq n m)) as H.
  { intros n m. revert n. induction m as [|m IH]; intros n; cbn; constructor; [apply IH|].
    apply Forall_forall. intros x Hx%elem_of_seq. lia. }
  generalize (H O (Z.to_nat kConcurLevel)). induction 1 as [|x l Hs IH Hf]; [constructor|].
  rewrite filter_cons. case_decide; [|done]. constructor; [done|].
  apply Forall_forall. intros y [_ Hy]%list_elem_of_filter. rewrite Forall_forall in Hf. auto.
Qed.

(** The segments a set of keys locks are the segments of its keys. *)
Lemma elem_of_indexFlags ks i :
  i ∈ indexFlags ks <-> exists k, k ∈ ks /\ i = calculateSegmentIndex k.
Proof.
  unfold indexFlags. rewrite list_elem_of_filter, list_elem_of_fmap. split.
  - intros [(k & -> & Hk) _]. eauto.
  - intros (k & Hk & ->). split; [eauto|]. apply elem_of_seq.
    pose proof (calculateSegmentIndex_range k). lia.
Qed.

Lemma lock_inv ks e c s x c' s' :
  lock ks e c s = Done x c' s' ->
  x = Status.ok /\ c' = c /\ moved (acquire e) (indexFlags ks) (mutexes s) (mutexes s') /\
  same_data s s'.
Proof.
  unfold lock. intros H. rewrite (bind_Done _ _ _ _ _ _ _ (check_indices_run ks c s)) in H.
  apply bind_inv in H as (y & c1 & s1 & H1 & H2). run_in H2. simplify_eq.
  apply (mutex_rounds_inv WouldBlock (acquire e) 1) in H1 as (-> & Hmv & Hdat);
    [done | apply indexFlags_NoDup].
Qed.

Lemma unlock_run ks e c s :
  (forall i, i ∈ indexFlags ks -> exists m m', mutexes s i = Some m /\ release e m = Some m') ->
  exists s', unlock ks e c s = Done Status.ok c s' /\
    moved (release e) (indexFlags ks) (mutexes s) (mutexes s') /\ same_data s s'.
Proof.
  intros Hl. unfold unlock. rewrite (bind_Done _ _ _ _ _ _ _ (check_indices_run ks c s)).
  destruct (mutex_rounds_run Undefined (release e) (-1) (indexFlags ks) c s) as (s' & H & Hmv & Hd);
    [apply indexFlags_NoDup | done |].
  exists s'. split_and!; [|done..]. by rewrite (bind_Done _ _ _ _ _ _ _ H).
Qed.

(** Splitting the store into 4096 segments is invisible. From freshly built
    stores over the same delegate, every sequence of calls (writes with and
    without ttl, reads, deletes, meta reads, reads from the delegate, evictions,
    open, close, clear) returns the same answers from the segmented store and
    from one in-memory store, whatever the hash function is, leaving the same
    clock and equal contents key by key, or stops with the same fault. *)
Theorem concur_refines_inmemory ops c d :
  sim_at merged (calls ops c (mkConcurStore new_Concur d))
                (calls ops c (mkInMemory empty_bucket d)).
Proof. apply (sim_calls wf shard mConcurDelegate), merged_new. Qed.

End ConcurInMemoryKVStore.

#[global] Arguments all_segments : simpl never.
#[global] Arguments indexFlags : simpl never.
