(* ===== verification/WSConcurInMemoryKVStore.v ===== *)
(** * The in-memory store of several working sets

    [store::WSConcurInMemoryKVStore]
    (kv-engine/store/WSConcurInMemoryKVStore.h/.cpp): one segmented store per
    working set, over a common delegate; a lookup function given at construction
    says which working set a key belongs to. This is the store the engine runs
    commands on. *)

From S2P Require Import Prelude Status Proto KVStore SharedMutex Lockable InMemoryKVStore Sharding.
From S2P Require Import ConcurInMemoryKVStore.

Record ConcurWrapper := mkWrapper { mKVStore : Concur; mWSMutex : SharedMutex }.

Record WSConcur := mkWSConcur {
  mWS2Wrapper : gmap string ConcurWrapper;
  mWSObserved : Observed;
}.

Record WSConcurInMemoryKVStore (D : Type) := mkWSStore {
  wsconcur : WSConcur;
  mWSDelegate : D;
}.
Arguments mkWSStore {D} _ _.
Arguments wsconcur {D} _.
Arguments mWSDelegate {D} _.

(** The names a [std::map] keyed by working set is iterated over, in order. *)
Definition ws_names (s : WSConcur) : list WSName :=
  set_of_list (map_to_list (mWS2Wrapper s)).*1.

(** [ws2Keys]: a [std::map<WSName, std::set<KeyType>>] as the list of its pairs
    in increasing order of name. *)
Fixpoint ws2Keys_add (name : WSName) (key : KeyType) (l : list (WSName * list KeyType))
    : list (WSName * list KeyType) :=
  match l with
  | [] => [(name, [key])]
  | (n, ks) :: l' =>
      match String.compare name n with
      | Lt => (name, [key]) :: l
      | Eq => (n, set_insert key ks) :: l'
      | Gt => (n, ks) :: ws2Keys_add name key l'
      end
  end.

Section WSConcurInMemoryKVStore.
Context {D : Type} `{!KVStore D} {HASH : StdHash} {LOOKUP : WSLookup}.

(** The constructor: it asserts the names are distinct. *)
Definition new_WSConcur (initWSNames : list WSName) : option WSConcur :=
  fold_left (fun acc name =>
    s ← acc;
    match mWS2Wrapper s !! name with
    | Some _ => None
    | None => Some (mkWSConcur (<[name := mkWrapper new_Concur Free]> (mWS2Wrapper s))
                               (mWSObserved s))
    end) initWSNames (Some (mkWSConcur ∅ no_observers)).

(** [assert(mWS2Wrapper.find(name) != mWS2Wrapper.end());
     mWS2Wrapper[name].mKVStore->m(...)] *)
Definition in_ws (name : WSName) {A} (m : M (ConcurInMemoryKVStore D) A)
    : M (WSConcurInMemoryKVStore D) A :=
  fun c s =>
    match mWS2Wrapper (wsconcur s) !! name with
    | None => Stop AssertFail
    | Some w =>
        match m c (mkConcurStore (mKVStore w) (mWSDelegate s)) with
        | Done a c' cs =>
            Done a c' (mkWSStore
              (mkWSConcur (<[name := mkWrapper (concur cs) (mWSMutex w)]> (mWS2Wrapper (wsconcur s)))
                          (mWSObserved (wsconcur s)))
              (mConcurDelegate cs))
        | Stop f => Stop f
        end
    end.

Definition all_ws {A} (f : list WSName -> M (WSConcurInMemoryKVStore D) A)
    : M (WSConcurInMemoryKVStore D) A :=
  let* s := get in f (ws_names (wsconcur s)).

Definition open : M (WSConcurInMemoryKVStore D) Status.t :=
  all_ws (fun names => until_error names (fun n => in_ws n ConcurInMemoryKVStore.open) Status.ok).

Definition close : M (WSConcurInMemoryKVStore D) Status.t :=
  all_ws (fun names => until_error names (fun n => in_ws n ConcurInMemoryKVStore.close) Status.ok).

Definition ws2Keys (targetKeys : list KeyType) : list (WSName * list KeyType) :=
  fold_left (fun acc key => ws2Keys_add (mDefaultWSLookupFunc key) key acc) targetKeys [].

Definition lock (targetKeys : list KeyType) (isExclusive : bool) : M (WSConcurInMemoryKVStore D) Status.t :=
  forM (ws2Keys targetKeys) (fun '(name, keys) =>
    in_ws name (ConcurInMemoryKVStore.lock keys isExclusive) ;;; ret tt) ;;;
  ret Status.ok.

Definition unlock (targetKeys : list KeyType) (isExclusive : bool) : M (WSConcurInMemoryKVStore D) Status.t :=
  forM (ws2Keys targetKeys) (fun '(name, keys) =>
    in_ws name (ConcurInMemoryKVStore.unlock keys isExclusive) ;;; ret tt) ;;;
  ret Status.ok.

(** [mWS2Wrapper[targetWS].mMutex.m()] *)
Definition in_ws_mutex (name : WSName) (m : M SharedMutex unit) : M (WSConcurInMemoryKVStore D) unit :=
  fun c s =>
    match mWS2Wrapper (wsconcur s) !! name with
    | None => Stop AssertFail
    | Some w =>
        match m c (mWSMutex w) with
        | Done a c' mu =>
            Done a c' (mkWSStore
              (mkWSConcur (<[name := mkWrapper (mKVStore w) mu]> (mWS2Wrapper (wsconcur s)))
                          (mWSObserved (wsconcur s)))
              (mWSDelegate s))
        | Stop f => Stop f
        end
    end.

Definition lockWS (targetWS : WSName) (isExclusive : bool) : M (WSConcurInMemoryKVStore D) Status.t :=
  in_ws_mutex targetWS (lock_mutex isExclusive) ;;; ret Status.ok.

Definition unlockWS (targetWS : WSName) (isExclusive : bool) : M (WSConcurInMemoryKVStore D) Status.t :=
  in_ws_mutex targetWS (unlock_mutex isExclusive) ;;; ret Status.ok.

Definition writeKV (key : KeyType) (value : ValueType) (version : VersionType)
    (updateTime : TimeType) (udfMeta : UserDefinedMeta) : M (WSConcurInMemoryKVStore D) Status.t :=
  in_ws (mDefaultWSLookupFunc key)
        (ConcurInMemoryKVStore.writeKV key value version updateTime udfMeta).

Definition writeTTLKV (key : KeyType) (value : ValueType) (version : VersionType)
    (ttl : TTLType) (deadline updateTime : TimeType) (udfMeta : UserDefinedMeta)
    : M (WSConcurInMemoryKVStore D) Status.t :=
  in_ws (mDefaultWSLookupFunc key)
        (ConcurInMemoryKVStore.writeTTLKV key value version ttl deadline updateTime udfMeta).

Definition readKV (key : KeyType) (out : ReadOut) : M (WSConcurInMemoryKVStore D) (Status.t * ReadOut) :=
  in_ws (mDefaultWSLookupFunc key) (ConcurInMemoryKVStore.readKV key out).

Definition readKVFromProxy (key : KeyType) (out : ReadOut) : M (WSConcurInMemoryKVStore D) (Status.t * ReadOut) :=
  in_ws (mDefaultWSLookupFunc key) (ConcurInMemoryKVStore.readKVFromProxy key out).

Definition readMetaFromProxy (key : KeyType) (meta : Meta) : M (WSConcurInMemoryKVStore D) (Status.t * Meta) :=
  in_ws (mDefaultWSLookupFunc key) (ConcurInMemoryKVStore.readMetaFromProxy key meta).

Definition deleteKV (key : KeyType) (deleteRecordVersion deletedVersion : VersionType)
    : M (WSConcurInMemoryKVStore D) Status.t :=
  in_ws (mDefaultWSLookupFunc key)
        (ConcurInMemoryKVStore.deleteKV key deleteRecordVersion deletedVersion).

Definition readMeta (key : KeyType) (meta : Meta) : M (WSConcurInMemoryKVStore D) (Status.t * Meta) :=
  in_ws (mDefaultWSLookupFunc key) (ConcurInMemoryKVStore.readMeta key meta).

Definition clear : M (WSConcurInMemoryKVStore D) unit :=
  all_ws (fun names => forM names (fun n => in_ws n ConcurInMemoryKVStore.clear)).

Definition flush : M (WSConcurInMemoryKVStore D) Status.t :=
  zoom mWSDelegate (fun d s => mkWSStore (wsconcur s) d) kvFlush.

Definition evictKV (keys : list KeyType) (guardVersion : VersionType) : M (WSConcurInMemoryKVStore D) Status.t :=
  forM keys (fun key =>
    in_ws (mDefaultWSLookupFunc key) (ConcurInMemoryKVStore.evictKV [key] guardVersion) ;;; ret tt) ;;;
  modify (fun s => mkWSStore (mkWSConcur (mWS2Wrapper (wsconcur s))
                                         (notify (OnEvict keys) (mWSObserved (wsconcur s))))
                             (mWSDelegate s)) ;;;
  ret Status.ok.

Definition registerObserver (id : nat) : M (WSConcurInMemoryKVStore D) Status.t :=
  all_ws (fun names =>
    forM names (fun n => in_ws n (ConcurInMemoryKVStore.registerObserver id) ;;; ret tt)) ;;;
  ret Status.ok.

#[global] Instance WSConcurInMemoryKVStore_KVStore : KVStore (WSConcurInMemoryKVStore D) := {
  kvOpen := open;
  kvClose := close;
  kvLock := lock;
  kvUnlock := unlock;
  kvWriteKV := writeKV;
  kvWriteTTLKV := writeTTLKV;
  kvReadKV := readKV;
  kvDeleteKV := deleteKV;
  kvReadKVFromProxy := readKVFromProxy;
  kvReadMeta := readMeta;
  kvReadMetaFromProxy := readMetaFromProxy;
  kvCommit _ := not_supported;
  kvLoadMilestone _ := not_supported;
  kvClear := clear;
  kvFlush := flush;
  kvEvictKV := evictKV;
}.

(** ** Equivalence with a single store *)

(** Every working set a key can be looked up in exists, and its store is
    well-formed. *)
Definition wf (s : WSConcurInMemoryKVStore D) : Prop :=
  (forall key, is_Some (mWS2Wrapper (wsconcur s) !! mDefaultWSLookupFunc key)) /\
  (forall name w, mWS2Wrapper (wsconcur s) !! name = Some w ->
     ConcurInMemoryKVStore.wf (mkConcurStore (mKVStore w) (mWSDelegate s))).

Definition shard (s : WSConcurInMemoryKVStore D) (key : KeyType) : Bucket :=
  match mWS2Wrapper (wsconcur s) !! mDefaultWSLookupFunc key with
  | Some w => ConcurInMemoryKVStore.shard (mkConcurStore (mKVStore w) (mWSDelegate s)) key
  | None => empty_bucket
  end.

Lemma serves_in_ws k {A} (mc : M (ConcurInMemoryKVStore D) A) (m : M (InMemoryKVStore D) A) :
  serves ConcurInMemoryKVStore.wf ConcurInMemoryKVStore.shard mConcurDelegate k mc m ->
  serves wf shard mWSDelegate k (in_ws (mDefaultWSLookupFunc k) mc) m.
Proof.
  intros Hs c s [Hex Hwf]. destruct (Hex k) as [w Hw].
  specialize (Hs c _ (Hwf _ _ Hw)). unfold in_ws, shard at 1. rewrite Hw.
  cbn [mConcurDelegate] in Hs. destruct (m c _) as [a c' im|f]; [|by rewrite Hs].
  destruct Hs as (t' & -> & Hwf' & Hd & Hk & Hj). eexists. split_and!; [reflexivity| |done| |].
  - split; cbn.
    + intros key. apply lookup_insert_is_Some'. right. apply Hex.
    + intros name w'. destruct (decide (name = mDefaultWSLookupFunc k)) as [->|Hne].
      * rewrite lookup_insert_eq. intros. simplify_eq. exact Hwf'.
      * rewrite lookup_insert_ne by congruence. apply Hwf.
  - unfold shard. cbn. rewrite lookup_insert_eq. exact Hk.
  - intros j Hne. unfold shard. cbn.
    destruct (decide (mDefaultWSLookupFunc j = mDefaultWSLookupFunc k)) as [Hi|Hi].
    + rewrite Hi, Hw, lookup_insert_eq. exact (Hj j Hne).
    + rewrite lookup_insert_ne by congruence. reflexivity.
Qed.

Lemma elem_of_ws_names s n : n ∈ ws_names s <-> is_Some (mWS2Wrapper s !! n).
Proof.
  unfold ws_names. rewrite elem_of_set_of_list, list_elem_of_fmap. split.
  - intros ([n' w] & -> & Hw%elem_of_map_to_list). eauto.
  - intros [w Hw%elem_of_map_to_list]. exists (n, w). done.
Qed.

(** The effect of clearing the working sets of [l]. *)
Lemma clear_ws_loop l c s :
  wf s -> (forall n, n ∈ l -> is_Some (mWS2Wrapper (wsconcur s) !! n)) ->
  exists s', forM l (fun n => in_ws n ConcurInMemoryKVStore.clear) c s = Done tt c s' /\
    wf s' /\ mWSDelegate s' = mWSDelegate s /\
    forall k, (mDefaultWSLookupFunc k ∈ l -> same_at k (shard s' k) empty_bucket) /\
              (mDefaultWSLookupFunc k ∉ l -> shard s' k = shard s k).
Proof.
  revert s. induction l as [|n l IH]; intros s Hwf Hl; cbn [forM].
  { eexists. split_and!; [reflexivity|done|done|]. intros k. split; set_solver. }
  destruct (Hl n) as [w Hw]; [set_solver|]. pose proof Hwf as [Hex Hws].
  destruct (clear_run c _ (Hws n w Hw)) as (cs & Hrun & Hcwf & Hcd & _ & Hck).
  set (s1 := mkWSStore (mkWSConcur (<[n := mkWrapper (concur cs) (mWSMutex w)]>
    (mWS2Wrapper (wsconcur s))) (mWSObserved (wsconcur s))) (mConcurDelegate cs)).
  assert (in_ws n ConcurInMemoryKVStore.clear c s = Done tt c s1) as Hrun1.
  { unfold in_ws. rewrite Hw, Hrun. reflexivity. }
  destruct (IH s1) as (s' & Hrun' & Hwf' & Hd' & Hk').
  { split; cbn.
    - intros key. apply lookup_insert_is_Some'. right. apply Hex.
    - intros name w' [[<- <-]|[_ Hw']]%lookup_insert_Some; [exact Hcwf | eapply Hws; eauto]. }
  { intros n' Hn'. cbn. apply lookup_insert_is_Some'. right. apply Hl. set_solver. }
  exists s'. split_and!; [by rewrite (bind_Done _ _ _ _ _ _ _ Hrun1) | done | by rewrite Hd' |].
  intros k. destruct (Hk' k) as [Hin Hout].
  destruct (decide (mDefaultWSLookupFunc k ∈ l)) as [Hkl|Hkl]; [split; set_solver|].
  rewrite (Hout Hkl). unfold shard. cbn. split.
  - intros Hkn. assert (mDefaultWSLookupFunc k = n) as -> by set_solver.
    rewrite lookup_insert_eq. apply Hck.
  - intros Hkn. rewrite lookup_insert_ne by set_solver. reflexivity.
Qed.

#[local] Abbreviation merged := (merged wf shard mWSDelegate).

Lemma sim_clear_ws : sim merged clear InMemoryKVStore.clear.
Proof.
  intros c s im (Hwf & Hd & Hk).
  destruct (clear_ws_loop (ws_names (wsconcur s)) c s Hwf) as (s' & Hrun & Hwf' & Hd' & Hk').
  { intros n. apply elem_of_ws_names. }
  unfold clear, all_ws, bind, get. rewrite Hrun. cbn. split_and!; [done..|].
  split_and!; [done | cbn; congruence |]. intros k. destruct (Hk' k) as [Hin _].
  rewrite Hin; [split_and!; reflexivity|]. apply elem_of_ws_names, Hwf.
Qed.

Lemma sim_open_ws (body : M (ConcurInMemoryKVStore D) Status.t) (m : M (InMemoryKVStore D) Status.t) :
  (forall c s, body c s = (ConcurInMemoryKVStore.clear ;;; ret Status.ok) c s) ->
  m = (InMemoryKVStore.clear ;;; ret Status.ok) ->
  sim merged (all_ws (fun names => until_error names (fun n => in_ws n body) Status.ok)) m.
Proof.
  intros Hb -> c s im H. unfold all_ws, bind at 1, get.
  rewrite (until_error_ok _ _ (fun n => in_ws n ConcurInMemoryKVStore.clear)).
  - apply (sim_bind merged clear); [apply sim_clear_ws | intros; apply sim_ret | exact H].
  - intros n c0 s0. unfold bind, in_ws. destruct (mWS2Wrapper (wsconcur s0) !! n); [|done].
    rewrite Hb. unfold bind. by destruct (ConcurInMemoryKVStore.clear c0 _).
Qed.

Lemma sim_evictKV_ws ks g : sim merged (evictKV ks g) (InMemoryKVStore.evictKV ks g).
Proof.
  apply sim_bind.
  - apply sim_forM. intros key.
    apply (sim_merged_same wf shard mWSDelegate _ (InMemoryKVStore.evictKV [key] g ;;; ret tt));
      [|apply evictKV_single].
    apply sim_bind; [|intros; apply sim_ret].
    eapply serves_sim; [apply local_evictKV|]. apply serves_in_ws, serves_evictKV_concur.
  - intros _ c s im (Hwf & Hd & Hk). cbn. split_and!; [done..|]. split_and!; [done|done|].
    intros k. exact (Hk k).
Qed.

#[global] Instance WSConcurInMemoryKVStore_Serves : Serves wf shard mWSDelegate.
Proof.
  split; intros;
    [ apply serves_in_ws, serves_segment, local_writeKV
    | apply serves_in_ws, serves_segment, local_writeTTLKV
    | apply serves_in_ws, serves_segment, local_readKV
    | apply serves_in_ws, serves_segment, local_deleteKV
    | apply serves_in_ws, serves_segment, local_on_delegate
    | apply serves_in_ws, serves_segment, local_readMeta
    | apply serves_in_ws, serves_segment, local_on_delegate
    | apply sim_evictKV_ws | | | apply sim_clear_ws ];
    (apply sim_open_ws; [intros; by apply open_is_clear | reflexivity]).
Qed.

Lemma new_WSConcur_wrapper names s name w :
  new_WSConcur names = Some s -> mWS2Wrapper s !! name = Some w -> w = mkWrapper new_Concur Free.
Proof.
  unfold new_WSConcur.
  assert (forall acc, (forall s0 w0, acc = Some s0 -> mWS2Wrapper s0 !! name = Some w0 ->
            w0 = mkWrapper new_Concur Free) ->
          forall s, fold_left (fun acc name => s ← acc;
            match mWS2Wrapper s !! name with
            | Some _ => None
            | None => Some (mkWSConcur (<[name := mkWrapper new_Concur Free]> (mWS2Wrapper s))
                                       (mWSObserved s))
            end) names acc = Some s ->
          mWS2Wrapper s !! name = Some w -> w = mkWrapper new_Concur Free) as H.
  { induction names as [|n names IH]; intros acc Hacc s0; cbn [fold_left]; [eauto|].
    intros H Hw. eapply IH; [|exact H|exact Hw].
    intros s1 w1 H1 Hw1. destruct acc as [a|]; [|discriminate]. cbn in H1.
    case_match; simplify_eq. cbn in Hw1.
    apply lookup_insert_Some in Hw1 as [[_ <-]|[_ Hw1]]; eauto. }
  intros H1 H2. eapply H; [|exact H1|exact H2]. intros s0 w0 [= <-] Hw. cbn in Hw.
  by rewrite lookup_empty in Hw.
Qed.

Lemma merged_new_ws s d names :
  new_WSConcur names = Some s ->
  (forall key, is_Some (mWS2Wrapper s !! mDefaultWSLookupFunc key)) ->
  merged (mkWSStore s d) (mkInMemory empty_bucket d).
Proof.
  intros Hnew Hex. split_and!; [split; [exact Hex|] | done |].
  - intros name w Hw. cbn in Hw. rewrite (new_WSConcur_wrapper _ _ _ _ Hnew Hw). apply wf_new.
  - intros k. unfold shard. cbn. destruct (Hex k) as [w Hw]. rewrite Hw.
    rewrite (new_WSConcur_wrapper _ _ _ _ Hnew Hw). apply (ConcurInMemoryKVStore.merged_new d).
Qed.

(** ** Locks *)

(** The order [ws2Keys] is iterated in: names strictly increasing. *)
Lemma ws2Keys_add_names name key l :
  StronglySorted string_lt l.*1 ->
  StronglySorted string_lt (ws2Keys_add name key l).*1 /\
  forall n, n ∈ (ws2Keys_add name key l).*1 <-> n = name \/ n ∈ l.*1.
Proof.
  induction l as [|[n ks] l IH]; cbn; intros H.
  { split; [repeat constructor | set_solver]. }
  inversion H as [|? ? Hs Hf]; subst.
  destruct (String.compare name n) eqn:E; cbn.
  - apply String.compare_eq_iff in E as ->. split; [done|]. intros z. rewrite elem_of_cons. tauto.
  - split; [|intros z; rewrite !elem_of_cons; tauto]. constructor; [done|]. constructor; [done|].
    eapply Forall_impl; [exact Hf|]. intros z Hz. by etransitivity.
  - destruct (IH Hs) as [IH1 IH2]. split.
    + constructor; [done|]. apply Forall_forall. rewrite Forall_forall in Hf.
      intros z [->|Hz]%IH2; [by apply string_gt_lt | auto].
    + intros z. rewrite !elem_of_cons, IH2. tauto.
Qed.

Lemma ws2Keys_sorted ks : StronglySorted string_lt (ws2Keys ks).*1.
Proof.
  unfold ws2Keys. assert (StronglySorted string_lt (@nil (WSName * list KeyType)).*1) as H
    by constructor.
  revert H. generalize (@nil (WSName * list KeyType)).
  induction ks as [|k ks IH]; intros acc H; cbn; [done|]. apply IH, ws2Keys_add_names, H.
Qed.

Lemma ws2Keys_NoDup ks : NoDup (ws2Keys ks).*1.
Proof. apply (StronglySorted_NoDup string_lt), ws2Keys_sorted. Qed.

(** The segments of some keys per working set, in the order they are locked. *)
Definition ws_segments (l : list (WSName * list KeyType)) : list (WSName * nat) :=
  l ≫= fun '(name, keys) => pair name <$> indexFlags keys.

Definition ws_mutexes (s : WSConcurInMemoryKVStore D) (i : WSName * nat) : option SharedMutex :=
  w ← mWS2Wrapper (wsconcur s) !! i.1; mMutex <$> mSegments (mKVStore w) !! i.2.

Lemma ws_segments_name l i : i ∈ ws_segments l -> i.1 ∈ l.*1.
Proof.
  unfold ws_segments. intros ([name keys] & Hi & Hl)%list_elem_of_bind.
  apply list_elem_of_fmap in Hi as (j & -> & _). apply list_elem_of_fmap. by exists (name, keys).
Qed.

Lemma ws_segments_cons name keys l :
  ws_segments ((name, keys) :: l) = ((pair name <$> indexFlags keys) ++ ws_segments l).
Proof. reflexivity. Qed.

Lemma in_ws_moved name {A} (m : M (ConcurInMemoryKVStore D) A) f l c s w a c' cs :
  mWS2Wrapper (wsconcur s) !! name = Some w ->
  m c (mkConcurStore (mKVStore w) (mWSDelegate s)) = Done a c' cs ->
  moved f l (mutexes (mkConcurStore (mKVStore w) (mWSDelegate s))) (mutexes cs) ->
  exists s', in_ws name m c s = Done a c' s' /\
    moved f (pair name <$> l) (ws_mutexes s) (ws_mutexes s').
Proof.
  intros Hw Hm Hmv. unfold in_ws. rewrite Hw, Hm. eexists. split; [reflexivity|]. intros [n i].
  unfold ws_mutexes. cbn [wsconcur mWS2Wrapper fst snd].
  destruct (decide (n = name)) as [->|Hne].
  - rewrite lookup_insert_eq, Hw. cbn [mbind option_bind mKVStore]. specialize (Hmv i).
    unfold mutexes in Hmv. cbn [concur] in Hmv. destruct (decide (i ∈ l)) as [Hi|Hi].
    + rewrite decide_True by (apply list_elem_of_fmap; eauto). exact Hmv.
    + rewrite decide_False by (intros (? & ? & ?)%list_elem_of_fmap; simplify_eq; done). exact Hmv.
  - rewrite lookup_insert_ne by congruence.
    rewrite decide_False by (intros (? & ? & ?)%list_elem_of_fmap; simplify_eq; done). done.
Qed.

Lemma in_ws_inv name {A} (m : M (ConcurInMemoryKVStore D) A) c s a c' s' :
  in_ws name m c s = Done a c' s' ->
  exists w cs, mWS2Wrapper (wsconcur s) !! name = Some w /\
    m c (mkConcurStore (mKVStore w) (mWSDelegate s)) = Done a c' cs.
Proof.
  unfold in_ws. destruct (mWS2Wrapper (wsconcur s) !! name) as [w|]; [|discriminate].
  destruct (m c _) as [a1 c1 cs|] eqn:E; [|discriminate]. intros. simplify_eq. eauto.
Qed.

Lemma ws_segments_disjoint name keys l i :
  name ∉ l.*1 -> i ∈ pair name <$> indexFlags keys -> i ∉ ws_segments l.
Proof. intros Hn (j & -> & _)%list_elem_of_fmap Hi%ws_segments_name. done. Qed.

Lemma lock_loop_moved l e c s x c' s' :
  NoDup l.*1 ->
  forM l (fun '(name, keys) => in_ws name (ConcurInMemoryKVStore.lock keys e) ;;; ret tt) c s
    = Done x c' s' ->
  c' = c /\ moved (acquire e) (ws_segments l) (ws_mutexes s) (ws_mutexes s').
Proof.
  revert c s. induction l as [|[name keys] l IH]; intros c s Hnd H; cbn [forM] in H.
  { inv_run H. split; [done | apply moved_nil]. }
  apply bind_inv in H as ([] & c1 & s1 & H1 & H2).
  apply bind_inv in H1 as (st & c2 & s2 & H1 & H1'). run_in H1'. simplify_eq.
  rewrite fmap_cons, NoDup_cons in Hnd. destruct Hnd as [Hn Hnd].
  destruct (in_ws_inv _ _ _ _ _ _ _ H1) as (w & cs & Hw & Hm).
  destruct (lock_inv _ _ _ _ _ _ _ Hm) as (-> & -> & Hmv & _).
  destruct (in_ws_moved name _ _ _ _ _ _ _ _ _ Hw Hm Hmv) as (s1' & Hrun & Hmv').
  rewrite Hrun in H1. simplify_eq.
  destruct (IH _ _ Hnd H2) as [-> Hmv2]. split; [done|]. rewrite ws_segments_cons.
  eapply moved_app; [|exact Hmv'|exact Hmv2]. intros i. by apply ws_segments_disjoint.
Qed.

Lemma in_ws_unlock_run name keys e c s :
  keys <> [] ->
  (forall i, i ∈ pair name <$> indexFlags keys ->
     exists m m', ws_mutexes s i = Some m /\ release e m = Some m') ->
  exists s', in_ws name (ConcurInMemoryKVStore.unlock keys e) c s = Done Status.ok c s' /\
    moved (release e) (pair name <$> indexFlags keys) (ws_mutexes s) (ws_mutexes s').
Proof.
  intros Hne Hl. destruct (mWS2Wrapper (wsconcur s) !! name) as [w|] eqn:Hw.
  - destruct (unlock_run keys e c (mkConcurStore (mKVStore w) (mWSDelegate s)))
      as (cs & Hrun & Hmv & _); [|eapply in_ws_moved; eauto].
    intros i Hi. destruct (Hl (name, i)) as (m & m' & Hm & Hr);
      [apply list_elem_of_fmap; eauto|].
    unfold ws_mutexes in Hm. cbn [fst snd] in Hm. rewrite Hw in Hm. by exists m, m'.
  - exfalso. destruct keys as [|k keys]; [done|].
    destruct (Hl (name, calculateSegmentIndex k)) as (m & m' & Hm & _).
    { apply list_elem_of_fmap. eexists. split; [done|]. apply elem_of_indexFlags.
      exists k. split; [left|done]. }
    unfold ws_mutexes in Hm. cbn [fst snd] in Hm. by rewrite Hw in Hm.
Qed.

Lemma unlock_loop_run l e c s :
  NoDup l.*1 -> (forall name keys, (name, keys) ∈ l -> keys <> []) ->
  (forall i, i ∈ ws_segments l -> exists m m', ws_mutexes s i = Some m /\ release e m = Some m') ->
  exists s', forM l (fun '(name, keys) =>
      in_ws name (ConcurInMemoryKVStore.unlock keys e) ;;; ret tt) c s = Done tt c s' /\
    moved (release e) (ws_segments l) (ws_mutexes s) (ws_mutexes s').
Proof.
  revert s. induction l as [|[name keys] l IH]; intros s Hnd Hne Hl; cbn [forM].
  { eexists. split; [reflexivity | apply moved_nil]. }
  rewrite fmap_cons, NoDup_cons in Hnd. destruct Hnd as [Hn Hnd].
  rewrite ws_segments_cons in *.
  destruct (in_ws_unlock_run name keys e c s) as (s1 & Hrun & Hmv).
  { eapply Hne. left. }
  { intros i Hi. apply Hl, elem_of_app. auto. }
  destruct (IH s1 Hnd) as (s2 & Hrun2 & Hmv2).
  { intros n ks H. eapply Hne. right. exact H. }
  { intros i Hi. specialize (Hmv i). rewrite decide_False in Hmv.
    - rewrite Hmv. apply Hl, elem_of_app. auto.
    - intros Hi'. by apply (ws_segments_disjoint name keys l i). }
  exists s2. split.
  - unfold bind at 1. unfold bind at 1. rewrite Hrun. exact Hrun2.
  - eapply moved_app; [|exact Hmv|exact Hmv2]. intros i. by apply ws_segments_disjoint.
Qed.

Lemma ws2Keys_nonempty ks name keys : (name, keys) ∈ ws2Keys ks -> keys <> [].
Proof.
  unfold ws2Keys. cut (forall acc, (forall n l, (n, l) ∈ acc -> l <> @nil KeyType) ->
    forall n l, (n, l) ∈ fold_left (fun acc key =>
      ws2Keys_add (mDefaultWSLookupFunc key) key acc) ks acc -> l <> []).
  { intros H. apply H. intros n l Hl. by apply not_elem_of_nil in Hl. }
  induction ks as [|k ks IH]; intros acc Hacc n l; cbn [fold_left]; [apply Hacc|]. apply IH.
  clear -Hacc. induction acc as [|[n0 l0] acc IHa]; cbn [ws2Keys_add]; intros n l.
  { intros H%list_elem_of_singleton. simplify_eq. discriminate. }
  assert (forall n l, (n, l) ∈ acc -> l <> []) as Hacc'.
  { intros n1 l1 H1. eapply Hacc. right. exact H1. }
  destruct (String.compare _ n0); rewrite elem_of_cons; intros [[= -> ->]|H];
    eauto; try discriminate.
  - intros Hk. assert (k ∈ set_insert k l0) as H by (apply elem_of_set_insert; auto).
    rewrite Hk in H. by apply not_elem_of_nil in H.
  - eapply Hacc. left.
Qed.

Lemma in_ws_keeps name {A} (m : M (ConcurInMemoryKVStore D) A) :
  keeps_locks mutexes m -> keeps_locks ws_mutexes (in_ws name m).
Proof.
  intros Hm ms c s a c' s' HI H [n i]. rewrite <- HI. unfold in_ws in H. unfold ws_mutexes.
  destruct (mWS2Wrapper (wsconcur s) !! name) as [w|] eqn:Hw; [|discriminate].
  destruct (m c _) as [a1 c1 cs|] eqn:E; [|discriminate]. simplify_eq.
  cbn [wsconcur mWS2Wrapper fst snd]. destruct (decide (n = name)) as [->|Hne].
  - rewrite lookup_insert_eq, Hw.
    exact (Hm (mutexes (mkConcurStore (mKVStore w) (mWSDelegate s))) _ _ _ _ _
             (fun _ => eq_refl) E i).
  - by rewrite lookup_insert_ne by congruence.
Qed.

Lemma evictKV_keeps_ws ks g : keeps_locks ws_mutexes (evictKV ks g).
Proof.
  intros ms. apply preserves_bind.
  - apply preserves_forM. intros k. apply preserves_bind; [|intros; apply preserves_ret].
    apply in_ws_keeps, evictKV_keeps.
  - intros _. apply preserves_bind; [by apply preserves_modify | intros; apply preserves_ret].
Qed.

Lemma clear_keeps_ws : keeps_locks ws_mutexes clear.
Proof.
  intros ms. apply preserves_bind; [apply preserves_get|]. intros s. apply preserves_forM.
  intros n. apply in_ws_keeps. intros ms'. apply preserves_forM. intros i. apply in_bucket_keeps.
Qed.

#[global] Program Instance WSConcurInMemoryKVStore_Lockable :
    Lockable (WSConcurInMemoryKVStore D) (WSName * nat) := {
  lock_view := ws_mutexes;
  footprint ks := ws_segments (ws2Keys ks);
}.
Next Obligation.
  intros ks e c s x c' s' H. apply bind_inv in H as ([] & c1 & s1 & H1 & H2).
  run_in H2. simplify_eq. split; [done|].
  eapply lock_loop_moved; [apply ws2Keys_NoDup | exact H1].
Qed.
Next Obligation.
  intros ks e c s Hl.
  destruct (unlock_loop_run (ws2Keys ks) e c s (ws2Keys_NoDup ks) (ws2Keys_nonempty ks) Hl)
    as (s' & Hrun & Hmv).
  exists s'. split; [|done]. cbn. unfold unlock. by rewrite (bind_Done _ _ _ _ _ _ _ Hrun).
Qed.
Next Obligation. intros. apply in_ws_keeps, segment_keeps. Qed.
Next Obligation. intros. apply in_ws_keeps, segment_keeps. Qed.
Next Obligation. intros. apply in_ws_keeps, segment_keeps. Qed.
Next Obligation. intros. apply in_ws_keeps, segment_keeps. Qed.
Next Obligation. intros. apply in_ws_keeps, segment_keeps. Qed.
Next Obligation. intros. apply in_ws_keeps, segment_keeps. Qed.
Next Obligation. intros. apply in_ws_keeps, segment_keeps. Qed.
Next Obligation. intros. apply evictKV_keeps_ws. Qed.
Next Obligation. apply clear_keeps_ws. Qed.
Next Obligation. intros ms. by apply preserves_zoom. Qed.

(** C1: the store the commands run on answers like one in-memory store. When it
    is built with a set of working sets that covers every key, any sequence of
    calls returns what a single in-memory store over the same delegate returns,
    or stops with the same fault, whatever the hash and the lookup are. *)
Theorem wsconcur_refines_inmemory names s ops c d :
  new_WSConcur names = Some s ->
  (forall key, is_Some (mWS2Wrapper s !! mDefaultWSLookupFunc key)) ->
  sim_at merged (calls ops c (mkWSStore s d)) (calls ops c (mkInMemory empty_bucket d)).
Proof.
  intros Hnew Hex. apply (sim_calls wf shard mWSDelegate). eapply merged_new_ws; eauto.
Qed.

End WSConcurInMemoryKVStore.
