(* ===== verification/CacheEviction.v ===== *)
(** * Cache eviction

    [strategy::LRUEviction] behind [strategy::CacheEvictionProxy]
    (kv-engine/strategy/CacheEviction.h/.cpp): an observer of the in-memory store
    that keeps the keys in the order of their last use and submits evict
    commands for the least recently used ones. The proxy queues what it is told
    for a single worker, so the strategy sees one notification at a time, in
    order. *)

From S2P Require Import Prelude Status Proto KVStore.

(** A node of [std::list] is known by a number; an iterator is the number of the
    node it points to. *)
Abbreviation Node := nat (only parsing).

Record LRUEviction := mkLRU {
  mCapacity : Z;
  mOptimal : Z;
  mMinBatch : Z;
  mMaxBatch : Z;
  mCurUsage : Z;
  mPendingEvictBatch : list KeyType;
  mUsed : list (Node * KeyType);
  mCacheMap : gmap string (Z * Node);
  nextNode : Node;
  (** the evict commands given to the command queue *)
  mCommandQueue : list (list KeyType * VersionType);
}.

Definition kDefaultCapacity : Z := 15 * 1024 * 1024 * 1024.
Definition kDefaultOptimal : Z := 10 * 1024 * 1024 * 1024.
Definition kDefaultMinBatchToEvict : Z := 100.
Definition kDefaultMaxBatchToEvict : Z := 200.

(** The constructor asserts that the capacity is not below the optimum. *)
Definition new_LRU (capacity optimal minBatch maxBatch : Z) : option LRUEviction :=
  if bool_decide (optimal <= capacity)
  then Some (mkLRU capacity optimal minBatch maxBatch 0 [] [] ∅ O [])
  else None.

Definition set_usage (usage : Z) (l : LRUEviction) : LRUEviction :=
  mkLRU (mCapacity l) (mOptimal l) (mMinBatch l) (mMaxBatch l) usage (mPendingEvictBatch l)
        (mUsed l) (mCacheMap l) (nextNode l) (mCommandQueue l).
Definition set_list (used : list (Node * KeyType)) (map : gmap string (Z * Node)) (next : Node)
    (l : LRUEviction) : LRUEviction :=
  mkLRU (mCapacity l) (mOptimal l) (mMinBatch l) (mMaxBatch l) (mCurUsage l) (mPendingEvictBatch l)
        used map next (mCommandQueue l).
Definition set_pending (pending : list KeyType) (queue : list (list KeyType * VersionType))
    (l : LRUEviction) : LRUEviction :=
  mkLRU (mCapacity l) (mOptimal l) (mMinBatch l) (mMaxBatch l) (mCurUsage l) pending
        (mUsed l) (mCacheMap l) (nextNode l) queue.

(** [mUsed.erase(it)]; undefined when the iterator points to no node. *)
Definition list_erase (it : Node) (used : list (Node * KeyType)) : option (list (Node * KeyType)) :=
  if bool_decide (it ∈ used.*1) then Some (filter (fun x => x.1 <> it) used) else None.

(** [mUsed.erase(pair.second); mUsed.push_front(key); pair.second = mUsed.begin()],
    with [pair.first] set to [size]. *)
Definition moveToFront (key : KeyType) (size : Z) (it : Node) : M LRUEviction unit :=
  let* l := get in
  match list_erase it (mUsed l) with
  | None => stop Undefined
  | Some used =>
      put (set_list ((nextNode l, key) :: used) (<[key := (size, nextNode l)]> (mCacheMap l))
                    (S (nextNode l)) l)
  end.

Definition maybeSubmitEvictCommand (lastAppliedVersion : VersionType) : M LRUEviction unit :=
  let* l := get in
  if bool_decide (mMinBatch l <= Z.of_nat (length (mPendingEvictBatch l))) then
    put (set_pending [] (mCommandQueue l ++ [(mPendingEvictBatch l, lastAppliedVersion)]) l)
  else ret tt.

Definition onReadValue (key : KeyType) : M LRUEviction unit :=
  let* l := get in
  match mCacheMap l !! key with
  | Some (size, it) => moveToFront key size it
  | None => ret tt
  end.

(** The loop that evicts, from the back of the list. [mCacheMap[evictKey]] makes a
    new entry with size 0 when there is none. *)
Fixpoint evictLoop (fuel : nat) : M LRUEviction unit :=
  match fuel with
  | O => stop WouldBlock
  | S fuel =>
      let* l := get in
      match last (mUsed l) with
      | Some (_, evictKey) =>
          if bool_decide (0 < mCurUsage l /\ Z.of_nat (length (mPendingEvictBatch l)) < mMaxBatch l) then
            let valueSize := default 0 (fst <$> mCacheMap l !! evictKey) in
            put (mkLRU (mCapacity l) (mOptimal l) (mMinBatch l) (mMaxBatch l)
                       (u64 (mCurUsage l - valueSize))
                       (set_insert evictKey (mPendingEvictBatch l))
                       (removelast (mUsed l)) (delete evictKey (mCacheMap l)) (nextNode l)
                       (mCommandQueue l)) ;;;
            evictLoop fuel
          else ret tt
      | None => ret tt
      end
  end.

Definition onWriteValue (lastAppliedVersion : VersionType) (key : KeyType) (valueSize : Z)
    : M LRUEviction unit :=
  modify (fun l => set_usage (u64 (mCurUsage l + valueSize)) l) ;;;
  let* l := get in
  match mCacheMap l !! key with
  | Some (_, it) =>
      moveToFront key valueSize it ;;;
      modify (fun l => set_usage (u64 (mCurUsage l - valueSize)) l)
  | None =>
      put (set_list ((nextNode l, key) :: mUsed l) (<[key := (valueSize, nextNode l)]> (mCacheMap l))
                    (S (nextNode l)) l)
  end ;;;
  let* l := get in
  if bool_decide (mOptimal l < mCurUsage l) then
    evictLoop (S (length (mUsed l))) ;;;
    maybeSubmitEvictCommand lastAppliedVersion
  else ret tt.

(** What the proxy does with a notification: reads and writes are queued,
    evictions are not, and a deletion is not expected. *)
Definition onNotification (lastAppliedVersion : VersionType) (n : Notification) : M LRUEviction unit :=
  match n with
  | OnRead key => onReadValue key
  | OnWrite key value _ => onWriteValue lastAppliedVersion key (Z.of_nat (String.length value))
  | OnDelete _ _ _ => stop AssertFail
  | OnEvict _ => ret tt
  end.

(** What the worker does with the queued notifications; the apply loop moves
    meanwhile, so each comes with the version applied at that time. *)
Definition observe (ns : list (VersionType * Notification)) : M LRUEviction unit :=
  forM ns (fun x => onNotification x.1 x.2).

(** ** The list and the map agree *)

Definition keys_of (l : LRUEviction) : list KeyType := (mUsed l).*2.

(** Every iterator of the map points to the node of its key, and there is one
    node per key. *)
Record wf (l : LRUEviction) : Prop := {
  wf_nodes : NoDup (mUsed l).*1;
  wf_keys : NoDup (keys_of l);
  wf_fresh n k : (n, k) ∈ mUsed l -> (n < nextNode l)%nat;
  wf_map k : match mCacheMap l !! k with
             | Some (_, n) => (n, k) ∈ mUsed l
             | None => k ∉ keys_of l
             end;
}.

Lemma wf_fresh_node l : wf l -> nextNode l ∉ (mUsed l).*1.
Proof.
  intros H ([n k] & Hn & Hin)%list_elem_of_fmap. cbn in Hn. subst n.
  apply (wf_fresh l H) in Hin. lia.
Qed.

Lemma pair_unique (n m : Node) (k x : KeyType) used :
  NoDup used.*1 -> NoDup used.*2 -> (n, k) ∈ used -> (m, x) ∈ used -> m = n <-> x = k.
Proof.
  intros Hn Hk H1 H2. split; intros ->.
  - by eapply (NoDup_fmap_elem fst used (n, x) (n, k)) in H2; [simplify_eq|..].
  - by eapply (NoDup_fmap_elem snd used (m, k) (n, k)) in H2; [simplify_eq|..].
Qed.

Lemma filter_node_keys (n : Node) k used :
  NoDup used.*1 -> NoDup used.*2 -> (n, k) ∈ used ->
  (filter (fun x : Node * KeyType => x.1 <> n) used).*2 = filter (fun x => x <> k) used.*2.
Proof.
  intros Hn Hk Hin. symmetry. apply filter_fmap. intros [m x] Hx. cbn.
  by rewrite (pair_unique n m k x used).
Qed.

Definition sizes (l : LRUEviction) : gmap string Z := fst <$> mCacheMap l.

(** A new node for [key] in front of the others. *)
Lemma wf_push l used key size :
  wf l -> used ⊆ mUsed l -> NoDup used.*1 -> NoDup used.*2 -> key ∉ used.*2 ->
  (forall n k, (n, k) ∈ mUsed l -> k <> key -> (n, k) ∈ used) ->
  wf (set_list ((nextNode l, key) :: used) (<[key := (size, nextNode l)]> (mCacheMap l)) (S (nextNode l)) l).
Proof.
  intros Hwf Hsub Hn Hk Hkey Hkeep. constructor; cbn.
  - apply NoDup_cons. split; [|done]. intros Hin. apply (wf_fresh_node l Hwf).
    apply list_elem_of_fmap in Hin as (x & -> & Hx). apply list_elem_of_fmap. exists x. split; [done|by apply Hsub].
  - apply NoDup_cons. done.
  - intros n k [[= -> ->]|Hin]%elem_of_cons; [lia|]. apply Hsub, (wf_fresh l Hwf) in Hin. lia.
  - intros k. destruct (decide (k = key)) as [->|Hne]; [rewrite lookup_insert_eq; by left|].
    rewrite lookup_insert_ne by done. pose proof (wf_map l Hwf k) as Hm.
    destruct (mCacheMap l !! k) as [[s n]|]; [right; by apply Hkeep|].
    intros [|Hin]%elem_of_cons; [done|]. apply Hm. unfold keys_of.
    apply list_elem_of_fmap in Hin as (x & -> & Hx). apply list_elem_of_fmap. exists x. split; [done|by apply Hsub].
Qed.

Lemma moveToFront_run key size s0 it c l :
  wf l -> mCacheMap l !! key = Some (s0, it) ->
  exists used, let l' := set_list ((nextNode l, key) :: used) (<[key := (size, nextNode l)]> (mCacheMap l))
                           (S (nextNode l)) l in
    moveToFront key size it c l = Done tt c l' /\ wf l' /\
    keys_of l' = key :: filter (fun k => k <> key) (keys_of l).
Proof.
  intros Hwf Hk. pose proof (wf_map l Hwf key) as Hin. rewrite Hk in Hin.
  exists (filter (fun x => x.1 <> it) (mUsed l)). intros l'.
  assert (Hkeys : (filter (fun x => x.1 <> it) (mUsed l)).*2 = filter (fun k => k <> key) (keys_of l))
    by (apply filter_node_keys; [apply Hwf..|done]).
  split_and!.
  - unfold moveToFront, list_erase. run. rewrite bool_decide_eq_true_2; [done|].
    apply list_elem_of_fmap. by exists (it, key).
  - apply wf_push; [done| | | | |].
    + intros x Hx. by apply list_elem_of_filter in Hx as [_ Hx].
    + rewrite <- (filter_fmap fst _ (fun n => n <> it)) by done. apply NoDup_filter, Hwf.
    + rewrite Hkeys. apply NoDup_filter, Hwf.
    + rewrite Hkeys. by intros [? _]%list_elem_of_filter.
    + intros n k Hnk Hne. apply list_elem_of_filter. split; [|done]. cbn. intros ->. apply Hne.
      eapply (pair_unique it it key k); [apply Hwf..|done|done|done].
  - subst l'. unfold keys_of. cbn. f_equal. apply Hkeys.
Qed.

(** ** Eviction *)

Lemma removelast_snoc {A} (l : list A) x : removelast (l ++ [x]) = l.
Proof. by rewrite removelast_app, app_nil_r. Qed.

Lemma wf_pop l used n key usage pending :
  wf l -> mUsed l = used ++ [(n, key)] ->
  wf (mkLRU (mCapacity l) (mOptimal l) (mMinBatch l) (mMaxBatch l) usage pending used
            (delete key (mCacheMap l)) (nextNode l) (mCommandQueue l)).
Proof.
  intros [Hn Hk Hf Hm] Hu. unfold keys_of in Hk. rewrite Hu in Hn, Hk. rewrite fmap_app in Hn. rewrite fmap_app in Hk.
  apply NoDup_app in Hn as (Hn & _ & _). apply NoDup_app in Hk as (Hk & Hdisj & _).
  constructor; cbn; [done|done| |].
  - intros m k Hin. apply (Hf m k). rewrite Hu. apply elem_of_app. by left.
  - intros k. destruct (decide (k = key)) as [->|Hne].
    + rewrite lookup_delete_eq. intros Hin. apply (Hdisj key Hin). by left.
    + rewrite lookup_delete_ne by done. specialize (Hm k). unfold keys_of in Hm.
      destruct (mCacheMap l !! k) as [[s m]|].
      * rewrite Hu, elem_of_app in Hm. destruct Hm as [|[= _ ->]%list_elem_of_singleton]; done.
      * unfold keys_of. cbn. rewrite Hu, fmap_app, elem_of_app in Hm. tauto.
Qed.

(** The loop takes keys off the end of the list, until the usage is zero, the
    list is empty or the batch is full. *)
Lemma evictLoop_run fuel : forall c l,
  wf l -> (length (mUsed l) < fuel)%nat ->
  exists l' evicted, evictLoop fuel c l = Done tt c l' /\ wf l' /\
    keys_of l = keys_of l' ++ evicted /\
    (forall k, k ∈ mPendingEvictBatch l' <-> k ∈ mPendingEvictBatch l \/ k ∈ evicted) /\
    (Z.of_nat (length (mPendingEvictBatch l)) <= mMaxBatch l ->
     Z.of_nat (length (mPendingEvictBatch l')) <= mMaxBatch l) /\
    (keys_of l' = [] \/ mCurUsage l' <= 0 \/ mMaxBatch l <= Z.of_nat (length (mPendingEvictBatch l'))) /\
    mMinBatch l' = mMinBatch l /\ mMaxBatch l' = mMaxBatch l /\ mOptimal l' = mOptimal l /\
    mCommandQueue l' = mCommandQueue l.
Proof.
  induction fuel as [|fuel IH]; intros c l Hwf Hf; [lia|]. cbn [evictLoop]. run.
  destruct (last (mUsed l)) as [[n key]|] eqn:El.
  2: { apply last_None in El. exists l, []. rewrite app_nil_r.
       split_and!; try done; [set_solver|]. left. unfold keys_of. by rewrite El. }
  apply last_Some in El as [used Hu]. case_bool_decide as Hgo.
  2: { exists l, []. rewrite app_nil_r. split_and!; try done; [set_solver|]. right. lia. }
  rewrite Hu, removelast_snoc.
  match goal with |- context [evictLoop fuel c ?x] => set (l1 := x) end.
  destruct (IH c l1) as (l' & evicted & Hrun & Hwf' & Hkeys & Hpend & Hmax & Hstop & H1 & H2 & H3 & H4).
  { by apply (wf_pop l used n key). }
  { cbn. rewrite Hu, length_app in Hf. cbn in Hf. lia. }
  exists l', (evicted ++ [key]). rewrite Hrun. split_and!; try done.
  - unfold keys_of in *. rewrite Hu, fmap_app, app_assoc. cbn in *. by rewrite Hkeys.
  - intros k. rewrite Hpend. cbn. rewrite elem_of_set_insert. set_solver.
  - intros Hle. apply Hmax. cbn. pose proof (length_set_insert key (mPendingEvictBatch l)). lia.
Qed.

(** The keys after a use of [key]: it comes first, the others keep their order. *)
Definition used_first (key : KeyType) (keys : list KeyType) : list KeyType :=
  key :: filter (fun k => k <> key) keys.

(** The batches: what is pending is too small to be submitted, and what was
    submitted has an allowed size. *)
Definition batches_ok (l : LRUEviction) : Prop :=
  0 < mMinBatch l <= mMaxBatch l /\ Z.of_nat (length (mPendingEvictBatch l)) < mMinBatch l /\
  Forall (fun x => mMinBatch l <= Z.of_nat (length x.1) <= mMaxBatch l) (mCommandQueue l).

Lemma filter_absent (key : KeyType) (keys : list KeyType) : key ∉ keys -> filter (fun k => k <> key) keys = keys.
Proof.
  induction keys as [|k keys IH]; intros H; [done|]. apply not_elem_of_cons in H as [Hne H].
  by rewrite filter_cons_True, IH.
Qed.

(** The list after a write, before anything is evicted. *)
Lemma write_touch key size c l :
  wf l ->
  exists l1, (match mCacheMap l !! key with
     | Some (_, it) => moveToFront key size it ;;; modify (fun l => set_usage (u64 (mCurUsage l - size)) l)
     | None => put (set_list ((nextNode l, key) :: mUsed l) (<[key := (size, nextNode l)]> (mCacheMap l))
                             (S (nextNode l)) l)
     end) c l = Done tt c l1 /\ wf l1 /\ keys_of l1 = used_first key (keys_of l) /\
    sizes l1 = <[key := size]> (sizes l) /\
    mCurUsage l1 = (if mCacheMap l !! key is Some _ then u64 (mCurUsage l - size) else mCurUsage l) /\
    mPendingEvictBatch l1 = mPendingEvictBatch l /\ mCommandQueue l1 = mCommandQueue l /\
    mMinBatch l1 = mMinBatch l /\ mMaxBatch l1 = mMaxBatch l /\ mOptimal l1 = mOptimal l.
Proof.
  intros Hwf. pose proof (wf_map l Hwf key) as Hm. destruct (mCacheMap l !! key) as [[s0 it]|] eqn:Ek.
  - destruct (moveToFront_run key size s0 it c l Hwf Ek) as (used & Hrun & Hwf' & Hkeys).
    rewrite (bind_Done _ _ _ _ _ _ _ Hrun). run. eexists. split; [done|]. split_and!; try done.
    + by destruct Hwf'; constructor.
    + unfold sizes. cbn. by rewrite fmap_insert.
  - run. eexists. split; [done|]. split_and!; try done.
    + apply wf_push; [done|done|apply Hwf..|exact Hm|done].
    + unfold used_first. by rewrite filter_absent.
    + unfold sizes. cbn. by rewrite fmap_insert.
Qed.

Lemma onWriteValue_run v key size c l :
  wf l -> batches_ok l ->
  exists l' evicted, onWriteValue v key size c l = Done tt c l' /\ wf l' /\ batches_ok l' /\
    used_first key (keys_of l) = keys_of l' ++ evicted /\
    (forall k, k ∈ evicted -> k ∈ mPendingEvictBatch l' \/ exists b, (b, v) ∈ mCommandQueue l' /\ k ∈ b).
Proof.
  intros Hwf Hb. unfold onWriteValue.
  set (l0 := set_usage (u64 (mCurUsage l + size)) l).
  assert (Hwf0 : wf l0) by (by destruct Hwf; constructor).
  destruct (write_touch key size c l0 Hwf0) as (l1 & Hrun1 & Hwf1 & Hk1 & _ & _ & Hp1 & Hq1 & Hmin1 & Hmax1 & Hopt1).
  unfold modify at 1. run. run_in Hrun1. fold l0.
  change (mCacheMap l !! key) with (mCacheMap l0 !! key). rewrite Hrun1. cbn beta iota.
  assert (Hb1 : batches_ok l1).
  { unfold batches_ok. rewrite Hp1, Hq1, Hmin1, Hmax1. exact Hb. }
  case_bool_decide as Hu.
  2: { exists l1, []. rewrite app_nil_r. split_and!; try done. by intros k ?%elem_of_nil. }
  destruct (evictLoop_run (S (length (mUsed l1))) c l1 Hwf1 ltac:(lia))
    as (l2 & evicted & Hrun2 & Hwf2 & Hk2 & Hp2 & Hmax2 & _ & Hmin2 & Hmaxb2 & _ & Hq2).
  rewrite Hrun2. destruct Hb1 as (Hmm & Hlt & Hq).
  unfold maybeSubmitEvictCommand. run. case_bool_decide as Hsub.
  - eexists _, evicted. split; [done|]. split; [by destruct Hwf2; constructor|]. split_and!.
    + unfold batches_ok. cbn. rewrite Hmin2, Hmaxb2, Hq2, Forall_app, Forall_singleton. cbn.
      split; [done|]. split; [lia|]. split; [done|]. lia.
    + change (keys_of l) with (keys_of l0). by rewrite <- Hk1.
    + intros k Hk. right. exists (mPendingEvictBatch l2). split; [apply elem_of_app; right; by left|].
      apply Hp2. by right.
  - exists l2, evicted. split; [done|]. split; [done|]. split_and!.
    + unfold batches_ok. rewrite Hmin2, Hmaxb2, Hq2. split; [done|]. split; [lia|done].
    + change (keys_of l) with (keys_of l0). by rewrite <- Hk1.
    + intros k Hk. left. apply Hp2. by right.
Qed.

(** ** Least recently used first *)

Definition uses (key : KeyType) (n : Notification) : bool :=
  match n with
  | OnRead k | OnWrite k _ _ => bool_decide (k = key)
  | _ => false
  end.

(** When [key] was last used: the number of the notification, counted from one;
    zero if it was not. *)
Fixpoint last_use (key : KeyType) (ns : list (VersionType * Notification)) : nat :=
  match ns with
  | [] => O
  | n :: ns => match last_use key ns with
               | O => if uses key n.2 then 1%nat else O
               | S i => S (S i)
               end
  end.

Lemma last_use_bound key ns : (last_use key ns <= length ns)%nat.
Proof. induction ns as [|n ns IH]; cbn; [lia|]. destruct (last_use key ns); [case_match|]; lia. Qed.

Lemma last_use_snoc key ns n :
  last_use key (ns ++ [n]) = if uses key n.2 then S (length ns) else last_use key ns.
Proof.
  induction ns as [|x ns IH]; cbn; [done|]. rewrite IH. by destruct (uses key n.2).
Qed.

(** The keys in the order of their last use, the latest first. *)
Definition by_recency (ns : list (VersionType * Notification)) (keys : list KeyType) : Prop :=
  StronglySorted (fun k1 k2 => (last_use k2 ns < last_use k1 ns)%nat) keys.

Lemma by_recency_use ns n key keys :
  uses key n.2 = true -> (forall k, uses k n.2 = true -> k = key) ->
  by_recency ns keys -> by_recency (ns ++ [n]) (used_first key keys).
Proof.
  intros Hk Hother Hs. unfold by_recency, used_first.
  assert (Hsame : forall k, k ∈ filter (fun k => k <> key) keys -> last_use k (ns ++ [n]) = last_use k ns).
  { intros k [Hne _]%list_elem_of_filter. rewrite last_use_snoc.
    destruct (uses k n.2) eqn:E; [|done]. by apply Hother in E. }
  constructor.
  - induction Hs as [|k keys Hs IH Hf]; [constructor|]. rewrite filter_cons in *.
    destruct (decide (k <> key)); [|by apply IH]. constructor.
    + apply IH. intros x Hx. apply Hsame. by right.
    + rewrite Forall_forall in *. intros x Hx. rewrite !Hsame by (by constructor).
      apply Hf. by apply list_elem_of_filter in Hx as [_ Hx].
  - rewrite Forall_forall. intros k Hin. rewrite (Hsame k Hin), last_use_snoc, Hk.
    pose proof (last_use_bound k ns). lia.
Qed.

Lemma by_recency_skip ns n keys :
  (forall k, k ∈ keys -> uses k n.2 = false) -> by_recency ns keys -> by_recency (ns ++ [n]) keys.
Proof.
  intros Hno Hs. unfold by_recency in *.
  induction Hs as [|k keys Hs IH Hf]; constructor; [apply IH; intros x Hx; apply Hno; by right|].
  rewrite Forall_forall in *. intros x Hx. rewrite !last_use_snoc, !Hno by (by constructor). by apply Hf.
Qed.

Lemma by_recency_app ns keys1 keys2 :
  by_recency ns (keys1 ++ keys2) ->
  by_recency ns keys1 /\
  forall k1 k2, k1 ∈ keys1 -> k2 ∈ keys2 -> (last_use k2 ns < last_use k1 ns)%nat.
Proof.
  unfold by_recency. induction keys1 as [|k keys1 IH]; intros H; [by split; [constructor|intros ?? ?%elem_of_nil]|].
  inversion H as [|? ? Hs Hf]; subst. destruct (IH Hs) as [H1 H2]. apply Forall_app in Hf as [Hf1 Hf].
  split; [constructor; done|]. intros k1 k2 [->|Hk1]%elem_of_cons Hk2; [|by apply H2].
  rewrite Forall_forall in Hf. by apply Hf.
Qed.

Definition no_delete (n : Notification) : Prop := match n with OnDelete _ _ _ => False | _ => True end.

Definition tracked (ns : list (VersionType * Notification)) (l : LRUEviction) : Prop :=
  wf l /\ batches_ok l /\ by_recency ns (keys_of l).

Lemma onReadValue_tracked ns v key c l :
  tracked ns l ->
  exists l', onReadValue key c l = Done tt c l' /\ tracked (ns ++ [(v, OnRead key)]) l'.
Proof.
  intros (Hwf & Hb & Hr). unfold onReadValue. run. pose proof (wf_map l Hwf key) as Hm.
  destruct (mCacheMap l !! key) as [[s it]|] eqn:Ek.
  - destruct (moveToFront_run key s s it c l Hwf Ek) as (used & Hrun & Hwf' & Hkeys).
    rewrite Hrun. eexists. split; [done|]. split; [done|]. split; [done|]. rewrite Hkeys.
    apply by_recency_use; [by apply bool_decide_eq_true|by intros k Hk%bool_decide_eq_true|done].
  - exists l. split; [done|]. split; [done|]. split; [done|]. apply by_recency_skip; [|done].
    intros k Hk. cbn. apply bool_decide_eq_false. by intros ->.
Qed.

Lemma onWriteValue_tracked ns v key value ver c l :
  tracked ns l ->
  exists l' evicted,
    onWriteValue v key (Z.of_nat (String.length value)) c l = Done tt c l' /\
    tracked (ns ++ [(v, OnWrite key value ver)]) l' /\
    used_first key (keys_of l) = keys_of l' ++ evicted /\
    (forall k, k ∈ evicted -> k ∈ mPendingEvictBatch l' \/ exists b, (b, v) ∈ mCommandQueue l' /\ k ∈ b) /\
    (forall kept gone, kept ∈ keys_of l' -> gone ∈ evicted ->
      (last_use gone (ns ++ [(v, OnWrite key value ver)]) <
       last_use kept (ns ++ [(v, OnWrite key value ver)]))%nat).
Proof.
  intros (Hwf & Hb & Hr).
  destruct (onWriteValue_run v key (Z.of_nat (String.length value)) c l Hwf Hb)
    as (l' & evicted & Hrun & Hwf' & Hb' & Hkeys & Hev).
  assert (Hrec : by_recency (ns ++ [(v, OnWrite key value ver)]) (keys_of l' ++ evicted)).
  { rewrite <- Hkeys. apply by_recency_use; [by apply bool_decide_eq_true|by intros k Hk%bool_decide_eq_true|done]. }
  apply by_recency_app in Hrec as [H1 H2].
  exists l', evicted. by split_and!.
Qed.

Lemma observe_tracked ns c l0 :
  tracked [] l0 -> Forall (fun x => no_delete x.2) ns ->
  exists l, observe ns c l0 = Done tt c l /\ tracked ns l.
Proof.
  intros H0. induction ns as [|[v n] ns IH] using rev_ind; [by exists l0|].
  intros [Hns Hn]%Forall_app. rewrite Forall_singleton in Hn. destruct (IH Hns) as (l & Hrun & Hl).
  unfold observe in *. rewrite forM_app, (bind_Done _ _ _ _ _ _ _ Hrun). cbn [forM fst snd].
  assert (exists l', onNotification v n c l = Done tt c l' /\ tracked (ns ++ [(v, n)]) l') as (l' & Hrun' & Hl').
  { destruct n as [key|key value ver|key ver rec|keys]; cbn [onNotification]; [by apply onReadValue_tracked| |done|].
    - destruct (onWriteValue_tracked ns v key value ver c l Hl) as (l' & ev & ? & ? & _). by exists l'.
    - exists l. split; [done|]. destruct Hl as (Hwf & Hb & Hr). split_and!; [done..|].
      by apply by_recency_skip. }
  exists l'. by rewrite (bind_Done _ _ _ _ _ _ _ Hrun').
Qed.

Lemma new_tracked capacity optimal minBatch maxBatch l0 :
  new_LRU capacity optimal minBatch maxBatch = Some l0 -> 0 < minBatch <= maxBatch -> tracked [] l0.
Proof.
  unfold new_LRU. case_bool_decide; [|discriminate]. intros [= <-] Hb. split_and!.
  - constructor; cbn; try apply NoDup_nil; try done; [by intros n k ?%elem_of_nil|].
    intros k. rewrite lookup_empty. apply not_elem_of_nil.
  - unfold batches_ok. cbn. split; [done|]. split; [lia|constructor].
  - constructor.
Qed.

(** C40: eviction is least recently used first, and its iterators never dangle. After any
    notifications but deletions, of which the in-memory store sends none, a write
    completes: no iterator of the map is stale, and the list is what it was with
    the written key in front, less a part cut off its end. Every key cut off
    was last used before every key that is kept, and it is in the pending batch or
    in a submitted evict command with the version applied at that time; submitted
    batches have an allowed size. *)
Theorem eviction_is_least_recently_used capacity optimal minBatch maxBatch l0 ns v key value ver c :
  new_LRU capacity optimal minBatch maxBatch = Some l0 -> 0 < minBatch <= maxBatch ->
  Forall (fun x => no_delete x.2) ns ->
  exists l l' evicted, observe ns c l0 = Done tt c l /\
    onNotification v (OnWrite key value ver) c l = Done tt c l' /\
    used_first key (keys_of l) = keys_of l' ++ evicted /\ NoDup (keys_of l') /\
    (forall kept gone, kept ∈ keys_of l' -> gone ∈ evicted ->
      (last_use gone (ns ++ [(v, OnWrite key value ver)]) <
       last_use kept (ns ++ [(v, OnWrite key value ver)]))%nat) /\
    (forall k, k ∈ evicted -> k ∈ mPendingEvictBatch l' \/ exists b, (b, v) ∈ mCommandQueue l' /\ k ∈ b) /\
    Forall (fun x => mMinBatch l' <= Z.of_nat (length x.1) <= mMaxBatch l') (mCommandQueue l').
Proof.
  intros Hnew Hb Hns. destruct (observe_tracked ns c l0 (new_tracked _ _ _ _ _ Hnew Hb) Hns) as (l & Hrun & Hl).
  destruct (onWriteValue_tracked ns v key value ver c l Hl)
    as (l' & evicted & Hw & (Hwf' & (_ & _ & Hq) & _) & Hkeys & Hev & Hlru).
  exists l, l', evicted. split_and!; try done. apply Hwf'.
Qed.

(** An overwrite is not counted. A write of a key that is already tracked
    records the new size of its value, but subtracts that same new size from the
    usage it has just added it to: the usage stays what it was, whatever the sizes, so
    nothing is evicted however large the values become. *)
Theorem overwrite_not_counted v key value ver c l entry :
  wf l -> mCacheMap l !! key = Some entry -> 0 <= mCurUsage l < 2 ^ 64 -> mCurUsage l <= mOptimal l ->
  exists l', onNotification v (OnWrite key value ver) c l = Done tt c l' /\
    sizes l' = <[key := Z.of_nat (String.length value)]> (sizes l) /\
    mCurUsage l' = mCurUsage l /\ mPendingEvictBatch l' = mPendingEvictBatch l /\
    mCommandQueue l' = mCommandQueue l.
Proof.
  intros Hwf Hkey Hrange Hopt. cbn [onNotification]. unfold onWriteValue.
  set (size := Z.of_nat (String.length value)). set (l0 := set_usage (u64 (mCurUsage l + size)) l).
  assert (Hwf0 : wf l0) by (by destruct Hwf; constructor).
  destruct (write_touch key size c l0 Hwf0) as (l1 & Hrun1 & _ & _ & Hs & Hu & Hp & Hq & _ & _ & Ho).
  unfold modify at 1. run. run_in Hrun1. fold l0.
  change (mCacheMap l !! key) with (mCacheMap l0 !! key). rewrite Hrun1. cbn beta iota.
  assert (Hsame : mCurUsage l1 = mCurUsage l).
  { rewrite Hu. change (mCacheMap l0) with (mCacheMap l). rewrite Hkey. subst l0. cbn. unfold u64.
    rewrite Zminus_mod_idemp_l. rewrite Z.mod_small; lia. }
  rewrite Hsame, Ho. rewrite bool_decide_eq_false_2 by (subst l0; cbn; lia). by exists l1.
Qed.

Definition lru_demo : LRUEviction := mkLRU 30 20 1 2 0 [] [] ∅ O [].

Lemma eviction_is_least_recently_used_witness :
  exists l l' evicted,
    observe [(1, OnWrite "a" "0123456789" 1); (2, OnWrite "b" "0123456789" 2); (3, OnRead "a")]
      (fun _ => 0) lru_demo = Done tt (fun _ => 0) l /\
    onNotification 4 (OnWrite "c" "x" 3) (fun _ => 0) l = Done tt (fun _ => 0) l' /\
    used_first "c" (keys_of l) = keys_of l' ++ evicted.
Proof.
  destruct (eviction_is_least_recently_used 30 20 1 2 lru_demo
    [(1, OnWrite "a" "0123456789" 1); (2, OnWrite "b" "0123456789" 2); (3, OnRead "a")] 4 "c" "x" 3
    (fun _ => 0)) as (l & l' & evicted & H1 & H2 & H3 & _); [reflexivity|lia|by repeat constructor|].
  by exists l, l', evicted.
Defined.

Definition lru_one : LRUEviction := mkLRU 30 20 1 2 3 [] [(O, "a")] {["a" := (3, O)]} 1 [].

Lemma overwrite_not_counted_witness :
  exists l', onNotification 4 (OnWrite "a" "0123456789012345678901234567890123456789" 3) (fun _ => 0) lru_one
               = Done tt (fun _ => 0) l' /\
    sizes l' = {["a" := 40]} /\ mCurUsage l' = 3.
Proof.
  destruct (overwrite_not_counted 4 "a" "0123456789012345678901234567890123456789" 3 (fun _ => 0) lru_one (3, O))
    as (l' & H1 & H2 & H3 & _); [|reflexivity|cbn; lia|cbn; lia|].
  - constructor; cbn; try (by apply NoDup_singleton).
    + intros n k Hin. apply list_elem_of_singleton in Hin as [= -> ->]. lia.
    + intros k. destruct (decide (k = "a")) as [->|Hk]; [rewrite lookup_singleton_eq; by left|].
      rewrite lookup_singleton_ne by done. by intros ?%list_elem_of_singleton.
  - exists l'. split; [exact H1|]. split; [rewrite H2; reflexivity|exact H3].
Defined.
