(* ===== verification/HashRing.v ===== *)
(** * The hash ring

    [route::HashRing] (object-manager/route/HashRing.h/.cpp): the clusters on a ring of
    4096 shards, each at the hash of its id (and of its virtual nodes), a shard being served by the
    cluster at or before it. A ring is rebuilt for each request that needs it. *)

From Stdlib Require Import Ascii.
From stdpp Require Import sorting.
From S2P Require Import Prelude OrderedMap ConcurInMemoryKVStore.

Abbreviation ShardIdType := Z (only parsing).
Abbreviation ClusterIdType := Z (only parsing).
Abbreviation Ring := (list (Z * Z)) (only parsing).
Abbreviation ShardMap := (list (Z * list Z)) (only parsing).

Definition RING_LENGTH : Z := 4096.
Definition DEFAULT_VIRTUAL_NODE_COUNT : nat := 1.

(** [map[k].push_back(x)] *)
Definition push_back (k x : Z) (m : ShardMap) : ShardMap :=
  omap_put k (default [] (omap_find k m) ++ [x]) m.

(** [map[k]]: an entry is made if there is none. *)
Definition touch (k : Z) (m : ShardMap) : ShardMap := omap_put k (default [] (omap_find k m)) m.

(** [while (start < end) { map[k].push_back(start % RING_LENGTH); start += 1; }] *)
Definition push_range (k start end_ : Z) (m : ShardMap) : ShardMap :=
  fold_left (fun m x => push_back k (x mod RING_LENGTH) m) (seqZ start (end_ - start)) m.

(** The loop that resolves a hash conflict. It does not end when the ring is
    full; [fuel] bounds it by the length of the ring. *)
Fixpoint probe (fuel : nat) (shard : ShardIdType) (ring : Ring) : option ShardIdType :=
  match omap_find shard ring with
  | None => Some shard
  | Some _ => match fuel with
              | O => None
              | S fuel => probe fuel ((shard + 1) mod RING_LENGTH) ring
              end
  end.

Section HashRing.
Context {HASH : StdHash}.

Definition calcShard (key : string) (ring : Ring) : option ShardIdType :=
  probe (Z.to_nat RING_LENGTH) (u64 (std_hash key) mod RING_LENGTH) ring.

Definition buildKey (clusterId : ClusterIdType) (order : nat) : string :=
  match order with
  | O => to_string clusterId
  | _ => to_string clusterId +:+ "#" +:+ to_string (Z.of_nat order)
  end.

Definition deleteClusterId (clusterId : ClusterIdType) (ring : Ring) : Ring :=
  filter (fun x => x.2 <> clusterId) ring.

(** [lower_bound(shard)], stepped back by one, or to the end of the map from its
    beginning. *)
Definition before (shard : ShardIdType) (ring : Ring) : option (Z * Z) :=
  match last (filter (fun x => x.1 < shard) ring) with
  | Some x => Some x
  | None => last ring
  end.

(** [upper_bound(shard)], or the beginning of the map from its end. *)
Definition after (shard : ShardIdType) (ring : Ring) : option (Z * Z) :=
  match head (filter (fun x => shard < x.1) ring) with
  | Some x => Some x
  | None => head ring
  end.

(** The shards the new node at [shard] takes over, added to [pMap] under the
    cluster that had them. *)
Definition takeOver (clusterId : ClusterIdType) (shard : ShardIdType) (ring : Ring) (pMap : ShardMap) : ShardMap :=
  match before shard ring, after shard ring with
  | Some (_, prev), Some (next, _) =>
      let map := if (bool_decide (prev <> clusterId) && bool_decide (omap_find clusterId pMap = None))%bool
                 then touch prev pMap else pMap in
      push_range prev shard (if bool_decide (next < shard) then next + RING_LENGTH else next) map
  | _, _ => pMap
  end.

(** One round of the loop of [addClusterId]. *)
Definition addNode (virtualNodeCount : nat) (clusterId : ClusterIdType) (i : nat)
    (st : Ring * option ShardMap) : option (Ring * option ShardMap) :=
  let '(ring, pMap) := st in
  shard ← calcShard (buildKey clusterId i) ring;
  let ring := omap_insert shard clusterId ring in
  if bool_decide (length ring <= virtualNodeCount)%nat then Some (ring, pMap)
  else Some (ring, takeOver clusterId shard ring <$> pMap).

Fixpoint addNodes (virtualNodeCount : nat) (clusterId : ClusterIdType) (orders : list nat)
    (st : Ring * option ShardMap) : option (Ring * option ShardMap) :=
  match orders with
  | [] => Some st
  | i :: orders => st ← addNode virtualNodeCount clusterId i st; addNodes virtualNodeCount clusterId orders st
  end.

Definition addClusterId (virtualNodeCount : nat) (clusterId : ClusterIdType) (ring : Ring)
    (pMap : option ShardMap) : option (Ring * option ShardMap) :=
  addNodes virtualNodeCount clusterId (seq 0 virtualNodeCount) (ring, pMap).

End HashRing.

(** [while (preKey < curKey) { ...; resultMap[preClusterId].push_back(preKey); preKey += 1; }] *)
Definition pushShards (k start end_ : Z) (m : ShardMap) : ShardMap :=
  fold_left (fun m x => push_back k x m) (seqZ start (end_ - start)) m.

(** The loop over the nodes after the first; it returns the last node. *)
Fixpoint extractLoop (preKey preClusterId : Z) (rest : Ring) (resultMap : ShardMap) : Z * Z * ShardMap :=
  match rest with
  | [] => (preKey, preClusterId, resultMap)
  | (curKey, cluster) :: rest =>
      extractLoop curKey cluster rest (pushShards preClusterId preKey curKey resultMap)
  end.

Definition extractShardConfig (ring : Ring) (resultMap : ShardMap) : ShardMap :=
  match ring with
  | [] => resultMap
  | (first, cluster) :: rest =>
      let '(preKey, preClusterId, resultMap) := extractLoop first cluster rest resultMap in
      let resultMap := match omap_find preClusterId resultMap with
                       | None => omap_put preClusterId [] resultMap
                       | Some _ => resultMap
                       end in
      push_range preClusterId preKey (first + RING_LENGTH) resultMap
  end.

Definition getHashRange : Z * Z := (0, RING_LENGTH).

(** ** Who serves a shard *)

Definition keys_in_range (ring : Ring) : Prop := Forall (fun k => 0 <= k < RING_LENGTH) ring.*1.

(** A ring: sorted, its nodes on the circle. *)
Definition ring_wf (ring : Ring) : Prop := omap_sorted ring /\ keys_in_range ring.

(** The cluster at or before [s] on the circle. *)
Definition owner (ring : Ring) (s : Z) : option ClusterIdType :=
  snd <$> match last (filter (fun x => x.1 <= s) ring) with
          | Some x => Some x
          | None => last ring
          end.

(** The same, by what the nodes are rather than by their order in the map. *)
Inductive serves (ring : Ring) (s k c : Z) : Prop :=
| ServesBelow : (k, c) ∈ ring -> k <= s -> (forall k', k' ∈ ring.*1 -> k' <= s -> k' <= k) -> serves ring s k c
| ServesWrapped : (k, c) ∈ ring -> (forall k', k' ∈ ring.*1 -> s < k') -> (forall k', k' ∈ ring.*1 -> k' <= k) ->
    serves ring s k c.

Lemma key_lt_Z (x y : Z) : key_lt x y <-> x < y.
Proof. unfold key_lt. cbn. apply Z.compare_lt_iff. Qed.

Lemma elem_of_keys (k c : Z) (ring : Ring) : (k, c) ∈ ring -> k ∈ ring.*1.
Proof. intros H. by apply (list_elem_of_fmap_2 fst) in H. Qed.

(** The last of a sorted list has the largest key. *)
Lemma last_sorted (l : Ring) k c :
  StronglySorted key_lt l.*1 -> last l = Some (k, c) ->
  (k, c) ∈ l /\ forall k', k' ∈ l.*1 -> k' <= k.
Proof.
  induction l as [|[k0 c0] l IH]; [done|]. cbn [fmap list_fmap fst]. intros Hs Hl.
  inversion Hs as [|? ? Hs' Hf]; subst. destruct l as [|x l].
  - cbn in Hl. simplify_eq. split; [by left|]. intros k' Hk'. apply list_elem_of_singleton in Hk' as ->. cbn. lia.
  - change (last ((k0, c0) :: x :: l)) with (last (x :: l)) in Hl. destruct (IH Hs' Hl) as [Hin Hmax].
    split; [by right|]. intros k' [->|Hk']%elem_of_cons; [|by apply Hmax].
    rewrite Forall_forall in Hf. specialize (Hf k (elem_of_keys _ _ _ Hin)). rewrite key_lt_Z in Hf. lia.
Qed.

Lemma filter_sorted (P : Z * Z -> Prop) `{!forall x, Decision (P x)} (l : Ring) :
  StronglySorted key_lt l.*1 -> StronglySorted key_lt (filter P l).*1.
Proof.
  induction l as [|x l IH]; [done|]. cbn [fmap list_fmap]. intros Hs. inversion Hs as [|? ? Hs' Hf]; subst.
  rewrite filter_cons. destruct (decide (P x)); [|by apply IH]. cbn [fmap list_fmap]. constructor; [by apply IH|].
  rewrite Forall_forall in *. intros k ([k' c'] & -> & Hk)%list_elem_of_fmap. apply Hf.
  apply list_elem_of_filter in Hk as [_ Hk]. by eapply elem_of_keys.
Qed.

Lemma key_unique (ring : Ring) k c1 c2 : omap_sorted ring -> (k, c1) ∈ ring -> (k, c2) ∈ ring -> c1 = c2.
Proof. intros Hs H1 H2. rewrite elem_of_omap in H1, H2 by done. congruence. Qed.

Lemma serves_unique (ring : Ring) s k1 c1 k2 c2 :
  omap_sorted ring -> serves ring s k1 c1 -> serves ring s k2 c2 -> k1 = k2 /\ c1 = c2.
Proof.
  intros Hs H1 H2. assert (k1 = k2) as ->.
  { destruct H1 as [H1 Hle1 Hm1|H1 Hle1 Hm1], H2 as [H2 Hle2 Hm2|H2 Hle2 Hm2];
      pose proof (elem_of_keys _ _ _ H1) as He1; pose proof (elem_of_keys _ _ _ H2) as He2.
    - specialize (Hm1 _ He2 Hle2). specialize (Hm2 _ He1 Hle1). lia.
    - specialize (Hle2 _ He1). lia.
    - specialize (Hle1 _ He2). lia.
    - specialize (Hm1 _ He2). specialize (Hm2 _ He1). lia. }
  split; [done|]. destruct H1 as [H1 _ _|H1 _ _], H2 as [H2 _ _|H2 _ _]; by eapply key_unique.
Qed.

Lemma owner_serves (ring : Ring) s :
  omap_sorted ring -> ring <> [] -> exists k c, owner ring s = Some c /\ serves ring s k c.
Proof.
  intros Hs Hne. unfold owner. destruct (last (filter _ ring)) as [[k c]|] eqn:E.
  - exists k, c. split; [done|]. apply last_sorted in E as [Hin Hmax]; [|by apply filter_sorted].
    apply list_elem_of_filter in Hin as [Hle Hin]. apply ServesBelow; [done|done|].
    intros k' ([k2 c2] & -> & Hk)%list_elem_of_fmap Hk'. apply Hmax. eapply elem_of_keys, list_elem_of_filter.
    split; [exact Hk'|exact Hk].
  - destruct (last ring) as [[k c]|] eqn:E2; [|by apply last_None in E2]. exists k, c. split; [done|].
    apply last_sorted in E2 as [Hin Hmax]; [|done]. apply ServesWrapped; [done| |done].
    intros k' ([k2 c2] & -> & Hk)%list_elem_of_fmap. cbn. apply last_None in E.
    destruct (decide (k2 <= s)); [|lia]. assert ((k2, c2) ∈ filter (fun x => x.1 <= s) ring) as Hf.
    { by apply list_elem_of_filter. }
    rewrite E in Hf. by apply elem_of_nil in Hf.
Qed.

Lemma owner_iff (ring : Ring) s c :
  omap_sorted ring -> owner ring s = Some c <-> exists k, serves ring s k c.
Proof.
  intros Hs. destruct (decide (ring = [])) as [->|Hne].
  { cbn. split; [done|]. intros (k & [H|H]); by apply elem_of_nil in H. }
  destruct (owner_serves ring s Hs Hne) as (k & c' & Ho & Hsv). rewrite Ho.
  split; [intros [= ->]; eauto|]. intros (k' & Hsv'). by destruct (serves_unique _ _ _ _ _ _ Hs Hsv Hsv') as [_ ->].
Qed.

(** ** The configuration is the owners

    Every loop of [extractShardConfig] hands a run of consecutive shards to one
    cluster; put together they hand each shard of one turn around the circle to
    its owner. *)

(** Hand each shard of [l], taken modulo the length of the ring, to [f] of it. *)
Definition assign (f : Z -> Z) (l : list Z) (m : ShardMap) : ShardMap :=
  fold_left (fun m x => push_back (f x) (x mod RING_LENGTH) m) l m.

Lemma assign_app f l1 l2 m : assign f (l1 ++ l2) m = assign f l2 (assign f l1 m).
Proof. apply fold_left_app. Qed.

Lemma assign_ext f g l m : (forall x, x ∈ l -> f x = g x) -> assign f l m = assign g l m.
Proof.
  revert m. induction l as [|x l IH]; intros m Hfg; [done|]. cbn. rewrite Hfg by (by left).
  apply IH. intros y Hy. apply Hfg. by right.
Qed.

Lemma push_range_assign k a b m : push_range k a b m = assign (fun _ => k) (seqZ a (b - a)) m.
Proof. reflexivity. Qed.

Lemma pushShards_assign k a b m :
  0 <= a -> b <= RING_LENGTH -> pushShards k a b m = assign (fun _ => k) (seqZ a (b - a)) m.
Proof.
  intros Ha Hb. unfold pushShards, assign.
  assert (forall x, x ∈ seqZ a (b - a) -> x mod RING_LENGTH = x) as Hx.
  { intros x Hx%elem_of_seqZ. apply Z.mod_small. lia. }
  revert m Hx. generalize (seqZ a (b - a)). induction l as [|x l IH]; intros m Hx; [done|].
  cbn. rewrite Hx by (by left). apply IH. intros y Hy. apply Hx. by right.
Qed.

(** What a cluster has after the shards of [l] were handed out. *)
Lemma assign_find f l m c :
  default [] (omap_find c (assign f l m)) =
  default [] (omap_find c m) ++ ((fun x => x mod RING_LENGTH) <$> filter (fun x => f x = c) l).
Proof.
  revert m. induction l as [|x l IH]; intros m; [cbn; by rewrite app_nil_r|].
  change (assign f (x :: l) m) with (assign f l (push_back (f x) (x mod RING_LENGTH) m)). rewrite IH.
  rewrite filter_cons. unfold push_back. destruct (decide (f x = c)) as [<-|Hne].
  - rewrite omap_find_put_eq. cbn. by rewrite <- app_assoc.
  - by rewrite omap_find_put_ne by done.
Qed.

Lemma assign_keys f l m c : c ∈ (assign f l m).*1 <-> c ∈ m.*1 \/ exists x, x ∈ l /\ f x = c.
Proof.
  revert m. induction l as [|x l IH]; intros m; cbn; [set_solver|].
  fold (assign f l (push_back (f x) (x mod RING_LENGTH) m)). rewrite IH. unfold push_back.
  rewrite elem_of_omap_put_keys. set_solver.
Qed.

Lemma owner_at (ring1 rest : Ring) k c x :
  k <= x -> Forall (fun k' => x < k') rest.*1 -> owner (ring1 ++ (k, c) :: rest) x = Some c.
Proof.
  intros Hk Hrest. unfold owner. rewrite filter_app, filter_cons. cbn [fst]. rewrite decide_True by done.
  assert (filter (fun y : Z * Z => y.1 <= x) rest = []) as ->.
  { apply filter_none. rewrite Forall_forall in Hrest. apply Forall_forall. intros [k' c'] Hin. cbn.
    specialize (Hrest k' (elem_of_keys _ _ _ Hin)). lia. }
  by rewrite last_snoc.
Qed.

(** A node's run reaches to the next node. *)
Lemma owner_run (ring1 rest : Ring) k c k' c' x :
  omap_sorted (ring1 ++ (k, c) :: (k', c') :: rest) -> k <= x < k' ->
  owner (ring1 ++ (k, c) :: (k', c') :: rest) x = Some c.
Proof.
  intros Hs Hx. apply owner_at; [lia|]. unfold omap_sorted in Hs. rewrite fmap_app in Hs.
  apply StronglySorted_app_1_r in Hs. cbn [fmap list_fmap fst] in Hs |- *.
  inversion Hs as [|? ? Hs' _]; subst. inversion Hs' as [|? ? _ Hf]; subst.
  constructor; [lia|]. eapply Forall_impl; [exact Hf|]. intros y Hy. rewrite key_lt_Z in Hy. lia.
Qed.

Lemma extractLoop_owner (ring1 rest : Ring) k c m :
  let ring := ring1 ++ (k, c) :: rest in
  ring_wf ring ->
  exists lk lc, last ((k, c) :: rest) = Some (lk, lc) /\ k <= lk /\
    extractLoop k c rest m = (lk, lc, assign (fun x => default 0 (owner ring x)) (seqZ k (lk - k)) m).
Proof.
  revert ring1 k c m. induction rest as [|[k' c'] rest IH]; intros ring1 k c m ring [Hs Hr].
  { exists k, c. split; [done|]. split; [lia|]. by replace (k - k) with 0 by lia. }
  assert (k < k' /\ 0 <= k /\ k' < RING_LENGTH) as (Hlt & H0 & HL).
  { subst ring. split.
    - unfold omap_sorted in Hs. rewrite fmap_app in Hs. apply StronglySorted_app_1_r in Hs.
      inversion Hs as [|? ? _ Hf]; subst. apply Forall_cons in Hf as [Hf _]. by rewrite key_lt_Z in Hf.
    - unfold keys_in_range in Hr. rewrite fmap_app, Forall_app in Hr. destruct Hr as [_ Hr].
      cbn in Hr. rewrite !Forall_cons in Hr. lia. }
  destruct (IH (ring1 ++ [(k, c)]) k' c' (pushShards c k k' m)) as (lk & lc & Hl & Hle & Hrun).
  { by rewrite <- app_assoc. }
  rewrite <- app_assoc in Hrun. cbn [app] in Hrun. fold ring in Hrun.
  exists lk, lc. split; [exact Hl|]. split; [lia|]. cbn [extractLoop]. rewrite Hrun. f_equal.
  replace (lk - k) with ((k' - k) + (lk - k')) by lia. rewrite seqZ_app by lia.
  rewrite assign_app. replace (k + (k' - k)) with k' by lia. f_equal.
  rewrite pushShards_assign by lia. apply assign_ext. intros x Hx%elem_of_seqZ.
  unfold ring. by rewrite owner_run by (try exact Hs; lia).
Qed.

Lemma extract_assign (ring : Ring) :
  ring_wf ring -> ring <> [] ->
  exists first, 0 <= first < RING_LENGTH /\
    extractShardConfig ring [] =
    assign (fun x => default 0 (owner ring (x mod RING_LENGTH))) (seqZ first RING_LENGTH) [].
Proof.
  intros Hwf Hne. destruct ring as [|[first c] rest] eqn:Ering; [done|]. clear Hne.
  destruct (extractLoop_owner [] rest first c [] Hwf) as (lk & lc & Hl & Hle & Hrun). cbn [app] in Hrun.
  rewrite <- Ering in *. destruct Hwf as [Hs Hr].
  assert ((lk, lc) ∈ ring /\ forall k', k' ∈ ring.*1 -> k' <= lk) as [Hin Hmax] by (by apply last_sorted).
  assert (forall k, k ∈ ring.*1 -> 0 <= k < RING_LENGTH) as Hrange by (by apply Forall_forall).
  pose proof (Hrange _ (elem_of_keys _ _ _ Hin)) as Hlk.
  assert (first ∈ ring.*1) as Hfirst by (rewrite Ering; by left). pose proof (Hrange _ Hfirst) as Hf.
  exists first. split; [done|]. rewrite Ering at 1. cbn [extractShardConfig]. rewrite Hrun.
  set (m := assign _ (seqZ first (lk - first)) []).
  assert (push_range lc lk (first + RING_LENGTH) (match omap_find lc m with
            | Some _ => m | None => omap_put lc [] m end) = push_range lc lk (first + RING_LENGTH) m) as ->.
  { rewrite !push_range_assign. destruct (omap_find lc m) eqn:E; [done|].
    rewrite seqZ_cons by lia. cbn. unfold push_back at 2 4. by rewrite omap_find_put_eq, E, omap_put_put. }
  replace (seqZ first RING_LENGTH) with (seqZ first ((lk - first) + (first + RING_LENGTH - lk))) by (f_equal; lia).
  rewrite seqZ_app by lia. rewrite assign_app. replace (first + (lk - first)) with lk by lia.
  rewrite push_range_assign. subst m. set (f := fun x => default 0 (owner ring (x mod RING_LENGTH))).
  assert (forall x, x ∈ seqZ first (lk - first) -> default 0 (owner ring x) = f x) as H1.
  { intros x Hx%elem_of_seqZ. unfold f. by rewrite (Z.mod_small x) by lia. }
  assert (forall x, x ∈ seqZ lk (first + RING_LENGTH - lk) -> lc = f x) as H2.
  { intros x Hx%elem_of_seqZ. unfold f. rewrite (proj2 (owner_iff ring (x mod RING_LENGTH) lc Hs)); [done|].
    exists lk. destruct (decide (x < RING_LENGTH)) as [Hx2|Hx2].
    - rewrite Z.mod_small by lia. apply ServesBelow; [done|lia|auto].
    - assert (x mod RING_LENGTH = x - RING_LENGTH) as ->.
      { rewrite <- (Z_mod_plus_full _ (-1)). rewrite Z.mod_small; lia. }
      apply ServesWrapped; [done| |done]. intros k' Hk'. cut (first <= k'); [lia|].
      rewrite Ering in Hk'. apply elem_of_cons in Hk' as [->|Hk']; [done|].
      unfold omap_sorted in Hs. rewrite Ering in Hs. inversion Hs as [|? ? _ Hall]; subst.
      rewrite Forall_forall in Hall. specialize (Hall _ Hk'). rewrite key_lt_Z in Hall. lia. }
  by rewrite (assign_ext _ _ _ _ H1), (assign_ext _ _ _ _ H2).
Qed.

Lemma turn_elem (first s : Z) :
  0 <= first < RING_LENGTH -> 0 <= s < RING_LENGTH ->
  exists x, x ∈ seqZ first RING_LENGTH /\ x mod RING_LENGTH = s.
Proof.
  intros Hf Hs. destruct (decide (first <= s)).
  - exists s. rewrite elem_of_seqZ. split; [lia|]. by apply Z.mod_small.
  - exists (s + RING_LENGTH). rewrite elem_of_seqZ. split; [lia|].
    replace (s + RING_LENGTH) with (s + 1 * RING_LENGTH) by lia. rewrite Z_mod_plus_full. by apply Z.mod_small.
Qed.

Lemma turn_inj (first x y : Z) :
  x ∈ seqZ first RING_LENGTH -> y ∈ seqZ first RING_LENGTH -> x mod RING_LENGTH = y mod RING_LENGTH -> x = y.
Proof.
  rewrite !elem_of_seqZ. intros Hx Hy H.
  assert (x - y = RING_LENGTH * (x / RING_LENGTH - y / RING_LENGTH)) as Hd.
  { rewrite (Z_div_mod_eq_full x RING_LENGTH) at 1. rewrite (Z_div_mod_eq_full y RING_LENGTH) at 1. lia. }
  unfold RING_LENGTH in *. lia.
Qed.

Lemma extract_owner (ring : Ring) c s :
  ring_wf ring -> ring <> [] ->
  s ∈ default [] (omap_find c (extractShardConfig ring [])) <-> 0 <= s < RING_LENGTH /\ owner ring s = Some c.
Proof.
  intros Hwf Hne. destruct (extract_assign ring Hwf Hne) as (first & Hf & ->). rewrite assign_find. cbn [omap_find default app].
  rewrite list_elem_of_fmap.
  assert (forall x, exists c', owner ring x = Some c') as Howner.
  { intros x. destruct (owner_serves ring x (proj1 Hwf) Hne) as (k & c' & Ho & _). eauto. }
  split.
  - intros (x & -> & [Hc _]%list_elem_of_filter). split; [apply Z.mod_pos_bound; done|].
    destruct (Howner (x mod RING_LENGTH)) as (c' & Ho). rewrite Ho in Hc |- *. cbn in Hc. congruence.
  - intros [Hs Ho]. destruct (turn_elem first s Hf Hs) as (x & Hx & <-). exists x. split; [done|].
    apply list_elem_of_filter. by rewrite Ho.
Qed.

Lemma extract_NoDup (ring : Ring) c :
  ring_wf ring -> ring <> [] -> NoDup (default [] (omap_find c (extractShardConfig ring []))).
Proof.
  intros Hwf Hne. destruct (extract_assign ring Hwf Hne) as (first & Hf & ->). rewrite assign_find. cbn [omap_find default app].
  apply NoDup_fmap_2_strong; [|apply NoDup_filter, NoDup_seqZ].
  intros x y [_ Hx]%list_elem_of_filter [_ Hy]%list_elem_of_filter. by apply (turn_inj first).
Qed.

(** ** A cluster joins *)

Lemma probe_free fuel shard (ring : Ring) t :
  0 <= shard < RING_LENGTH -> probe fuel shard ring = Some t -> (t ∉ ring.*1) /\ 0 <= t < RING_LENGTH.
Proof.
  revert shard. induction fuel as [|fuel IH]; intros shard Hs; cbn [probe];
    destruct (omap_find shard ring) as [v|] eqn:E; try discriminate.
  - intros [= <-]. by apply omap_find_None in E.
  - apply IH. apply Z.mod_pos_bound. done.
  - intros [= <-]. by apply omap_find_None in E.
Qed.

Lemma probe_full fuel shard (ring : Ring) :
  0 <= shard < RING_LENGTH -> probe fuel shard ring = None ->
  forall i, (i <= fuel)%nat -> (shard + Z.of_nat i) mod RING_LENGTH ∈ ring.*1.
Proof.
  assert (forall x v, omap_find x ring = Some v -> x ∈ ring.*1) as Hin.
  { intros x v Hx. by eapply elem_of_keys, omap_find_Some. }
  revert shard. induction fuel as [|fuel IH]; intros shard Hs; cbn [probe];
    destruct (omap_find shard ring) as [v|] eqn:E; try discriminate; intros Hp i Hi.
  - replace i with O by lia. rewrite Z.add_0_r, Z.mod_small by done. eauto.
  - destruct i as [|i]; [rewrite Z.add_0_r, Z.mod_small by done; eauto|].
    specialize (IH ((shard + 1) mod RING_LENGTH) (Z.mod_pos_bound (shard + 1) RING_LENGTH eq_refl) Hp i ltac:(lia)).
    rewrite Zplus_mod_idemp_l in IH. by replace (shard + Z.of_nat (S i)) with (shard + 1 + Z.of_nat i) by lia.
Qed.

(** The loop of [calcShard] ends as long as a shard is free. *)
Lemma probe_ends shard (ring : Ring) :
  0 <= shard < RING_LENGTH -> Z.of_nat (length ring) < RING_LENGTH ->
  exists t, probe (Z.to_nat RING_LENGTH) shard ring = Some t /\ (t ∉ ring.*1) /\ 0 <= t < RING_LENGTH.
Proof.
  intros Hs Hl. destruct (probe _ _ _) as [t|] eqn:E.
  { exists t. split; [done|]. by eapply probe_free. }
  exfalso. pose proof (probe_full _ _ _ Hs E) as Hall.
  assert (seqZ 0 RING_LENGTH ⊆+ ring.*1) as Hsub.
  { apply NoDup_submseteq; [apply NoDup_seqZ|]. intros x Hx%elem_of_seqZ.
    destruct (turn_elem shard x Hs ltac:(lia)) as (y & Hy%elem_of_seqZ & <-).
    specialize (Hall (Z.to_nat (y - shard)) ltac:(lia)). by replace (shard + Z.of_nat (Z.to_nat (y - shard))) with y in Hall by lia. }
  apply submseteq_length in Hsub. rewrite length_seqZ, length_fmap in Hsub. lia.
Qed.

Lemma put_wf (ring : Ring) sh c : ring_wf ring -> 0 <= sh < RING_LENGTH -> ring_wf (omap_put sh c ring).
Proof.
  intros [Hs Hr] Hsh. split; [by apply omap_put_sorted|]. unfold keys_in_range in *.
  rewrite Forall_forall in *. intros k [->|Hk]%elem_of_omap_put_keys; [done|auto].
Qed.

(** A shard is served by the new node or by the node that served it before. *)
Lemma serves_insert (ring : Ring) sh c s k c' :
  omap_sorted ring -> sh ∉ ring.*1 -> serves (omap_put sh c ring) s k c' ->
  (k = sh /\ c' = c) \/ serves ring s k c'.
Proof.
  intros Hs Hsh H.
  assert (forall k', k' ∈ ring.*1 -> k' ∈ (omap_put sh c ring).*1) as Hmono.
  { intros k' Hk'. apply elem_of_omap_put_keys. by right. }
  destruct H as [H Hle Hm|H Hle Hm]; apply elem_of_omap_put in H as [[-> ->]|[Hne H]]; try done; [by left|right|by left|right].
  - apply ServesBelow; auto.
  - apply ServesWrapped; auto.
Qed.

(** Removing the cluster that joined restores the ring. *)
Lemma delete_put (ring : Ring) sh c :
  sh ∉ ring.*1 -> deleteClusterId c (omap_put sh c ring) = deleteClusterId c ring.
Proof.
  unfold deleteClusterId. induction ring as [|[k c'] ring IH]; intros Hsh.
  { cbn [omap_put]. rewrite filter_cons, decide_False by naive_solver. done. }
  cbn [fmap list_fmap fst] in Hsh. apply not_elem_of_cons in Hsh as [Hne Hsh].
  cbn [omap_put]. destruct (compare_keys sh k) eqn:E; [by apply compare_keys_eq in E|..].
  - rewrite filter_cons, decide_False by naive_solver. done.
  - rewrite !filter_cons, IH by done. done.
Qed.

Lemma delete_absent (ring : Ring) c : c ∉ ring.*2 -> deleteClusterId c ring = ring.
Proof.
  unfold deleteClusterId. induction ring as [|[k c'] ring IH]; [done|]. cbn [fmap list_fmap snd].
  rewrite not_elem_of_cons. intros [Hne Hc]. rewrite filter_cons, decide_True by naive_solver. by rewrite IH.
Qed.

Section Joins.
Context {HASH : StdHash}.

Lemma addNode_run vnc c i (ring : Ring) p :
  ring_wf ring -> Z.of_nat (length ring) < RING_LENGTH ->
  exists sh, (sh ∉ ring.*1) /\ 0 <= sh < RING_LENGTH /\
    addNode vnc c i (ring, p) = Some (omap_put sh c ring,
      if bool_decide (S (length ring) <= vnc)%nat then p else takeOver c sh (omap_put sh c ring) <$> p).
Proof.
  intros Hwf Hl. unfold addNode, calcShard.
  destruct (probe_ends (u64 (std_hash (buildKey c i)) mod RING_LENGTH) ring) as (sh & Hp & Hfree & Hrange); [by apply Z.mod_pos_bound|done|].
  exists sh. split; [done|]. split; [done|]. rewrite Hp. cbn [mbind option_bind].
  assert (omap_find sh ring = None) as Hn by (by apply omap_find_None).
  rewrite omap_insert_fresh, length_omap_put by done. by case_bool_decide.
Qed.

Lemma addNodes_run vnc c orders (ring : Ring) p :
  ring_wf ring -> Z.of_nat (length ring + length orders) <= RING_LENGTH ->
  exists ring' p', addNodes vnc c orders (ring, p) = Some (ring', p') /\ ring_wf ring' /\
    length ring' = (length ring + length orders)%nat /\
    deleteClusterId c ring' = deleteClusterId c ring /\
    (ring <> [] -> forall s, owner ring' s = owner ring s \/ owner ring' s = Some c).
Proof.
  revert ring p. induction orders as [|i orders IH]; intros ring p Hwf Hl; cbn [addNodes].
  { exists ring, p. split; [done|]. split; [done|]. split; [cbn; lia|]. auto. }
  cbn [length] in Hl. destruct (addNode_run vnc c i ring p Hwf ltac:(lia)) as (sh & Hfree & Hrange & Hrun).
  rewrite Hrun. cbn [mbind option_bind].
  assert (omap_find sh ring = None) as Hn by (by apply omap_find_None).
  destruct (IH (omap_put sh c ring) (if bool_decide (S (length ring) <= vnc)%nat then p
    else takeOver c sh (omap_put sh c ring) <$> p)) as (ring' & p' & Hrun' & Hwf' & Hlen & Hdel & Hown).
  { by apply put_wf. }
  { rewrite length_omap_put by done. lia. }
  exists ring', p'. split; [done|]. split; [done|]. rewrite length_omap_put in Hlen by done.
  split; [cbn; lia|]. split; [by rewrite Hdel, delete_put|].
  intros Hne s. assert (omap_put sh c ring <> []) as Hne'.
  { intros Heq. apply (f_equal length) in Heq. rewrite length_omap_put in Heq by done. done. }
  destruct (Hown Hne' s) as [->|]; [|by right].
  destruct (owner_serves (omap_put sh c ring) s (proj1 (put_wf _ sh c Hwf Hrange)) Hne') as (k & c' & -> & Hsv).
  apply serves_insert in Hsv as [[_ ->]|Hsv]; [by right| |apply Hwf|done].
  left. symmetry. apply owner_iff; [apply Hwf|eauto].
Qed.

Lemma addNodes_one vnc c i st : addNodes vnc c [i] st = addNode vnc c i st.
Proof. cbn [addNodes]. by destruct (addNode vnc c i st). Qed.

End Joins.

(** ** What a node takes over *)

Lemma head_sorted (l : Ring) k c :
  StronglySorted key_lt l.*1 -> head l = Some (k, c) -> (k, c) ∈ l /\ forall k', k' ∈ l.*1 -> k <= k'.
Proof.
  destruct l as [|x l]; [done|]. cbn. intros Hs [= ->]. split; [by left|].
  intros k' [->|Hk']%elem_of_cons; [done|]. inversion Hs as [|? ? _ Hf]; subst.
  rewrite Forall_forall in Hf. specialize (Hf _ Hk'). rewrite key_lt_Z in Hf. lia.
Qed.

Lemma filter_keys (P : Z * Z -> Prop) `{!forall x, Decision (P x)} (ring : Ring) k :
  k ∈ ring.*1 -> (forall c, P (k, c)) -> k ∈ (filter P ring).*1.
Proof.
  intros ([k' c'] & -> & Hin)%list_elem_of_fmap HP. eapply elem_of_keys, list_elem_of_filter. by split.
Qed.

Lemma before_spec sh (ring : Ring) :
  omap_sorted ring -> ring <> [] ->
  exists p c, before sh ring = Some (p, c) /\ (p, c) ∈ ring /\
    ((p < sh /\ forall k, k ∈ ring.*1 -> k < sh -> k <= p) \/
     (forall k, k ∈ ring.*1 -> sh <= k) /\ (forall k, k ∈ ring.*1 -> k <= p)).
Proof.
  intros Hs Hne. unfold before. destruct (last (filter _ ring)) as [[p c]|] eqn:E.
  - exists p, c. apply last_sorted in E as [Hin Hmax]; [|by apply filter_sorted].
    apply list_elem_of_filter in Hin as [Hlt Hin]. split; [done|]. split; [done|]. left. split; [done|].
    intros k Hk Hlt'. by apply Hmax, filter_keys.
  - destruct (last ring) as [[p c]|] eqn:E2; [|by apply last_None in E2].
    exists p, c. apply last_sorted in E2 as [Hin Hmax]; [|done]. split; [done|]. split; [done|]. right.
    split; [|done]. intros k Hk. apply last_None in E.
    destruct (decide (k < sh)) as [Hlt|]; [|lia]. exfalso.
    assert (k ∈ (filter (fun x : Z * Z => x.1 < sh) ring).*1) as Hf by (by apply filter_keys).
    rewrite E in Hf. by apply elem_of_nil in Hf.
Qed.

Lemma after_spec sh (ring : Ring) :
  omap_sorted ring -> ring <> [] ->
  exists n c, after sh ring = Some (n, c) /\ (n, c) ∈ ring /\
    ((sh < n /\ forall k, k ∈ ring.*1 -> sh < k -> n <= k) \/
     (forall k, k ∈ ring.*1 -> k <= sh) /\ (forall k, k ∈ ring.*1 -> n <= k)).
Proof.
  intros Hs Hne. unfold after. destruct (head (filter _ ring)) as [[n c]|] eqn:E.
  - exists n, c. apply head_sorted in E as [Hin Hmin]; [|by apply filter_sorted].
    apply list_elem_of_filter in Hin as [Hlt Hin]. split; [done|]. split; [done|]. left. split; [done|].
    intros k Hk Hlt'. by apply Hmin, filter_keys.
  - destruct (head ring) as [[n c]|] eqn:E2; [|by destruct ring].
    exists n, c. apply head_sorted in E2 as [Hin Hmin]; [|done]. split; [done|]. split; [done|]. right.
    split; [|done]. intros k Hk. destruct (decide (sh < k)) as [Hlt|]; [|lia]. exfalso.
    assert (k ∈ (filter (fun x : Z * Z => sh < x.1) ring).*1) as Hf by (by apply filter_keys).
    destruct (filter _ ring); [by apply elem_of_nil in Hf|done].
Qed.

(** The run of shards from a node to the next is what the node serves. *)
Lemma run_serves sh c (ring : Ring) n c' s :
  ring_wf ring -> (sh, c) ∈ ring -> (n, c') ∈ ring -> n <> sh -> 0 <= s < RING_LENGTH ->
  ((sh < n /\ forall k, k ∈ ring.*1 -> sh < k -> n <= k) \/
   (forall k, k ∈ ring.*1 -> k <= sh) /\ (forall k, k ∈ ring.*1 -> n <= k)) ->
  serves ring s sh c <->
  exists x, sh <= x < (if bool_decide (n < sh) then n + RING_LENGTH else n) /\ x mod RING_LENGTH = s.
Proof.
  intros [Hs Hr] Hsh Hn Hne Hrange Hafter. pose proof (elem_of_keys _ _ _ Hsh) as Hshk.
  pose proof (elem_of_keys _ _ _ Hn) as Hnk. unfold keys_in_range in Hr. rewrite Forall_forall in Hr.
  pose proof (Hr _ Hshk). pose proof (Hr _ Hnk). split.
  - intros [_ Hle Hm|_ Hle Hm].
    + exists s. rewrite Z.mod_small by done. split; [|done]. case_bool_decide; [lia|].
      destruct (decide (s < n)); [lia|]. specialize (Hm n Hnk ltac:(lia)). lia.
    + specialize (Hm n Hnk). exists (s + RING_LENGTH). rewrite bool_decide_eq_true_2 by lia.
      specialize (Hle n Hnk). split; [lia|]. replace (s + RING_LENGTH) with (s + 1 * RING_LENGTH) by lia.
      rewrite Z_mod_plus_full. by apply Z.mod_small.
  - intros (x & Hx & <-). destruct Hafter as [[Hlt Hmin]|[Hmax Hmin]].
    + rewrite bool_decide_eq_false_2 in Hx by lia. rewrite Z.mod_small by lia. apply ServesBelow; [done|lia|].
      intros k Hk Hle. destruct (decide (sh < k)) as [Hk2|]; [|lia]. specialize (Hmin k Hk Hk2). lia.
    + specialize (Hmax n Hnk) as Hnsh. rewrite bool_decide_eq_true_2 in Hx by lia.
      destruct (decide (x < RING_LENGTH)).
      * rewrite Z.mod_small by lia. apply ServesBelow; [done|lia|auto].
      * assert (x mod RING_LENGTH = x - RING_LENGTH) as ->.
        { rewrite <- (Z_mod_plus_full _ (-1)). rewrite Z.mod_small; lia. }
        apply ServesWrapped; [done| |done]. intros k Hk. specialize (Hmin k Hk). lia.
Qed.

(** What the new node serves was served by the node before it. *)
Lemma served_before sh c (ring : Ring) p c' s :
  ring_wf ring -> sh ∉ ring.*1 -> (p, c') ∈ omap_put sh c ring -> p <> sh ->
  ((p < sh /\ forall k, k ∈ (omap_put sh c ring).*1 -> k < sh -> k <= p) \/
   (forall k, k ∈ (omap_put sh c ring).*1 -> sh <= k) /\ (forall k, k ∈ (omap_put sh c ring).*1 -> k <= p)) ->
  serves (omap_put sh c ring) s sh c -> serves ring s p c'.
Proof.
  intros [Hs Hr] Hfree Hp Hne Hbefore Hsv. apply elem_of_omap_put in Hp as [[-> _]|[_ Hp]]; [done| |done].
  assert (forall k, k ∈ ring.*1 -> k ∈ (omap_put sh c ring).*1) as Hmono.
  { intros k Hk. apply elem_of_omap_put_keys. by right. }
  assert (forall k, k ∈ ring.*1 -> k <> sh) as Hnot by (intros k Hk ->; done).
  pose proof (elem_of_keys _ _ _ Hp) as Hpk.
  destruct Hsv as [_ Hle Hm|_ Hle Hm], Hbefore as [[Hlt Hmax]|[Hmin Hmax]].
  - apply ServesBelow; [done|lia|]. intros k Hk Hks. specialize (Hm k (Hmono _ Hk) Hks).
    specialize (Hnot k Hk). apply Hmax; [auto|lia].
  - apply ServesWrapped; [done| |auto]. intros k Hk. specialize (Hmin k (Hmono _ Hk)). specialize (Hnot k Hk).
    destruct (decide (k <= s)) as [Hks|]; [|lia]. specialize (Hm k (Hmono _ Hk) Hks). lia.
  - apply ServesWrapped; [done|auto|]. intros k Hk. specialize (Hm k (Hmono _ Hk)). specialize (Hnot k Hk).
    apply Hmax; [auto|lia].
  - exfalso. specialize (Hmin p (Hmono _ Hpk)). specialize (Hm p (Hmono _ Hpk)). specialize (Hnot p Hpk). lia.
Qed.

Lemma push_range_find k a b (m : ShardMap) c s :
  s ∈ default [] (omap_find c (push_range k a b m)) <->
  s ∈ default [] (omap_find c m) \/ (k = c /\ exists x, a <= x < b /\ x mod RING_LENGTH = s).
Proof.
  rewrite push_range_assign, assign_find, elem_of_app, list_elem_of_fmap.
  split; (intros [H|H]; [by left|right]).
  - destruct H as (x & -> & [Hk Hx%elem_of_seqZ]%list_elem_of_filter). split; [done|]. exists x. split; [lia|done].
  - destruct H as (-> & x & Hx & <-). exists x. split; [done|]. apply list_elem_of_filter. split; [done|].
    apply elem_of_seqZ. lia.
Qed.

Lemma takeOver_find sh c (ring : Ring) c' s :
  ring_wf ring -> ring <> [] -> sh ∉ ring.*1 -> 0 <= sh < RING_LENGTH -> 0 <= s < RING_LENGTH ->
  s ∈ default [] (omap_find c' (takeOver c sh (omap_put sh c ring) [])) <->
  serves (omap_put sh c ring) s sh c /\ owner ring s = Some c'.
Proof.
  intros Hwf Hne Hfree Hsh Hrange. pose proof (put_wf ring sh c Hwf Hsh) as Hwf'.
  assert ((sh, c) ∈ omap_put sh c ring) as Hin by (apply elem_of_omap_put; [apply Hwf|by left]).
  assert (omap_put sh c ring <> []) as Hne' by (intros E; rewrite E in Hin; by apply elem_of_nil in Hin).
  assert (exists k, k ∈ ring.*1 /\ k <> sh) as (k0 & Hk0 & Hk0ne).
  { destruct ring as [|[k0 c0] ring]; [done|]. exists k0. split; [by left|]. intros ->. apply Hfree. by left. }
  assert (k0 ∈ (omap_put sh c ring).*1) as Hk0' by (apply elem_of_omap_put_keys; by right).
  destruct (before_spec sh _ (proj1 Hwf') Hne') as (p & cp & Hb & Hp & Hbefore).
  destruct (after_spec sh _ (proj1 Hwf') Hne') as (n & cn & Ha & Hn & Hafter).
  assert (p <> sh) as Hpne.
  { destruct Hbefore as [[]|[Hmin Hmax]]; [lia|]. specialize (Hmin _ Hk0'). specialize (Hmax _ Hk0'). lia. }
  assert (n <> sh) as Hnne.
  { destruct Hafter as [[]|[Hmin Hmax]]; [lia|]. specialize (Hmin _ Hk0'). specialize (Hmax _ Hk0'). lia. }
  unfold takeOver. rewrite Hb, Ha. rewrite push_range_find, <- (run_serves sh c _ n cn s Hwf' Hin Hn Hnne Hrange Hafter).
  assert (s ∉ default [] (omap_find c' (if (bool_decide (cp <> c) && bool_decide (omap_find c ([] : ShardMap) = None))%bool
    then touch cp [] else []))) as Hempty.
  { destruct (_ && _)%bool; [|cbn; apply not_elem_of_nil]. unfold touch. cbn [omap_find default omap_put].
    destruct (compare_keys c' cp); cbn; apply not_elem_of_nil. }
  split.
  - intros [H|[<- Hsv]]; [done|]. split; [done|]. apply owner_iff; [apply Hwf|]. exists p. by eapply served_before.
  - intros [Hsv Ho]. right. split; [|done]. apply owner_iff in Ho as (k & Ho); [|apply Hwf].
    pose proof (served_before sh c ring p cp s Hwf Hfree Hp Hpne Hbefore Hsv) as Hsv'.
    by destruct (serves_unique _ _ _ _ _ _ (proj1 Hwf) Hsv' Ho).
Qed.

(** The configuration is the owners. The loops of [extractShardConfig] over a ring
    yield, for each cluster, exactly the shards it owns, without repetition: the
    4096 shards are divided among the clusters, each going to the one at or
    before it on the circle. *)
Theorem config_is_the_owners (ring : Ring) :
  ring_wf ring -> ring <> [] ->
  let config := extractShardConfig ring [] in
  (forall c s, s ∈ default [] (omap_find c config) <-> 0 <= s < RING_LENGTH /\ owner ring s = Some c) /\
  (forall c, NoDup (default [] (omap_find c config))) /\
  (forall s, 0 <= s < RING_LENGTH -> exists c, s ∈ default [] (omap_find c config) /\
     forall c', s ∈ default [] (omap_find c' config) -> c' = c).
Proof.
  intros Hwf Hne config. assert (forall c s, s ∈ default [] (omap_find c config) <->
    0 <= s < RING_LENGTH /\ owner ring s = Some c) as Ho by (intros c s; by apply extract_owner).
  split; [exact Ho|]. split; [intros c; by apply extract_NoDup|].
  intros s Hs. destruct (owner_serves ring s (proj1 Hwf) Hne) as (k & c & Hc & _). exists c.
  split; [by apply Ho|]. intros c' [_ Hc']%Ho. congruence.
Qed.

(** C37: a cluster joins. As long as the ring has room for its nodes, adding a cluster
    ends (the probing for a free shard finds one) with a ring; every shard stays with its
    cluster or goes to the new one; removing the new cluster gives back the ring
    there was. With one node per cluster, the shards collected under each cluster are
    exactly those the new cluster takes from it. *)
Theorem cluster_joins {HASH : StdHash} (ring : Ring) c vnc :
  ring_wf ring -> ring <> [] -> c ∉ ring.*2 -> Z.of_nat (length ring + vnc) <= RING_LENGTH ->
  exists ring' m, addClusterId vnc c ring (Some []) = Some (ring', m) /\ ring_wf ring' /\
    (forall s, owner ring' s = owner ring s \/ owner ring' s = Some c) /\
    deleteClusterId c ring' = ring /\
    (vnc = DEFAULT_VIRTUAL_NODE_COUNT -> forall c' s, 0 <= s < RING_LENGTH ->
       s ∈ default [] (omap_find c' (default [] m)) <-> owner ring' s = Some c /\ owner ring s = Some c').
Proof.
  intros Hwf Hne Hc Hl. unfold addClusterId.
  destruct (addNodes_run vnc c (seq 0 vnc) ring (Some []) Hwf) as (ring' & m & Hrun & Hwf' & _ & Hdel & Hown).
  { by rewrite length_seq. }
  exists ring', m. split; [done|]. split; [done|]. split; [auto|]. split; [by rewrite Hdel, delete_absent|].
  intros Evnc c' s Hs. unfold DEFAULT_VIRTUAL_NODE_COUNT in Evnc. subst vnc.
  change (seq 0 1) with [0%nat] in Hrun. rewrite addNodes_one in Hrun.
  destruct (addNode_run 1 c 0 ring (Some []) Hwf ltac:(lia)) as (sh & Hfree & Hsh & Hrun1).
  rewrite Hrun1 in Hrun. rewrite bool_decide_eq_false_2 in Hrun
    by (destruct ring; cbn; [done|lia]).
  injection Hrun as <- <-. cbn [fmap option_fmap option_map default].
  change (id (takeOver c sh (omap_put sh c ring) [])) with (takeOver c sh (omap_put sh c ring) []).
  rewrite takeOver_find by done.
  split; (intros [H1 H2]; split; [|done]).
  - apply owner_iff; [by apply omap_put_sorted, Hwf|eauto].
  - apply owner_iff in H1 as (k & H1); [|by apply omap_put_sorted, Hwf].
    destruct (serves_insert _ _ _ _ _ _ (proj1 Hwf) Hfree H1) as [[-> _]|Hsv]; [done|].
    destruct Hc. destruct Hsv as [Hin _ _|Hin _ _]; by apply (list_elem_of_fmap_2 snd) in Hin.
Qed.
