(* ===== verification/Locking.v ===== *)
(** * Commands that lock concurrently

    [WSConcurInMemoryKVStore::lock] takes the mutexes of a command's keys one by
    one, in the order of working set name and then segment index, and blocks on
    each; the comment in [ConcurInMemoryKVStore::lock] claims this order rules out
    deadlock. Here any number of threads run lock, body, unlock, interleaved at
    the granularity of one mutex operation, each mutex being a [SharedMutex] with
    the transitions the stores use. *)

From S2P Require Import Prelude Status Proto KVStore SharedMutex InMemoryKVStore Sharding.
From S2P Require Import ConcurInMemoryKVStore WSConcurInMemoryKVStore.

Section Locking.
Context {K : Type} `{!EqDecision K} (before : K -> K -> Prop) `{!StrictOrder before}
  `{!RelDecision before}.

(** A thread between [lock] and [unlock]: the mutexes it holds, the ones it has
    yet to take, in order. A thread with none to take is past [lock]; it then
    releases what it holds. *)
Record Thread := mkThread { excl : bool; held : list K; todo : list K }.

(** A snapshot: every mutex and every thread. *)
Definition Config : Type := (K -> SharedMutex) * list Thread.

Definition upd (ms : K -> SharedMutex) (k : K) (m : SharedMutex) : K -> SharedMutex :=
  fun j => if decide (j = k) then m else ms j.

Inductive step : Config -> Config -> Prop :=
| step_acquire ms l1 l2 e h k td m' :
    acquire e (ms k) = Some m' ->
    step (ms, l1 ++ mkThread e h (k :: td) :: l2)
         (upd ms k m', l1 ++ mkThread e (k :: h) td :: l2)
| step_release ms l1 l2 e h1 k h2 m' :
    release e (ms k) = Some m' ->
    step (ms, l1 ++ mkThread e (h1 ++ k :: h2) [] :: l2)
         (upd ms k m', l1 ++ mkThread e (h1 ++ h2) [] :: l2).

Definition finished (t : Thread) : Prop := held t = [] /\ todo t = [].

(** ** Invariant *)

(** The threads that hold [k]. *)
Definition holders (k : K) (ts : list Thread) : list Thread := filter (fun t => k ∈ held t) ts.

(** The state of a mutex says who holds it. *)
Definition consistent (m : SharedMutex) (hs : list Thread) : Prop :=
  match m with
  | Free => hs = []
  | Shared n => Z.of_nat (length hs) = Zpos n /\ Forall (fun t => excl t = false) hs
  | Exclusive => exists t, hs = [t] /\ excl t = true
  end.

(** A thread takes its mutexes in increasing order, each once. *)
Definition ordered (t : Thread) : Prop :=
  StronglySorted before (todo t) /\ NoDup (held t) /\
  forall h k, h ∈ held t -> k ∈ todo t -> before h k.

Definition inv (cfg : Config) : Prop :=
  Forall ordered cfg.2 /\ forall k, consistent (cfg.1 k) (holders k cfg.2).

Lemma holders_app k l1 l2 : holders k (l1 ++ l2) = (holders k l1 ++ holders k l2).
Proof. apply filter_app. Qed.

Lemma holders_cons k t l :
  holders k (t :: l) = if decide (k ∈ held t) then t :: holders k l else holders k l.
Proof. unfold holders. rewrite filter_cons. done. Qed.

(** Replacing a thread by one with the same mode that holds the same mutexes
    but [k] changes the holders of [k] only. *)
Lemma consistent_replace m l1 l2 t t' j :
  excl t' = excl t -> (j ∈ held t' <-> j ∈ held t) ->
  consistent m (holders j (l1 ++ t :: l2)) -> consistent m (holders j (l1 ++ t' :: l2)).
Proof.
  rewrite !holders_app, !holders_cons. intros He Hj.
  destruct (decide (j ∈ held t)), (decide (j ∈ held t')); try tauto.
  destruct m as [|n|]; cbn.
  - by destruct (holders j l1).
  - rewrite !length_app, !Forall_app, !Forall_cons, He. done.
  - intros (t0 & Ht & Hx). exists t'. destruct (holders j l1) as [|? []]; [|discriminate..].
    cbn in *. simplify_eq. split; congruence.
Qed.

Lemma consistent_acquire m m' e h k td l1 l2 :
  k ∉ h -> acquire e m = Some m' ->
  consistent m (holders k (l1 ++ mkThread e h (k :: td) :: l2)) ->
  consistent m' (holders k (l1 ++ mkThread e (k :: h) td :: l2)).
Proof.
  intros Hk Ha. rewrite !holders_app, !holders_cons. cbn [held].
  rewrite decide_False by done. rewrite decide_True by set_solver.
  destruct e, m as [|n|]; cbn in *; simplify_eq; cbn.
  - intros [H1 H2]%app_eq_nil. rewrite H1, H2. eexists. split; reflexivity.
  - intros [H1 H2]%app_eq_nil. rewrite H1, H2. split; [reflexivity|]. by constructor.
  - rewrite !length_app, !Forall_app, !Forall_cons. cbn. intros [H1 [H2 H3]].
    split; [lia|]. auto.
Qed.

Lemma consistent_release m m' e h1 k h2 l1 l2 :
  NoDup (h1 ++ k :: h2) -> release e m = Some m' ->
  consistent m (holders k (l1 ++ mkThread e (h1 ++ k :: h2) [] :: l2)) ->
  consistent m' (holders k (l1 ++ mkThread e (h1 ++ h2) [] :: l2)).
Proof.
  intros Hnd Hr. rewrite !holders_app, !holders_cons. cbn [held].
  assert (k ∉ (h1 ++ h2)) as Hk.
  { apply NoDup_app in Hnd as (_ & Hd & Hnd%NoDup_cons). set_solver. }
  rewrite decide_True by set_solver. rewrite decide_False by done.
  destruct e, m as [|n|]; cbn in *; simplify_eq.
  - intros (t & Ht & _). destruct (holders k l1) as [|? []]; [|discriminate..].
    cbn in *. by simplify_eq.
  - rewrite !length_app, !Forall_app, !Forall_cons. cbn. intros [Hlen (Hf1 & _ & Hf2)].
    destruct n; simplify_eq; cbn; [ | | destruct (holders k l1); [destruct (holders k l2)|]; cbn in *; (done || lia)];
      (split; [rewrite length_app; lia | by apply Forall_app]).
Qed.

Lemma holder_consistent m hs t : consistent m hs -> t ∈ hs ->
  exists m', release (excl t) m = Some m'.
Proof.
  destruct m as [|n|]; cbn.
  - intros ->. by intros ?%not_elem_of_nil.
  - intros [_ Hf] Ht. rewrite Forall_forall in Hf. rewrite (Hf t Ht). destruct n; eauto.
  - intros (t' & -> & Hx) ->%list_elem_of_singleton. rewrite Hx. eauto.
Qed.

Lemma step_inv c1 c2 : step c1 c2 -> inv c1 -> inv c2.
Proof.
  intros Hstep [Ho Hc]. destruct Hstep as [ms l1 l2 e h k td m' Ha | ms l1 l2 e h1 k h2 m' Hr].
  - cbn in Ho, Hc. apply Forall_app in Ho as [Ho1 [Ho Ho2]%Forall_cons].
    destruct Ho as (Hs & Hnd & Hlt). cbn in Hs, Hnd, Hlt.
    assert (k ∉ h) as Hk.
    { intros Hk. apply (irreflexivity before k), Hlt; [done | left]. }
    inversion Hs as [|? ? Hs' Hf]; subst. rewrite Forall_forall in Hf. split.
    + apply Forall_app. split; [done|]. apply Forall_cons. split; [|done].
      split_and!; cbn; [done | by constructor |]. intros h' k' Hh Hk'.
      apply elem_of_cons in Hh as [->|Hh]; [by apply Hf | apply Hlt; [done | by right]].
    + intros j. unfold upd. cbn. destruct (decide (j = k)) as [->|Hne].
      * eapply consistent_acquire; eauto.
      * eapply consistent_replace; [| |apply Hc]; [done | set_solver].
  - cbn in Ho, Hc. apply Forall_app in Ho as [Ho1 [Ho Ho2]%Forall_cons].
    destruct Ho as (Hs & Hnd & Hlt). cbn in Hs, Hnd, Hlt. split.
    + apply Forall_app. split; [done|]. apply Forall_cons. split; [|done].
      split_and!; cbn; [done | | by intros ? ? _ ?%not_elem_of_nil].
      apply NoDup_app in Hnd as (H1 & H2 & [H3 H4]%NoDup_cons). apply NoDup_app. set_solver.
    + intros j. unfold upd. cbn. destruct (decide (j = k)) as [->|Hne].
      * eapply consistent_release; eauto.
      * eapply consistent_replace; [| |apply Hc]; [done | set_solver].
Qed.

(** ** Progress *)

Lemma exists_maximal (l : list K) : l <> [] -> exists x, x ∈ l /\ forall y, y ∈ l -> ~ before x y.
Proof.
  induction l as [|x l IH]; [done|]. intros _. destruct l as [|y l].
  { exists x. split; [left|]. intros y ->%list_elem_of_singleton. apply irreflexivity, _. }
  destruct IH as (m & Hm & Hmax); [done|]. destruct (decide (before m x)) as [Hb|Hb].
  - exists x. split; [left|]. intros z [->|Hz]%elem_of_cons; [apply irreflexivity, _|].
    intros Hxz. apply (Hmax z Hz). by etransitivity.
  - exists m. split; [by right|]. intros z [->|Hz]%elem_of_cons; auto.
Qed.

Lemma release_step cfg t :
  inv cfg -> t ∈ cfg.2 -> todo t = [] -> held t <> [] -> exists cfg', step cfg cfg'.
Proof.
  destruct cfg as [ms ts], t as [e h td]. intros [_ Hc] Ht Htd Hh. cbn in *. subst td.
  destruct h as [|k h]; [done|]. apply list_elem_of_split in Ht as (l1 & l2 & ->).
  destruct (holder_consistent (ms k) _ (mkThread e (k :: h) []) (Hc k)) as [m' Hm'].
  { apply list_elem_of_filter. cbn. set_solver. }
  eexists. apply (step_release ms l1 l2 e [] k h m' Hm').
Qed.

(** A mutex that cannot be acquired is held by some thread. *)
Lemma blocked_holder e m hs : consistent m hs -> acquire e m = None -> exists t, t ∈ hs.
Proof.
  destruct m as [|n|]; cbn.
  - by destruct e.
  - intros [Hlen _] _. destruct hs as [|t hs]; [cbn in Hlen; lia|]. exists t. left.
  - intros (t & -> & _) _. exists t. left.
Qed.

Lemma progress cfg :
  inv cfg -> (exists t, t ∈ cfg.2 /\ ~ finished t) -> exists cfg', step cfg cfg'.
Proof.
  destruct cfg as [ms ts]. intros Hinv (t & Ht & Hunf). cbn in Ht.
  set (wants := ts ≫= fun t => match todo t with k :: _ => [k] | [] => [] end).
  destruct (decide (wants = [])) as [Hw|Hw].
  { assert (todo t = []) as Htd.
    { destruct (todo t) as [|k td] eqn:E; [done|]. exfalso.
      assert (k ∈ wants) as Hk by (apply list_elem_of_bind; exists t; rewrite E; set_solver).
      rewrite Hw in Hk. by apply not_elem_of_nil in Hk. }
    apply (release_step (ms, ts) t Hinv Ht Htd). intros Hh. by apply Hunf. }
  destruct (exists_maximal wants Hw) as (k & Hk & Hmax).
  apply list_elem_of_bind in Hk as (t1 & Hk1 & Ht1).
  destruct t1 as [e h [|k1 td]]; cbn in Hk1; [by apply not_elem_of_nil in Hk1|].
  apply list_elem_of_singleton in Hk1 as <-.
  pose proof Ht1 as Hsplit. apply list_elem_of_split in Hsplit as (l1 & l2 & Hts).
  destruct (acquire e (ms k)) as [m'|] eqn:Ha.
  { eexists. rewrite Hts. by apply step_acquire. }
  pose proof Hinv as [Ho Hc]. cbn in Ho, Hc.
  destruct (blocked_holder e _ _ (Hc k) Ha) as [t2 [Hh2 Ht2]%list_elem_of_filter].
  destruct (todo t2) as [|k2 td2] eqn:E2.
  { apply (release_step (ms, ts) t2 Hinv Ht2 E2). intros Hh. rewrite Hh in Hh2.
    by apply not_elem_of_nil in Hh2. }
  exfalso. apply (Hmax k2).
  - apply list_elem_of_bind. exists t2. rewrite E2. set_solver.
  - rewrite Forall_forall in Ho. apply (Ho t2 Ht2); [done|]. rewrite E2. left.
Qed.

(** ** Termination *)

Definition work (ts : list Thread) : nat :=
  sum_list_with (fun t => length (held t) + 2 * length (todo t))%nat ts.

Lemma step_work c1 c2 : step c1 c2 -> (work c2.2 < work c1.2)%nat.
Proof.
  unfold work. destruct 1; cbn [fst snd]; rewrite !sum_list_with_app; cbn;
    rewrite ?length_app; cbn; lia.
Qed.

Inductive steps : Config -> Config -> Prop :=
| steps_refl c : steps c c
| steps_step c1 c2 c3 : step c1 c2 -> steps c2 c3 -> steps c1 c3.

Lemma steps_trans c1 c2 c3 : steps c1 c2 -> steps c2 c3 -> steps c1 c3.
Proof. induction 1; eauto using steps_step. Qed.

Lemma steps_inv c1 c2 : steps c1 c2 -> inv c1 -> inv c2.
Proof. induction 1; eauto using step_inv. Qed.

Lemma finished_dec (t : Thread) : Decision (finished t).
Proof. unfold finished. apply _. Qed.

(** From any configuration that satisfies the invariant the threads can all run
    to their end. *)
Lemma run_to_end cfg : inv cfg -> exists cfg', steps cfg cfg' /\ Forall finished cfg'.2.
Proof.
  remember (work cfg.2) as n eqn:Hn. revert cfg Hn.
  induction n as [n IH] using lt_wf_ind. intros cfg -> Hinv.
  destruct (decide (Exists (fun t => ~ finished t) cfg.2)) as [He|He].
  - apply Exists_exists in He. destruct (progress cfg Hinv He) as [cfg1 Hstep].
    destruct (IH (work cfg1.2) (step_work _ _ Hstep) cfg1 eq_refl) as (cfg' & Hs & Hf);
      [eauto using step_inv|].
    exists cfg'. split; [|done]. by eapply steps_step.
  - exists cfg. split; [constructor|]. apply Forall_forall. intros t Ht.
    destruct (finished_dec t) as [|Hnf]; [done|]. exfalso. apply He, Exists_exists. eauto.
Qed.

Lemma finished_free cfg : inv cfg -> Forall finished cfg.2 -> forall k, cfg.1 k = Free.
Proof.
  intros [_ Hc] Hf k. specialize (Hc k).
  assert (holders k cfg.2 = []) as Hh.
  { induction cfg.2 as [|t ts IH]; [done|]. apply Forall_cons in Hf as [[Ht _] Hf].
    rewrite holders_cons, Ht, decide_False by apply not_elem_of_nil. apply IH; [|done].
    rewrite holders_cons, Ht, decide_False in Hc by apply not_elem_of_nil. done. }
  rewrite Hh in Hc. destruct (cfg.1 k) as [|n|]; cbn in Hc; [done | lia | naive_solver].
Qed.

(** Two threads that hold the same mutex both hold it shared. *)
Lemma inv_exclusion cfg i j t1 t2 k :
  inv cfg -> i <> j -> cfg.2 !! i = Some t1 -> cfg.2 !! j = Some t2 ->
  k ∈ held t1 -> k ∈ held t2 -> excl t1 = false /\ excl t2 = false.
Proof.
  intros [_ Hc] Hij Hi Hj H1 H2. specialize (Hc k).
  assert (t1 ∈ holders k cfg.2 /\ t2 ∈ holders k cfg.2) as [Ht1 Ht2].
  { split; apply list_elem_of_filter; split; eauto using list_elem_of_lookup_2. }
  destruct (cfg.1 k) as [|n|]; cbn in Hc.
  - rewrite Hc in Ht1. by apply not_elem_of_nil in Ht1.
  - destruct Hc as [_ Hf]. rewrite Forall_forall in Hf. auto.
  - exfalso. destruct Hc as (t & Hh & _).
    assert (2 <= length (holders k cfg.2))%nat as Hlen; [|rewrite Hh in Hlen; cbn in Hlen; lia].
    clear -Hij Hi Hj H1 H2. revert i j Hij Hi Hj.
    induction cfg.2 as [|t ts IH]; intros i j Hij Hi Hj; [done|].
    rewrite holders_cons. destruct i as [|i], j as [|j]; cbn in Hi, Hj; simplify_eq.
    + rewrite decide_True by done. cbn. apply le_n_S.
      destruct (holders k ts) eqn:E; [|cbn; lia]. exfalso.
      assert (t2 ∈ holders k ts) as H3 by (apply list_elem_of_filter; eauto using list_elem_of_lookup_2).
      rewrite E in H3. by apply not_elem_of_nil in H3.
    + rewrite decide_True by done. cbn. apply le_n_S.
      destruct (holders k ts) eqn:E; [|cbn; lia]. exfalso.
      assert (t1 ∈ holders k ts) as H3 by (apply list_elem_of_filter; eauto using list_elem_of_lookup_2).
      rewrite E in H3. by apply not_elem_of_nil in H3.
    + pose proof (IH i j ltac:(congruence) Hi Hj). case_decide; cbn; lia.
Qed.

End Locking.

Arguments Thread : clear implicits.

(** ** The engine's lock order *)

Section Commands.
Context {HASH : StdHash} {LOOKUP : WSLookup}.

(** Working set name first, segment index second. *)
Definition ws_before (p q : WSName * nat) : Prop :=
  string_lt p.1 q.1 \/ p.1 = q.1 /\ (p.2 < q.2)%nat.

#[global] Instance ws_before_strict : StrictOrder ws_before.
Proof.
  unfold ws_before. split.
  - intros [n i] [H|[_ H]]; cbn in *; [by apply (irreflexivity string_lt n) | lia].
  - intros [n1 i1] [n2 i2] [n3 i3]; cbn. intros [H1|[-> H1]] [H2|[-> H2]];
      [left; by etransitivity | by left | by left | right; split; [done | lia]].
Qed.

#[global] Instance ws_before_dec : RelDecision ws_before.
Proof. intros p q. unfold ws_before. apply _. Defined.

Lemma ws_segments_sorted l :
  StronglySorted string_lt l.*1 -> StronglySorted ws_before (ws_segments l).
Proof.
  induction l as [|[name keys] l IH]; intros H; [constructor|]. rewrite ws_segments_cons.
  inversion H as [|? ? Hs Hf]; subst. specialize (IH Hs). rewrite Forall_forall in Hf.
  generalize (indexFlags_sorted keys). generalize (indexFlags keys).
  induction 1 as [|i idx Hss IHi Hfi]; [exact IH|]. cbn. constructor; [done|].
  apply Forall_app. split.
  - apply Forall_fmap. eapply Forall_impl; [exact Hfi|]. intros j Hj. right. done.
  - apply Forall_forall. intros p Hp%ws_segments_name. left. by apply Hf.
Qed.

(** The commands as they enter [lock]: the keys of each and its mode. *)
Definition start (cmds : list (list KeyType * bool)) : Config :=
  (fun _ => Free,
   (fun '(keys, e) => mkThread e [] (ws_segments (ws2Keys keys))) <$> cmds).

Lemma inv_start cmds : inv ws_before (start cmds).
Proof.
  split; cbn [fst snd start consistent].
  - apply Forall_fmap, Forall_true. intros [keys e]. split_and!; cbn.
    + apply ws_segments_sorted, ws2Keys_sorted.
    + constructor.
    + by intros ? ? ?%not_elem_of_nil.
  - intros k. induction cmds as [|[keys e] cmds IH]; [done|].
    rewrite fmap_cons, holders_cons. cbn [held]. by rewrite decide_False by apply not_elem_of_nil.
Qed.

(** C10: commands never deadlock. Whatever keys any number of commands lock, in
    whatever mode, and however their mutex operations interleave, every
    configuration they reach can be continued until all commands have taken and
    released all their locks, and then every mutex is free. *)
Theorem locking_deadlock_free cmds cfg :
  steps (start cmds) cfg ->
  exists cfg', steps cfg cfg' /\ Forall finished cfg'.2 /\ forall k, cfg'.1 k = Free.
Proof.
  intros Hs. pose proof (steps_inv ws_before _ _ Hs (inv_start cmds)) as Hinv.
  destruct (run_to_end ws_before cfg Hinv) as (cfg' & Hs' & Hf). exists cfg'.
  split_and!; [done|done|]. apply (finished_free ws_before cfg'); [|done]. eapply steps_inv; eauto with typeclass_instances.
Qed.

(** Every run of the commands' lock operations is finite, and bounded: each
    step uses up work, and a command brings twice the number of its segments. *)
Theorem locking_bounded cmds cfg cfg' :
  steps (start cmds) cfg -> step cfg cfg' ->
  (work cfg'.2 < work cfg.2 <= work (start cmds).2)%nat.
Proof.
  intros Hs Hstep. split; [by apply step_work|]. clear Hstep.
  induction Hs as [|c1 c2 c3 Hst _ IH]; [done|]. pose proof (step_work _ _ Hst). lia.
Qed.

(** A key locked exclusively by one command is locked by no other. Whenever
    two commands both hold the mutex of a segment, both hold it shared. *)
Theorem locking_exclusion cmds cfg i j t1 t2 seg :
  steps (start cmds) cfg -> i <> j ->
  cfg.2 !! i = Some t1 -> cfg.2 !! j = Some t2 ->
  seg ∈ held t1 -> seg ∈ held t2 -> excl t1 = false /\ excl t2 = false.
Proof.
  intros Hs. apply (inv_exclusion ws_before cfg i j t1 t2 seg).
  apply (steps_inv ws_before _ _ Hs), inv_start.
Qed.

End Commands.
