(* ===== verification/VersionStore.v ===== *)
(** * Version allocation

    [store::VersionStore] (kv-engine/store/VersionStore.h/.cpp): the counter
    versions are handed out from, and the largest version known to be
    committed. Each method runs under its mutex; the callback of
    [allocateNextVersion] is run by the caller with the version it returns, see
    CommandProcessor.v. *)

From S2P Require Import Prelude KVStore.

Record VersionStore := mkVersionStore {
  mNextVersion : VersionType;
  mMaxVersion : VersionType;
}.

Definition new_VersionStore : VersionStore := mkVersionStore 0 0.

Definition allocateNextVersion (expectedVersion : VersionType) (s : VersionStore)
    : VersionType * VersionStore :=
  if bool_decide (expectedVersion = kInvalidVersion) then
    (mNextVersion s, mkVersionStore (u64 (mNextVersion s + 1)) (mMaxVersion s))
  else if bool_decide (expectedVersion <= mNextVersion s) then
    (expectedVersion, s)
  else
    (expectedVersion, mkVersionStore expectedVersion (mMaxVersion s)).

Definition getMaxAllocatedVersion (s : VersionStore) : VersionType := u64 (mNextVersion s - 1).

Definition getCurMaxVersion (s : VersionStore) : VersionType := mMaxVersion s.

Definition updateCurMaxVersion (newVersion : VersionType) (s : VersionStore) : VersionStore :=
  if bool_decide (newVersion < mMaxVersion s) then s
  else mkVersionStore (mNextVersion s) (Z.max newVersion (mMaxVersion s)).

Definition recoverMaxVersion (version : VersionType) (s : VersionStore) : VersionStore :=
  mkVersionStore (u64 (version + 1)) version.

(** Requests for any version, one after the other. *)
Fixpoint allocate_many (n : nat) (s : VersionStore) : list VersionType * VersionStore :=
  match n with
  | O => ([], s)
  | S n => let '(v, s1) := allocateNextVersion kInvalidVersion s in
           let '(vs, s2) := allocate_many n s1 in (v :: vs, s2)
  end.

Lemma allocate_any s :
  0 <= mNextVersion s < 2 ^ 64 - 1 ->
  allocateNextVersion kInvalidVersion s =
  (mNextVersion s, mkVersionStore (mNextVersion s + 1) (mMaxVersion s)).
Proof.
  intros H. unfold allocateNextVersion. rewrite bool_decide_eq_true_2 by done.
  rewrite u64_small by (unfold is_u64; lia). done.
Qed.

Lemma allocate_many_spec n s :
  0 <= mNextVersion s -> mNextVersion s + Z.of_nat n < 2 ^ 64 ->
  allocate_many n s =
  (seqZ (mNextVersion s) (Z.of_nat n),
   mkVersionStore (mNextVersion s + Z.of_nat n) (mMaxVersion s)).
Proof.
  revert s. induction n as [|n IH]; intros s H0 Hn; cbn [allocate_many].
  - rewrite seqZ_nil by lia. destruct s as [nv mv]. cbn. by rewrite Z.add_0_r.
  - rewrite allocate_any by lia. rewrite IH by (cbn; lia). cbn [mNextVersion mMaxVersion].
    rewrite (seqZ_cons (mNextVersion s)) by lia.
    replace (Z.pred (Z.of_nat (S n))) with (Z.of_nat n) by lia.
    replace (mNextVersion s + 1 + Z.of_nat n) with (mNextVersion s + Z.of_nat (S n)) by lia. done.
Qed.


(** The committed version never goes down but by recovery. *)
Lemma updateCurMaxVersion_max v s :
  mMaxVersion (updateCurMaxVersion v s) = Z.max v (mMaxVersion s).
Proof. unfold updateCurMaxVersion. case_bool_decide; cbn; lia. Qed.

(** Asking for a version beyond the counter sets the counter to it instead
    of past it, so the next request for any version is given the same version
    again. *)
Theorem expected_version_handed_out_twice e s :
  mNextVersion s < e -> e <> kInvalidVersion ->
  let '(v1, s1) := allocateNextVersion e s in
  let '(v2, _) := allocateNextVersion kInvalidVersion s1 in
  v1 = e /\ v2 = e.
Proof.
  intros Hlt Hne. unfold allocateNextVersion.
  rewrite bool_decide_eq_false_2 by done. rewrite bool_decide_eq_false_2 by lia.
  rewrite bool_decide_eq_true_2 by done. done.
Qed.


Lemma expected_version_handed_out_twice_witness :
  let '(v1, s1) := allocateNextVersion 7 new_VersionStore in
  let '(v2, _) := allocateNextVersion kInvalidVersion s1 in
  v1 = 7 /\ v2 = 7.
Proof.
  exact (expected_version_handed_out_twice 7 new_VersionStore ltac:(cbn; lia) ltac:(discriminate)).
Defined.
