(* ===== verification/TemporalKVStore.v ===== *)
(** * The store of a transaction in progress

    [store::TemporalKVStore] (kv-engine/store/TemporalKVStore.h/.cpp): an
    overlay that collects what a transaction writes, so that its later entries
    read it, over a read-only view of the engine's store. *)

From S2P Require Import Prelude Status Proto KVStore InMemoryKVStore.

Record Overlay := mkOverlay {
  tData : gmap string Entry;
  tUdfMetaMap : gmap string UserDefinedMeta;
  tDeletedData : gset string;
}.

Definition empty_overlay : Overlay := mkOverlay ∅ ∅ ∅.

Record TemporalKVStore (D : Type) := mkTemporal {
  overlay : Overlay;
  tDelegate : D;
}.
Arguments mkTemporal {D} _ _.
Arguments overlay {D} _.
Arguments tDelegate {D} _.

Section TemporalKVStore.
Context {D : Type} `{!KVStore D}.

Definition on_overlay (f : Overlay -> Overlay) : M (TemporalKVStore D) unit :=
  modify (fun s => mkTemporal (f (overlay s)) (tDelegate s)).

Definition through {A} (m : M D A) : M (TemporalKVStore D) A :=
  zoom tDelegate (fun d s => mkTemporal (overlay s) d) m.

Definition overlay_write (key : KeyType) (e : Entry) (udfMeta : UserDefinedMeta) (o : Overlay) : Overlay :=
  mkOverlay (<[key := e]> (tData o))
            (if udf_nonempty udfMeta then <[key := udfMeta]> (tUdfMetaMap o) else tUdfMetaMap o)
            (tDeletedData o ∖ {[key]}).

Definition writeTTLKV (key : KeyType) (value : ValueType) (version : VersionType)
    (ttl : TTLType) (deadline updateTime : TimeType) (udfMeta : UserDefinedMeta)
    : M (TemporalKVStore D) Status.t :=
  on_overlay (overlay_write key (mkEntry value version ttl deadline updateTime) udfMeta) ;;;
  ret Status.ok.

Definition writeKV (key : KeyType) (value : ValueType) (version : VersionType)
    (updateTime : TimeType) (udfMeta : UserDefinedMeta) : M (TemporalKVStore D) Status.t :=
  writeTTLKV key value version INFINITE_TTL NEVER_EXPIRE updateTime udfMeta.

Definition readKV (key : KeyType) (out : ReadOut) : M (TemporalKVStore D) (Status.t * ReadOut) :=
  let* s := get in
  match tData (overlay s) !! key with
  | None =>
      if bool_decide (key ∈ tDeletedData (overlay s))
      then ret (Status.notFound (key +:+ " not found"), out)
      else through (kvReadKV key out)
  | Some e =>
      let* timeout := isTimeOut (e_deadline e) (e_ttl e) in
      if (timeout : bool) then
        on_overlay (fun o => mkOverlay (delete key (tData o)) (tUdfMetaMap o) (tDeletedData o)) ;;;
        ret (Status.notFound (key +:+ " not found"), out)
      else
        ret (Status.ok, mkOut (e_value e) (e_ttl e) (e_version e))
  end.

Definition readKVFromProxy (key : KeyType) (out : ReadOut) : M (TemporalKVStore D) (Status.t * ReadOut) :=
  through (kvReadKV key out).

Definition deleteKV (key : KeyType) (deleteRecordVersion deletedVersion : VersionType)
    : M (TemporalKVStore D) Status.t :=
  on_overlay (fun o => mkOverlay (delete key (tData o)) (delete key (tUdfMetaMap o))
                                 (tDeletedData o ∪ {[key]})) ;;;
  ret Status.ok.

Definition clear : M (TemporalKVStore D) unit := on_overlay (fun _ => empty_overlay).
Definition open : M (TemporalKVStore D) Status.t := clear ;;; ret Status.ok.
Definition close : M (TemporalKVStore D) Status.t := clear ;;; ret Status.ok.

(** [copyTo]: replay the overlay on another store, [mData] in key order. The
    loops stop at the first status that is not OK. *)
Definition copyTo {T} `{!KVStore T} (o : Overlay) : M T Status.t :=
  let* s := until_error (set_of_list (map_to_list (tData o)).*1) (fun key =>
    match tData o !! key with
    | None => ret Status.ok
    | Some e =>
        let udfMeta := default DEFAULT_UDFMETA (tUdfMetaMap o !! key) in
        if bool_decide (e_ttl e = INFINITE_TTL)
        then kvWriteKV key (e_value e) (e_version e) (e_updateTime e) udfMeta
        else kvWriteTTLKV key (e_value e) (e_version e) (e_ttl e) (e_deadline e)
                          (e_updateTime e) udfMeta
    end) Status.ok in
  if Status.isOK s
  then until_error (set_of_list (elements (tDeletedData o)))
         (fun key => kvDeleteKV key kInvalidVersion kInvalidVersion) s
  else ret s.

(** [readMeta] and [loadMilestone] are inherited from [ProxyKVStore],
    [readMetaFromProxy], [evictKV], [lock], [unlock] and [flush] from [KVStore]. *)
#[global] Instance TemporalKVStore_KVStore : KVStore (TemporalKVStore D) := {
  kvOpen := open;
  kvClose := close;
  kvLock := default_lock;
  kvUnlock := default_unlock;
  kvWriteKV := writeKV;
  kvWriteTTLKV := writeTTLKV;
  kvReadKV := readKV;
  kvDeleteKV := deleteKV;
  kvReadKVFromProxy := readKVFromProxy;
  kvReadMeta k m := through (kvReadMeta k m);
  kvReadMetaFromProxy _ _ := not_supported;
  kvCommit _ := not_supported;
  kvLoadMilestone m := through (kvLoadMilestone m);
  kvClear := clear;
  kvFlush := default_flush;
  kvEvictKV _ _ := not_supported;
}.

(** ** Reads see the overlay first *)

Lemma readKV_own_write k v ver t u o c s :
  exists s1, writeKV k v ver t u c s = Done Status.ok c s1 /\
    readKV k o c s1 = Done (Status.ok, mkOut v INFINITE_TTL ver) c s1 /\
    tDelegate s1 = tDelegate s.
Proof.
  destruct s as [[d um del] dl]. eexists. split_and!; [reflexivity | | reflexivity].
  unfold readKV. run. cbn. rewrite lookup_insert_eq. reflexivity.
Qed.

Lemma readKV_own_delete k r dv o c s :
  exists s1, deleteKV k r dv c s = Done Status.ok c s1 /\
    readKV k o c s1 = Done (Status.notFound (k +:+ " not found"), o) c s1.
Proof.
  destruct s as [[d um del] dl]. eexists. split; [reflexivity|].
  unfold readKV. run. cbn. rewrite lookup_delete_eq, bool_decide_eq_true_2 by set_solver.
  reflexivity.
Qed.

Lemma readKV_untouched k o c s :
  tData (overlay s) !! k = None -> k ∉ tDeletedData (overlay s) ->
  readKV k o c s = through (kvReadKV k o) c s.
Proof.
  intros Hd Hdel. unfold readKV. run. rewrite Hd, bool_decide_eq_false_2 by done. reflexivity.
Qed.

End TemporalKVStore.
