(* ===== verification/RocksDBKVStore.v ===== *)
(** * The persistent store

    [store::RocksDBKVStore] (kv-engine/store/RocksDBKVStore.h/.cpp): values are
    stored as a two-byte header, a serialized [Meta] and a serialized [Data];
    writes collect in a batch that [commit] writes together with the milestone.

    RocksDB and the protocol-buffer runtime are libraries: they are the classes
    [RocksDB] and [ProtoCodec], and what the store relies on are the classes of
    laws [RocksDBLaws] and [ProtoCodecLaws]. *)

From Stdlib Require Import Ascii.
From S2P Require Import Prelude Status Proto KVStore.

(** ** Libraries *)

(** [SerializeAsString] and [ParseFromArray] of [proto::Meta] and [proto::Data];
    parsing returns whether it succeeded and the message it left. *)
Class ProtoCodec := {
  serMeta : Meta -> string;
  parMeta : string -> bool * Meta;
  serData : Data -> string;
  parData : string -> bool * Data;
}.

(** Parsing what was serialized yields the message; a set [singleValue] takes at
    least the bytes of its tag. *)
Class ProtoCodecLaws (P : ProtoCodec) := {
  meta_roundtrip m : parMeta (serMeta m) = (true, m);
  data_roundtrip d : parData (serData d) = (true, d);
  data_nonempty v : serData (SingleValue v) <> "";
}.

Inductive BatchOp :=
| BPut (cf key value : string)
| BDelete (cf key : string).

Inductive GetStatus :=
| Found (value : string)
| NotFound (text : string)
| Failed (text : string).

(** [rocksdb::DB] and [rocksdb::WriteBatch]. A column family handle is the name
    of its column family; [Open] yields one handle per descriptor, in order. A
    result [None] is a status that is not OK. *)
Class RocksDB := {
  DB : Type;
  dbOpen : string -> string -> list string -> option DB;
  dbGet : DB -> string -> string -> GetStatus;
  dbWrite : DB -> list BatchOp -> option DB;
  batchAdd : list BatchOp -> BatchOp -> option (list BatchOp);
}.

Definition op_touches (cf key : string) (op : BatchOp) : bool :=
  match op with
  | BPut cf' k _ | BDelete cf' k => bool_decide (cf' = cf /\ k = key)
  end.

(** The last operation of a batch on a key. *)
Definition last_op (cf key : string) (ops : list BatchOp) : option BatchOp :=
  last (filter (fun op => op_touches cf key op = true) ops).

(** A batch is written whole, its operations in order; [Get] sees the result. *)
Class RocksDBLaws (R : RocksDB) := {
  batchAdd_ok l op : batchAdd l op = Some (l ++ [op]);
  dbWrite_ok db ops : is_Some (dbWrite db ops);
  dbGet_write db ops db' cf key :
    dbWrite db ops = Some db' ->
    match last_op cf key ops with
    | Some (BPut _ _ raw) => dbGet db' cf key = Found raw
    | Some (BDelete _ _) => exists text, dbGet db' cf key = NotFound text
    | None => dbGet db' cf key = dbGet db cf key
    end;
}.

(** ** The store *)

Definition kPersistedMilestone : string := "persistedMilestone".
Definition kCFMetaDefault : string := "default".

Record RocksDBKVStore `{!RocksDB} := mkRocks {
  mRocksDB : option DB;
  mWalDir : string;
  mDBDir : string;
  mColumnFamilyNames : list WSName;
  mColumnFamilyHandles : list string;
  mWriteBatch : list BatchOp;
  mRocksObserved : Observed;
}.
Arguments RocksDBKVStore : clear implicits.
Arguments RocksDBKVStore {_}.

Abbreviation WSLookupFunc := (option (KeyType -> WSName)) (only parsing).

(** The numbers of [proto::Meta::DataType]. *)
Definition DataType_number (d : DataType) : Z :=
  match d with NORMAL => 0 | NORMAL_WITH_TTL => 1 | OTHERS z => z end.

Definition byte (z : Z) : string := String (ascii_of_N (Z.to_N (u8 z))) "".

(** A [char] of a buffer, sign-extended. *)
Definition char_at (i : nat) (raw : string) : option Z :=
  a ← String.get i raw; Some (s8 (Z.of_N (N_of_ascii a))).

Definition size (raw : string) : Z := Z.of_nat (String.length raw).

(** [sizeof(Header)] *)
Definition headerLen : Z := 2.

Section Codec.
Context {P : ProtoCodec}.

(** [Header header{}; header.mType = ...; header.mMetaLen = meta->ByteSizeLong();]
    followed by the three concatenations. *)
Definition raw_of (meta : Meta) (data : Data) : string :=
  byte (DataType_number (m_dataType meta)) +:+ byte (size (serMeta meta)) +:+
  serMeta meta +:+ serData data.

Definition toRawValue (value : ValueType) (version : VersionType) (opType : OpType)
    (updateTime : TimeType) (udfMeta : UserDefinedMeta) : string :=
  raw_of (mkMeta NORMAL version 0 0 opType updateTime (append_udf udfMeta None))
         (SingleValue value).

Definition toRawValueTTL (value : ValueType) (version : VersionType) (ttl : TTLType)
    (deadline : TimeType) (opType : OpType) (updateTime : TimeType) (udfMeta : UserDefinedMeta)
    : string :=
  raw_of (mkMeta NORMAL_WITH_TTL version ttl deadline opType updateTime (append_udf udfMeta None))
         (SingleValue value).

(** [parseMeta]. [metaOffset + header->mMetaLen] is computed in [uint32_t]; a
    negative length passed to [ParseFromArray] is undefined. *)
Definition parseMeta {S} (raw : string) (meta : Meta) : M S (Status.t * Meta) :=
  if bool_decide (size raw <= headerLen)
  then ret (Status.error "corrupted header size", meta)
  else
    match char_at 0 raw, char_at 1 raw with
    | Some mType, Some mMetaLen =>
        if bool_decide (mType <> DataType_number NORMAL /\ mType <> DataType_number NORMAL_WITH_TTL)
        then ret (Status.error "invalid type in header", meta)
        else if bool_decide (size raw <= u32 (headerLen + mMetaLen))
        then ret (Status.error "corrupted payload", meta)
        else if bool_decide (mMetaLen < 0) then stop Undefined
        else
          let '(ok, meta') := parMeta (String.substring (Z.to_nat headerLen) (Z.to_nat mMetaLen) raw) in
          ret (if (ok : bool) then Status.ok else Status.error "corrupted payload", meta')
    | _, _ => stop Undefined
    end.

(** [fromRawValue] *)
Definition fromRawValue {S} (raw : string) : M S (Status.t * Payload) :=
  let* (s, meta) := parseMeta raw empty_meta in
  if Status.isOK s then
    match char_at 1 raw with
    | Some mMetaLen =>
        let dataOffset := u32 (headerLen + mMetaLen) in
        if bool_decide (size raw <= dataOffset)
        then ret (Status.error "corrupted payload", mkPayload meta NoData)
        else
          let '(ok, data) :=
            parData (String.substring (Z.to_nat dataOffset) (Z.to_nat (size raw - dataOffset)) raw) in
          ret (if (ok : bool) then Status.ok else Status.error "corrupted payload",
               mkPayload meta data)
    | None => stop Undefined
    end
  else ret (s, mkPayload meta NoData).

(** [TTLCompactionFilter::Filter]: whether compaction drops the value. *)
Definition Filter {S} (value : string) : M S bool :=
  match char_at 0 value with
  | None => stop Undefined
  | Some mType =>
      if bool_decide (mType <> DataType_number NORMAL_WITH_TTL) then ret false
      else
        let* (s, meta) := parseMeta value empty_meta in
        if Status.isOK s then isTimeOut (m_deadline meta) (m_ttl meta) else ret false
  end.

(** ** The raw format round-trips *)

Lemma s8_u8 z : -128 <= z < 128 -> s8 (u8 z) = z.
Proof.
  intros H. unfold s8, u8. rewrite Z.add_mod_idemp_l by lia.
  rewrite Z.mod_small by lia. lia.
Qed.

Lemma N_of_byte z : Z.of_N (N_of_ascii (ascii_of_N (Z.to_N (u8 z)))) = u8 z.
Proof.
  assert (0 <= u8 z < 256) by (apply Z.mod_pos_bound; lia).
  rewrite N_ascii_embedding by lia. lia.
Qed.

Lemma char_at_raw meta data :
  char_at 0 (raw_of meta data) = Some (s8 (u8 (DataType_number (m_dataType meta)))) /\
  char_at 1 (raw_of meta data) = Some (s8 (u8 (size (serMeta meta)))).
Proof.
  unfold raw_of, char_at, byte. cbv [String.get String.append mbind option_bind].
  rewrite !N_of_byte. done.
Qed.

Lemma string_app_cons c a b : String c a +:+ b = String c (a +:+ b).
Proof. reflexivity. Qed.

Lemma length_string_app a b : String.length (a +:+ b) = (String.length a + String.length b)%nat.
Proof. induction a as [|c a IH]; [done|]. rewrite string_app_cons. cbn. auto. Qed.

Lemma substring_prefix a b : String.substring 0 (String.length a) (a +:+ b) = a.
Proof.
  induction a as [|c a IH]; [by destruct b|]. rewrite string_app_cons. cbn. f_equal. apply IH.
Qed.

Lemma substring_skip a n b : String.substring (String.length a) n (a +:+ b) = String.substring 0 n b.
Proof. induction a as [|c a IH]; [done|]. rewrite string_app_cons. cbn. auto. Qed.

Lemma size_raw_of meta data :
  size (raw_of meta data) = 2 + size (serMeta meta) + size (serData data).
Proof. unfold raw_of, size. rewrite !length_string_app. unfold byte. cbn [String.length]. lia. Qed.

Lemma size_nonneg s : 0 <= size s.
Proof. unfold size. lia. Qed.

Lemma size_nonempty s : s <> "" -> 0 < size s.
Proof. destruct s; [done|]. unfold size. cbn. lia. Qed.

Lemma raw_meta_bytes meta data :
  String.substring 2 (Z.to_nat (size (serMeta meta))) (raw_of meta data) = serMeta meta.
Proof.
  unfold raw_of, size, byte. rewrite Nat2Z.id.
  exact (substring_prefix (serMeta meta) (serData data)).
Qed.

Lemma raw_data_bytes meta data :
  String.substring (Z.to_nat (2 + size (serMeta meta))) (Z.to_nat (size (serData data)))
    (raw_of meta data) = serData data.
Proof.
  unfold raw_of, size, byte.
  replace (Z.to_nat (2 + Z.of_nat (String.length (serMeta meta))))
    with (2 + String.length (serMeta meta))%nat by lia.
  rewrite Nat2Z.id. etransitivity; [exact (substring_skip (serMeta meta) _ (serData data))|].
  apply substring_all.
Qed.

(** What the store writes: one of the two types it knows. *)
Definition stored_type (meta : Meta) : Prop :=
  m_dataType meta = NORMAL \/ m_dataType meta = NORMAL_WITH_TTL.

Lemma stored_type_char meta :
  stored_type meta ->
  ~ (s8 (u8 (DataType_number (m_dataType meta))) <> DataType_number NORMAL /\
     s8 (u8 (DataType_number (m_dataType meta))) <> DataType_number NORMAL_WITH_TTL).
Proof. intros [H|H]; rewrite H; cbn; rewrite s8_u8 by lia; lia. Qed.

Context {PL : ProtoCodecLaws P}.

Lemma parseMeta_raw {S} meta v m0 c (s : S) :
  stored_type meta -> size (serMeta meta) < 128 ->
  parseMeta (raw_of meta (SingleValue v)) m0 c s = Done (Status.ok, meta) c s.
Proof.
  intros Ht Hlen. unfold parseMeta. destruct (char_at_raw meta (SingleValue v)) as [-> ->].
  pose proof (size_nonneg (serMeta meta)). pose proof (size_nonempty _ (data_nonempty v)).
  rewrite size_raw_of. unfold headerLen.
  rewrite bool_decide_eq_false_2 by lia.
  rewrite bool_decide_eq_false_2 by (by apply stored_type_char).
  rewrite s8_u8 by lia. rewrite u32_small by (unfold is_u32; lia).
  rewrite bool_decide_eq_false_2 by lia. rewrite bool_decide_eq_false_2 by lia.
  rewrite raw_meta_bytes, meta_roundtrip. reflexivity.
Qed.

Lemma fromRawValue_raw {S} meta v c (s : S) :
  stored_type meta -> size (serMeta meta) < 128 ->
  fromRawValue (raw_of meta (SingleValue v)) c s =
  Done (Status.ok, mkPayload meta (SingleValue v)) c s.
Proof.
  intros Ht Hlen. unfold fromRawValue. unfold bind. rewrite parseMeta_raw by done.
  change (Status.isOK Status.ok) with true. cbn iota beta.
  destruct (char_at_raw meta (SingleValue v)) as [_ ->].
  pose proof (size_nonneg (serMeta meta)). pose proof (size_nonempty _ (data_nonempty v)).
  rewrite s8_u8 by lia. unfold headerLen. rewrite u32_small by (unfold is_u32; lia).
  rewrite size_raw_of. rewrite bool_decide_eq_false_2 by lia.
  replace (2 + size (serMeta meta) + size (serData (SingleValue v)) - (2 + size (serMeta meta)))
    with (size (serData (SingleValue v))) by lia.
  rewrite raw_data_bytes, data_roundtrip. reflexivity.
Qed.


(** The same for a value with a ttl: ttl and deadline survive too. *)
Theorem raw_ttl_value_roundtrip {S} value version ttl deadline opType updateTime udfMeta c (s : S) :
  let meta := mkMeta NORMAL_WITH_TTL version ttl deadline opType updateTime
                (if udf_nonempty udfMeta then Some udfMeta else None) in
  size (serMeta meta) < 128 ->
  fromRawValue (toRawValueTTL value version ttl deadline opType updateTime udfMeta) c s =
  Done (Status.ok, mkPayload meta (SingleValue value)) c s.
Proof.
  intros meta Hlen. unfold toRawValueTTL. rewrite append_udf_fresh.
  apply fromRawValue_raw; [by right | done].
Qed.

(** The length byte of the header is a signed [char]: a meta of 128 to 253
    bytes, which a user-defined meta easily reaches, is written without complaint
    and cannot be read back, the value being reported as corrupted. *)
Theorem long_meta_is_unreadable {S} meta value c (s : S) :
  stored_type meta -> 128 <= size (serMeta meta) <= 253 ->
  size (serData (SingleValue value)) < 2 ^ 31 ->
  fromRawValue (raw_of meta (SingleValue value)) c s =
  Done (Status.error "corrupted payload", mkPayload empty_meta NoData) c s.
Proof.
  intros Ht Hlen Hsz. unfold fromRawValue, parseMeta, bind.
  destruct (char_at_raw meta (SingleValue value)) as [-> ->].
  rewrite size_raw_of. pose proof (size_nonneg (serData (SingleValue value))). unfold headerLen.
  rewrite bool_decide_eq_false_2 by lia.
  rewrite bool_decide_eq_false_2 by (by apply stored_type_char).
  assert (s8 (u8 (size (serMeta meta))) = size (serMeta meta) - 256) as ->.
  { unfold u8. rewrite Z.mod_small by lia. apply s8_negative. lia. }
  assert (u32 (2 + (size (serMeta meta) - 256)) = size (serMeta meta) + 2 ^ 32 - 254) as ->.
  { unfold u32. rewrite <- (Z.mod_add _ 1) by lia. rewrite Z.mod_small by lia. lia. }
  rewrite bool_decide_eq_true_2 by lia. reflexivity.
Qed.

End Codec.

Section RocksDBKVStore.
Context {P : ProtoCodec} {R : RocksDB} {LOOKUP : WSLookup}.

(** The position of a name in [mColumnFamilyNames]. *)
Definition cf_index (name : WSName) (names : list WSName) : option nat :=
  fst <$> list_find (fun n => n = name) names.

Definition handle_at (i : nat) : M RocksDBKVStore string :=
  let* s := get in
  match mColumnFamilyHandles s !! i with Some h => ret h | None => stop Undefined end.

(** [findCFHandle(wsName)] *)
Definition findCFHandleOfWS (wsName : WSName) : M RocksDBKVStore string :=
  if bool_decide (wsName = kCFMetaDefault) then handle_at 0
  else
    let* s := get in
    match cf_index wsName (mColumnFamilyNames s) with
    | None => stop AssertFail
    | Some index => handle_at (index + 1)
    end.

(** [findCFHandle(key, wsLookup)] *)
Definition findCFHandle (key : KeyType) (wsLookup : WSLookupFunc) : M RocksDBKVStore string :=
  if bool_decide (key = kCFMetaDefault) then handle_at 0
  else
    let wsName := match wsLookup with Some f => f key | None => mDefaultWSLookupFunc key end in
    let* s := get in
    match cf_index wsName (mColumnFamilyNames s) with
    | None => stop AssertFail
    | Some index => handle_at (index + 1)
    end.

(** [mRocksDB->...] on a store that is not open is undefined. *)
Definition the_db : M RocksDBKVStore DB :=
  let* s := get in
  match mRocksDB s with Some db => ret db | None => stop Undefined end.

Definition set_db (db : option DB) (s : RocksDBKVStore) : RocksDBKVStore :=
  mkRocks _ db (mWalDir s) (mDBDir s) (mColumnFamilyNames s) (mColumnFamilyHandles s)
          (mWriteBatch s) (mRocksObserved s).
Definition set_batch (b : list BatchOp) (s : RocksDBKVStore) : RocksDBKVStore :=
  mkRocks _ (mRocksDB s) (mWalDir s) (mDBDir s) (mColumnFamilyNames s) (mColumnFamilyHandles s)
          b (mRocksObserved s).
Definition notify_rocks (n : Notification) (s : RocksDBKVStore) : RocksDBKVStore :=
  mkRocks _ (mRocksDB s) (mWalDir s) (mDBDir s) (mColumnFamilyNames s) (mColumnFamilyHandles s)
          (mWriteBatch s) (notify n (mRocksObserved s)).

(** [open]: the descriptors are the default column family and the configured
    ones. *)
Definition open : M RocksDBKVStore Status.t :=
  let* s := get in
  let names := kCFMetaDefault :: mColumnFamilyNames s in
  match dbOpen (mWalDir s) (mDBDir s) names with
  | None => stop AssertFail
  | Some db =>
      put (mkRocks _ (Some db) (mWalDir s) (mDBDir s) (mColumnFamilyNames s) names
                   (mWriteBatch s) (mRocksObserved s)) ;;;
      ret Status.ok
  end.

(** The constructor. *)
Definition new_RocksDBKVStore {S} (walDir dbDir : string) (cfs : list WSName) : M S RocksDBKVStore :=
  assert_ (negb (bool_decide (cfs = []))) ;;;
  fun c s => match open c (mkRocks _ None walDir dbDir cfs [] [] no_observers) with
             | Done st c' r => if Status.isOK st then Done r c' s else Stop AssertFail
             | Stop f => Stop f
             end.

Definition close : M RocksDBKVStore Status.t :=
  modify (set_db None) ;;; ret Status.ok.

(** [mWriteBatch.Put/Delete(...); if (!s.ok()) assert(0);] *)
Definition batch (op : BatchOp) : M RocksDBKVStore unit :=
  let* s := get in
  match batchAdd (mWriteBatch s) op with
  | None => stop AssertFail
  | Some b => put (set_batch b s)
  end.

Definition writeKV (wsLookup : WSLookupFunc) (key : KeyType) (value : ValueType)
    (version : VersionType) (updateTime : TimeType) (udfMeta : UserDefinedMeta)
    : M RocksDBKVStore Status.t :=
  let* cfHandle := findCFHandle key wsLookup in
  batch (BPut cfHandle key (toRawValue value version SINGLE updateTime udfMeta)) ;;;
  modify (notify_rocks (OnWrite key value version)) ;;;
  ret Status.ok.

Definition writeTTLKV (wsLookup : WSLookupFunc) (key : KeyType) (value : ValueType)
    (version : VersionType) (ttl : TTLType) (deadline updateTime : TimeType)
    (udfMeta : UserDefinedMeta) : M RocksDBKVStore Status.t :=
  let* cfHandle := findCFHandle key wsLookup in
  batch (BPut cfHandle key (toRawValueTTL value version ttl deadline SINGLE updateTime udfMeta)) ;;;
  ret Status.ok.

Definition readKV (wsLookup : WSLookupFunc) (key : KeyType) (out : ReadOut)
    : M RocksDBKVStore (Status.t * ReadOut) :=
  let* cfHandle := findCFHandle key wsLookup in
  let* db := the_db in
  match dbGet db cfHandle key with
  | Found raw =>
      let* (status, payload) := fromRawValue raw in
      assert_ (Status.isOK status) ;;;
      match p_data payload with
      | SingleValue v =>
          let* timeout := isTimeOut (m_deadline (p_meta payload)) (m_ttl (p_meta payload)) in
          if (timeout : bool) then ret (Status.notFound (key +:+ " not found"), out)
          else ret (Status.ok, mkOut v (outTTL out) (m_version (p_meta payload)))
      | _ => stop AssertFail
      end
  | NotFound _ => ret (Status.notFound (key +:+ " not found"), out)
  | Failed text => ret (Status.error text, out)
  end.

Definition deleteKV (wsLookup : WSLookupFunc) (key : KeyType)
    (deleteRecordVersion deletedVersion : VersionType) : M RocksDBKVStore Status.t :=
  let* cfHandle := findCFHandle key wsLookup in
  batch (BDelete cfHandle key) ;;;
  modify (notify_rocks (OnDelete key deletedVersion deleteRecordVersion)) ;;;
  ret Status.ok.

Definition readMeta (wsLookup : WSLookupFunc) (key : KeyType) (meta : Meta)
    : M RocksDBKVStore (Status.t * Meta) :=
  let* cfHandle := findCFHandle key wsLookup in
  let* db := the_db in
  match dbGet db cfHandle key with
  | Found raw => parseMeta raw meta
  | NotFound text => ret (Status.notFound text, meta)
  | Failed text => ret (Status.error text, meta)
  end.

Definition flushToRocksDB : M RocksDBKVStore Status.t :=
  let* s := get in
  let* db := the_db in
  match dbWrite db (mWriteBatch s) with
  | None => stop AssertFail
  | Some db' => put (set_batch [] (set_db (Some db') s)) ;;; ret Status.ok
  end.

Definition commit (wsLookup : WSLookupFunc) (milestone : Z) : M RocksDBKVStore Status.t :=
  let* cfHandle := findCFHandle kCFMetaDefault wsLookup in
  batch (BPut cfHandle kPersistedMilestone (to_string milestone)) ;;;
  flushToRocksDB.

Definition loadMilestone (wsLookup : WSLookupFunc) (milestone : Z) : M RocksDBKVStore (Status.t * Z) :=
  let* cfHandle := findCFHandle kCFMetaDefault wsLookup in
  let* db := the_db in
  match dbGet db cfHandle kPersistedMilestone with
  | Found raw => match stoull raw with
                 | Some n => ret (Status.ok, n)
                 | None => stop Uncaught
                 end
  | NotFound text => ret (Status.notFound text, milestone)
  | Failed text => ret (Status.error text, milestone)
  end.

Definition flush : M RocksDBKVStore Status.t := flushToRocksDB.

Definition isClearState (s : RocksDBKVStore) : bool := bool_decide (length (mWriteBatch s) = O).

#[global] Instance RocksDBKVStore_KVStore : KVStore RocksDBKVStore := {
  kvOpen := open;
  kvClose := close;
  kvLock := default_lock;
  kvUnlock := default_unlock;
  kvWriteKV := writeKV None;
  kvWriteTTLKV := writeTTLKV None;
  kvReadKV := readKV None;
  kvDeleteKV := deleteKV None;
  kvReadKVFromProxy _ _ := not_supported;
  kvReadMeta := readMeta None;
  kvReadMetaFromProxy _ _ := not_supported;
  kvCommit := commit None;
  kvLoadMilestone := loadMilestone None;
  kvClear := not_supported;
  kvFlush := flush;
  kvEvictKV _ _ := not_supported;
}.

End RocksDBKVStore.
