(* ===== verification/RocksDBSpec.v ===== *)
(** * What the persistent store promises

    An abstract store: the committed map, the operations pending since the last
    commit, and the persisted milestone. [rep] relates a [RocksDBKVStore] to it;
    the lemmas show that every operation of the store is the operation of the
    abstract store. A crash loses the pending operations and nothing else: the
    abstract store after it is the committed map and its milestone. *)

From S2P Require Import Prelude Status Proto KVStore RocksDBKVStore.

(** A stored value: its meta and its data. *)
Abbreviation Row := (prod Meta ValueType) (only parsing).

Inductive RowOp :=
| RPut (key : KeyType) (row : Row)
| RDelete (key : KeyType).

Definition apply_op (m : gmap string Row) (op : RowOp) : gmap string Row :=
  match op with
  | RPut k r => <[k := r]> m
  | RDelete k => delete k m
  end.

Definition apply_ops (m : gmap string Row) (ops : list RowOp) : gmap string Row :=
  foldl apply_op m ops.

Definition op_key (op : RowOp) : KeyType := match op with RPut k _ | RDelete k => k end.

(** The abstract store. *)
Record Disk := mkDisk {
  rows : gmap string Row;
  pending : list RowOp;
  milestone : option Z;
}.

(** The row [writeKV] stores, and the one [writeTTLKV] stores. *)
Definition row_of (value : ValueType) (version : VersionType) (updateTime : TimeType)
    (udfMeta : UserDefinedMeta) : Row :=
  (mkMeta NORMAL version 0 0 SINGLE updateTime (append_udf udfMeta None), value).

Definition ttl_row_of (value : ValueType) (version : VersionType) (ttl : TTLType)
    (deadline updateTime : TimeType) (udfMeta : UserDefinedMeta) : Row :=
  (mkMeta NORMAL_WITH_TTL version ttl deadline SINGLE updateTime (append_udf udfMeta None), value).

Section Spec.
Context {P : ProtoCodec} {PL : ProtoCodecLaws P} {R : RocksDB} {RL : RocksDBLaws R}
  {LOOKUP : WSLookup}.

(** A row the codec can read back. *)
Definition readable (r : Row) : Prop := stored_type r.1 /\ size (serMeta r.1) < 128.

Definition op_readable (op : RowOp) : Prop :=
  match op with RPut _ r => readable r | RDelete _ => True end.

(** The column family of a key. *)
Definition cf_of (key : KeyType) : string :=
  if bool_decide (key = kCFMetaDefault) then kCFMetaDefault else mDefaultWSLookupFunc key.

Definition to_batch (op : RowOp) : BatchOp :=
  match op with
  | RPut k r => BPut (cf_of k) k (raw_of r.1 (SingleValue r.2))
  | RDelete k => BDelete (cf_of k) k
  end.

(** The store is open on the column families it was configured with, and these
    cover every key; none of them is the default one. *)
Definition wf (s : RocksDBKVStore) : Prop :=
  mColumnFamilyHandles s = kCFMetaDefault :: mColumnFamilyNames s /\
  (forall key, mDefaultWSLookupFunc key ∈ mColumnFamilyNames s) /\
  kCFMetaDefault ∉ mColumnFamilyNames s.

Definition represents (db : DB) (m : gmap string Row) : Prop :=
  forall key, match m !! key with
              | Some r => dbGet db (cf_of key) key = Found (raw_of r.1 (SingleValue r.2)) /\ readable r
              | None => exists text, dbGet db (cf_of key) key = NotFound text
              end.

Definition has_milestone (db : DB) (n : option Z) : Prop :=
  match n with
  | Some n => dbGet db kCFMetaDefault kPersistedMilestone = Found (to_string n) /\ is_u64 n
  | None => exists text, dbGet db kCFMetaDefault kPersistedMilestone = NotFound text
  end.

Definition rep (s : RocksDBKVStore) (d : Disk) : Prop :=
  wf s /\ mWriteBatch s = to_batch <$> pending d /\ Forall op_readable (pending d) /\
  exists db, mRocksDB s = Some db /\ represents db (rows d) /\ has_milestone db (milestone d).

(** ** Column families *)

Lemma list_find_cf name names :
  name ∈ names -> exists i, cf_index name names = Some i /\ names !! i = Some name.
Proof.
  intros H. unfold cf_index.
  destruct (list_find_elem_of (fun n => n = name) names name H eq_refl) as [[i x] Hi].
  rewrite Hi. exists i. split; [done|]. apply list_find_Some in Hi as (Hx & -> & _). done.
Qed.

Lemma findCFHandle_run key c s : wf s -> findCFHandle key None c s = Done (cf_of key) c s.
Proof.
  intros (Hh & Hl & _). unfold findCFHandle, cf_of. case_bool_decide as Hk.
  - unfold handle_at. run. rewrite Hh. reflexivity.
  - destruct (list_find_cf (mDefaultWSLookupFunc key) (mColumnFamilyNames s) (Hl key))
      as (i & Hi & Hn).
    unfold handle_at. run. rewrite Hi, Hh, Nat.add_1_r.
    change ((kCFMetaDefault :: mColumnFamilyNames s) !! S i) with (mColumnFamilyNames s !! i).
    rewrite Hn. reflexivity.
Qed.

Lemma findCFHandle_default c s :
  wf s -> findCFHandle kCFMetaDefault None c s = Done kCFMetaDefault c s.
Proof. intros H. rewrite findCFHandle_run by done. reflexivity. Qed.

(** The milestone's place holds no key. *)
Lemma cf_of_milestone s key :
  wf s -> ~ (kCFMetaDefault = cf_of key /\ kPersistedMilestone = key).
Proof.
  intros (_ & Hl & Hn) [H1 <-]. unfold cf_of in H1. rewrite bool_decide_eq_false_2 in H1 by done.
  apply Hn. rewrite H1. apply Hl.
Qed.

(** ** Batches *)

Lemma last_op_snoc cf key l op :
  last_op cf key (l ++ [op]) = if op_touches cf key op then Some op else last_op cf key l.
Proof.
  unfold last_op. rewrite filter_app, filter_cons, filter_nil.
  destruct (op_touches cf key op); [rewrite decide_True by done | rewrite decide_False by done].
  - by rewrite last_snoc.
  - by rewrite app_nil_r.
Qed.

Lemma to_batch_touches op key :
  op_touches (cf_of key) key (to_batch op) = bool_decide (op_key op = key).
Proof.
  destruct op as [k r|k]; cbn; apply bool_decide_ext; split; [tauto | by intros -> | tauto | by intros ->].
Qed.

(** The last operation of a batch on a key decides what the map holds there. *)
Lemma apply_ops_last m ops key :
  match last_op (cf_of key) key (to_batch <$> ops) with
  | Some (BPut _ _ raw) =>
      exists r, RPut key r ∈ ops /\ apply_ops m ops !! key = Some r /\ raw = raw_of r.1 (SingleValue r.2)
  | Some (BDelete _ _) => apply_ops m ops !! key = None
  | None => apply_ops m ops !! key = m !! key
  end.
Proof.
  induction ops as [|op ops IH] using rev_ind; [done|].
  rewrite fmap_app. cbn [fmap list_fmap]. rewrite last_op_snoc, to_batch_touches.
  unfold apply_ops in *. rewrite foldl_app. cbn [foldl].
  case_bool_decide as Hk.
  - destruct op as [k r|k]; cbn in Hk; subst k; cbn.
    + exists r. split_and!; [set_solver | apply lookup_insert_eq | done].
    + apply lookup_delete_eq.
  - assert (apply_op (foldl apply_op m ops) op !! key = foldl apply_op m ops !! key) as ->.
    { destruct op as [k r|k]; cbn in *; [apply lookup_insert_ne | apply lookup_delete_ne]; done. }
    destruct (last_op _ _ _) as [[]|]; [|done|done].
    destruct IH as (r & Hr & IH). exists r. split; [set_solver | done].
Qed.

Lemma represents_write db db' m ops extra :
  represents db m -> Forall op_readable ops ->
  (forall key, last_op (cf_of key) key ((to_batch <$> ops) ++ extra) =
               last_op (cf_of key) key (to_batch <$> ops)) ->
  dbWrite db ((to_batch <$> ops) ++ extra) = Some db' ->
  represents db' (apply_ops m ops).
Proof.
  intros Hrep Hops Hextra Hw key. pose proof (dbGet_write _ _ _ (cf_of key) key Hw) as Hget.
  rewrite Hextra in Hget. pose proof (apply_ops_last m ops key) as Hlast.
  destruct (last_op _ _ _) as [[cf k raw|cf k]|].
  - destruct Hlast as (r & Hin & -> & ->). split; [done|]. rewrite Forall_forall in Hops.
    exact (Hops _ Hin).
  - rewrite Hlast. exact Hget.
  - rewrite Hlast, Hget. apply Hrep.
Qed.

(** ** The operations of the abstract store *)

Definition disk_push (op : RowOp) (d : Disk) : Disk := mkDisk (rows d) (pending d ++ [op]) (milestone d).

Definition disk_commit (n : Z) (d : Disk) : Disk :=
  mkDisk (apply_ops (rows d) (pending d)) [] (Some n).

Definition disk_flush (d : Disk) : Disk := mkDisk (apply_ops (rows d) (pending d)) [] (milestone d).

(** What a read finds at time [now]. *)
Definition row_expired (now : Z) (r : Row) : bool :=
  bool_decide (m_ttl r.1 <> INFINITE_TTL /\ m_deadline r.1 <= now).

Lemma batch_rep op c s d :
  rep s d -> op_readable op ->
  exists s', batch (to_batch op) c s = Done tt c s' /\ rep s' (disk_push op d).
Proof.
  intros (Hwf & Hb & Hr & db & Hdb & Hrep & Hm) Hop. unfold batch. run. rewrite batchAdd_ok.
  eexists. split; [reflexivity|]. split_and!; [done | | |].
  - cbn. rewrite Hb, fmap_app. done.
  - cbn. apply Forall_app. split; [done | by constructor].
  - exists db. done.
Qed.

Lemma rep_notify n s d : rep s d -> rep (notify_rocks n s) d.
Proof. intros (Hwf & Hb & Hr & db & Hrest). split_and!; [done..|]. exists db. done. Qed.

Lemma writeKV_rep k v ver t u c s d :
  rep s d -> readable (row_of v ver t u) ->
  exists s', kvWriteKV k v ver t u c s = Done Status.ok c s' /\
    rep s' (disk_push (RPut k (row_of v ver t u)) d).
Proof.
  intros Hrep Hok. pose proof Hrep as (Hwf & _).
  destruct (batch_rep (RPut k (row_of v ver t u)) c s d Hrep Hok) as (s1 & Hrun & Hrep1).
  eexists. split; [|apply rep_notify, Hrep1]. cbn. unfold writeKV.
  rewrite (bind_Done _ _ _ _ _ _ _ (findCFHandle_run k c s Hwf)).
  exact (bind_Done _ _ _ _ _ _ _ Hrun).
Qed.

Lemma writeTTLKV_rep k v ver ttl dl t u c s d :
  rep s d -> readable (ttl_row_of v ver ttl dl t u) ->
  exists s', kvWriteTTLKV k v ver ttl dl t u c s = Done Status.ok c s' /\
    rep s' (disk_push (RPut k (ttl_row_of v ver ttl dl t u)) d).
Proof.
  intros Hrep Hok. pose proof Hrep as (Hwf & _).
  destruct (batch_rep (RPut k (ttl_row_of v ver ttl dl t u)) c s d Hrep Hok) as (s1 & Hrun & Hrep1).
  exists s1. split; [|done]. cbn. unfold writeTTLKV.
  rewrite (bind_Done _ _ _ _ _ _ _ (findCFHandle_run k c s Hwf)).
  exact (bind_Done _ _ _ _ _ _ _ Hrun).
Qed.

Lemma deleteKV_rep k r dv c s d :
  rep s d ->
  exists s', kvDeleteKV k r dv c s = Done Status.ok c s' /\ rep s' (disk_push (RDelete k) d).
Proof.
  intros Hrep. pose proof Hrep as (Hwf & _).
  destruct (batch_rep (RDelete k) c s d Hrep I) as (s1 & Hrun & Hrep1).
  eexists. split; [|apply rep_notify, Hrep1]. cbn. unfold deleteKV.
  rewrite (bind_Done _ _ _ _ _ _ _ (findCFHandle_run k c s Hwf)).
  exact (bind_Done _ _ _ _ _ _ _ Hrun).
Qed.

Lemma rep_db s d : rep s d -> exists db, forall c, the_db c s = Done db c s /\
  represents db (rows d) /\ has_milestone db (milestone d).
Proof.
  intros (_ & _ & _ & db & Hdb & Hr & Hm). exists db. intros c. split_and!; [|done..].
  unfold the_db. run. rewrite Hdb. reflexivity.
Qed.

(** A read sees the committed rows, not the pending ones. *)
Lemma readKV_rep k o c s d :
  rep s d ->
  kvReadKV k o c s =
  match rows d !! k with
  | None => Done (Status.notFound (k +:+ " not found"), o) c s
  | Some r =>
      if bool_decide (m_ttl r.1 = INFINITE_TTL)
      then Done (Status.ok, mkOut r.2 (outTTL o) (m_version r.1)) c s
      else if bool_decide (m_deadline r.1 <= u32 (c O))
      then Done (Status.notFound (k +:+ " not found"), o) (later c) s
      else Done (Status.ok, mkOut r.2 (outTTL o) (m_version r.1)) (later c) s
  end.
Proof.
  intros Hrep. pose proof Hrep as (Hwf & _). destruct (rep_db s d Hrep) as [db Hdb].
  destruct (Hdb c) as (Hthe & Hr & _). specialize (Hr k). cbn. unfold readKV.
  rewrite (bind_Done _ _ _ _ _ _ _ (findCFHandle_run k c s Hwf)).
  rewrite (bind_Done _ _ _ _ _ _ _ Hthe).
  destruct (rows d !! k) as [[meta v]|].
  - destruct Hr as [-> [Ht Hlen]]. cbn [fst snd] in *.
    rewrite (bind_Done _ _ _ _ _ _ _ (fromRawValue_raw meta v c s Ht Hlen)).
    unfold isTimeOut. run. cbn [p_data p_meta]. change (Status.isOK Status.ok) with true. cbn iota.
    case_bool_decide; [reflexivity|]. case_bool_decide; reflexivity.
  - destruct Hr as [text ->]. reflexivity.
Qed.

Lemma readMeta_rep k m c s d :
  rep s d ->
  match rows d !! k with
  | None => exists text, kvReadMeta k m c s = Done (Status.notFound text, m) c s
  | Some r => kvReadMeta k m c s = Done (Status.ok, r.1) c s
  end.
Proof.
  intros Hrep. pose proof Hrep as (Hwf & _). destruct (rep_db s d Hrep) as [db Hdb].
  destruct (Hdb c) as (Hthe & Hr & _). specialize (Hr k). cbn. unfold readMeta.
  rewrite (bind_Done _ _ _ _ _ _ _ (findCFHandle_run k c s Hwf)).
  rewrite (bind_Done _ _ _ _ _ _ _ Hthe).
  destruct (rows d !! k) as [[meta v]|].
  - destruct Hr as [-> [Ht Hlen]]. by apply parseMeta_raw.
  - destruct Hr as [text ->]. by exists text.
Qed.

Lemma flush_rep c s d :
  rep s d ->
  exists s', kvFlush c s = Done Status.ok c s' /\ rep s' (disk_flush d).
Proof.
  intros (Hwf & Hb & Hops & db & Hdb & Hr & Hm). cbn. unfold flush, flushToRocksDB, the_db. run.
  rewrite Hdb, Hb. destruct (dbWrite_ok db (to_batch <$> pending d)) as [db' Hw]. rewrite Hw.
  eexists. split; [reflexivity|]. split_and!; [done | done | constructor |].
  exists db'. split_and!; [done | |].
  - apply (represents_write db db' _ _ []); [done | done | by intros; rewrite app_nil_r |].
    by rewrite app_nil_r.
  - pose proof (dbGet_write _ _ _ kCFMetaDefault kPersistedMilestone Hw) as Hg.
    assert (last_op kCFMetaDefault kPersistedMilestone (to_batch <$> pending d) = None) as Hn.
    { unfold last_op. apply last_None. clear -Hwf. induction (pending d) as [|op ops IH]; [done|].
      cbn [fmap list_fmap]. rewrite filter_cons_False; [done|].
      pose proof (cf_of_milestone s (op_key op) Hwf).
      destruct op; cbn in *; intros ?%bool_decide_eq_true; naive_solver. }
    rewrite Hn in Hg. unfold has_milestone in *. cbn. by rewrite Hg.
Qed.

Lemma commit_rep n c s d :
  rep s d -> is_u64 n ->
  exists s', kvCommit n c s = Done Status.ok c s' /\ rep s' (disk_commit n d).
Proof.
  intros (Hwf & Hb & Hops & db & Hdb & Hr & Hm) Hn. cbn. unfold commit.
  rewrite (bind_Done _ _ _ _ _ _ _ (findCFHandle_default c s Hwf)).
  unfold batch, flushToRocksDB, the_db. run. rewrite batchAdd_ok. cbn [set_batch mRocksDB mWriteBatch].
  rewrite Hdb, Hb.
  destruct (dbWrite_ok db ((to_batch <$> pending d) ++
    [BPut kCFMetaDefault kPersistedMilestone (to_string n)])) as [db' Hw]. rewrite Hw.
  eexists. split; [reflexivity|]. split_and!; [done | done | constructor |].
  exists db'. split_and!; [done | |].
  - eapply represents_write; [done | done | | exact Hw].
    intros key. rewrite last_op_snoc. cbn. rewrite bool_decide_eq_false_2; [done|].
    by apply (cf_of_milestone s).
  - pose proof (dbGet_write _ _ _ kCFMetaDefault kPersistedMilestone Hw) as Hg.
    rewrite last_op_snoc in Hg. cbn in Hg. rewrite bool_decide_eq_true_2 in Hg by done. done.
Qed.

Lemma loadMilestone_rep n0 c s d :
  rep s d ->
  match milestone d with
  | Some n => kvLoadMilestone n0 c s = Done (Status.ok, n) c s
  | None => exists text, kvLoadMilestone n0 c s = Done (Status.notFound text, n0) c s
  end.
Proof.
  intros Hrep. pose proof Hrep as (Hwf & _). destruct (rep_db s d Hrep) as [db Hdb].
  destruct (Hdb c) as (Hthe & _ & Hm). cbn. unfold loadMilestone.
  rewrite (bind_Done _ _ _ _ _ _ _ (findCFHandle_default c s Hwf)).
  rewrite (bind_Done _ _ _ _ _ _ _ Hthe). unfold has_milestone in Hm.
  destruct (milestone d) as [n|].
  - destruct Hm as [-> Hn]. by rewrite stoull_to_string.
  - destruct Hm as [text ->]. by exists text.
Qed.

End Spec.
