(* ===== verification/Instances.v ===== *)
(** * Concrete libraries

    Instances of the library classes, with which the theorems that assume their
    laws are applied to concrete inputs: a self-delimiting encoding of messages,
    and a database that is a finite map. *)

From Stdlib Require Import Ascii.
From S2P Require Import Prelude Status Proto KVStore RocksDBKVStore ConcurInMemoryKVStore.

(** ** An encoding of messages *)

Fixpoint pos_enc (p : positive) : string :=
  match p with
  | xH => ""
  | xO p => String "0"%char (pos_enc p)
  | xI p => String "1"%char (pos_enc p)
  end.

Fixpoint pos_dec (s : string) : positive :=
  match s with
  | EmptyString => xH
  | String "1"%char s => xI (pos_dec s)
  | String _ s => xO (pos_dec s)
  end.

Lemma pos_dec_enc p : pos_dec (pos_enc p) = p.
Proof. induction p; cbn; congruence. Qed.

Definition Z_enc (z : Z) : string :=
  match z with
  | Z0 => "z"
  | Zpos p => String "p"%char (pos_enc p)
  | Zneg p => String "n"%char (pos_enc p)
  end.

Definition Z_dec (s : string) : Z :=
  match s with
  | String "p"%char s => Zpos (pos_dec s)
  | String "n"%char s => Zneg (pos_dec s)
  | _ => Z0
  end.

Lemma Z_dec_enc z : Z_dec (Z_enc z) = z.
Proof. destruct z; cbn; by rewrite ?pos_dec_enc. Qed.

(** A list of strings: each character is preceded by a mark, each string ends
    with another mark. *)
Fixpoint str_enc (s rest : string) : string :=
  match s with
  | EmptyString => String "."%char rest
  | String c s => String ":"%char (String c (str_enc s rest))
  end.

Fixpoint strs_enc (l : list string) : string :=
  match l with [] => "" | s :: l => str_enc s (strs_enc l) end.

Fixpoint strs_dec (s : string) : list string :=
  match s with
  | String ":"%char (String c s) =>
      match strs_dec s with x :: l => String c x :: l | [] => [] end
  | String _ s => "" :: strs_dec s
  | EmptyString => []
  end.

Lemma strs_dec_enc l : strs_dec (strs_enc l) = l.
Proof.
  induction l as [|s l IH]; [done|]. cbn [strs_enc].
  induction s as [|c s IHs]; cbn; [by rewrite IH|]. by rewrite IHs.
Qed.

Definition DataType_code (d : DataType) : Z :=
  match d with NORMAL => 0 | NORMAL_WITH_TTL => 1 | OTHERS z => if bool_decide (0 <= z) then z + 2 else z end.
Definition DataType_decode (z : Z) : DataType :=
  if bool_decide (z = 0) then NORMAL else if bool_decide (z = 1) then NORMAL_WITH_TTL
  else if bool_decide (0 <= z) then OTHERS (z - 2) else OTHERS z.

Lemma DataType_decode_code d : DataType_decode (DataType_code d) = d.
Proof.
  destruct d as [| |z]; cbn; [done..|]. unfold DataType_decode.
  repeat case_bool_decide; try lia; f_equal; lia.
Qed.

Definition OpType_code (o : OpType) : Z :=
  match o with SINGLE => 0 | SET_ADD => 1 | SET_REMOVE => 2 end.
Definition OpType_decode (z : Z) : OpType :=
  if bool_decide (z = 0) then SINGLE else if bool_decide (z = 1) then SET_ADD else SET_REMOVE.

Lemma OpType_decode_code o : OpType_decode (OpType_code o) = o.
Proof. by destruct o. Qed.

Definition udf_fields (u : option UserDefinedMeta) : list string :=
  match u with
  | None => ["-"]
  | Some u => Z_enc (Z.of_nat (length (uintfield u))) :: (Z_enc <$> uintfield u) ++ strfield u
  end.

Definition udf_of_fields (l : list string) : option UserDefinedMeta :=
  match l with
  | n :: l =>
      if bool_decide (n = "-") then None
      else let k := Z.to_nat (Z_dec n) in
           Some (mkUdf (Z_dec <$> firstn k l) (skipn k l))
  | [] => None
  end.

Lemma udf_of_fields_ok u : udf_of_fields (udf_fields u) = u.
Proof.
  destruct u as [[us ss]|]; [|done]. cbn [udf_fields udf_of_fields uintfield strfield].
  rewrite bool_decide_eq_false_2 by (destruct (length us); cbn; discriminate).
  rewrite Z_dec_enc, Nat2Z.id. f_equal. f_equal.
  - rewrite take_app_length' by by rewrite length_fmap. clear.
    induction us as [|x us IH]; [done|]. cbn. by rewrite Z_dec_enc, IH.
  - by rewrite drop_app_length' by by rewrite length_fmap.
Qed.

Definition Meta_fields (m : Meta) : list string :=
  (Z_enc <$> [DataType_code (m_dataType m); m_version m; m_ttl m; m_deadline m;
              OpType_code (m_opType m); m_updateTime m]) ++ udf_fields (m_udfMeta m).

Definition Meta_of_fields (l : list string) : option Meta :=
  match l with
  | dt :: v :: ttl :: dl :: op :: ut :: u =>
      Some (mkMeta (DataType_decode (Z_dec dt)) (Z_dec v) (Z_dec ttl) (Z_dec dl)
                   (OpType_decode (Z_dec op)) (Z_dec ut) (udf_of_fields u))
  | _ => None
  end.

Lemma Meta_of_fields_ok m : Meta_of_fields (Meta_fields m) = Some m.
Proof.
  destruct m as [dt v ttl dl op ut u]. cbn.
  by rewrite !Z_dec_enc, DataType_decode_code, OpType_decode_code, udf_of_fields_ok.
Qed.

Definition Data_fields (d : Data) : list string :=
  match d with
  | SingleValue v => ["s"; v]
  | MultiValue l => "m" :: l
  | NoData => []
  end.

Definition Data_of_fields (l : list string) : Data :=
  match l with
  | t :: l => if bool_decide (t = "s") then SingleValue (hd "" l) else MultiValue l
  | [] => NoData
  end.

#[global] Instance concrete_codec : ProtoCodec := {
  serMeta m := strs_enc (Meta_fields m);
  parMeta s := match Meta_of_fields (strs_dec s) with
               | Some m => (true, m)
               | None => (false, empty_meta)
               end;
  serData d := strs_enc (Data_fields d);
  parData s := (true, Data_of_fields (strs_dec s));
}.

#[global] Instance concrete_codec_laws : ProtoCodecLaws concrete_codec.
Proof.
  split; cbn [serMeta parMeta serData parData concrete_codec].
  - intros m. by rewrite strs_dec_enc, Meta_of_fields_ok.
  - intros d. rewrite strs_dec_enc. f_equal. by destruct d.
  - done.
Qed.

(** ** A database *)

Definition map_op (m : gmap (string * string) string) (op : BatchOp) : gmap (string * string) string :=
  match op with
  | BPut cf k v => <[(cf, k) := v]> m
  | BDelete cf k => delete (cf, k) m
  end.

#[global] Instance concrete_db : RocksDB := {
  DB := gmap (string * string) string;
  dbOpen _ _ _ := Some ∅;
  dbGet db cf k := match db !! (cf, k) with Some v => Found v | None => NotFound "NotFound: " end;
  dbWrite db ops := Some (foldl map_op db ops);
  batchAdd l op := Some (l ++ [op]);
}.

Lemma map_ops_last db ops cf key :
  match last_op cf key ops with
  | Some (BPut _ _ raw) => foldl map_op db ops !! (cf, key) = Some raw
  | Some (BDelete _ _) => foldl map_op db ops !! (cf, key) = None
  | None => foldl map_op db ops !! (cf, key) = db !! (cf, key)
  end.
Proof.
  induction ops as [|op ops IH] using rev_ind; [done|]. rewrite foldl_app. cbn [foldl].
  unfold last_op in *. rewrite filter_app, filter_cons, filter_nil.
  case_decide as Ht.
  - rewrite last_snoc. destruct op as [cf' k v|cf' k]; cbn in Ht;
      apply bool_decide_eq_true in Ht as [-> ->]; cbn; [apply lookup_insert_eq | apply lookup_delete_eq].
  - rewrite app_nil_r. destruct op as [cf' k v|cf' k]; cbn in Ht; rewrite bool_decide_eq_true in Ht; cbn;
      [rewrite lookup_insert_ne by naive_solver | rewrite lookup_delete_ne by naive_solver]; exact IH.
Qed.

#[global] Instance concrete_db_laws : RocksDBLaws concrete_db.
Proof.
  split; cbn.
  - done.
  - eauto.
  - intros db ops db' cf key [= <-]. pose proof (map_ops_last db ops cf key) as H.
    destruct (last_op cf key ops) as [[]|]; rewrite H; eauto.
Qed.

(** A hash, and a single working set. *)
Definition concrete_hash : StdHash := fun s => 2 ^ 52 * Z.of_nat (String.length s).
Definition concrete_lookup : WSLookup := fun _ => "ws".

(** A clock that stands still. *)
Definition clock_at (t : Z) : clock := fun _ => t.
