(* ===== verification/Event.v ===== *)
(** * Events

    [model::Event] and its subclasses (kv-engine/model/Event.h/.cpp): what a
    command did, as it is applied to a store and, as a bundle of protocol
    messages, replicated. *)

From S2P Require Import Prelude Status Proto KVStore.

Inductive EventType := READ | WRITE | DELETE | APPEND | IMPORT.

#[global] Instance EventType_eq_dec : EqDecision EventType.
Proof. solve_decision. Defined.

Record WriteEvent := mkWriteEvent {
  w_key : KeyType;
  w_value : ValueType;
  w_version : VersionType;
  w_enableTTL : bool;
  w_ttl : TTLType;
  w_deadline : TimeType;
  w_updateTime : TimeType;
  w_udfMeta : UserDefinedMeta;
  w_isNoOp : bool;
}.

Record ReadEvent := mkReadEvent {
  r_key : KeyType;
  r_value : ValueType;
  r_ttl : TTLType;
  r_version : VersionType;
  r_isNotFound : bool;
  r_updateTime : TimeType;
  r_udfMeta : UserDefinedMeta;
}.

Record DeleteEvent := mkDeleteEvent {
  d_key : KeyType;
  d_deletedValue : ValueType;
  d_deletedVersion : VersionType;
  d_version : VersionType;
}.

Inductive Event :=
| EvWrite (w : WriteEvent)
| EvRead (r : ReadEvent)
| EvDelete (d : DeleteEvent)
| EvImport (importedVersion : VersionType) (w : WriteEvent).

Abbreviation EventList := (list Event) (only parsing).

(** The constructors with defaulted arguments: the version is not allocated
    yet. *)
Definition newWriteEvent (key : KeyType) (value : ValueType) (enableTTL : bool) (ttl : TTLType)
    (deadline updateTime : TimeType) (udfMeta : UserDefinedMeta) (isNoOp : bool) : Event :=
  EvWrite (mkWriteEvent key value kInvalidVersion enableTTL ttl deadline updateTime udfMeta isNoOp).

Definition newReadEvent (key : KeyType) (value : ValueType) (ttl : TTLType)
    (version : VersionType) (isNotFound : bool) : Event :=
  EvRead (mkReadEvent key value ttl version isNotFound NOT_UPDATED DEFAULT_UDFMETA).

Definition newReadEventWithMeta (key : KeyType) (value : ValueType) (ttl : TTLType)
    (version : VersionType) (isNotFound : bool) (updateTime : TimeType)
    (udfMeta : UserDefinedMeta) : Event :=
  EvRead (mkReadEvent key value ttl version isNotFound updateTime udfMeta).

Definition newDeleteEvent (key : KeyType) (deletedValue : ValueType) (deletedVersion : VersionType) : Event :=
  EvDelete (mkDeleteEvent key deletedValue deletedVersion kInvalidVersion).

Definition newImportEvent (importedVersion : VersionType) (key : KeyType) (value : ValueType)
    (enableTTL : bool) (ttl : TTLType) (deadline : TimeType) : Event :=
  EvImport importedVersion
    (mkWriteEvent key value kInvalidVersion enableTTL ttl deadline NOT_UPDATED DEFAULT_UDFMETA false).

Definition getType (e : Event) : EventType :=
  match e with
  | EvWrite _ => WRITE
  | EvRead _ => READ
  | EvDelete _ => DELETE
  | EvImport _ _ => IMPORT
  end.

Definition isNoOP (e : Event) : bool :=
  match e with EvWrite w => w_isNoOp w | _ => false end.

(** [assignVersion]: a version is assigned once; reads ignore it. *)
Definition set_w_version (v : VersionType) (w : WriteEvent) : WriteEvent :=
  mkWriteEvent (w_key w) (w_value w) v (w_enableTTL w) (w_ttl w) (w_deadline w)
               (w_updateTime w) (w_udfMeta w) (w_isNoOp w).

Definition assignVersion {S} (version : VersionType) (e : Event) : M S Event :=
  match e with
  | EvWrite w =>
      assert_ (bool_decide (w_version w = kInvalidVersion)) ;;;
      ret (EvWrite (set_w_version version w))
  | EvImport iv w =>
      assert_ (bool_decide (w_version w = kInvalidVersion)) ;;;
      ret (EvImport iv (set_w_version version w))
  | EvDelete d =>
      assert_ (bool_decide (d_version d = kInvalidVersion)) ;;;
      ret (EvDelete (mkDeleteEvent (d_key d) (d_deletedValue d) (d_deletedVersion d) version))
  | EvRead _ => ret e
  end.

Definition getAllocatedVersion (e : Event) : VersionType :=
  match e with
  | EvWrite w | EvImport _ w => w_version w
  | EvDelete d => d_version d
  | EvRead _ => kInvalidVersion
  end.

Section Apply.
Context {S : Type} `{!KVStore S}.

Definition applyWrite (w : WriteEvent) : M S Status.t :=
  if w_isNoOp w then ret Status.ok
  else if w_enableTTL w then
    kvWriteTTLKV (w_key w) (w_value w) (w_version w) (w_ttl w) (w_deadline w)
                 (w_updateTime w) (w_udfMeta w)
  else kvWriteKV (w_key w) (w_value w) (w_version w) (w_updateTime w) (w_udfMeta w).

(** [Event::apply]; a delete ignores the status of [deleteKV]. *)
Definition apply (e : Event) : M S Status.t :=
  match e with
  | EvWrite w | EvImport _ w => applyWrite w
  | EvRead _ => ret Status.ok
  | EvDelete d => kvDeleteKV (d_key d) (d_version d) (d_deletedVersion d) ;;; ret Status.ok
  end.

End Apply.

(** ** Bundles *)

Definition writeToProto (w : WriteEvent) : ProtoWriteEvent :=
  mkProtoWrite (w_key w) (w_value w) (w_version w) (w_enableTTL w) (w_ttl w) (w_deadline w)
               (w_updateTime w) (w_isNoOp w) (append_udf (w_udfMeta w) None).

Definition writeOfProto (p : ProtoWriteEvent) : WriteEvent :=
  mkWriteEvent (pw_key p) (pw_value p) (pw_version p) (pw_enableTTL p) (pw_ttl p) (pw_deadline p)
               (pw_updateTime p) (default DEFAULT_UDFMETA (pw_udfMeta p)) (pw_isNoop p).

(** [toProtoEvent]; a read event cannot be replicated. The deleted value of a
    delete event is not replicated. *)
Definition toProtoEvent (e : Event) : option ProtoEvent :=
  match e with
  | EvWrite w | EvImport _ w => Some (PWrite (writeToProto w))
  | EvRead _ => None
  | EvDelete d => Some (PDelete (mkProtoDelete (d_key d) "" (d_deletedVersion d) (d_version d)))
  end.

Fixpoint toBundle {S} (events : EventList) : M S Bundle :=
  match events with
  | [] => ret []
  | e :: es =>
      match toProtoEvent e with
      | None => stop AssertFail
      | Some p => let* b := toBundle es in ret (p :: b)
      end
  end.

Definition ofProtoEvent (p : ProtoEvent) : option Event :=
  match p with
  | PWrite w => Some (EvWrite (writeOfProto w))
  | PDelete d => Some (EvDelete (mkDeleteEvent (pd_key d) (pd_deletedValue d)
                                               (pd_deletedVersion d) (pd_version d)))
  | PAppend | PUnset => None
  end.

Fixpoint fromBundle {S} (bundle : Bundle) : M S EventList :=
  match bundle with
  | [] => ret []
  | p :: b =>
      match ofProtoEvent p with
      | None => stop AssertFail
      | Some e => let* es := fromBundle b in ret (e :: es)
      end
  end.

Definition getVersionFromBundle {S} (bundle : Bundle) : M S VersionType :=
  match bundle with
  | [] => stop AssertFail
  | PWrite w :: _ => ret (pw_version w)
  | PDelete d :: _ => ret (pd_version d)
  | _ :: _ => stop AssertFail
  end.

(** ** Replication keeps what an event does *)

(** What a follower rebuilds from a replicated event. *)
Definition rebuilt (e : Event) : Event :=
  match e with
  | EvImport _ w => EvWrite w
  | EvDelete d => EvDelete (mkDeleteEvent (d_key d) "" (d_deletedVersion d) (d_version d))
  | _ => e
  end.

Lemma writeOfProto_toProto w : writeOfProto (writeToProto w) = w.
Proof.
  destruct w as [k v ver en ttl dl t u n]. unfold writeToProto, writeOfProto. cbn.
  rewrite append_udf_fresh. destruct (udf_nonempty u) eqn:E; [done|].
  apply udf_nonempty_false in E as ->. done.
Qed.

Definition replicable (e : Event) : Prop := match e with EvRead _ => False | _ => True end.

Lemma toProtoEvent_replicable e :
  replicable e -> exists p, toProtoEvent e = Some p /\ ofProtoEvent p = Some (rebuilt e).
Proof.
  destruct e as [w|r|d|iv w]; intros H; [|done| |]; eexists; (split; [reflexivity|]); cbn;
    by rewrite ?writeOfProto_toProto.
Qed.

Lemma toBundle_fromBundle {S} es c (s : S) :
  Forall replicable es ->
  exists b, toBundle es c s = Done b c s /\ fromBundle b c s = Done (rebuilt <$> es) c s.
Proof.
  induction 1 as [|e es He _ (b & Hb & IH)]; [by exists []|].
  destruct (toProtoEvent_replicable e He) as (p & Hp & Ho). exists (p :: b). cbn [toBundle fromBundle].
  rewrite Hp, Ho. split; run; [by rewrite Hb | by rewrite IH].
Qed.

Lemma apply_rebuilt {S} `{!KVStore S} e : apply (S := S) (rebuilt e) = apply e.
Proof. by destruct e. Qed.

Definition apply_all {S} `{!KVStore S} (es : EventList) : M S unit :=
  forM es (fun e => apply e ;;; ret tt).

(** C31: replication loses nothing. The events of a bundle that holds no read
    event are decoded by a follower into as many events, and applying those to
    any store does exactly what applying the originals does. *)
Theorem replicated_events_apply_alike {T} `{!KVStore T} es c (t : T) :
  Forall replicable es ->
  exists b es', toBundle es c t = Done b c t /\ fromBundle b c t = Done es' c t /\
    length es' = length es /\ (getAllocatedVersion <$> es') = (getAllocatedVersion <$> es) /\
    apply_all es' c t = apply_all es c t.
Proof.
  intros H. destruct (toBundle_fromBundle es c t H) as (b & Hb & Hf).
  exists b, (rebuilt <$> es). split_and!; [done | done | apply length_fmap | |].
  - rewrite <- list_fmap_compose. apply list_fmap_ext. by intros _ [] _.
  - clear. revert c t. induction es as [|e es IH]; intros c t; [done|].
    unfold apply_all in *. cbn [forM fmap list_fmap]. unfold bind. rewrite apply_rebuilt.
    destruct (apply e c t); [apply IH | done].
Qed.

(** The bundle's version is the version of its first event. *)
Lemma getVersionFromBundle_first {S} e es b c (s : S) :
  replicable e -> toBundle (e :: es) c s = Done b c s ->
  getVersionFromBundle b c s = Done (getAllocatedVersion e) c s.
Proof.
  intros He H. cbn [toBundle] in H. destruct (toProtoEvent_replicable e He) as (p & Hp & _).
  rewrite Hp in H. apply bind_inv in H as (b' & c' & s' & _ & H). run_in H. simplify_eq.
  by destruct e; cbn in *; simplify_eq.
Qed.
