(* ===== verification/Command.v ===== *)
(** * Commands

    [model::Command] and [model::CommandContext] (kv-engine/model/Command.h): the
    interface the command processor drives. A command is a record of its
    methods, its context's methods included; the files KV*Command.v build one per
    subclass. The laws a command has to satisfy for the processor's theorems are
    the class [CommandLaws]. *)

From Stdlib Require Import Ascii.
From S2P Require Import Prelude Utils OrderedMap Status Proto KVStore SharedMutex Lockable Event.

(** ** Responses

    The mutable part of a context: the response being built, for a transaction the
    keys whose put is ignored, for a generate command what it read and what it
    generated. *)

(** [mKVsToRead], [mKVsToWrite] and [mOutputInfo] of a generate context. *)
Record Generated := mkGenerated {
  mKVsToRead : OMap string (ValueType * VersionType);
  mKVsToWrite : OMap string ValueType;
  mOutputInfo : string;
}.

(** [model::ScanResponse] (object-store/model/ScanCommand.h). The elements of its data are
    declared as key, value, version, ttl: the third is kept in 64 bits, the fourth in 32. *)
Record ScanResponse := mkScanResponse {
  sr_data : list (KeyType * ValueType * Z * Z);
  sr_iterator : option KVIterator;
  sr_code : ResponseCode;
  sr_message : string;
}.

Inductive Response :=
| PutResp (r : PutResponse)
| GetResp (r : GetResponse)
| DeleteResp (r : DeleteResponse)
| TransResp (r : TransResponse) (ignoredPutKeys : list KeyType)
| GenerateResp (r : GenerateResponse) (g : Generated)
| ConnectResp (h : ResponseHeader)
| ScanResp (r : ScanResponse)
| NoResp.

(** [ClusterInfoUtil::getIpFromNodeId]: a name lookup. *)
Class NodeIps := getIpFromNodeId : option Z -> string.

Definition set_h_code (c : ResponseCode) (h : ResponseHeader) : ResponseHeader :=
  mkRespHeader c (h_message h) (h_latestVersion h) (h_leaderHint h) (h_routeHint h) (h_leaderIp h).
Definition set_h_message (m : string) (h : ResponseHeader) : ResponseHeader :=
  mkRespHeader (h_code h) m (h_latestVersion h) (h_leaderHint h) (h_routeHint h) (h_leaderIp h).
Definition set_h_latestVersion (v : Z) (h : ResponseHeader) : ResponseHeader :=
  mkRespHeader (h_code h) (h_message h) v (h_leaderHint h) (h_routeHint h) (h_leaderIp h).
Definition set_h_leader (hint ip : string) (h : ResponseHeader) : ResponseHeader :=
  mkRespHeader (h_code h) (h_message h) (h_latestVersion h) hint (h_routeHint h) ip.
Definition add_h_servers (l : list string) (h : ResponseHeader) : ResponseHeader :=
  mkRespHeader (h_code h) (h_message h) (h_latestVersion h) (h_leaderHint h) (h_routeHint h ++ l)
               (h_leaderIp h).

(** The part of [fillResponseAndReply] the contexts share: a hint to the leader,
    or the addresses of a route hint for the code [routeCode] of the context. *)
Definition fill_header {IPS : NodeIps} (routeCode : option ResponseCode) (code : ResponseCode)
    (message : string) (leaderId : option Z) (h : ResponseHeader) : option ResponseHeader :=
  h1 ← match leaderId with
       | Some id =>
           if bool_decide (code = RC_NOT_LEADER)
           then Some (Some (set_h_leader (to_string id) (getIpFromNodeId leaderId) h))
           else Some None
       | None => Some None
       end;
  h2 ← match h1 with
       | Some h1 => Some h1
       | None =>
           if bool_decide (Some code = routeCode) then
             match tokenize message ","%char with
             | [] => None
             | addrs => Some (add_h_servers addrs h)
             end
           else Some h
       end;
  Some (set_h_message message (set_h_code code h2)).

(** ** The interface *)

Record Command (S : Type) := mkCommand {
  getTargetKeys : list KeyType;
  getRequestHeader : RequestHeader;
  skipPreExecuteCB : bool;
  isFollowerReadCmd : bool;
  prepare : Response -> M S (Status.t * Response);
  execute : Response -> M S (Status.t * EventList * Response);
  finish : EventList -> M S Status.t;
  initialResponse : Response;
  initSuccessResponse : VersionType -> EventList -> Response -> option Response;
  fillResponseAndReply : ResponseCode -> string -> option Z -> Response -> option Response;
}.
Arguments mkCommand {S} _ _ _ _ _ _ _ _ _ _.
Arguments getTargetKeys {S} _.
Arguments getRequestHeader {S} _.
Arguments skipPreExecuteCB {S} _.
Arguments isFollowerReadCmd {S} _.
Arguments prepare {S} _ _.
Arguments execute {S} _ _.
Arguments finish {S} _ _.
Arguments initialResponse {S} _.
Arguments initSuccessResponse {S} _ _ _ _.
Arguments fillResponseAndReply {S} _ _ _ _ _.

Section Common.
Context {S : Type} `{!KVStore S}.

(** A command whose [execute] does not touch its context. *)
Definition plain (m : M S (Status.t * EventList)) (r : Response) : M S (Status.t * EventList * Response) :=
  let* (s, es) := m in ret (s, es, r).

(** A command whose [prepare] does not touch its context. *)
Definition prepared (m : M S Status.t) (r : Response) : M S (Status.t * Response) :=
  let* s := m in ret (s, r).

(** The body of [finish] of the commands that apply their events: stop at the
    first event that fails, then unlock. *)
Definition finish_events (keys : list KeyType) (isExclusive : bool) (events : EventList) : M S Status.t :=
  let* s := until_error events apply Status.ok in
  let* u := kvUnlock keys isExclusive in
  assert_ (Status.isOK u) ;;;
  ret s.

Lemma finish_events_inv keys e es c s x c' s' :
  finish_events keys e es c s = Done x c' s' ->
  exists f c1 s1 u, until_error es apply Status.ok c s = Done f c1 s1 /\
    kvUnlock keys e c1 s1 = Done u c' s' /\ Status.isOK u = true /\ x = f.
Proof.
  unfold finish_events. intros H. apply bind_inv in H as (f & c1 & s1 & Hev & H).
  apply bind_inv in H as (u & c2 & s2 & Hun & H). apply bind_inv in H as ([] & c3 & s3 & Has & H).
  unfold assert_ in Has. destruct (Status.isOK u) eqn:Eu; [|discriminate].
  run_in Has. run_in H. simplify_eq. eauto 10.
Qed.

End Common.

(** ** Laws *)

Section Laws.
Context {S K : Type} `{!KVStore S} `{!EqDecision K} `{!Lockable S K}.

(** What a command promises: [prepare], when it succeeds, ends by taking the locks
    of a fixed set of keys in a fixed mode, and otherwise leaves the locks as they are;
    [execute] leaves the locks alone, and [finish] releases them whatever the events
    are. *)
Record CommandLaws (cmd : Command S) := {
  lock_keys : list KeyType;
  lock_excl : bool;
  prepare_locks r c s st r' c' s' : prepare cmd r c s = Done (st, r') c' s' ->
    if Status.isOK st then
      exists c1 s1, (forall i, lock_view s1 i = lock_view s i) /\
        kvLock lock_keys lock_excl c1 s1 = Done st c' s'
    else forall i, lock_view s' i = lock_view s i;
  execute_keeps r : keeps_locks lock_view (execute cmd r);
  finish_unlocks es c s x c' s' : finish cmd es c s = Done x c' s' ->
    exists u c1 s1, (forall i, lock_view s1 i = lock_view s i) /\
      kvUnlock lock_keys lock_excl c1 s1 = Done u c' s';
}.

Lemma prepared_inv (m : M S Status.t) r c s x c' s' :
  prepared m r c s = Done x c' s' -> x.2 = r /\ m c s = Done x.1 c' s'.
Proof.
  unfold prepared. intros H. apply bind_inv in H as (st & c1 & s1 & H1 & H). run_in H. by simplify_eq.
Qed.

Lemma prepared_locks ks e r c s st r' c' s' :
  prepared (kvLock ks e) r c s = Done (st, r') c' s' ->
  if Status.isOK st then
    exists c1 s1, (forall i, lock_view s1 i = lock_view s i) /\ kvLock ks e c1 s1 = Done st c' s'
  else forall i, lock_view s' i = lock_view s i.
Proof.
  intros [_ H]%prepared_inv. cbn in H. destruct (kvLock_moves _ _ _ _ _ _ _ H) as (-> & _). by exists c, s.
Qed.

Lemma plain_keeps (m : M S (Status.t * EventList)) r :
  keeps_locks lock_view m -> keeps_locks lock_view (plain m r).
Proof. intros H. unfold plain. keeps. Qed.

Lemma apply_keeps e : keeps_locks lock_view (apply e : M S Status.t).
Proof.
  destruct e as [w|r|d|iv w]; cbn [apply]; unfold applyWrite; repeat case_match; auto with goblin.
Qed.

Lemma until_error_keeps {A} (l : list A) (b : A -> M S Status.t) st :
  (forall x, keeps_locks lock_view (b x)) -> keeps_locks lock_view (until_error l b st).
Proof.
  intros Hb. revert st. induction l as [|x l IH]; intros st; cbn [until_error]; [auto with goblin|].
  apply keeps_bind; [apply Hb|]. intros s. case_match; auto with goblin.
Qed.

Lemma finish_events_unlocks ks e es c s x c' s' :
  finish_events ks e es c s = Done x c' s' ->
  exists u c1 s1, (forall i, lock_view s1 i = lock_view s i) /\
    kvUnlock ks e c1 s1 = Done u c' s'.
Proof.
  intros H. apply finish_events_inv in H as (f & c1 & s1 & u & Hev & Hun & _ & _).
  exists u, c1, s1. split; [|done].
  apply (until_error_keeps es apply Status.ok apply_keeps (lock_view s) c s f c1 s1); done.
Qed.

End Laws.
