(* ===== verification/Metrics.v ===== *)
(** * What is measured

    [model::CommandContext::Metrics] (kv-engine/model/Command.h): the time stamps of a command and the latencies reported from them; the
    sizes of what is written ([RocksDBKVStore::reportWriteMetrics], kv-engine/store/RocksDBKVStore.cpp). The registry of the
    metrics is a library's: what it is given is modelled. *)

From S2P Require Import Prelude.

(** ** Time stamps *)

(** [TimestampInNanos] has 64 bits without sign. *)
Record Metrics := mkMetrics {
  mCommandCreateTimeInNanos : Z;
  mCommandOutQueueTimeInNanos : Z;
  mCommandLockTimeInNanos : Z;
  mCommandPreExecutedTimeInNanos : Z;
  mCommandExecutedTimeInNanos : Z;
  mBeforeRaftCommitTimeInNanos : Z;
  mAfterRaftCommitTimeInNanos : Z;
  mAfterReplyTimeInNanos : Z;
}.

Inductive Stamp := CreateTime | OutQueueTime | LockTime | PreExecutedTime | ExecutedTime | BeforeRaftCommitTime | AfterRaftCommitTime | AfterReplyTime.

(** [setCreateTimeInNanos] to [setAfterReplyTimeInNanos] *)
Definition set_stamp (s : Stamp) (now : Z) (m : Metrics) : Metrics :=
  let '(mkMetrics a b c d e f g h) := m in
  match s with
  | CreateTime => mkMetrics now b c d e f g h
  | OutQueueTime => mkMetrics a now c d e f g h
  | LockTime => mkMetrics a b now d e f g h
  | PreExecutedTime => mkMetrics a b c now e f g h
  | ExecutedTime => mkMetrics a b c d now f g h
  | BeforeRaftCommitTime => mkMetrics a b c d e now g h
  | AfterRaftCommitTime => mkMetrics a b c d e f now h
  | AfterReplyTime => mkMetrics a b c d e f g now
  end.

(** [reportMetrics]: the histograms and what they observe, in nanoseconds; the code divides each by a million to a [double]. *)
Definition reportMetrics (m : Metrics) : list (string * Z) :=
  [("request_call_stay_in_queue_latency_in_ms", u64 (mCommandOutQueueTimeInNanos m - mCommandCreateTimeInNanos m));
   ("request_command_locked_latency_in_ms", u64 (mCommandLockTimeInNanos m - mCommandOutQueueTimeInNanos m));
   ("request_command_preexecuted_latency_in_ms", u64 (mCommandPreExecutedTimeInNanos m - mCommandLockTimeInNanos m));
   ("request_command_executed_latency_in_ms", u64 (mCommandExecutedTimeInNanos m - mCommandPreExecutedTimeInNanos m));
   ("request_call_without_commit_latency_in_ms", u64 (mBeforeRaftCommitTimeInNanos m - mCommandCreateTimeInNanos m));
   ("request_commit_latency_in_ms", u64 (mAfterRaftCommitTimeInNanos m - mBeforeRaftCommitTimeInNanos m));
   ("request_reply_latency_in_ms", u64 (mAfterReplyTimeInNanos m - mAfterRaftCommitTimeInNanos m));
   ("request_overall_latency_in_ms", u64 (mAfterReplyTimeInNanos m - mCommandCreateTimeInNanos m))].

(** The stamps of a command that is answered by the reply loop, in the order the code takes them: [KVEngineImpl::putAsync] and its like,
    [CommandProcessor::process], [CommandProcessor::doExecute] and [ReplyLoop::replyTask]. *)
Definition trail : list Stamp :=
  [CreateTime; OutQueueTime; LockTime; PreExecutedTime; ExecutedTime; BeforeRaftCommitTime; AfterRaftCommitTime; AfterReplyTime].

Definition stamped (times : list Z) (m : Metrics) : Metrics := foldl (fun m x => set_stamp x.1 x.2 m) m (zip trail times).

(** The latencies of a command whose clock does not go back are the times its stages took, and they add up: the overall latency is that before the
    commit, that of the commit and that of the reply, and the stages before the commit fit into the first. *)
Theorem latencies_add_up times m q l p e b c r o :
  length times = 8%nat -> Forall (fun t => 0 <= t < 2 ^ 64) times -> StronglySorted Z.le times ->
  snd <$> reportMetrics (stamped times m) = [q; l; p; e; b; c; r; o] ->
  o = b + c + r /\ q + l + p + e <= b /\ Forall (fun x => 0 <= x < 2 ^ 64) [q; l; p; e; b; c; r; o].
Proof.
  intros Hlen Hr Hs H. do 8 (destruct times as [|? times]; [done|]). destruct times; [|done].
  assert (forall x y, 0 <= x -> x <= y -> y < 2 ^ 64 -> u64 (y - x) = y - x) as Hu by (intros; apply u64_small; unfold is_u64; lia).
  rewrite !Forall_cons in Hr. repeat match goal with H : StronglySorted _ (_ :: _) |- _ => apply StronglySorted_inv in H as [? ?] end.
  rewrite !Forall_cons in *. destruct m. cbn in H. unfold stamped in H. cbn in H. rewrite !Hu in H by lia. injection H as <- <- <- <- <- <- <- <-.
  split; [lia|]. split; [lia|]. repeat constructor; lia.
Qed.

(** A clock that is set back between two stamps is reported as a latency of centuries. *)
Example clock_set_back :
  ("request_call_stay_in_queue_latency_in_ms", 2 ^ 64 - 1) ∈ reportMetrics (stamped [1000; 999; 1001; 1002; 1003; 1004; 1005; 1006] (mkMetrics 0 0 0 0 0 0 0 0)).
Proof. vm_compute. left. Qed.

(** ** Sizes *)

(** The loop of [getLabelValueFunc]. *)
Fixpoint label_loop (i : nat) (factor ceil value : Z) : option Z :=
  match i with
  | O => None
  | S i => let ceil := u64 (ceil * factor) in if bool_decide (value <= ceil) then Some ceil else label_loop i factor ceil value
  end.

Definition BUCKET_SIZE : nat := 10.
Definition KEY_FACTOR : Z := 2.
Definition VALUE_FACTOR : Z := 10.

Definition getLabelValue (factor value : Z) : string :=
  match label_loop BUCKET_SIZE factor 1 value with Some ceil => to_string ceil | None => "infinite" end.

(** [reportWriteMetrics]: the counters that are increased, with their labels. *)
Definition reportWriteMetrics (key value : string) : list (string * string) :=
  [("write_key_size", getLabelValue KEY_FACTOR (Z.of_nat (String.length key)));
   ("write_value_size", getLabelValue VALUE_FACTOR (Z.of_nat (String.length value)))].

Lemma label_loop_spec factor value : 2 <= factor <= 10 -> forall i k, (i + k)%nat = BUCKET_SIZE -> (k = O \/ factor ^ Z.of_nat k < value) ->
  match label_loop i factor (factor ^ Z.of_nat k) value with
  | Some ceil => exists j, (k < j <= BUCKET_SIZE)%nat /\ ceil = factor ^ Z.of_nat j /\ value <= ceil /\ (j = 1%nat \/ factor ^ Z.of_nat (j - 1) < value)
  | None => factor ^ Z.of_nat BUCKET_SIZE < value \/ BUCKET_SIZE = k
  end.
Proof.
  intros Hf i. induction i as [|i IH]; intros k Hik Hk; [right; lia|]. cbn [label_loop].
  assert (u64 (factor ^ Z.of_nat k * factor) = factor ^ Z.of_nat (S k)) as ->.
  { rewrite Nat2Z.inj_succ, Z.pow_succ_r, Z.mul_comm by lia. apply u64_small. unfold is_u64. rewrite <- Z.pow_succ_r by lia. split; [apply Z.pow_nonneg; lia|].
    eapply Z.le_lt_trans; [apply (Z.pow_le_mono_l _ 10); lia|]. eapply Z.le_lt_trans; [apply (Z.pow_le_mono_r 10 _ 10); unfold BUCKET_SIZE in *; lia|]. done. }
  case_bool_decide as Hv.
  - exists (S k). split; [lia|]. split; [done|]. split; [done|]. destruct Hk as [->|Hk]; [by left|right]. by replace (S k - 1)%nat with k by lia.
  - specialize (IH (S k) ltac:(lia) (or_intror (proj1 (Z.nle_gt _ _) Hv))). destruct (label_loop i factor (factor ^ Z.of_nat (S k)) value) as [ceil|].
    + destruct IH as (j & Hj & H). exists j. split; [lia|exact H].
    + destruct IH as [H|H]; [by left|]. left. rewrite H. by apply Z.nle_gt.
Qed.

(** The label of a size is the least power of the factor, from the first to the tenth, that is not below it, and [infinite] if there is none. *)
Theorem label_is_the_ceiling factor value : 2 <= factor <= 10 ->
  (exists j, (1 <= j <= BUCKET_SIZE)%nat /\ getLabelValue factor value = to_string (factor ^ Z.of_nat j) /\ value <= factor ^ Z.of_nat j /\
     (j = 1%nat \/ factor ^ Z.of_nat (j - 1) < value)) \/
  getLabelValue factor value = "infinite" /\ factor ^ Z.of_nat BUCKET_SIZE < value.
Proof.
  intros Hf. unfold getLabelValue. pose proof (label_loop_spec factor value Hf BUCKET_SIZE 0 eq_refl (or_introl eq_refl)) as H. cbn [Z.of_nat] in H.
  rewrite Z.pow_0_r in H. destruct (label_loop BUCKET_SIZE factor 1 value) as [ceil|].
  - destruct H as (j & Hj & -> & H1 & H2). left. exists j. split; [lia|]. done.
  - right. split; [done|]. destruct H as [H|H]; [done|discriminate H].
Qed.
