(* ===== verification/KVPutCommand.v ===== *)
(** * Put

    [model::KVPutCommand] and its context (kv-engine/model/KVPutCommand.h/.cpp). *)

From S2P Require Import Prelude Status Proto KVStore SharedMutex Lockable Event Command.

Definition set_put_header (f : ResponseHeader -> ResponseHeader) (r : PutResponse) : PutResponse :=
  mkPutResponse (f (pp_header r)) (pp_result r).

(** [KVPutCommandContext::initSuccessResponse] *)
Definition initSuccessResponse (curMaxVersion : VersionType) (events : EventList) (resp : PutResponse)
    : option PutResponse :=
  '(result, latestVersion) ←
    match events with
    | [] => Some (mkWriteResult RC_OK (wr_version (pp_result resp)), curMaxVersion)
    | [EvWrite w] => Some (mkWriteResult RC_OK (w_version w), Z.max (w_version w) curMaxVersion)
    | _ => None
    end;
  Some (mkPutResponse (set_h_code RC_OK (set_h_latestVersion latestVersion (pp_header resp))) result).

(** [KVPutCommandContext::fillResponseAndReply] *)
Definition fillResponseAndReply {IPS : NodeIps} (code : ResponseCode) (message : string)
    (leaderId : option Z) (resp : PutResponse) : option PutResponse :=
  h ← fill_header (Some RC_WRONG_ROUTE) code message leaderId (pp_header resp);
  Some (mkPutResponse h
    (if bool_decide (code = RC_OK) then pp_result resp
     else mkWriteResult code (wr_version (pp_result resp)))).

Section KVPutCommand.
Context {S : Type} `{!KVStore S} {IPS : NodeIps}.

Definition getTargetKeys (req : PutRequest) : list KeyType := [we_key (pq_entry req)].

Definition prepare (req : PutRequest) : M S Status.t := kvLock (getTargetKeys req) true.

(** The ttl a put takes when it enables ttl and names none: the ttl of the value
    it overwrites if that has one and is not expired, else none. *)
Definition resolve_ttl (key : KeyType) : M S (sum Status.t (bool * TTLType)) :=
  let* (s, meta) := kvReadMeta key empty_meta in
  if Status.isOK s then
    if bool_decide (m_ttl meta <> INFINITE_TTL) then
      let* now := secondsSinceEpoch in
      if bool_decide (now < m_deadline meta) then ret (inr (true, m_ttl meta))
      else ret (inr (false, INFINITE_TTL))
    else ret (inr (false, INFINITE_TTL))
  else if Status.isNotFound s then ret (inr (false, INFINITE_TTL))
  else ret (inl s).

Definition execute (req : PutRequest) : M S (Status.t * EventList) :=
  let key := we_key (pq_entry req) in
  let value := we_value (pq_entry req) in
  let enableTTL := we_enableTTL (pq_entry req) in
  let ttl := if enableTTL then we_ttl (pq_entry req) else INFINITE_TTL in
  let udfMeta := we_udfMeta (pq_entry req) in
  let* r := if (enableTTL && bool_decide (ttl = INFINITE_TTL))%bool
            then resolve_ttl key
            else ret (inr (enableTTL, ttl)) in
  match r with
  | inl s => ret (s, [])
  | inr (enableTTL, ttl) =>
      let* deadline := if (enableTTL : bool)
                       then let* now := secondsSinceEpoch in ret (u32 (ttl + now))
                       else ret NEVER_EXPIRE in
      let* updateTime := secondsSinceEpoch in
      ret (Status.ok, [newWriteEvent key value enableTTL ttl deadline updateTime udfMeta false])
  end.

Definition finish (req : PutRequest) (events : EventList) : M S Status.t :=
  finish_events (getTargetKeys req) true events.

Definition command (req : PutRequest) : Command S :=
  mkCommand (getTargetKeys req) (pq_header req) false false
    (prepared (prepare req)) (plain (execute req)) (finish req)
    (PutResp (mkPutResponse empty_header empty_write_result))
    (fun v es r => match r with
                   | PutResp r => PutResp <$> initSuccessResponse v es r
                   | _ => None
                   end)
    (fun c m l r => match r with
                    | PutResp r => PutResp <$> fillResponseAndReply c m l r
                    | _ => None
                    end).

(** ** What a put does *)

(** A put that names its ttl, or wants none, does not look at the store. *)
Lemma execute_explicit req c s :
  let e := pq_entry req in
  (we_enableTTL e = true -> we_ttl e <> INFINITE_TTL) ->
  exists c' deadline updateTime,
    execute req c s = Done (Status.ok,
      [newWriteEvent (we_key e) (we_value e) (we_enableTTL e)
         (if we_enableTTL e then we_ttl e else INFINITE_TTL) deadline updateTime
         (we_udfMeta e) false]) c' s /\
    deadline = (if we_enableTTL e then u32 (we_ttl e + u32 (c O)) else NEVER_EXPIRE).
Proof.
  intros e He. unfold execute. subst e. destruct (we_enableTTL (pq_entry req)) eqn:En; cbn [andb].
  - rewrite bool_decide_eq_false_2 by auto. run. eauto 6.
  - run. eauto 6.
Qed.

End KVPutCommand.

Section Laws.
Context {S K : Type} `{!KVStore S} `{!EqDecision K} `{!Lockable S K} {IPS : NodeIps}.

Lemma put_execute_keeps_locks req : keeps_locks lock_view (execute req : M S (Status.t * EventList)).
Proof.
  unfold execute, resolve_ttl. keeps.
Qed.

Definition laws req : CommandLaws (command req).
Proof.
  refine {| lock_keys := getTargetKeys req; lock_excl := true |}.
  - apply prepared_locks.
  - intros r. apply plain_keeps, put_execute_keeps_locks.
  - intros es c s x c' s'. apply finish_events_unlocks.
Defined.

End Laws.
