(* ===== verification/KVGetCommand.v ===== *)
(** * Get

    [model::KVGetCommand] and its context (kv-engine/model/KVGetCommand.h/.cpp). *)

From S2P Require Import Prelude Status Proto KVStore SharedMutex Lockable Event Command.

(** [KVGetCommandContext::initSuccessResponse] *)
Definition initSuccessResponse (req : GetRequest) (curMaxVersion : VersionType) (events : EventList)
    (resp : GetResponse) : option GetResponse :=
  let r0 := gp_result resp in
  '(result, latestVersion) ←
    match events with
    | [] => Some (mkReadResult RC_OK (rr_version r0) (rr_value r0) (rr_updateTime r0) (rr_udfMeta r0),
                  curMaxVersion)
    | [EvRead r] =>
        let result :=
          if r_isNotFound r then
            mkReadResult RC_KEY_NOT_EXIST kInvalidVersion (r_value r) (rr_updateTime r0) (rr_udfMeta r0)
          else if gq_isMetaReturned req then
            mkReadResult RC_OK (r_version r) (r_value r) (r_updateTime r)
                         (append_udf (r_udfMeta r) (rr_udfMeta r0))
          else mkReadResult RC_OK (r_version r) (r_value r) (rr_updateTime r0) (rr_udfMeta r0) in
        Some (result, Z.max curMaxVersion (r_version r))
    | _ => None
    end;
  Some (mkGetResponse (set_h_latestVersion latestVersion (set_h_code RC_OK (gp_header resp))) result).

Definition set_rr_code (c : ResponseCode) (r : ReadResult) : ReadResult :=
  mkReadResult c (rr_version r) (rr_value r) (rr_updateTime r) (rr_udfMeta r).

(** [KVGetCommandContext::fillResponseAndReply] *)
Definition fillResponseAndReply {IPS : NodeIps} (code : ResponseCode) (message : string)
    (leaderId : option Z) (resp : GetResponse) : option GetResponse :=
  h ← fill_header (Some RC_WRONG_ROUTE) code message leaderId (gp_header resp);
  Some (mkGetResponse h
    (if bool_decide (code = RC_OK) then gp_result resp else set_rr_code code (gp_result resp))).

Section KVGetCommand.
Context {S : Type} `{!KVStore S} {IPS : NodeIps}.

Definition getTargetKeys (req : GetRequest) : list KeyType := [re_key (gq_entry req)].

Definition isFollowerReadCmd (req : GetRequest) : bool := gq_allowStale req.

Definition prepare (req : GetRequest) : M S Status.t := kvLock (getTargetKeys req) false.

Definition execute (req : GetRequest) : M S (Status.t * EventList) :=
  let key := re_key (gq_entry req) in
  let* (s, out) := if isFollowerReadCmd req then kvReadKVFromProxy key fresh_out
                   else kvReadKV key fresh_out in
  let value := outValue out in
  let ttl := outTTL out in
  let version := outVersion out in
  if Status.isNotFound s then ret (s, [newReadEvent key value ttl version true])
  else if Status.isOK s then
    if gq_isMetaReturned req then
      let* (m_s, meta) := if isFollowerReadCmd req then kvReadMetaFromProxy key empty_meta
                          else kvReadMeta key empty_meta in
      match Status.isNotFound m_s, m_udfMeta meta with
      | false, Some udfMeta =>
          ret (s, [newReadEventWithMeta key value ttl version false (m_updateTime meta) udfMeta])
      | _, _ => ret (s, [newReadEvent key value ttl version false])
      end
    else ret (s, [newReadEvent key value ttl version false])
  else ret (s, []).

Definition finish (req : GetRequest) (events : EventList) : M S Status.t :=
  finish_events (getTargetKeys req) false events.

Definition command (req : GetRequest) : Command S :=
  mkCommand (getTargetKeys req) (gq_header req) false (isFollowerReadCmd req)
    (prepared (prepare req)) (plain (execute req)) (finish req)
    (GetResp (mkGetResponse empty_header empty_read_result))
    (fun v es r => match r with
                   | GetResp r => GetResp <$> initSuccessResponse req v es r
                   | _ => None
                   end)
    (fun c m l r => match r with
                    | GetResp r => GetResp <$> fillResponseAndReply c m l r
                    | _ => None
                    end).

End KVGetCommand.

Section Laws.
Context {S K : Type} `{!KVStore S} `{!EqDecision K} `{!Lockable S K} {IPS : NodeIps}.

Lemma get_execute_keeps_locks req : keeps_locks lock_view (execute req : M S (Status.t * EventList)).
Proof. unfold execute. keeps. Qed.

Definition laws req : CommandLaws (command req).
Proof.
  refine {| lock_keys := getTargetKeys req; lock_excl := false |}.
  - apply prepared_locks.
  - intros r. apply plain_keeps, get_execute_keeps_locks.
  - intros es c s x c' s'. apply finish_events_unlocks.
Defined.

End Laws.
