(* ===== verification/KVDeleteCommand.v ===== *)
(** * Delete

    [model::KVDeleteCommand] and its context
    (kv-engine/model/KVDeleteCommand.h/.cpp). *)

From S2P Require Import Prelude Status Proto KVStore SharedMutex Lockable Event Command.

(** [KVDeleteCommandContext::initSuccessResponse] *)
Definition initSuccessResponse (curMaxVersion : VersionType) (events : EventList)
    (resp : DeleteResponse) : option DeleteResponse :=
  let r0 := dp_result resp in
  '(result, latestVersion) ←
    match events with
    | [] => Some (mkRemoveResult RC_OK (dr_version r0) (dr_value r0), curMaxVersion)
    | [EvDelete d] =>
        Some (mkRemoveResult RC_OK (d_deletedVersion d) (d_deletedValue d),
              Z.max (d_version d) curMaxVersion)
    | [EvRead r] =>
        if r_isNotFound r
        then Some (mkRemoveResult RC_KEY_NOT_EXIST kInvalidVersion (dr_value r0), curMaxVersion)
        else None
    | _ => None
    end;
  Some (mkDeleteResponse (set_h_latestVersion latestVersion (set_h_code RC_OK (dp_header resp))) result).

(** [KVDeleteCommandContext::fillResponseAndReply]: the route hint is filled for
    [MIGRATED_ROUTE], where the other contexts fill it for [WRONG_ROUTE]. *)
Definition fillResponseAndReply {IPS : NodeIps} (code : ResponseCode) (message : string)
    (leaderId : option Z) (resp : DeleteResponse) : option DeleteResponse :=
  h ← fill_header (Some RC_MIGRATED_ROUTE) code message leaderId (dp_header resp);
  Some (mkDeleteResponse h
    (if bool_decide (code = RC_OK) then dp_result resp
     else mkRemoveResult code (dr_version (dp_result resp)) (dr_value (dp_result resp)))).

Section KVDeleteCommand.
Context {S : Type} `{!KVStore S} {IPS : NodeIps}.

Definition getTargetKeys (req : DeleteRequest) : list KeyType := [de_key (dq_entry req)].

Definition prepare (req : DeleteRequest) : M S Status.t := kvLock (getTargetKeys req) true.

Definition execute (req : DeleteRequest) : M S (Status.t * EventList) :=
  let returnValue := dq_returnValue req in
  let key := de_key (dq_entry req) in
  let targetVersion := de_version (dq_entry req) in
  let* (s, out) := kvReadKV key fresh_out in
  let deletedVersion := outVersion out in
  if Status.isNotFound s then
    ret (s, [newReadEvent key (outValue out) (outTTL out) deletedVersion true])
  else if Status.isOK s then
    if bool_decide (targetVersion <> kInvalidVersion /\ targetVersion <> deletedVersion) then
      ret (s, [newReadEvent key (outValue out) (outTTL out) deletedVersion true])
    else
      ret (s, [newDeleteEvent key (if returnValue then outValue out else "") deletedVersion])
  else ret (s, []).

Definition finish (req : DeleteRequest) (events : EventList) : M S Status.t :=
  finish_events (getTargetKeys req) true events.

Definition command (req : DeleteRequest) : Command S :=
  mkCommand (getTargetKeys req) (dq_header req) false false
    (prepared (prepare req)) (plain (execute req)) (finish req)
    (DeleteResp (mkDeleteResponse empty_header empty_remove_result))
    (fun v es r => match r with
                   | DeleteResp r => DeleteResp <$> initSuccessResponse v es r
                   | _ => None
                   end)
    (fun c m l r => match r with
                    | DeleteResp r => DeleteResp <$> fillResponseAndReply c m l r
                    | _ => None
                    end).

End KVDeleteCommand.

Section Laws.
Context {S K : Type} `{!KVStore S} `{!EqDecision K} `{!Lockable S K} {IPS : NodeIps}.

Lemma delete_execute_keeps_locks req : keeps_locks lock_view (execute req : M S (Status.t * EventList)).
Proof. unfold execute. keeps. Qed.

Definition laws req : CommandLaws (command req).
Proof.
  refine {| lock_keys := getTargetKeys req; lock_excl := true |}.
  - apply prepared_locks.
  - intros r. apply plain_keeps, delete_execute_keeps_locks.
  - intros es c s x c' s'. apply finish_events_unlocks.
Defined.

End Laws.
