(* ===== verification/KVImportCommand.v ===== *)
(** * Import, evict, connect

    [model::KVImportCommand] (shard migration), [model::KVEvictCommand] (cache
    eviction) and [model::ConnectCommand]
    (kv-engine/model/KVImportCommand.cpp, KVEvictCommand.cpp, ConnectCommand.cpp). *)

From S2P Require Import Prelude Status Proto KVStore SharedMutex Lockable Event Command.
From S2P Require Import KVPutCommand.

Module Import_.
Section KVImportCommand.
Context {S : Type} `{!KVStore S} {IPS : NodeIps}.

Definition prepare (req : PutRequest) : M S Status.t :=
  kvLock (KVPutCommand.getTargetKeys req) true.

(** The ttl is resolved as [KVPutCommand::execute] does; the event carries the
    version the entry had on the cluster it comes from. *)
Definition execute (req : PutRequest) : M S (Status.t * EventList) :=
  let key := we_key (pq_entry req) in
  let value := we_value (pq_entry req) in
  let importedVersion := we_version (pq_entry req) in
  let enableTTL := we_enableTTL (pq_entry req) in
  let ttl := if enableTTL then we_ttl (pq_entry req) else INFINITE_TTL in
  let* r := if (enableTTL && bool_decide (ttl = INFINITE_TTL))%bool
            then resolve_ttl key
            else ret (inr (enableTTL, ttl)) in
  match r with
  | inl s => ret (s, [])
  | inr (enableTTL, ttl) =>
      let* deadline := if (enableTTL : bool)
                       then let* now := secondsSinceEpoch in ret (u32 (ttl + now))
                       else ret NEVER_EXPIRE in
      ret (Status.ok, [newImportEvent importedVersion key value enableTTL ttl deadline])
  end.

Definition finish (req : PutRequest) (events : EventList) : M S Status.t :=
  finish_events (KVPutCommand.getTargetKeys req) true events.

(** The context is a [KVPutCommandContext]. *)
Definition command (req : PutRequest) : Command S :=
  mkCommand (KVPutCommand.getTargetKeys req) (pq_header req) false false
    (prepared (prepare req)) (plain (execute req)) (finish req)
    (PutResp (mkPutResponse empty_header empty_write_result))
    (Command.initSuccessResponse (KVPutCommand.command (S := S) req))
    (Command.fillResponseAndReply (KVPutCommand.command (S := S) req)).

End KVImportCommand.
End Import_.

Module Evict.
Section KVEvictCommand.
Context {S : Type} `{!KVStore S}.

Definition prepare (mEvictKeys : list KeyType) : M S Status.t := kvLock mEvictKeys true.

Definition execute : M S (Status.t * EventList) := ret (Status.ok, []).

Definition finish (mEvictKeys : list KeyType) (mEvictVersion : VersionType) (events : EventList)
    : M S Status.t :=
  kvEvictKV mEvictKeys mEvictVersion ;;;
  let* u := kvUnlock mEvictKeys true in
  assert_ (Status.isOK u) ;;;
  ret Status.ok.

(** The context is the default [CommandContext]: no response, no callback. *)
Definition command (mEvictKeys : list KeyType) (mEvictVersion : VersionType) : Command S :=
  mkCommand [] (mkReqHeader 0 0) true false
    (prepared (prepare mEvictKeys)) (plain execute) (finish mEvictKeys mEvictVersion)
    NoResp (fun _ _ r => Some r) (fun _ _ _ r => Some r).

End KVEvictCommand.
End Evict.

Module Connect.

Definition initSuccessResponse (curMaxVersion : VersionType) (events : EventList) (h : ResponseHeader)
    : option ResponseHeader :=
  match events with
  | [] => Some (set_h_latestVersion curMaxVersion (set_h_code RC_OK h))
  | _ => None
  end.

(** [header] is the request's header. *)
Definition command {S} {IPS : NodeIps} (header : RequestHeader) : Command S :=
  mkCommand [] header false false
    (prepared (ret Status.ok)) (plain (ret (Status.ok, []))) (fun _ => ret Status.ok)
    (ConnectResp empty_header)
    (fun v es r => match r with
                   | ConnectResp h => ConnectResp <$> initSuccessResponse v es h
                   | _ => None
                   end)
    (fun c m l r => match r with
                    | ConnectResp h => ConnectResp <$> fill_header None c m l h
                    | _ => None
                    end).

End Connect.

Section Laws.
Context {S K : Type} `{!KVStore S} `{!EqDecision K} `{!Lockable S K} {IPS : NodeIps}.

Lemma import_keeps_locks req :
  keeps_locks lock_view (Import_.execute req : M S (Status.t * EventList)).
Proof. unfold Import_.execute, resolve_ttl. keeps. Qed.

Definition import_laws req : CommandLaws (Import_.command req).
Proof.
  refine {| lock_keys := KVPutCommand.getTargetKeys req; lock_excl := true |}.
  - apply prepared_locks.
  - intros r. apply plain_keeps, import_keeps_locks.
  - intros es c s x c' s'. apply finish_events_unlocks.
Defined.

Definition evict_laws keys version : CommandLaws (Evict.command keys version).
Proof.
  refine {| lock_keys := keys; lock_excl := true |}.
  - apply prepared_locks.
  - intros r. apply plain_keeps, keeps_ret.
  - intros es c s x c' s' H. cbn in H. unfold Evict.finish in H.
    apply bind_inv in H as (st & c1 & s1 & Hev & H).
    apply bind_inv in H as (u & c2 & s2 & Hun & H).
    apply bind_inv in H as ([] & c3 & s3 & Has & H). run_in H. simplify_eq.
    exists u, c1, s1. split.
    + apply (kvEvictKV_keeps keys version (lock_view s) c s st c1 s1); done.
    + unfold assert_ in Has. destruct (Status.isOK u); [|discriminate]. run_in Has. by simplify_eq.
Defined.

End Laws.
