(* ===== verification/KVTransCommand.v ===== *)
(** * Transactions

    [model::KVTransCommand] and its context
    (kv-engine/model/KVTransCommand.h/.cpp): preconditions, then the entries in
    order, each reading what the earlier ones wrote through a [TemporalKVStore]. *)

From S2P Require Import Prelude Status Proto KVStore SharedMutex Lockable Event Command.
From S2P Require Import ProxyKVStore InMemoryKVStore TemporalKVStore KVPutCommand.

(** ** The context *)

(** One result of [initSuccessResponse]: the new result, the versions of the
    keys written so far and the latest version. *)
Definition entry_result (isMetaReturned : bool) (entry : ReadWriteEntry) (e : Event)
    (newKey2version : gmap string Z) (latestVersion : VersionType)
    : option (ReadWriteResult * gmap string Z * VersionType) :=
  match entry, e with
  | RWWrite _, EvWrite w =>
      Some (WriteRes (mkWriteResult RC_OK (w_version w)),
            <[w_key w := w_version w]> newKey2version,
            Z.max (w_version w) latestVersion)
  | RWRead _, EvRead r =>
      let valueVersion := default (r_version r) (newKey2version !! r_key r) in
      let result :=
        if r_isNotFound r then
          mkReadResult RC_KEY_NOT_EXIST kInvalidVersion (r_value r) 0 None
        else if isMetaReturned then
          mkReadResult RC_OK valueVersion (r_value r) (r_updateTime r) (append_udf (r_udfMeta r) None)
        else mkReadResult RC_OK valueVersion (r_value r) 0 None in
      Some (ReadRes result, newKey2version, Z.max valueVersion latestVersion)
  | RWRemove _, EvRead r =>
      if r_isNotFound r then
        Some (RemoveRes (mkRemoveResult RC_KEY_NOT_EXIST kInvalidVersion ""), newKey2version,
              Z.max (r_version r) latestVersion)
      else None
  | RWRemove _, EvDelete d =>
      Some (RemoveRes (mkRemoveResult RC_OK (d_deletedVersion d) (d_deletedValue d)), newKey2version,
            Z.max (d_version d) latestVersion)
  | _, _ => None
  end.

Fixpoint entry_results (isMetaReturned : bool) (entries : list ReadWriteEntry) (events : EventList)
    (newKey2version : gmap string Z) (latestVersion : VersionType)
    : option (list ReadWriteResult * VersionType) :=
  match entries, events with
  | [], [] => Some ([], latestVersion)
  | entry :: entries, e :: events =>
      '(r, k2v, lv) ← entry_result isMetaReturned entry e newKey2version latestVersion;
      '(rs, lv) ← entry_results isMetaReturned entries events k2v lv;
      Some (r :: rs, lv)
  | _, _ => None
  end.

(** [KVTransCommandContext::initSuccessResponse] *)
Definition initSuccessResponse (req : TransRequest) (curMaxVersion : VersionType) (events : EventList)
    (resp : TransResponse) (ignoredPutKeys : list KeyType) : option TransResponse :=
  '(results, latestVersion) ←
    match events with
    | [] => Some ([], curMaxVersion)
    | _ => entry_results (tq_isMetaReturned req) (tq_entries req) events ∅ curMaxVersion
    end;
  Some (mkTransResponse
          (set_h_latestVersion latestVersion (set_h_code RC_OK (tp_header resp)))
          (tp_results resp ++ results)
          (tp_ignoredPutKeys resp ++ ignoredPutKeys)).

Definition set_result_code (code : ResponseCode) (r : ReadWriteResult) : option ReadWriteResult :=
  match r with
  | WriteRes w => Some (WriteRes (mkWriteResult code (wr_version w)))
  | ReadRes r => Some (ReadRes (mkReadResult code (rr_version r) (rr_value r) (rr_updateTime r) (rr_udfMeta r)))
  | RemoveRes d => Some (RemoveRes (mkRemoveResult code (dr_version d) (dr_value d)))
  | UnsetRes => None
  end.

(** [KVTransCommandContext::fillResponseAndReply] *)
Definition fillResponseAndReply {IPS : NodeIps} (code : ResponseCode) (message : string)
    (leaderId : option Z) (resp : TransResponse) : option TransResponse :=
  h ← fill_header (Some RC_WRONG_ROUTE) code message leaderId (tp_header resp);
  results ← (if bool_decide (code = RC_OK) then Some (tp_results resp)
             else mapM (set_result_code code) (tp_results resp));
  Some (mkTransResponse h results (tp_ignoredPutKeys resp)).

(** [isFollowerReadCmd]: stale reads are allowed and every entry is a read. *)
Definition isFollowerReadCmd (req : TransRequest) : bool :=
  tq_allowStale req &&
  forallb (fun e => match e with RWRead _ => true | _ => false end) (tq_entries req).

Definition cond_keys (cond : Precondition) : list KeyType :=
  match cond with
  | VersionCond key _ _ => [key]
  | ExistCond key _ => [key]
  | UserMetaCond key _ _ _ _ => [key]
  | CondUnset => []
  end.

Definition entry_key (e : ReadWriteEntry) : option KeyType :=
  match e with
  | RWWrite w => Some (we_key w)
  | RWRead r => Some (re_key r)
  | RWRemove d => Some (de_key d)
  | RWUnset => None
  end.

(** [getTargetKeys]: it asserts on an entry with nothing set. *)
Definition getTargetKeys (req : TransRequest) : option (list KeyType) :=
  entryKeys ← mapM entry_key (tq_entries req);
  Some (set_of_list ((tq_preconds req ≫= cond_keys) ++ entryKeys)).

(** ** Preconditions *)

(** The members [checkPrecond] fills, and its local [udfKeySet]. *)
Record Conds := mkConds {
  ignoredUdfUintKeys : list KeyType;
  udfUintKey2Meta : gmap string UserDefinedMeta;
  udfKeySet : list KeyType;
}.

Definition no_conds : Conds := mkConds [] ∅ [].

Definition add_key (key : KeyType) (l : list KeyType) : list KeyType :=
  if decide (key ∈ l) then l else l ++ [key].

Definition addUdfKey (key : KeyType) (cs : Conds) : Conds :=
  mkConds (ignoredUdfUintKeys cs) (udfUintKey2Meta cs) (add_key key (udfKeySet cs)).
Definition ignoreKey (key : KeyType) (cs : Conds) : Conds :=
  mkConds (add_key key (ignoredUdfUintKeys cs)) (udfUintKey2Meta cs) (udfKeySet cs).
Definition saveMeta (key : KeyType) (udf : UserDefinedMeta) (cs : Conds) : Conds :=
  mkConds (ignoredUdfUintKeys cs) (<[key := udf]> (udfUintKey2Meta cs)) (udfKeySet cs).

(** How an iteration of a [for] loop ends. *)
Inductive Iter (A : Type) :=
| Next (a : A)
| Break (a : A).
Arguments Next {A} a.
Arguments Break {A} a.

Section KVTransCommand.
Context {S : Type} `{!KVStore S} {IPS : NodeIps}.

(** [KVTransCommand::readKV] and [KVTransCommand::readMeta] *)
Definition readKV {T} `{!KVStore T} (isReadFromProxy : bool) (key : KeyType) (out : ReadOut)
    : M T (Status.t * ReadOut) :=
  if isReadFromProxy then kvReadKVFromProxy key out else kvReadKV key out.

Definition readMeta {T} `{!KVStore T} (isReadFromProxy : bool) (key : KeyType) (meta : Meta)
    : M T (Status.t * Meta) :=
  if isReadFromProxy then kvReadMetaFromProxy key meta else kvReadMeta key meta.

Definition checkVersionCond (proxy : bool) (key : KeyType) (expectedVersion : VersionType)
    (op : CompareOp) : M S (Iter Status.t) :=
  let* (s, out) := readKV proxy key fresh_out in
  if Status.isOK s then
    if bool_decide (op = EQUAL) then
      if bool_decide (expectedVersion <> outVersion out) then
        ret (Break (Status.precondUnmatched
          ("unmatched version, existing: " +:+ to_string (outVersion out) +:+ ", expected: " +:+
           to_string expectedVersion)))
      else ret (Next s)
    else ret (Break (Status.notSupported ""))
  else ret (Break (Status.precondUnmatched (Status.getDetail s))).

Definition checkExistCond (proxy : bool) (key : KeyType) (shouldExist : bool) : M S (Iter Status.t) :=
  let* (s, _) := readKV proxy key fresh_out in
  if (shouldExist && Status.isOK s)%bool then ret (Next Status.ok)
  else if (negb shouldExist && Status.isNotFound s)%bool then ret (Next Status.ok)
  else ret (Break (Status.precondUnmatched
    ("shouldExist: " +:+ (if shouldExist then "1" else "0") +:+ ", query result: " +:+
     Status.getDetail s))).

(** The comparison of a [NUM] condition once the stored meta is known. When the
    stored [uintField] is empty, a position inside the provided one lets the code
    go on to index the empty field. *)
Definition checkNumCond (key : KeyType) (stored provided : UserDefinedMeta) (cmp_pos : Z)
    (op : CompareOp) (s : Status.t) (cs : Conds) : M S (Iter (Status.t * Conds)) :=
  let pos := Z.to_nat cmp_pos in
  let outside (l : list Z) := bool_decide (Z.of_nat (length l) <= cmp_pos) in
  let go_on (s : Status.t) : M S (Iter (Status.t * Conds)) :=
    match uintfield stored !! pos, uintfield provided !! pos with
    | Some expected, Some given =>
        if bool_decide (op = GREATER) then
          if bool_decide (given <= expected) then ret (Next (s, ignoreKey key cs))
          else ret (Next (s, saveMeta key provided cs))
        else ret (Break (Status.notSupported "", cs))
    | _, _ => stop Undefined
    end in
  match uintfield stored with
  | [] => if outside (uintfield provided) then ret (Break (Status.error "out of index error", cs))
          else go_on Status.ok
  | _ => if (outside (uintfield stored) || outside (uintfield provided))%bool
         then ret (Break (Status.error "out of index error", cs))
         else go_on s
  end.

Definition checkUserMetaCond (proxy : bool) (key : KeyType) (metaType : UdfMetaType)
    (udf : UserDefinedMeta) (pos : Z) (op : CompareOp) (cs : Conds)
    : M S (Iter (Status.t * Conds)) :=
  if bool_decide (key ∈ udfKeySet cs) then ret (Break (Status.notSupported "", cs))
  else
    let cs := addUdfKey key cs in
    let* (s, _) := readKV proxy key fresh_out in
    if Status.isNotFound s then ret (Next (Status.ok, cs))
    else
      let* (s, meta) := readMeta proxy key empty_meta in
      match Status.isNotFound s, m_udfMeta meta with
      | false, Some stored =>
          if bool_decide (metaType = NUM) then checkNumCond key stored udf pos op s cs
          else ret (Break (Status.notSupported "", cs))
      | _, _ => ret (Next (Status.ok, cs))
      end.

Definition with_conds (cs : Conds) (m : M S (Iter Status.t)) : M S (Iter (Status.t * Conds)) :=
  let* r := m in
  match r with
  | Next s => ret (Next (s, cs))
  | Break s => ret (Break (s, cs))
  end.

Definition checkOne (proxy : bool) (cond : Precondition) (cs : Conds) : M S (Iter (Status.t * Conds)) :=
  match cond with
  | VersionCond key version op => with_conds cs (checkVersionCond proxy key version op)
  | ExistCond key shouldExist => with_conds cs (checkExistCond proxy key shouldExist)
  | UserMetaCond key metaType udf pos op => checkUserMetaCond proxy key metaType udf pos op cs
  | CondUnset => ret (Break (Status.notSupported "", cs))
  end.

(** [checkPrecond] *)
Fixpoint checkPrecond (proxy : bool) (conds : list Precondition) (s : Status.t) (cs : Conds)
    : M S (Status.t * Conds) :=
  match conds with
  | [] => ret (s, cs)
  | cond :: conds =>
      let* r := checkOne proxy cond cs in
      match r with
      | Next (s, cs) => checkPrecond proxy conds s cs
      | Break (s, cs) => ret (s, cs)
      end
  end.

(** ** Entries *)

(** A method of [tempStore], whose delegate is a read-only view of the store. *)
Definition in_temp {A} (o : Overlay) (m : M (TemporalKVStore (ReadOnlyKVStore S)) A) : M S (A * Overlay) :=
  fun c s =>
    match m c (mkTemporal o (wrap s)) with
    | Done a c' t => Done (a, overlay t) c' (behind (tDelegate t))
    | Stop f => Stop f
    end.

(** A method of a copy of [tempStore]: what it does to its own overlay is lost. *)
Definition in_temp_copy {A} (o : Overlay) (m : M (TemporalKVStore (ReadOnlyKVStore S)) A) : M S A :=
  let* (a, _) := in_temp o m in ret a.

(** [std::equal(first1, last1, first2)]: the second range is read as far as the
    first goes, past its end if it is shorter. *)
Fixpoint std_equal {A} `{!EqDecision A} (l1 l2 : list A) : option bool :=
  match l1, l2 with
  | [], _ => Some true
  | x :: l1, y :: l2 => if decide (x = y) then std_equal l1 l2 else Some false
  | _ :: _, [] => None
  end.

(** The comparison of an entry's user-defined meta with the one its condition
    named. *)
Definition udf_identical (udf condUdf : UserDefinedMeta) : M S bool :=
  match std_equal (uintfield udf) (uintfield condUdf), std_equal (strfield udf) (strfield condUdf) with
  | Some u, Some t => ret (u && t)%bool
  | _, _ => stop Undefined
  end.

(** The loop's variables: the status, the temporal store and the events. *)
Definition Loop : Type := Status.t * Overlay * EventList.

Definition execWrite (curTime : TimeType) (cs : Conds) (w : WriteEntry) (st : Loop) : M S (Iter Loop) :=
  let '(s, o, events) := st in
  let key := we_key w in
  let value := we_value w in
  let enableTTL := we_enableTTL w in
  let ttl := if enableTTL then we_ttl w else INFINITE_TTL in
  let udfMeta := we_udfMeta w in
  if bool_decide (key ∈ ignoredUdfUintKeys cs) then
    ret (Next (s, o, events ++ [newWriteEvent key value enableTTL ttl NEVER_EXPIRE NOT_UPDATED
                                  DEFAULT_UDFMETA true]))
  else
    let* r := if (enableTTL && bool_decide (ttl = INFINITE_TTL))%bool
              then resolve_ttl key else ret (inr (enableTTL, ttl)) in
    match r with
    | inl s => ret (Break (s, o, events))
    | inr (enableTTL, ttl) =>
        let* identical := match udfUintKey2Meta cs !! key with
                          | Some condUdfMeta => udf_identical udfMeta condUdfMeta
                          | None => ret true
                          end in
        if (identical : bool) then
          let deadline := if (enableTTL : bool) then u32 (ttl + curTime) else NEVER_EXPIRE in
          let* updateTime := secondsSinceEpoch in
          let* (s, o) := in_temp o
            (if (enableTTL : bool)
             then kvWriteTTLKV key value kInvalidVersion ttl deadline updateTime udfMeta
             else kvWriteKV key value kInvalidVersion updateTime udfMeta) in
          ret (Next (s, o, events ++ [newWriteEvent key value enableTTL ttl deadline updateTime
                                        udfMeta false]))
        else ret (Break (Status.error "udfmeta not identical", o, events))
    end.

Definition execRead (proxy isMetaReturned : bool) (r : ReadEntry) (st : Loop) : M S (Iter Loop) :=
  let '(_, o, events) := st in
  let key := re_key r in
  let* (s, out) := in_temp_copy o (readKV proxy key fresh_out) in
  let value := outValue out in
  let ttl := outTTL out in
  let version := outVersion out in
  if Status.isNotFound s then
    ret (Next (s, o, events ++ [newReadEvent key value ttl version true]))
  else if Status.isOK s then
    if isMetaReturned then
      let* (m_s, meta) := readMeta proxy key empty_meta in
      match Status.isNotFound m_s, m_udfMeta meta with
      | false, Some udfMeta =>
          ret (Next (s, o, events ++ [newReadEventWithMeta key value ttl version false
                                        (m_updateTime meta) udfMeta]))
      | _, _ => ret (Next (s, o, events ++ [newReadEvent key value ttl version false]))
      end
    else ret (Next (s, o, events ++ [newReadEvent key value ttl version false]))
  else ret (Break (s, o, events)).

(** A remove looks the key up and records the delete; the temporal store is not
    told. *)
Definition execRemove (d : RemoveEntry) (st : Loop) : M S (Iter Loop) :=
  let '(_, o, events) := st in
  let key := de_key d in
  let targetVersion := de_version d in
  let* (r, o) := in_temp o (kvReadKV key fresh_out) in
  let '(s, out) := r in
  let deletedVersion := outVersion out in
  if Status.isNotFound s then
    ret (Next (s, o, events ++ [newReadEvent key (outValue out) (outTTL out) deletedVersion true]))
  else if Status.isOK s then
    if bool_decide (targetVersion <> kInvalidVersion /\ targetVersion <> deletedVersion) then
      ret (Next (s, o, events ++ [newReadEvent key (outValue out) (outTTL out) deletedVersion true]))
    else ret (Next (s, o, events ++ [newDeleteEvent key (outValue out) deletedVersion]))
  else ret (Next (s, o, events)).

Definition execEntry (proxy isMetaReturned : bool) (curTime : TimeType) (cs : Conds)
    (entry : ReadWriteEntry) (st : Loop) : M S (Iter Loop) :=
  match entry with
  | RWWrite w => execWrite curTime cs w st
  | RWRead r => execRead proxy isMetaReturned r st
  | RWRemove d => execRemove d st
  | RWUnset => let '(_, o, events) := st in
               ret (Break (Status.invalidArg "invalid request", o, events))
  end.

Fixpoint execEntries (proxy isMetaReturned : bool) (curTime : TimeType) (cs : Conds)
    (entries : list ReadWriteEntry) (st : Loop) : M S Loop :=
  match entries with
  | [] => ret st
  | entry :: entries =>
      let* r := execEntry proxy isMetaReturned curTime cs entry st in
      match r with
      | Next st => execEntries proxy isMetaReturned curTime cs entries st
      | Break st => ret st
      end
  end.

Definition execute (req : TransRequest) : M S (Status.t * EventList * list KeyType) :=
  let proxy := isFollowerReadCmd req in
  let* (s, cs) := checkPrecond proxy (tq_preconds req) Status.ok no_conds in
  if Status.isOK s then
    let* curTime := secondsSinceEpoch in
    let* (s, _, events) := execEntries proxy (tq_isMetaReturned req) curTime cs (tq_entries req)
                             (s, empty_overlay, []) in
    ret (s, events, ignoredUdfUintKeys cs)
  else ret (s, [], ignoredUdfUintKeys cs).

Definition prepare (req : TransRequest) : M S Status.t :=
  match getTargetKeys req with
  | None => stop AssertFail
  | Some keys => kvLock keys true
  end.

Definition finish (req : TransRequest) (events : EventList) : M S Status.t :=
  match getTargetKeys req with
  | None => let* s := until_error events apply Status.ok in stop AssertFail
  | Some keys => finish_events keys true events
  end.

Definition command (req : TransRequest) : Command S :=
  mkCommand (default [] (getTargetKeys req)) (tq_header req) false (isFollowerReadCmd req)
    (prepared (prepare req))
    (fun resp => let* (s, es, ignored) := execute req in
                 ret (s, es, match resp with
                             | TransResp r ks => TransResp r (ks ++ ignored)
                             | _ => resp
                             end))
    (finish req)
    (TransResp (mkTransResponse empty_header [] []) [])
    (fun v es r => match r with
                   | TransResp r ks =>
                       (fun r => TransResp r ks) <$> initSuccessResponse req v es r ks
                   | _ => None
                   end)
    (fun c m l r => match r with
                    | TransResp r ks => (fun r => TransResp r ks) <$> fillResponseAndReply c m l r
                    | _ => None
                    end).

End KVTransCommand.
