(* ===== verification/KVGenerateCommand.v ===== *)
(** * Generate

    [model::KVGenerateCommand] and its context
    (kv-engine/model/KVGenerateCommand.h/.cpp): values computed by the server from
    values it holds. The sources are read before the locks are taken; the values
    to write are generated from them; under the locks the sources are read again
    and their versions compared. [TransferCommand]
    (object-store/model/user-define/TransferCommand.cpp) is the subclass the
    repository has. *)

From Stdlib Require Import Ascii.
From S2P Require Import Prelude OrderedMap Status Proto KVStore SharedMutex Lockable Event Command.
From S2P Require Import KVTransCommand.

(** [virtual Status generate(kvsToRead, inputInfo, kvsToWrite, outputInfo) = 0]: the two last are
    filled in place; it may throw. *)
Class GenerateFn := generate :
  OMap string (ValueType * VersionType) -> string -> OMap string ValueType -> string ->
  sum fault (Status.t * OMap string ValueType * string).

(** What the variables [ttl] and [version], declared without a value, hold when
    [readKV] gets their address. *)
Class Uninitialised := uninitialised : TTLType * VersionType.

(** ** The context *)

Definition is_write (e : Event) : bool := match e with EvWrite _ => true | _ => false end.

(** [KVGenerateCommandContext::initSuccessResponse] *)
Definition initSuccessResponse (curMaxVersion : VersionType) (events : EventList) (resp : GenerateResponse)
    (g : Generated) : option GenerateResponse :=
  if forallb is_write events then
    Some (mkGenerateResponse (set_h_latestVersion curMaxVersion (set_h_code RC_OK (np_header resp)))
                             (mkGenerateResult RC_OK (mOutputInfo g)))
  else None.

(** [KVGenerateCommandContext::fillResponseAndReply] *)
Definition fillResponseAndReply {IPS : NodeIps} (code : ResponseCode) (message : string)
    (leaderId : option Z) (resp : GenerateResponse) : option GenerateResponse :=
  h ← fill_header (Some RC_WRONG_ROUTE) code message leaderId (np_header resp);
  Some (mkGenerateResponse h
    (if bool_decide (code = RC_OK) then np_result resp
     else mkGenerateResult code (nr_outputInfo (np_result resp)))).

Definition getTargetKeys (req : GenerateRequest) : list KeyType :=
  set_of_list (nq_srcKeys req ++ nq_tgtKeys req).

Section KVGenerateCommand.
Context {S : Type} `{!KVStore S} {IPS : NodeIps} {GEN : GenerateFn} {UN : Uninitialised}.

Definition unset_out : ReadOut := mkOut "" (fst uninitialised) (snd uninitialised).

(** The loop of [prepare] that reads the sources; [None] is success. *)
Fixpoint readSources (keys : list KeyType) (kvsToRead : OMap string (ValueType * VersionType))
    : M S (option Status.t * OMap string (ValueType * VersionType)) :=
  match keys with
  | [] => ret (None, kvsToRead)
  | key :: keys =>
      let* (s, out) := kvReadKV key unset_out in
      if Status.isOK s then readSources keys (omap_put key (outValue out, outVersion out) kvsToRead)
      else if Status.isNotFound s then ret (Some (Status.invalidArg "the src keys not exist"), kvsToRead)
      else ret (Some s, kvsToRead)
  end.

(** [std::equal(tgtKeySet.begin(), tgtKeySet.end(), keySetToWrite.begin())] *)
Definition sameKeys (req : GenerateRequest) (kvsToWrite : OMap string ValueType) : option bool :=
  std_equal (set_of_list (nq_tgtKeys req)) kvsToWrite.*1.

Definition prepareGenerate (req : GenerateRequest) (g : Generated) : M S (Status.t * Generated) :=
  let* (r, kvsToRead) := readSources (nq_srcKeys req) (mKVsToRead g) in
  match r with
  | Some s => ret (s, mkGenerated kvsToRead (mKVsToWrite g) (mOutputInfo g))
  | None =>
      match generate kvsToRead (nq_inputInfo req) (mKVsToWrite g) (mOutputInfo g) with
      | inl f => stop f
      | inr (s, kvsToWrite, outputInfo) =>
          let g := mkGenerated kvsToRead kvsToWrite outputInfo in
          if Status.isOK s then
            match sameKeys req kvsToWrite with
            | None => stop Undefined
            | Some false => ret (Status.notSupported "generated keys should be same as tgt keys", g)
            | Some true => let* s := kvLock (getTargetKeys req) true in ret (s, g)
            end
          else ret (s, g)
      end
  end.

(** The loop of [execute] that checks the sources; [None] is success. *)
Fixpoint checkSources (kvsToRead : OMap string (ValueType * VersionType)) : M S (option Status.t) :=
  match kvsToRead with
  | [] => ret None
  | (key, (_, expectedVersion)) :: kvsToRead =>
      let* (s, out) := kvReadKV key unset_out in
      if Status.isOK s then
        if bool_decide (expectedVersion <> outVersion out) then
          ret (Some (Status.precondUnmatched
            ("unmatched version, existing: " +:+ to_string (outVersion out) +:+ ", expected: " +:+
             to_string expectedVersion)))
        else checkSources kvsToRead
      else ret (Some s)
  end.

(** The ttl of the value that is overwritten, if it has one and is not expired. *)
Definition oldTTL (key : KeyType) : M S (sum Status.t TTLType) :=
  let* (s, meta) := kvReadMeta key empty_meta in
  if Status.isOK s then
    if bool_decide (m_ttl meta <> INFINITE_TTL) then
      let* now := secondsSinceEpoch in
      if bool_decide (now < m_deadline meta) then ret (inr (m_ttl meta)) else ret (inr INFINITE_TTL)
    else ret (inr INFINITE_TTL)
  else if Status.isNotFound s then ret (inr INFINITE_TTL)
  else ret (inl s).

(** The loop of [execute] that makes the events. *)
Fixpoint writeEvents (kvsToWrite : OMap string ValueType) (events : EventList) : M S (Status.t * EventList) :=
  match kvsToWrite with
  | [] => ret (Status.ok, events)
  | (key, value) :: kvsToWrite =>
      let* r := oldTTL key in
      match r with
      | inl s => ret (s, events)
      | inr ttl =>
          let enableTTL := bool_decide (ttl <> INFINITE_TTL) in
          let* deadline := if enableTTL then let* now := secondsSinceEpoch in ret (u32 (ttl + now))
                           else ret NEVER_EXPIRE in
          writeEvents kvsToWrite
            (events ++ [newWriteEvent key value enableTTL ttl deadline NOT_UPDATED DEFAULT_UDFMETA false])
      end
  end.

Definition execute (g : Generated) : M S (Status.t * EventList) :=
  let* r := checkSources (mKVsToRead g) in
  match r with
  | Some s => ret (s, [])
  | None => writeEvents (mKVsToWrite g) []
  end.

Definition finish (req : GenerateRequest) (events : EventList) : M S Status.t :=
  finish_events (getTargetKeys req) true events.

Definition empty_generated : Generated := mkGenerated [] [] "".

Definition command (req : GenerateRequest) : Command S :=
  mkCommand (getTargetKeys req) (nq_header req) false false
    (fun resp => match resp with
                 | GenerateResp r g => let* (s, g) := prepareGenerate req g in ret (s, GenerateResp r g)
                 | _ => stop AssertFail
                 end)
    (fun resp => match resp with
                 | GenerateResp r g => plain (execute g) resp
                 | _ => stop AssertFail
                 end)
    (finish req)
    (GenerateResp (mkGenerateResponse empty_header (mkGenerateResult RC_UNKNOWN "")) empty_generated)
    (fun v es r => match r with
                   | GenerateResp r g => (fun r => GenerateResp r g) <$> initSuccessResponse v es r g
                   | _ => None
                   end)
    (fun c m l r => match r with
                    | GenerateResp r g => (fun r => GenerateResp r g) <$> fillResponseAndReply c m l r
                    | _ => None
                    end).

End KVGenerateCommand.

(** ** Transfer *)

Record TransferRequest := mkTransferRequest { fromAccount : string; toAccount : string; balance : Z }.

(** [proto::TransferCommand::ParseFromString] *)
Class TransferCodec := parseTransfer : string -> option TransferRequest.

(** [uint64_t b = 0; if (kvsToRead.find(acc) != end) b = std::stoi(kvsToRead.at(acc).first)] *)
Definition balanceIn (kvsToRead : OMap string (ValueType * VersionType)) (acc : string) : option Z :=
  match omap_find acc kvsToRead with
  | Some (value, _) => u64 <$> stoi value
  | None => Some 0
  end.

(** [TransferCommand::generate] *)
Definition transfer {TC : TransferCodec} (kvsToRead : OMap string (ValueType * VersionType))
    (inputInfo : string) (kvsToWrite : OMap string ValueType) (outputInfo : string)
    : sum fault (Status.t * OMap string ValueType * string) :=
  match parseTransfer inputInfo with
  | None => inr (Status.invalidArg "failed to parse inputinfo", kvsToWrite, outputInfo)
  | Some cmd =>
      match balanceIn kvsToRead (fromAccount cmd), balanceIn kvsToRead (toAccount cmd) with
      | Some balanceInFrom, Some balanceInTo =>
          inr (Status.ok,
               omap_put (toAccount cmd) (to_string (u64 (balanceInTo + balance cmd)))
                 (omap_put (fromAccount cmd) (to_string (u64 (balanceInFrom - balance cmd))) kvsToWrite),
               "transferDemoOutputInfo")
      | _, _ => inl Uncaught
      end
  end.

#[global] Instance TransferCommand_generate {TC : TransferCodec} : GenerateFn := transfer.

(** ** The laws of a command *)

Section Laws.
Context {S K : Type} `{!KVStore S} `{!EqDecision K} `{!Lockable S K} {IPS : NodeIps}.
Context {GEN : GenerateFn} {UN : Uninitialised}.

Lemma readSources_keeps keys m : keeps_locks lock_view (readSources keys m : M S _).
Proof. revert m. induction keys as [|k keys IH]; intros m; cbn [readSources]; keeps; apply IH. Qed.

Lemma readSources_fails keys m c (s : S) r kvs c' s' :
  readSources keys m c s = Done (r, kvs) c' s' -> r = None \/ exists st, r = Some st /\ Status.isOK st = false.
Proof.
  revert m c s. induction keys as [|k keys IH]; intros m c s; cbn [readSources].
  { intros H. run_in H. simplify_eq. by left. }
  intros H. apply bind_inv in H as ([st out] & c1 & s1 & H1 & H). destruct (Status.isOK st) eqn:E; [eauto|].
  right. destruct (Status.isNotFound st); run_in H; simplify_eq; eauto.
Qed.

Lemma checkSources_keeps m : keeps_locks lock_view (checkSources m : M S _).
Proof. induction m as [|[k [v ver]] m IH]; cbn [checkSources]; keeps. Qed.

Lemma writeEvents_keeps m es : keeps_locks lock_view (writeEvents m es : M S _).
Proof. revert es. induction m as [|[k v] m IH]; intros es; cbn [writeEvents]; unfold oldTTL; keeps; apply IH. Qed.

Lemma generate_execute_keeps g : keeps_locks lock_view (execute g : M S _).
Proof.
  unfold execute. apply keeps_bind; [apply checkSources_keeps|]. intros [s|]; [auto with goblin|].
  apply writeEvents_keeps.
Qed.

Lemma prepareGenerate_locks req g c s st g' c' s' :
  prepareGenerate req g c s = Done (st, g') c' s' ->
  if Status.isOK st then
    exists c1 s1, (forall i, lock_view s1 i = lock_view s i) /\
      kvLock (getTargetKeys req) true c1 s1 = Done st c' s'
  else forall i, lock_view s' i = lock_view s i.
Proof.
  unfold prepareGenerate. intros H. apply bind_inv in H as ([r kvs] & c1 & s1 & H1 & H).
  assert (forall i, lock_view s1 i = lock_view s i) as Hv.
  { by eapply (readSources_keeps (nq_srcKeys req) (mKVsToRead g) (lock_view s)). }
  destruct (readSources_fails _ _ _ _ _ _ _ _ H1) as [->|(st1 & -> & Hst1)].
  2: { run_in H. simplify_eq. by rewrite Hst1. }
  destruct (generate _ _ _ _) as [f|[[st1 kvs'] out]]; [discriminate|].
  destruct (Status.isOK st1) eqn:Est1; [|run_in H; simplify_eq; by rewrite Est1].
  destruct (sameKeys _ _) as [[]|]; [|by run_in H; simplify_eq|discriminate].
  apply bind_inv in H as (st2 & c2 & s2 & H2 & H). run_in H. simplify_eq.
  destruct (kvLock_moves _ _ _ _ _ _ _ H2) as (-> & _). by exists c1, s1.
Qed.

Definition generate_laws req : CommandLaws (command req).
Proof.
  refine {| lock_keys := getTargetKeys req; lock_excl := true |}.
  - intros r c s st r' c' s' H. cbn in H. destruct r; try discriminate.
    apply bind_inv in H as ([st1 g'] & c1 & s1 & H1 & H). run_in H. simplify_eq.
    by eapply prepareGenerate_locks.
  - intros r. cbn. destruct r; try (intros ms; apply preserves_stop). apply plain_keeps, generate_execute_keeps.
  - intros es c s x c' s'. apply finish_events_unlocks.
Defined.

End Laws.
