(* ===== verification/KVEngineImpl.v ===== *)
(** * The engine's front

    [execution::ExecutionServiceImpl] and [execution::QueueWorker]
    (kv-engine/execution): the queues commands wait in; and
    [KVEngineImpl] (kv-engine/KVEngineImpl.cpp): the calls of the engine's clients, which
    submit a command each and, for a batch, collect the answers. *)

From S2P Require Import Prelude Status Proto KVStore RocksDBKVStore Event Command.
From S2P Require Import KVPutCommand KVGetCommand KVDeleteCommand KVImportCommand KVTransCommand KVGenerateCommand.

(** ** Queues *)

(** [gringofts::MpscDoubleBufferQueue]: an item, an exception once the queue is
    shut down, or waiting. *)
Inductive Dequeued (T Q : Type) := Item (x : T) (q : Q) | QueueStopped | NoItem.
Arguments Item {T Q} _ _.
Arguments QueueStopped {T Q}.
Arguments NoItem {T Q}.

Class MpscQueue (T Q : Type) := {
  enqueue : T -> Q -> option Q;
  dequeue : Q -> Dequeued T Q;
  q_shutdown : Q -> Q;
}.
#[global] Hint Mode MpscQueue - ! : typeclass_instances.

(** First in, first out, until the queue is shut down. *)
Class MpscQueueLaws (T Q : Type) `{!MpscQueue T Q} := {
  contents : Q -> list T;
  running : Q -> bool;
  enqueue_running x q : running q = true ->
    exists q', enqueue x q = Some q' /\ contents q' = contents q ++ [x] /\ running q' = true;
  enqueue_stopped x q : running q = false -> enqueue x q = None;
  dequeue_first x l q : running q = true -> contents q = x :: l ->
    exists q', dequeue q = Item x q' /\ contents q' = l /\ running q' = true;
  dequeue_empty q : running q = true -> contents q = [] -> dequeue q = NoItem;
  shutdown_stops q : running (q_shutdown q) = false;
}.
#[global] Hint Mode MpscQueueLaws ! ! - : typeclass_instances.

(** ** Workers *)

Record QueueWorker (Q : Type) := mkWorker { mQueue : Q; mTaskCount : Z }.
Arguments mkWorker {Q} _ _.
Arguments mQueue {Q} _.
Arguments mTaskCount {Q} _.

Record ExecutionServiceImpl (Q : Type) := mkService { mWorkers : list (QueueWorker Q); mPointer : Z }.
Arguments mkService {Q} _ _.
Arguments mWorkers {Q} _.
Arguments mPointer {Q} _.

Section Service.
Context {T Q : Type} `{!MpscQueue T Q}.

(** [QueueWorker::submit]: the task is counted before the queue takes it; whether the queue did. *)
Definition submit_worker (task : T) (w : QueueWorker Q) : QueueWorker Q * bool :=
  let count := u32 (mTaskCount w + 1) in
  match enqueue task (mQueue w) with
  | Some q => (mkWorker q count, true)
  | None => (mkWorker (mQueue w) count, false)
  end.

(** [QueueWorker::loop] *)
Definition loop {A} (process : T -> M A unit) : M (QueueWorker Q * A) bool :=
  let* (w, _) := get in
  match dequeue (mQueue w) with
  | Item input q =>
      modify (fun s => (mkWorker q (mTaskCount s.1), s.2)) ;;;
      zoom snd (fun a s => (s.1, a)) (process input) ;;;
      modify (fun s => (mkWorker (mQueue s.1) (u32 (mTaskCount s.1 - 1)), s.2)) ;;;
      ret true
  | QueueStopped => ret false
  | NoItem => stop WouldBlock
  end.

(** [mGetQueueIdFunc] as the constructor without one makes it: the workers take turns. *)
Definition getQueueId (pointer : Z) (size : nat) : nat := Z.to_nat (pointer mod Z.of_nat size).

(** [ExecutionServiceImpl::submit] with the workers taken in turn; [None] without workers, a
    division by zero. *)
Definition submit (input : T) (svc : ExecutionServiceImpl Q) : option (ExecutionServiceImpl Q * bool) :=
  if bool_decide (length (mWorkers svc) = O) then None
  else
    let workerIndex := getQueueId (mPointer svc) (length (mWorkers svc)) in
    let pointer := u64 (mPointer svc + 1) in
    match mWorkers svc !! workerIndex with
    | None => None
    | Some w =>
        let '(w, accepted) := submit_worker input w in
        Some (mkService (<[workerIndex := w]> (mWorkers svc)) pointer, accepted)
    end.

End Service.

(** ** The calls *)

(** The commands submitted are numbered: the number stands for the callback of
    the context. [answered] are the callbacks run by the calls themselves. *)
Record KVEngineImpl (Q : Type) := mkImpl {
  mCommandProcessExecutionService : ExecutionServiceImpl Q;
  submitted : nat;
  answered : gmap nat Response;
}.
Arguments mkImpl {Q} _ _ _.
Arguments mCommandProcessExecutionService {Q} _.
Arguments submitted {Q} _.
Arguments answered {Q} _.

Section KVEngineImpl.
Context {S Q : Type} `{!KVStore S} `{!MpscQueue (nat * Command S) Q} {IPS : NodeIps}.

(** [QueueStoppedException::what()] *)
Context (queue_stopped : string).

(** The body the calls share, [exeCustomCommand] as such: submit, or answer at once that
    the engine is stopped. The number of the call comes with the status. *)
Definition exeCustomCommand (cmd : Command S) : M (KVEngineImpl Q) (Status.t * nat) :=
  let* e := get in
  let n := submitted e in
  match submit (n, cmd) (mCommandProcessExecutionService e) with
  | None => stop Undefined
  | Some (svc, true) => put (mkImpl svc (Datatypes.S n) (answered e)) ;;; ret (Status.ok, n)
  | Some (svc, false) =>
      match Command.fillResponseAndReply cmd RC_GENERAL_ERROR queue_stopped None (initialResponse cmd) with
      | Some r => put (mkImpl svc (Datatypes.S n) (<[n := r]> (answered e))) ;;; ret (Status.stopped "", n)
      | None => stop AssertFail
      end
  end.

Definition connectAsync (header : RequestHeader) : M (KVEngineImpl Q) (Status.t * nat) :=
  exeCustomCommand (Connect.command header).
Definition putAsync (req : PutRequest) : M (KVEngineImpl Q) (Status.t * nat) :=
  exeCustomCommand (KVPutCommand.command req).
Definition importAsync (req : PutRequest) : M (KVEngineImpl Q) (Status.t * nat) :=
  exeCustomCommand (Import_.command req).
Definition getAsync (req : GetRequest) : M (KVEngineImpl Q) (Status.t * nat) :=
  exeCustomCommand (KVGetCommand.command req).
Definition removeAsync (req : DeleteRequest) : M (KVEngineImpl Q) (Status.t * nat) :=
  exeCustomCommand (KVDeleteCommand.command req).
Definition transAsync (req : TransRequest) : M (KVEngineImpl Q) (Status.t * nat) :=
  exeCustomCommand (KVTransCommand.command req).

(** What the workers run the callbacks with, in the end; a callback that is never run
    has none. *)
Context (worker_answers : nat -> option Response).

(** [future.get()] *)
Definition future_get (n : nat) : M (KVEngineImpl Q) Response :=
  let* e := get in
  match answered e !! n with
  | Some r => ret r
  | None => match worker_answers n with Some r => ret r | None => stop WouldBlock end
  end.

(** The calls that wait; a context's callback takes the context's response. *)
Definition connect_ (header : RequestHeader) : M (KVEngineImpl Q) ResponseHeader :=
  let* (_, n) := connectAsync header in
  let* r := future_get n in
  match r with ConnectResp h => ret h | _ => stop Undefined end.
Definition put_ (req : PutRequest) : M (KVEngineImpl Q) PutResponse :=
  let* (_, n) := putAsync req in
  let* r := future_get n in
  match r with PutResp r => ret r | _ => stop Undefined end.
Definition get_ (req : GetRequest) : M (KVEngineImpl Q) GetResponse :=
  let* (_, n) := getAsync req in
  let* r := future_get n in
  match r with GetResp r => ret r | _ => stop Undefined end.
Definition remove_ (req : DeleteRequest) : M (KVEngineImpl Q) DeleteResponse :=
  let* (_, n) := removeAsync req in
  let* r := future_get n in
  match r with DeleteResp r => ret r | _ => stop Undefined end.
Definition trans_ (req : TransRequest) : M (KVEngineImpl Q) TransResponse :=
  let* (_, n) := transAsync req in
  let* r := future_get n in
  match r with TransResp r _ => ret r | _ => stop Undefined end.

(** ** Batches *)

(** The command of an entry. *)
Definition entry_command (header : RequestHeader) (entry : ReadWriteEntry) : option (Command S) :=
  match entry with
  | RWWrite w => Some (KVPutCommand.command (mkPutRequest header w))
  | RWRead r => Some (KVGetCommand.command (mkGetRequest header r false false))
  | RWRemove d => Some (KVDeleteCommand.command (mkDeleteRequest header d false))
  | RWUnset => None
  end.

(** The loop of [exeBatchAsync] over the entries: the futures, or an entry of no kind. *)
Fixpoint submitEntries (header : RequestHeader) (entries : list ReadWriteEntry)
    : M (KVEngineImpl Q) (option (list nat)) :=
  match entries with
  | [] => ret (Some [])
  | entry :: entries =>
      match entry_command header entry with
      | None => ret None
      | Some cmd =>
          let* (_, n) := exeCustomCommand cmd in
          let* ns := submitEntries header entries in
          ret (cons n <$> ns)
      end
  end.

(** The header and the result of an answer. *)
Definition result_of (r : Response) : option (ResponseHeader * ReadWriteResult) :=
  match r with
  | PutResp r => Some (pp_header r, WriteRes (pp_result r))
  | GetResp r => Some (gp_header r, ReadRes (gp_result r))
  | DeleteResp r => Some (dp_header r, RemoveRes (dp_result r))
  | _ => None
  end.

(** The loop over the futures. *)
Fixpoint collect (futures : list nat) (resp : ExeBatchResponse) : M (KVEngineImpl Q) ExeBatchResponse :=
  match futures with
  | [] => ret resp
  | n :: futures =>
      let* r := future_get n in
      match result_of r with
      | None => stop Undefined
      | Some (header, result) =>
          collect futures
            (mkExeBatchResponse (if bool_decide (h_code header <> RC_OK) then header else bp_header resp)
                                (bp_results resp ++ [result]))
      end
  end.

(** [exeBatchAsync]: the status, and what the callback is run with if it is run. *)
Definition exeBatchAsync (req : ExeBatchRequest) : M (KVEngineImpl Q) (Status.t * option ExeBatchResponse) :=
  let* futures := submitEntries (bq_header req) (bq_entries req) in
  match futures with
  | None => ret (Status.invalidArg "", None)
  | Some futures =>
      let* resp := collect futures (mkExeBatchResponse (set_h_code RC_OK empty_header) []) in
      ret (Status.ok, Some resp)
  end.

Definition exeBatch (req : ExeBatchRequest) : M (KVEngineImpl Q) ExeBatchResponse :=
  let* (_, resp) := exeBatchAsync req in
  match resp with
  | Some resp => ret resp
  | None => stop WouldBlock
  end.

(** [migrateBatchAsync]; the header is left as it is. *)
Fixpoint importEntries (entries : list WriteEntry) : M (KVEngineImpl Q) (list nat) :=
  match entries with
  | [] => ret []
  | entry :: entries =>
      let* (_, n) := importAsync (mkPutRequest (mkReqHeader 0 0) entry) in
      let* ns := importEntries entries in
      ret (n :: ns)
  end.

Fixpoint collectImports (futures : list nat) : M (KVEngineImpl Q) (list WriteResult) :=
  match futures with
  | [] => ret []
  | n :: futures =>
      let* r := future_get n in
      match r with
      | PutResp r => let* rs := collectImports futures in ret (pp_result r :: rs)
      | _ => stop Undefined
      end
  end.

Definition migrateBatchAsync (req : MigrateBatchRequest) : M (KVEngineImpl Q) (Status.t * MigrateBatchResponse) :=
  let* futures := importEntries (mq_entries req) in
  let* results := collectImports futures in
  ret (Status.ok, mkMigrateBatchResponse empty_header results).

End KVEngineImpl.

(** ** Reads of the database *)

Section Applied.
Context {R : Type} `{!KVStore R} {UNINIT : Uninitialised}.

(** [getAppliedBatch]; [mRocksDBKVStore] is the store. *)
Fixpoint getAppliedEntries (entries : list ReadWriteEntry) (resp : ExeBatchResponse) : M R ExeBatchResponse :=
  match entries with
  | [] => ret resp
  | RWRead r :: entries =>
      let* (s, out) := kvReadKV (re_key r) (mkOut "" (fst uninitialised) (snd uninitialised)) in
      let code := if Status.isOK s then RC_OK
                  else if Status.isNotFound s then RC_KEY_NOT_EXIST else RC_GENERAL_ERROR in
      getAppliedEntries entries
        (mkExeBatchResponse (bp_header resp)
           (bp_results resp ++ [ReadRes (mkReadResult code (outVersion out) (outValue out) 0 None)]))
  | _ :: entries =>
      getAppliedEntries entries (mkExeBatchResponse (set_h_code RC_BAD_REQUEST (bp_header resp)) (bp_results resp))
  end.

Definition getAppliedBatch (req : ExeBatchRequest) : M R ExeBatchResponse :=
  getAppliedEntries (bq_entries req) (mkExeBatchResponse (set_h_code RC_OK empty_header) []).

End Applied.

(** ** Every command has its worker *)

Section Sharing.
Context {T Q : Type} `{!MpscQueue T Q} `{!MpscQueueLaws T Q}.

(** Commands submitted one after the other, all of them accepted. *)
Fixpoint submitAll (l : list T) (svc : ExecutionServiceImpl Q) : option (ExecutionServiceImpl Q) :=
  match l with
  | [] => Some svc
  | x :: l => match submit x svc with
              | Some (svc, true) => submitAll l svc
              | _ => None
              end
  end.

(** What falls to worker [j] of [w] when the commands [l] are submitted from turn [p] on. *)
Fixpoint share (p : Z) (w j : nat) (l : list T) : list T :=
  match l with
  | [] => []
  | x :: l =>
      let rest := share (u64 (p + 1)) w j l in
      if bool_decide (Z.to_nat (p mod Z.of_nat w) = j) then x :: rest else rest
  end.

Fixpoint loops {A} (n : nat) (process : T -> M A unit) : M (QueueWorker Q * A) unit :=
  match n with
  | O => ret tt
  | S n => let* go := loop process in if (go : bool) then loops n process else ret tt
  end.

Definition accepting (svc : ExecutionServiceImpl Q) : Prop :=
  mWorkers svc <> [] /\ Forall (fun w => running (mQueue w) = true) (mWorkers svc) /\ 0 <= mPointer svc.

Lemma submit_run x (svc : ExecutionServiceImpl Q) :
  accepting svc ->
  exists j w q svc', j = Z.to_nat (mPointer svc mod Z.of_nat (length (mWorkers svc))) /\
    mWorkers svc !! j = Some w /\ contents q = contents (mQueue w) ++ [x] /\
    submit x svc = Some (svc', true) /\ mPointer svc' = u64 (mPointer svc + 1) /\
    mWorkers svc' = <[j := mkWorker q (u32 (mTaskCount w + 1))]> (mWorkers svc) /\ accepting svc'.
Proof.
  intros (Hne & Hrun & Hp). unfold submit, getQueueId. set (n := length (mWorkers svc)).
  assert (n <> O) by (unfold n; by destruct (mWorkers svc)). rewrite bool_decide_eq_false_2 by done.
  set (j := Z.to_nat (mPointer svc mod Z.of_nat n)).
  assert (j < n)%nat by (unfold j; pose proof (Z.mod_pos_bound (mPointer svc) (Z.of_nat n)); lia).
  destruct (lookup_lt_is_Some_2 (mWorkers svc) j) as [w Hw]; [done|]. rewrite Hw.
  pose proof (Forall_lookup_1 _ _ _ _ Hrun Hw) as Hwr. destruct (enqueue_running x _ Hwr) as (q & He & Hc & Hr).
  unfold submit_worker. rewrite He. eexists j, w, q, _. split_and!; try reflexivity; [done|done|].
  unfold accepting. cbn. split_and!; [|by apply Forall_insert|unfold u64; apply Z.mod_pos_bound; lia].
  intros E. apply (f_equal length) in E. rewrite length_insert in E. by destruct (mWorkers svc).
Qed.

Lemma submitAll_share l : forall svc : ExecutionServiceImpl Q,
  accepting svc ->
  exists svc', submitAll l svc = Some svc' /\ accepting svc' /\ length (mWorkers svc') = length (mWorkers svc) /\
    forall j w, mWorkers svc !! j = Some w ->
      exists w', mWorkers svc' !! j = Some w' /\
        contents (mQueue w') = contents (mQueue w) ++ share (mPointer svc) (length (mWorkers svc)) j l.
Proof.
  induction l as [|x l IH]; intros svc Ha.
  - exists svc. split_and!; [done..|]. intros j w Hw. exists w. by rewrite app_nil_r.
  - destruct (submit_run x svc Ha) as (j0 & w0 & q & svc1 & Ej & Hw0 & Hq & Hs & Hp & Hws & Ha1).
    destruct (IH svc1 Ha1) as (svc' & H1 & H2 & H3 & H4). exists svc'. cbn [submitAll]. rewrite Hs.
    rewrite Hws, length_insert in H3. split_and!; [done..|]. intros j w Hw. cbn [share]. rewrite <- Ej.
    rewrite Hp, Hws, length_insert in H4. case_bool_decide as E.
    + subst j. assert (w = w0) as -> by congruence.
      destruct (H4 j0 (mkWorker q (u32 (mTaskCount w0 + 1)))) as (w' & Hw' & Hc).
      { apply list_lookup_insert_eq. by eapply lookup_lt_Some. }
      exists w'. split; [done|]. rewrite Hc. cbn. rewrite Hq, <- app_assoc. done.
    + destruct (H4 j w) as (w' & Hw' & Hc); [by rewrite list_lookup_insert_ne by done|]. by exists w'.
Qed.

Lemma loops_run {A} (process : T -> M A unit) l : forall rest (w : QueueWorker Q) c a c' a',
  running (mQueue w) = true -> contents (mQueue w) = l ++ rest -> forM l process c a = Done tt c' a' ->
  exists w', loops (length l) process c (w, a) = Done tt c' (w', a') /\ contents (mQueue w') = rest /\
    running (mQueue w') = true.
Proof.
  induction l as [|x l IH]; intros rest w c a c' a' Hr Hc H.
  - injection H as <- <-. exists w. done.
  - cbn [forM] in H. apply bind_inv in H as ([] & c1 & a1 & H1 & H2).
    destruct (dequeue_first _ _ _ Hr Hc) as (q & Hd & Hq & Hqr).
    destruct (IH rest (mkWorker q (u32 (mTaskCount w - 1))) c1 a1 c' a' Hqr Hq H2) as (w' & Hw' & Hc' & Hr').
    exists w'. split; [|done]. cbn [length loops]. rewrite (bind_Done _ _ _ _ true c1 (mkWorker q (u32 (mTaskCount w - 1)), a1)).
    { exact Hw'. }
    unfold loop. run. rewrite Hd. run.
    cbn [fst snd]. by rewrite H1.
Qed.

(** The commands submitted to a service that runs and is idle are shared out among its workers in
    turn, and each worker processes what falls to it, all of it and in the order of submission. *)
Theorem commands_are_shared_out {A} (process : T -> M A unit) l (svc : ExecutionServiceImpl Q) :
  accepting svc -> Forall (fun w => contents (mQueue w) = []) (mWorkers svc) ->
  exists svc', submitAll l svc = Some svc' /\ length (mWorkers svc') = length (mWorkers svc) /\
    forall j w, mWorkers svc' !! j = Some w ->
      let mine := share (mPointer svc) (length (mWorkers svc)) j l in
      forall c a c' a', forM mine process c a = Done tt c' a' ->
        exists w', loops (length mine) process c (w, a) = Done tt c' (w', a') /\ contents (mQueue w') = [].
Proof.
  intros Ha He. destruct (submitAll_share l svc Ha) as (svc' & Hs & (_ & Hr & _) & Hl & H).
  exists svc'. split_and!; [done..|]. intros j w Hw mine c a c' a' Hm.
  destruct (lookup_lt_is_Some_2 (mWorkers svc) j) as [w0 Hw0]; [rewrite <- Hl; by eapply lookup_lt_Some|].
  destruct (H j w0 Hw0) as (w' & Hw' & Hc). assert (w' = w) as -> by congruence.
  rewrite (Forall_lookup_1 _ _ _ _ He Hw0) in Hc.
  destruct (loops_run process mine [] w c a c' a') as (w1 & H1 & H2 & _); [by eapply Forall_lookup_1 in Hr|
    by rewrite app_nil_r|done|]. by exists w1.
Qed.

End Sharing.

(** ** Batches are answered entry by entry *)

Section Batches.
Context {S Q : Type} `{!KVStore S} `{!MpscQueue (nat * Command S) Q} `{!MpscQueueLaws (nat * Command S) Q} {IPS : NodeIps}.
Context (queue_stopped : string) (worker_answers : nat -> option Response).

(** The header of a batch: that of the last entry that failed. *)
Definition batch_header (header : ResponseHeader) (hs : list ResponseHeader) : ResponseHeader :=
  fold_left (fun acc h => if bool_decide (h_code h <> RC_OK) then h else acc) hs header.

Lemma batch_header_ok hs : forall header,
  h_code (batch_header header hs) = RC_OK <-> h_code header = RC_OK /\ Forall (fun h => h_code h = RC_OK) hs.
Proof.
  induction hs as [|h hs IH]; intros header; [by cbn; rewrite Forall_nil; naive_solver|].
  change (batch_header header (h :: hs)) with (batch_header (if bool_decide (h_code h <> RC_OK) then h else header) hs).
  rewrite IH, Forall_cons. case_bool_decide; naive_solver.
Qed.

(** An entry of some kind is submitted. *)
Lemma submit_entry_run header x c (e : KVEngineImpl Q) :
  accepting (mCommandProcessExecutionService e) -> x <> RWUnset ->
  exists cmd svc1, entry_command (S := S) header x = Some cmd /\
    submit (submitted e, cmd) (mCommandProcessExecutionService e) = Some (svc1, true) /\ accepting svc1 /\
    exeCustomCommand queue_stopped cmd c e =
      Done (Status.ok, submitted e) c (mkImpl svc1 (Datatypes.S (submitted e)) (answered e)).
Proof.
  intros Ha Hx.
  assert (exists cmd, entry_command (S := S) header x = Some cmd) as [cmd Hcmd] by (destruct x; eauto; done).
  destruct (submit_run (submitted e, cmd) _ Ha) as (_ & _ & _ & svc1 & _ & _ & _ & Hs & _ & _ & Ha1).
  exists cmd, svc1. split_and!; [done..|]. unfold exeCustomCommand. run. by rewrite Hs.
Qed.

Lemma submitEntries_run header entries : forall c (e : KVEngineImpl Q),
  accepting (mCommandProcessExecutionService e) -> Forall (fun x => x <> RWUnset) entries ->
  exists cmds svc', mapM (entry_command header) entries = Some cmds /\
    submitAll (zip (seq (submitted e) (length entries)) cmds) (mCommandProcessExecutionService e) = Some svc' /\
    submitEntries queue_stopped header entries c e =
      Done (Some (seq (submitted e) (length entries))) c
        (mkImpl svc' (submitted e + length entries) (answered e)).
Proof.
  induction entries as [|x entries IH]; intros c e Ha Hx.
  - exists [], (mCommandProcessExecutionService e). split; [done|]. split; [done|]. cbn. rewrite Nat.add_0_r. by destruct e.
  - apply Forall_cons in Hx as [Hx Hxs].
    destruct (submit_entry_run header x c e Ha Hx) as (cmd & svc1 & Hcmd & Hs & Ha1 & Hrun).
    destruct (IH c (mkImpl svc1 (Datatypes.S (submitted e)) (answered e)) Ha1 Hxs) as (cmds & svc' & H1 & H2 & H3).
    exists (cmd :: cmds), svc'. cbn [mapM entry_command submitAll length seq zip zip_with submitEntries].
    cbn [submitted mCommandProcessExecutionService answered] in *.
    rewrite Hcmd, Hs. cbn. rewrite H1. split; [done|]. split; [exact H2|].
    rewrite (bind_Done _ _ _ _ _ _ _ Hrun). cbn beta iota. rewrite (bind_Done _ _ _ _ _ _ _ H3).
    cbn. by rewrite Nat.add_succ_r.
Qed.

Lemma collect_run futures : forall resp c (e : KVEngineImpl Q) answers,
  Forall2 (fun n a => answered e !! n = None /\ exists r, worker_answers n = Some r /\ result_of r = Some a) futures answers ->
  collect worker_answers futures resp c e =
    Done (mkExeBatchResponse (batch_header (bp_header resp) answers.*1) (bp_results resp ++ answers.*2)) c e.
Proof.
  induction futures as [|n futures IH]; intros resp c e answers H; inversion H as [|? [h res] ? answers' Hn Hns]; subst.
  - cbn. rewrite app_nil_r. by destruct resp.
  - destruct Hn as (Hn & r & Hr & Hres). cbn [collect].
    rewrite (bind_Done _ _ _ _ r c e) by (unfold future_get; run; by rewrite Hn, Hr).
    rewrite Hres. rewrite (IH _ c e answers' Hns). cbn. by rewrite <- app_assoc.
Qed.

(** A batch is answered entry by entry. The commands of the entries are submitted
    in order; once the workers have answered them, the results of the batch are
    those of its entries, in the order of the entries, and its header is OK exactly
    if all of theirs are. *)
Theorem batch_answers_each_entry req c (e : KVEngineImpl Q) answers :
  accepting (mCommandProcessExecutionService e) -> Forall (fun x => x <> RWUnset) (bq_entries req) ->
  Forall2 (fun n a => answered e !! n = None /\ exists r, worker_answers n = Some r /\ result_of r = Some a)
          (seq (submitted e) (length (bq_entries req))) answers ->
  exists cmds svc' e' resp,
    mapM (entry_command (bq_header req)) (bq_entries req) = Some cmds /\
    submitAll (zip (seq (submitted e) (length (bq_entries req))) cmds) (mCommandProcessExecutionService e) = Some svc' /\
    mCommandProcessExecutionService e' = svc' /\
    exeBatch queue_stopped worker_answers req c e = Done resp c e' /\
    bp_results resp = answers.*2 /\
    (h_code (bp_header resp) = RC_OK <-> Forall (fun h => h_code h = RC_OK) answers.*1).
Proof.
  intros Ha Hx Hans. destruct (submitEntries_run (bq_header req) _ c e Ha Hx) as (cmds & svc' & H1 & H2 & H3).
  eexists cmds, svc', _, _. split; [done|]. split; [done|]. split; [|split; [|split]]; cycle 1.
  - unfold exeBatch, exeBatchAsync. cbn. unfold bind at 1. rewrite (bind_Done _ _ _ _ _ _ _ H3).
    rewrite (bind_Done _ _ _ _ _ _ _ (collect_run _ _ c (mkImpl svc' (submitted e + length (bq_entries req)) (answered e)) answers Hans)).
    reflexivity.
  - reflexivity.
  - cbn. rewrite batch_header_ok. cbn. naive_solver.
  - reflexivity.
Qed.

(** A batch with an entry of no kind is never answered, though the entries before it
    are submitted: [exeBatchAsync] returns without a call of the callback, for which [exeBatch] waits. *)
Theorem batch_with_unset_entry_hangs req pre suf c (e : KVEngineImpl Q) :
  accepting (mCommandProcessExecutionService e) -> Forall (fun x => x <> RWUnset) pre ->
  bq_entries req = pre ++ RWUnset :: suf ->
  exeBatch queue_stopped worker_answers req c e = Stop WouldBlock.
Proof.
  intros Ha Hpre Heq. unfold exeBatch, exeBatchAsync. rewrite Heq.
  assert (forall c (e : KVEngineImpl Q), accepting (mCommandProcessExecutionService e) ->
    exists e', submitEntries queue_stopped (bq_header req) (pre ++ RWUnset :: suf) c e = Done None c e') as H.
  { clear Ha c e Heq. induction Hpre as [|x pre Hx _ IH]; intros c e Ha; [by exists e|].
    destruct (submit_entry_run (bq_header req) x c e Ha Hx) as (cmd & svc1 & Hcmd & _ & Ha1 & Hrun).
    destruct (IH c (mkImpl svc1 (Datatypes.S (submitted e)) (answered e)) Ha1) as [e' He']. exists e'.
    cbn [app submitEntries]. rewrite Hcmd.
    rewrite (bind_Done _ _ _ _ _ _ _ Hrun). cbn beta iota. by rewrite (bind_Done _ _ _ _ _ _ _ He'). }
  destruct (H c e Ha) as [e' He']. cbn. unfold bind at 1. by rewrite (bind_Done _ _ _ _ _ _ _ He').
Qed.

End Batches.
