(* ===== verification/Loops.v ===== *)
(** * The threads of an engine

    [execution::ThreadLoop] (kv-engine/execution/Loop.h), the threads of [execution::QueueWorker] and
    [execution::ExecutionServiceImpl], and the thread of [EventApplyLoop::run] with [KVEngineImpl::Destroy], which ends them all.
    KVEngineImpl.v has what a worker does with its queue; here are the threads, from their start to the return of
    [join], in any interleaving: every access of shared state is a step. *)

From S2P Require Import Prelude KVEngineImpl.

(** What the code relies on when a queue is shut down: the consumer does not wait any longer, and gets
    nothing it would not have got. *)
Class QueueShutdownLaws (T Q : Type) `{!MpscQueue T Q} `{!MpscQueueLaws T Q} := {
  dequeue_stopped (q : Q) : running q = false -> dequeue q <> NoItem;
  dequeue_item (x : T) (q q' : Q) : dequeue q = Item x q' -> contents q = x :: contents q' /\ running q' = running q;
  shutdown_contents (q : Q) : contents (q_shutdown q) = contents q;
}.
#[global] Hint Mode QueueShutdownLaws ! ! - - : typeclass_instances.

Lemma sum_insert {A} (f : A -> nat) i x y l : l !! i = Some x -> (sum_list_with f (<[i := y]> l) + f x = sum_list_with f l + f y)%nat.
Proof.
  revert i. induction l as [|z l IH]; intros [|i] H; [done..|injection H as ->; cbn; lia|]. specialize (IH i H).
  change (f z + sum_list_with f (<[i := y]> l) + f x = f z + sum_list_with f l + f y)%nat. lia.
Qed.

Section Loops.
Context {T Q : Type} `{!MpscQueue T Q}.

(** ** Workers *)

(** Where a worker's thread stands in [while (mRunning && loop()) {}]: before the test of [mRunning], before [dequeue], in [process],
    or past the loop. *)
Inductive Pc := AtTest | InLoop | Processing (task : T) | Ended.

(** [mThread] is the thread and whether it is joinable. [taken] are the tasks the queue has accepted, [processed] those
    [process] has ended for. *)
Record Worker := mkThreadLoop {
  base : QueueWorker Q;
  mRunning : bool;
  mThread : option (Pc * bool);
  taken : list T;
  processed : list T;
}.

Definition new_worker (q : Q) : Worker := mkThreadLoop (mkWorker q 0) false None [] [].

(** [ThreadLoop::start]; a thread that is still joinable when it is replaced terminates the process. *)
Definition start (w : Worker) : option Worker :=
  match mThread w with
  | Some (_, true) => None
  | _ => Some (mkThreadLoop (base w) true (Some (AtTest, true)) (taken w) (processed w))
  end.

(** The two halves of [QueueWorker::stop]. *)
Definition stop_queue (w : Worker) : Worker :=
  mkThreadLoop (mkWorker (q_shutdown (mQueue (base w))) (mTaskCount (base w))) (mRunning w) (mThread w) (taken w) (processed w).
Definition stop_running (w : Worker) : Worker := mkThreadLoop (base w) false (mThread w) (taken w) (processed w).

(** [ThreadLoop::join]; [None] while the thread runs. *)
Definition join (w : Worker) : option Worker :=
  match mThread w with
  | Some (Ended, true) => Some (mkThreadLoop (base w) (mRunning w) (Some (Ended, false)) (taken w) (processed w))
  | Some (_, true) => None
  | _ => Some w
  end.

(** The next step of the worker's thread; [None] when it waits or has ended. [threw] tells that [process] ended with a
    [QueueStoppedException] of a queue it uses, which [loop] takes for one of its own. *)
Definition worker_step (threw : bool) (w : Worker) : option Worker :=
  let goto b p done := Some (mkThreadLoop b (mRunning w) (Some (p, true)) (taken w) (processed w ++ done)) in
  match mThread w with
  | Some (AtTest, true) => goto (base w) (if mRunning w then InLoop else Ended) []
  | Some (InLoop, true) =>
      match dequeue (mQueue (base w)) with
      | Item x q => goto (mkWorker q (mTaskCount (base w))) (Processing x) []
      | QueueStopped => goto (base w) Ended []
      | NoItem => None
      end
  | Some (Processing x, true) =>
      if threw then goto (base w) Ended [x]
      else goto (mkWorker (mQueue (base w)) (u32 (mTaskCount (base w) - 1))) AtTest [x]
  | _ => None
  end.

(** [QueueWorker::submit], and whether the queue took the task. *)
Definition submit_to (x : T) (w : Worker) : Worker * bool :=
  let '(b, accepted) := submit_worker x (base w) in
  (mkThreadLoop b (mRunning w) (mThread w) (if accepted then taken w ++ [x] else taken w) (processed w), accepted).

(** ** The engine *)

(** The thread of the apply loop: before the test of [mShouldExit], in a round, or past the loop. *)
Inductive ApplyPc := RunTest | InRound | RunEnded.

(** What a thread that ends the engine has still to do. *)
Inductive Control := StopQueue (i : nat) | StopRunning (i : nat) | Join (i : nat) | ExitApply | JoinApply.

#[global] Instance Control_eq_dec : EqDecision Control.
Proof. solve_decision. Defined.

Record Threads := mkThreads {
  workers : list Worker;
  pointer : Z;
  mShouldExit : bool;
  mEventApplyLoopThread : ApplyPc * bool;
  control : list Control;
}.

(** [ExecutionServiceImpl::start] on new workers with queues [qs]. *)
Definition start_workers (qs : list Q) : option (list Worker) := mapM (fun q => start (new_worker q)) qs.

(** The workers start, and then [startEventApplyLoop]. *)
Definition started (qs : list Q) : option Threads :=
  ws ← start_workers qs;
  Some (mkThreads ws 0 false (RunTest, true) []).

(** [ExecutionServiceImpl::shutdown]: every worker is stopped, then every worker is joined. *)
Definition stops (n : nat) : list Control := concat ((fun i => [StopQueue i; StopRunning i]) <$> seq 0 n).
Definition joins (n : nat) : list Control := Join <$> seq 0 n.
Definition shutdown_program (n : nat) : list Control := stops n ++ joins n.

(** [KVEngineImpl::Destroy] *)
Definition Destroy_program (n : nat) : list Control := shutdown_program n ++ [ExitApply; JoinApply].

Definition set_workers (ws : list Worker) (s : Threads) : Threads :=
  mkThreads ws (pointer s) (mShouldExit s) (mEventApplyLoopThread s) (control s).
Definition set_control (l : list Control) (s : Threads) : Threads :=
  mkThreads (workers s) (pointer s) (mShouldExit s) (mEventApplyLoopThread s) l.
Definition set_apply (p : ApplyPc * bool) (s : Threads) : Threads :=
  mkThreads (workers s) (pointer s) (mShouldExit s) p (control s).
Definition set_exit (s : Threads) : Threads :=
  mkThreads (workers s) (pointer s) true (mEventApplyLoopThread s) (control s).

(** A step of the thread in [Destroy]: it goes on, waits, or is thrown at: [std::thread::join] of a thread that is not joinable
    throws. *)
Inductive Controlled := Next (s : Threads) | Waits | Throws.

Definition on_worker (i : nat) (f : Worker -> option Worker) (s : Threads) : option Threads :=
  match workers s !! i with
  | Some w => w' ← f w; Some (set_workers (<[i := w']> (workers s)) s)
  | None => Some s
  end.

Definition control_step (s : Threads) : Controlled :=
  match control s with
  | [] => Waits
  | a :: rest =>
      let s := set_control rest s in
      let next o := match o with Some s => Next s | None => Waits end in
      match a with
      | StopQueue i => next (on_worker i (fun w => Some (stop_queue w)) s)
      | StopRunning i => next (on_worker i (fun w => Some (stop_running w)) s)
      | Join i => next (on_worker i join s)
      | ExitApply => Next (set_exit s)
      | JoinApply => match mEventApplyLoopThread s with
                     | (RunEnded, true) => Next (set_apply (RunEnded, false) s)
                     | (_, true) => Waits
                     | (_, false) => Throws
                     end
      end
  end.

(** The next step of the apply loop; every round of it comes to an end. *)
Definition apply_step (s : Threads) : option Threads :=
  match mEventApplyLoopThread s with
  | (RunTest, true) => Some (set_apply (if mShouldExit s then RunEnded else InRound, true) s)
  | (InRound, true) => Some (set_apply (RunTest, true) s)
  | _ => None
  end.

(** [ExecutionServiceImpl::submit] by any thread; refused or not. *)
Definition submit_step (x : T) (s : Threads) : option Threads :=
  let i := getQueueId (pointer s) (length (workers s)) in
  w ← workers s !! i;
  Some (mkThreads (<[i := (submit_to x w).1]> (workers s)) (u64 (pointer s + 1)) (mShouldExit s) (mEventApplyLoopThread s) (control s)).

(** What the engine does by itself, what its clients do, and a call of [Destroy]. *)
Inductive work : Threads -> Threads -> Prop :=
| w_worker s i threw w w' : workers s !! i = Some w -> worker_step threw w = Some w' -> work s (set_workers (<[i := w']> (workers s)) s)
| w_apply s s' : mShouldExit s = true -> apply_step s = Some s' -> work s s'
| w_control s s' : control_step s = Next s' -> work s s'.

Inductive idle : Threads -> Threads -> Prop :=
| i_apply s s' : mShouldExit s = false -> apply_step s = Some s' -> idle s s'
| i_submit s x s' : submit_step x s = Some s' -> idle s s'.

Inductive step : Threads -> Threads -> Prop :=
| s_work s s' : work s s' -> step s s'
| s_idle s s' : idle s s' -> step s s'
| s_destroy s : control s = [] -> step s (set_control (Destroy_program (length (workers s))) s).

(** ** Invariant *)

Context `{!MpscQueueLaws T Q} `{!QueueShutdownLaws T Q}.

Definition current (w : Worker) : list T := match mThread w with Some (Processing x, _) => [x] | _ => [] end.

Definition joined (w : Worker) : Prop := match mThread w with Some (Ended, false) | None => True | _ => False end.

(** The tasks of a worker are processed in the order the queue took them, and only a thread that has ended was joined. *)
Record worker_ok (w : Worker) : Prop := {
  wo_order : taken w = processed w ++ current w ++ contents (mQueue (base w));
  wo_joinable p : mThread w = Some (p, false) -> p = Ended;
}.

(** What [Destroy] has brought about, once it does not have to do it any more. *)
Record worker_settled (todo : list Control) (i : nat) (w : Worker) : Prop := {
  ws_ok : worker_ok w;
  ws_queue : StopQueue i ∉ todo -> running (mQueue (base w)) = false;
  ws_running : StopRunning i ∉ todo -> mRunning w = false;
  ws_join : Join i ∉ todo -> joined w;
}.

Record settled (s : Threads) : Prop := {
  st_control : exists k, control s = drop k (Destroy_program (length (workers s)));
  st_worker i w : workers s !! i = Some w -> worker_settled (control s) i w;
  st_exit : ExitApply ∉ control s -> mShouldExit s = true;
  st_apply : JoinApply ∉ control s -> mEventApplyLoopThread s = (RunEnded, false);
}.

Lemma worker_step_ok threw w w' : worker_step threw w = Some w' -> worker_ok w ->
  worker_ok w' /\ ~ joined w /\ running (mQueue (base w')) = running (mQueue (base w)) /\ mRunning w' = mRunning w.
Proof.
  intros H [Ho Hj]. unfold worker_step in H. unfold joined, current in *. destruct w as [b r [[[| |x|] [|]]|] tk pr]; cbn in *; try done.
  - injection H as <-. split; [|naive_solver]. split; [|done]. unfold current. cbn. by destruct r; rewrite app_nil_r.
  - destruct (dequeue (mQueue b)) as [x q| |] eqn:E; [|injection H as <-|done].
    + apply dequeue_item in E as [E1 E2]. injection H as <-. split; [|naive_solver]. split; [|done].
      unfold current. cbn. by rewrite app_nil_r, Ho, E1.
    + split; [|naive_solver]. split; [|done]. unfold current. cbn. by rewrite app_nil_r.
  - destruct threw; injection H as <-; (split; [|naive_solver]; split; [|done]; unfold current; cbn; by rewrite <- app_assoc).
Qed.

Lemma submit_to_ok x w : worker_ok w ->
  worker_ok (submit_to x w).1 /\ mThread (submit_to x w).1 = mThread w /\ mRunning (submit_to x w).1 = mRunning w /\
  running (mQueue (base (submit_to x w).1)) = running (mQueue (base w)) /\ (submit_to x w).2 = running (mQueue (base w)).
Proof.
  intros [Ho Hj]. unfold submit_to, submit_worker. destruct (running (mQueue (base w))) eqn:Hr.
  - destruct (enqueue_running x _ Hr) as (q & E & Hc & Hq). rewrite E. cbn. split_and!; [|done..]. split; cbn; [|done].
    unfold current in *. cbn. by rewrite Ho, Hc, <- !app_assoc.
  - rewrite (enqueue_stopped x _ Hr). cbn. split_and!; [|done..]. by split.
Qed.

Lemma stop_queue_ok w : worker_ok w -> worker_ok (stop_queue w).
Proof. intros [Ho Hj]. split; cbn; [by rewrite shutdown_contents|done]. Qed.

Lemma stop_running_ok w : worker_ok w -> worker_ok (stop_running w).
Proof. intros [Ho Hj]. by split. Qed.

Lemma join_ok w w' : join w = Some w' -> worker_ok w ->
  worker_ok w' /\ joined w' /\ running (mQueue (base w')) = running (mQueue (base w)) /\ mRunning w' = mRunning w.
Proof.
  intros H [Ho Hj]. unfold join in H. unfold joined. destruct w as [b r [[p [|]]|] tk pr]; cbn in *.
  - destruct p; try done. injection H as <-. split; [|done]. by split; cbn; [|intros p [= <-]].
  - pose proof (Hj p eq_refl) as ->. injection H as <-. split; [|done]. by split.
  - injection H as <-. split; [|done]. by split.
Qed.

Lemma worker_settled_cons a l i w :
  worker_settled (a :: l) i w -> a <> StopQueue i -> a <> StopRunning i -> a <> Join i -> worker_settled l i w.
Proof. intros [H1 H2 H3 H4] E1 E2 E3. split; [done|..]; intros H; [apply H2|apply H3|apply H4]; by apply not_elem_of_cons. Qed.

(** One worker changes, and nothing else. *)
Lemma settled_worker s i w w' : settled s -> workers s !! i = Some w -> (worker_settled (control s) i w -> worker_settled (control s) i w') ->
  settled (set_workers (<[i := w']> (workers s)) s).
Proof.
  intros [Hc Hw He Ha] Hi H. split; cbn; [by rewrite length_insert| |done..]. intros j wj Hj.
  apply list_lookup_insert_Some in Hj as [(<- & <- & _)|[_ Hj]]; [by apply H, Hw|by apply Hw].
Qed.

Lemma worker_step_settled threw l i w w' : worker_step threw w = Some w' -> worker_settled l i w -> worker_settled l i w'.
Proof.
  intros H [H1 H2 H3 H4]. destruct (worker_step_ok threw w w' H H1) as (Hok & Hj & Hr & Hm).
  split; [done|by rewrite Hr|by rewrite Hm|]. intros Hn. destruct Hj. by apply H4.
Qed.

Lemma submit_to_settled x l i w : worker_settled l i w -> worker_settled l i (submit_to x w).1.
Proof.
  intros [H1 H2 H3 H4]. destruct (submit_to_ok x w H1) as (Hok & Ht & Hm & Hr & _). split; [done|by rewrite Hr|by rewrite Hm|].
  unfold joined. by rewrite Ht.
Qed.

(** The thread in [Destroy] has done [a]. *)
Lemma settled_next s a rest ws' : settled s -> control s = a :: rest -> length ws' = length (workers s) ->
  (forall i w', ws' !! i = Some w' -> worker_settled rest i w') ->
  (a = ExitApply -> mShouldExit s = true) -> (a = JoinApply -> mEventApplyLoopThread s = (RunEnded, false)) ->
  settled (set_control rest (set_workers ws' s)).
Proof.
  intros [[k Hk] Hw He Ha] E Hl Hws Hex Hap. rewrite E in *. split; cbn.
  - exists (k + 1)%nat. rewrite Hl. pose proof (drop_drop (Destroy_program (length (workers s))) 1 k) as D. by rewrite <- Hk in D.
  - done.
  - intros H. destruct (decide (a = ExitApply)) as [->|Hn]; [by apply Hex|]. apply He. by apply not_elem_of_cons.
  - intros H. destruct (decide (a = JoinApply)) as [->|Hn]; [by apply Hap|]. apply Ha. by apply not_elem_of_cons.
Qed.

Lemma on_worker_inv i f s s' : on_worker i f s = Some s' ->
  exists ws', s' = set_workers ws' s /\ length ws' = length (workers s) /\
    forall j w', ws' !! j = Some w' -> exists w, workers s !! j = Some w /\ (if bool_decide (j = i) then f w = Some w' else w' = w).
Proof.
  unfold on_worker. destruct (workers s !! i) as [w|] eqn:E; cbn.
  - destruct (f w) as [w'|] eqn:Ef; cbn; [|done]. intros [= <-]. exists (<[i := w']> (workers s)). split; [done|]. split; [apply length_insert|].
    intros j wj Hj. apply list_lookup_insert_Some in Hj as [(<- & <- & _)|[Hn Hj]].
    + exists w. by rewrite bool_decide_eq_true_2.
    + exists wj. by rewrite bool_decide_eq_false_2.
  - intros [= <-]. exists (workers s). split; [by destruct s|]. split; [done|]. intros j w' Hj. exists w'. split; [done|].
    case_bool_decide; congruence.
Qed.

Lemma settled_on_worker s a rest i f s' : settled s -> control s = a :: rest -> a <> ExitApply -> a <> JoinApply ->
  (forall j, j <> i -> a <> StopQueue j /\ a <> StopRunning j /\ a <> Join j) ->
  (forall w w', f w = Some w' -> worker_settled (a :: rest) i w -> worker_settled rest i w') ->
  on_worker i f (set_control rest s) = Some s' -> settled s'.
Proof.
  intros Hs E H1 H2 Hj Hf H. apply on_worker_inv in H as (ws' & -> & Hl & Hw). pose proof (settled_next s a rest ws' Hs E Hl) as Hn.
  apply Hn; [|done..]. intros j w' Hw'. apply Hw in Hw' as (w & Hw1 & Hw2). pose proof (st_worker s Hs j w Hw1) as Hsw. rewrite E in Hsw.
  case_bool_decide as Hji; [subst; by eapply Hf|subst]. destruct (Hj j Hji) as (?&?&?). by eapply worker_settled_cons.
Qed.

Lemma settled_control s s' : settled s -> control_step s = Next s' -> settled s'.
Proof.
  intros Hs. unfold control_step. destruct (control s) as [|a rest] eqn:E; [done|]. destruct a as [i|i|i| |]; cbn beta iota.
  - destruct (on_worker i _ _) as [s1|] eqn:H; [|done]. intros [= <-]. eapply settled_on_worker; [done|done|done|done| | |exact H]; [naive_solver|].
    intros w w' [= <-] [H1 H2 H3 H4]. split; cbn; [by apply stop_queue_ok|by rewrite shutdown_stops|..]; intros Hn; [apply H3|apply H4]; by apply not_elem_of_cons.
  - destruct (on_worker i _ _) as [s1|] eqn:H; [|done]. intros [= <-]. eapply settled_on_worker; [done|done|done|done| | |exact H]; [naive_solver|].
    intros w w' [= <-] [H1 H2 H3 H4]. split; cbn; [by apply stop_running_ok| |done|]; intros Hn; [apply H2|apply H4]; by apply not_elem_of_cons.
  - destruct (on_worker i _ _) as [s1|] eqn:H; [|done]. intros [= <-]. eapply settled_on_worker; [done|done|done|done| | |exact H]; [naive_solver|].
    intros w w' Hjn [H1 H2 H3 H4]. destruct (join_ok w w' Hjn H1) as (Hok & Hjd & Hr & Hm).
    split; [done|rewrite Hr|rewrite Hm|done]; intros Hn; [apply H2|apply H3]; by apply not_elem_of_cons.
  - intros [= <-]. pose proof (settled_next (set_exit s) ExitApply rest (workers s)) as Hn. apply Hn; try done.
    + destruct Hs as [Hc Hw He Ha]. by split.
    + intros i w Hi. pose proof (st_worker s Hs i w Hi) as Hw. rewrite E in Hw. by eapply worker_settled_cons.
  - destruct (mEventApplyLoopThread s) as [p j] eqn:Ep. cbn. rewrite Ep.
    destruct p, j; try done. intros [= <-]. pose proof (settled_next (set_apply (RunEnded, false) s) JoinApply rest (workers s)) as Hn. apply Hn; try done.
    + destruct Hs as [Hc Hw He Ha]. by split.
    + intros i w Hi. pose proof (st_worker s Hs i w Hi) as Hw. rewrite E in Hw. by eapply worker_settled_cons.
Qed.

Lemma settled_apply s s' : settled s -> apply_step s = Some s' -> settled s'.
Proof.
  intros [Hc Hw He Ha] H. unfold apply_step in H. destruct (mEventApplyLoopThread s) as [p j] eqn:E.
  destruct p, j; try done; injection H as <-; split; cbn; try done; intros Hn; by apply Ha in Hn.
Qed.

Lemma settled_submit x s s' : settled s -> submit_step x s = Some s' -> settled s'.
Proof.
  intros Hs H. unfold submit_step in H. set (i := getQueueId _ _) in H. destruct (workers s !! i) as [w|] eqn:E; cbn in H; [|done].
  injection H as <-. destruct (settled_worker s i w (submit_to x w).1 Hs E (submit_to_settled x _ i w)) as [Hc Hw He Ha]. by split.
Qed.

Lemma settled_destroyed s : Forall worker_ok (workers s) -> settled (set_control (Destroy_program (length (workers s))) s).
Proof.
  intros Hw. assert (forall i, (i < length (workers s))%nat -> StopQueue i ∈ stops (length (workers s)) /\ StopRunning i ∈ stops (length (workers s)) /\ Join i ∈ joins (length (workers s))) as H.
  { intros i Hi. unfold stops, joins. rewrite !list_elem_of_In, !in_concat, in_map_iff.
    split_and!; [exists [StopQueue i; StopRunning i]..|exists i]; rewrite <- ?list_elem_of_In, ?list_elem_of_fmap, ?elem_of_seq; (split; [try done; try (exists i; rewrite elem_of_seq)|]); set_solver by lia. }
  unfold Destroy_program, shutdown_program. split; cbn; [by exists O| |set_solver..]. intros i w Hi. pose proof (lookup_lt_Some _ _ _ Hi) as Hlt.
  destruct (H i Hlt) as (H1 & H2 & H3). split; [by eapply Forall_lookup_1|set_solver..].
Qed.

(** ** [Destroy] returns *)

(** Where the thread in [Destroy] stands. *)
Lemma drop_app_cons {A} k (l1 l2 : list A) a rest : drop k (l1 ++ l2) = a :: rest ->
  a ∈ l1 \/ exists k', drop k' l2 = a :: rest.
Proof.
  rewrite skipn_app. destruct (drop k l1) as [|b r] eqn:E; cbn; intros H; [right; eauto|]. injection H as -> _. left.
  rewrite <- (take_drop k l1), E. set_solver.
Qed.

Lemma drop_subset {A} k (l l' : list A) : drop k l = l' -> forall x, x ∈ l' -> x ∈ l.
Proof. intros <- x. rewrite <- (take_drop k l) at 2. set_solver. Qed.

Lemma stops_elem n a : a ∈ stops n -> exists i, a = StopQueue i \/ a = StopRunning i.
Proof.
  unfold stops. rewrite list_elem_of_In, in_concat. intros (l & Hl & Ha). apply list_elem_of_In, list_elem_of_fmap in Hl as (i & -> & _).
  exists i. apply list_elem_of_In in Ha. set_solver.
Qed.

Lemma joins_elem n a : a ∈ joins n -> exists i, a = Join i.
Proof. unfold joins. intros (i & -> & _)%list_elem_of_fmap. by exists i. Qed.

Lemma nothing_to_stop k n a rest : drop k (Destroy_program n) = a :: rest -> (forall i, a <> StopQueue i /\ a <> StopRunning i) ->
  forall j, (StopQueue j ∉ rest) /\ (StopRunning j ∉ rest).
Proof.
  unfold Destroy_program, shutdown_program. rewrite <- app_assoc. intros H Ha j. apply drop_app_cons in H as [H|[k' H]].
  { apply stops_elem in H as (i & Hi). destruct (Ha i), Hi; congruence. }
  pose proof (drop_subset _ _ _ H) as Hs.
  split; intros Hin; specialize (Hs _ (list_elem_of_further _ _ _ Hin)); apply elem_of_app in Hs as [[? ?]%joins_elem|Hs]; [done|set_solver|done|set_solver].
Qed.

Lemma apply_joined_last k n rest : drop k (Destroy_program n) = JoinApply :: rest -> rest = [].
Proof.
  unfold Destroy_program, shutdown_program. replace [ExitApply; JoinApply] with ([ExitApply] ++ [JoinApply]) by done. rewrite app_assoc.
  intros [H|[[|k'] H]]%drop_app_cons; [|by injection H|by destruct k'].
  rewrite !elem_of_app in H. destruct H as [[(? & [?|?])%stops_elem|(? & ?)%joins_elem]|H]; [done..|set_solver].
Qed.

(** No worker has to be stopped any more. *)
Definition stopped (s : Threads) : Prop := forall i, (StopQueue i ∉ control s) /\ (StopRunning i ∉ control s).

(** How many steps the threads take at most. *)
Definition wrank (w : Worker) : nat :=
  match mThread w with Some (InLoop, true) => 3 | Some (Processing _, true) => 2 | Some (AtTest, true) => 1 | _ => 0 end.
Definition arank (s : Threads) : nat :=
  if mShouldExit s then match mEventApplyLoopThread s with (InRound, true) => 2 | (RunTest, true) => 1 | _ => 0 end else 2.
Definition rank (s : Threads) : nat := sum_list_with wrank (workers s) + arank s + length (control s).

Lemma worker_rank threw w w' : worker_step threw w = Some w' -> mRunning w = false -> (wrank w' < wrank w)%nat.
Proof.
  unfold worker_step, wrank. intros H Hr. rewrite Hr in H. destruct (mThread w) as [[[| |x|] [|]]|]; try done.
  - injection H as <-. cbn. lia.
  - destruct (dequeue _); try done; injection H as <-; cbn; lia.
  - destruct threw; injection H as <-; cbn; lia.
Qed.

Lemma join_rank w w' : join w = Some w' -> (wrank w' <= wrank w)%nat.
Proof. unfold join, wrank. destruct w as [b r [[[| |x|] [|]]|] tk pr]; cbn; intros [= <-]; cbn; lia. Qed.


Lemma settled_step s s' : settled s -> work s s' \/ idle s s' -> settled s'.
Proof.
  intros Hs [H|H]; destruct H as [s i threw w w' Hi Hw|s s' Hx Ha|s s' Hc] || destruct H as [s s' Hx Ha|s x s' Hx].
  - eapply settled_worker; [done..|]. by eapply worker_step_settled.
  - by eapply settled_apply.
  - by eapply settled_control.
  - by eapply settled_apply.
  - by eapply settled_submit.
Qed.

Lemma stopped_control s s' : settled s -> stopped s -> control_step s = Next s' -> stopped s' /\ (rank s' < rank s)%nat.
Proof.
  intros Hs Hst. pose proof Hst as Hst'. unfold stopped, rank in *. unfold control_step. destruct (control s) as [|a rest] eqn:E; [done|].
  assert (forall i, (StopQueue i ∉ rest) /\ (StopRunning i ∉ rest)) as Hr by (intros i; specialize (Hst i); set_solver).
  destruct a as [i|i|i| |]; cbn beta iota.
  - destruct (Hst i). set_solver.
  - destruct (Hst i). set_solver.
  - unfold on_worker. cbn [workers set_control]. destruct (workers s !! i) as [w|] eqn:Ew; cbn.
    + destruct (join w) as [w'|] eqn:Ej; cbn; intros [= <-]. cbn. split; [done|]. pose proof (sum_insert wrank i w w' _ Ew). pose proof (join_rank w w' Ej).
      unfold arank. cbn. lia.
    + intros [= <-]. cbn. split; [done|]. unfold arank. cbn. lia.
  - intros [= <-]. cbn. split; [done|]. unfold arank. cbn. destruct (mEventApplyLoopThread s) as [[] []], (mShouldExit s); lia.
  - unfold set_control. cbn. destruct (mEventApplyLoopThread s) as [p j] eqn:Ep. destruct p, j; try done. intros [= <-]. cbn. split; [done|].
    unfold arank. cbn. rewrite Ep. destruct (mShouldExit s); lia.
Qed.

Lemma stopped_work s s' : settled s -> stopped s -> work s s' -> stopped s' /\ (rank s' < rank s)%nat.
Proof.
  intros Hs Hst H. destruct H as [s i threw w w' Hi Hw|s s' Hx Ha|s s' Hc]; [| |by apply stopped_control].
  - split; [exact Hst|]. pose proof (worker_rank threw w w' Hw (ws_running _ _ _ (st_worker s Hs i w Hi) (proj2 (Hst i)))).
    pose proof (sum_insert wrank i w w' _ Hi). unfold rank, arank. cbn. lia.
  - unfold apply_step in Ha. unfold rank, arank. destruct (mEventApplyLoopThread s) as [[] []] eqn:E; try done; injection Ha as <-; cbn; rewrite Hx; (split; [exact Hst|]); lia.
Qed.

Lemma stopped_idle s s' : settled s -> stopped s -> idle s s' -> stopped s' /\ rank s' = rank s.
Proof.
  intros Hs Hst H. destruct H as [s s' Hx Ha|s x s' Hx].
  - unfold apply_step in Ha. unfold rank, arank. destruct (mEventApplyLoopThread s) as [[] []]; try done; injection Ha as <-; cbn; rewrite Hx; (split; [exact Hst|]); lia.
  - unfold submit_step in Hx. set (i := getQueueId _ _) in Hx. destruct (workers s !! i) as [w|] eqn:E; cbn in Hx; [|done]. injection Hx as <-.
    split; [exact Hst|]. pose proof (sum_insert wrank i w (submit_to x w).1 _ E). destruct (submit_to_ok x w (ws_ok _ _ _ (st_worker s Hs i w E))) as (_ & Ht & _).
    assert (wrank (submit_to x w).1 = wrank w) by (unfold wrank; by rewrite Ht). unfold rank, arank. cbn. lia.
Qed.

Definition run_step (s s' : Threads) : Prop := work s s' \/ idle s s'.

(** Before [Destroy], and while it has not joined the apply loop. *)
Definition live (s : Threads) : Prop := Forall worker_ok (workers s) /\ control s = [] /\ (mEventApplyLoopThread s).2 = true.
Definition joinable (s : Threads) : Prop := JoinApply ∈ control s -> (mEventApplyLoopThread s).2 = true.

Lemma apply_step_joinable s s' : apply_step s = Some s' -> (mEventApplyLoopThread s').2 = true /\ control s' = control s /\ workers s' = workers s.
Proof. unfold apply_step. destruct (mEventApplyLoopThread s) as [[] []]; intros [= <-]; done. Qed.

Lemma submit_step_inv x s s' : submit_step x s = Some s' -> exists i w, workers s !! i = Some w /\ workers s' = <[i := (submit_to x w).1]> (workers s) /\
  control s' = control s /\ mEventApplyLoopThread s' = mEventApplyLoopThread s.
Proof.
  unfold submit_step. set (i := getQueueId _ _). intros H. destruct (workers s !! i) as [w|] eqn:E; cbn in H; [|done]. injection H as <-. by exists i, w.
Qed.

Lemma live_run s s' : rtc run_step s s' -> live s -> live s'.
Proof.
  induction 1 as [|s s1 s2 H _ IH]; [done|]. intros (Hw & Hc & Hj). apply IH. clear IH.
  destruct H as [H|H]; [destruct H as [s i threw w w' Hi Hw'|s s' Hx Ha|s s' Hs]|destruct H as [s s' Hx Ha|s x s' Hx]].
  - split_and!; [|done..]. cbn. apply Forall_insert; [done|]. eapply worker_step_ok; [done|]. by eapply Forall_lookup_1.
  - apply apply_step_joinable in Ha as (? & E1 & E2). unfold live. by rewrite E1, E2.
  - unfold control_step in Hs. by rewrite Hc in Hs.
  - apply apply_step_joinable in Ha as (? & E1 & E2). unfold live. by rewrite E1, E2.
  - apply submit_step_inv in Hx as (i & w & Hi & E1 & E2 & E3). unfold live. rewrite E1, E2, E3. split_and!; [|done..].
    apply Forall_insert; [done|]. apply submit_to_ok. by eapply Forall_lookup_1.
Qed.

Lemma control_step_inv s s' : control_step s = Next s' -> exists a, control s = a :: control s' /\
  (a <> JoinApply -> mEventApplyLoopThread s' = mEventApplyLoopThread s) /\ (a = JoinApply -> (mEventApplyLoopThread s).2 = true).
Proof.
  unfold control_step. destruct (control s) as [|a rest]; [done|]. destruct a as [i|i|i| |]; cbn beta iota.
  1-3: destruct (on_worker i _ _) as [s1|] eqn:H; [|done]; intros [= <-]; apply on_worker_inv in H as (ws & -> & _); by eexists.
  - intros [= <-]. by eexists.
  - cbn. destruct (mEventApplyLoopThread s) as [[] []] eqn:E; try done. intros [= <-]. by eexists.
Qed.

Lemma joinable_run s s' : rtc run_step s s' -> settled s -> joinable s -> settled s' /\ joinable s'.
Proof.
  induction 1 as [|s s1 s2 H _ IH]; [done|]. intros Hs Hj. apply IH; [by eapply settled_step|]. clear IH. unfold joinable in *.
  destruct H as [H|H]; [destruct H as [s i threw w w' Hi Hw'|s s' Hx Ha|s s' Hc]|destruct H as [s s' Hx Ha|s x s' Hx]].
  - done.
  - by apply apply_step_joinable in Ha as (? & E1 & E2).
  - apply control_step_inv in Hc as (a & Ea & Hn & _). intros Hin. destruct (decide (a = JoinApply)) as [->|Ha].
    + destruct (st_control s Hs) as [k Hk]. rewrite Ea in Hk. symmetry in Hk. apply apply_joined_last in Hk. rewrite Hk in Hin. by apply not_elem_of_nil in Hin.
    + rewrite (Hn Ha). apply Hj. rewrite Ea. by right.
  - by apply apply_step_joinable in Ha as (? & E1 & E2).
  - apply submit_step_inv in Hx as (i & w & Hi & E1 & E2 & E3). by rewrite E2, E3.
Qed.

Lemma started_live qs s : Forall (fun q => contents q = []) qs -> started qs = Some s -> live s.
Proof.
  intros Hq H. unfold started, start_workers in H. destruct (mapM _ qs) as [ws|] eqn:E; cbn in H; [|done]. injection H as <-. split_and!; cbn; [|done..].
  apply mapM_Some in E. revert Hq. induction E as [|q w qs ws Hw _ IH]; intros Hq; [done|]. apply Forall_cons in Hq as [Hq Hqs].
  injection Hw as <-. constructor; [|by apply IH]. split; cbn; [by rewrite Hq|done].
Qed.

(** A thread in [Destroy] waits only for threads that can go on. *)
Lemma worker_progress w p : mThread w = Some (p, true) -> p <> Ended -> running (mQueue (base w)) = false -> exists w', worker_step false w = Some w'.
Proof.
  intros Et Hp Hr. unfold worker_step. rewrite Et. destruct p; [by eexists| |by eexists|done].
  pose proof (dequeue_stopped _ Hr). destruct (dequeue _); [by eexists..|done].
Qed.

Lemma join_progress s i w rest : settled s -> control s = Join i :: rest -> workers s !! i = Some w -> join w = None -> exists s', work s s'.
Proof.
  intros Hs Ec Ew Ej. destruct (st_control s Hs) as [k Hk]. rewrite Ec in Hk. symmetry in Hk.
  destruct (nothing_to_stop _ _ _ _ Hk ltac:(done) i) as [H1 _]. unfold join in Ej. destruct (mThread w) as [[p [|]]|] eqn:Et; [|by destruct p|done].
  destruct (worker_progress w p Et) as [w' Hw']; [by intros ->| |eexists; by eapply w_worker].
  apply (ws_queue _ _ _ (st_worker s Hs i w Ew)). rewrite Ec. by apply not_elem_of_cons.
Qed.

Lemma apply_progress s rest : settled s -> joinable s -> control s = JoinApply :: rest -> exists s', work s s'.
Proof.
  intros Hs Hj Ec. destruct (st_control s Hs) as [k Hk]. rewrite Ec in Hk. symmetry in Hk. apply apply_joined_last in Hk as ->.
  assert (mShouldExit s = true) as Hx by (apply (st_exit s Hs); rewrite Ec; set_solver). pose proof (Hj ltac:(rewrite Ec; left)) as Hjn.
  destruct (mEventApplyLoopThread s) as [p j] eqn:Ep. cbn in Hjn. subst j. destruct p.
  1-2: eexists; apply w_apply; [done|]; unfold apply_step; by rewrite Ep.
  eexists. apply w_control. unfold control_step. rewrite Ec. cbn. by rewrite Ep.
Qed.

Lemma on_worker_total i f s : (forall w, workers s !! i = Some w -> is_Some (f w)) -> is_Some (on_worker i f s).
Proof. intros H. unfold on_worker. destruct (workers s !! i) as [w|]; [|by eexists]. destruct (H w eq_refl) as [w' ->]. by eexists. Qed.

Lemma destroy_progress s : settled s -> joinable s -> control s <> [] -> exists s', work s s'.
Proof.
  intros Hs Hj Hne. destruct (control s) as [|a rest] eqn:Ec; [done|].
  assert (forall i f, is_Some (on_worker i f (set_control rest s)) ->
    match on_worker i f (set_control rest s) with Some s' => Next s' | None => Waits end = control_step s -> exists s', work s s') as Hgo.
  { intros i f [s' Hs'] E. rewrite Hs' in E. exists s'. by apply w_control. }
  destruct a as [i|i|i| |]; [| | | |by eapply apply_progress].
  - eapply (Hgo i (fun w => Some (stop_queue w))); [by apply on_worker_total|]. unfold control_step. by rewrite Ec.
  - eapply (Hgo i (fun w => Some (stop_running w))); [by apply on_worker_total|]. unfold control_step. by rewrite Ec.
  - destruct (workers s !! i) as [w|] eqn:Ew; [destruct (join w) as [w'|] eqn:Ej; [|by eapply join_progress]|].
    all: eapply (Hgo i join); [apply on_worker_total; cbn; rewrite Ew; intros ? [= <-]; by eexists|unfold control_step; by rewrite Ec].
  - eexists. apply w_control. unfold control_step. by rewrite Ec.
Qed.

Lemma returned_still s : settled s -> control s = [] ->
  Forall joined (workers s) /\ mEventApplyLoopThread s = (RunEnded, false) /\ (forall s', ~ work s s') /\
  forall i w x, workers s !! i = Some w -> (submit_to x w).2 = false.
Proof.
  intros Hs Hc. assert (forall i w, workers s !! i = Some w -> joined w) as Hjn.
  { intros i w Hi. apply (ws_join _ _ _ (st_worker s Hs i w Hi)). rewrite Hc. apply not_elem_of_nil. }
  assert (mEventApplyLoopThread s = (RunEnded, false)) as Ha by (apply (st_apply s Hs); rewrite Hc; apply not_elem_of_nil).
  split_and!; [by apply Forall_lookup_2|done| |].
  - intros s' H. destruct H as [s i threw w w' Hi Hw|s s' Hx Hap|s s' Hcs].
    + destruct (worker_step_ok threw w w' Hw (ws_ok _ _ _ (st_worker s Hs i w Hi))) as (_ & Hn & _). by destruct Hn; apply (Hjn i).
    + unfold apply_step in Hap. by rewrite Ha in Hap.
    + unfold control_step in Hcs. by rewrite Hc in Hcs.
  - intros i w x Hi. destruct (submit_to_ok x w (ws_ok _ _ _ (st_worker s Hs i w Hi))) as (_ & _ & _ & _ & ->).
    apply (ws_queue _ _ _ (st_worker s Hs i w Hi)). rewrite Hc. apply not_elem_of_nil.
Qed.

Lemma idle_run s s' : rtc idle s s' -> settled s -> stopped s -> settled s' /\ stopped s' /\ rank s' = rank s.
Proof.
  induction 1 as [|s s1 s2 H _ IH]; [done|]. intros Hs Hst. destruct (stopped_idle s s1 Hs Hst H) as [H1 H2].
  destruct IH as (H3 & H4 & H5); [by eapply settled_step; [|right]|done|]. split_and!; [done|done|congruence].
Qed.

(** The work left, whatever the clients do meanwhile. *)
Lemma work_bounded n : forall s s', nsteps (fun a b => exists a', rtc idle a a' /\ work a' b) n s s' -> settled s -> stopped s -> (n <= rank s)%nat.
Proof.
  induction n as [|n IH]; intros s s' H Hs Hst; [lia|]. inversion H as [|? ? s1 ? (a & Hi & Hw) Hn]; subst.
  destruct (idle_run s a Hi Hs Hst) as (Hs1 & Hst1 & Hr). destruct (stopped_work a s1 Hs1 Hst1 Hw) as [Hst2 Hlt].
  assert (n <= rank s1)%nat by (eapply IH; [done|eapply settled_step; [done|by left]|done]). lia.
Qed.

(** While a worker is still to be told to stop, the thread in [Destroy] does not wait. *)
Lemma stop_progress s a rest : control s = a :: rest -> (forall i, a <> Join i) -> a <> JoinApply -> exists s', control_step s = Next s'.
Proof.
  intros Ec Hj Ha. unfold control_step. rewrite Ec. destruct a as [i|i|i| |]; [| |by destruct (Hj i)|by eexists|done].
  - destruct (on_worker_total i (fun w => Some (stop_queue w)) (set_control rest s)) as [s' Hs']; [by eexists|]. exists s'. cbn beta iota. by rewrite Hs'.
  - destruct (on_worker_total i (fun w => Some (stop_running w)) (set_control rest s)) as [s' Hs']; [by eexists|]. exists s'. cbn beta iota. by rewrite Hs'.
Qed.

Lemma stopped_or_next s : settled s -> stopped s \/ exists s', control_step s = Next s'.
Proof.
  intros Hs. destruct (control s) as [|a rest] eqn:Ec; [left; intros i; rewrite Ec; by split; apply not_elem_of_nil|].
  destruct (st_control s Hs) as [k Hk]. rewrite Ec in Hk. symmetry in Hk.
  assert ((forall i, a <> StopQueue i /\ a <> StopRunning i) -> stopped s) as Hst.
  { intros Ha j. rewrite Ec, !not_elem_of_cons. destruct (nothing_to_stop _ _ _ _ Hk Ha j), (Ha j). by split_and!. }
  destruct a; [right|right|left; by apply Hst|right|left; by apply Hst]; by eapply stop_progress.
Qed.

(** Some run of [Destroy] returns. *)
Lemma destroy_completes s : settled s -> joinable s -> exists s', rtc run_step s s' /\ control s' = [].
Proof.
  assert (forall n s, (rank s < n)%nat -> settled s -> joinable s -> stopped s -> exists s', rtc run_step s s' /\ control s' = []) as Hend.
  { intros n. induction n as [|n IH]; intros t Hn Hs Hj Hst; [lia|]. destruct (decide (control t = [])) as [Hc|Hc]; [exists t; by split; [apply rtc_refl|]|].
    destruct (destroy_progress t Hs Hj Hc) as [t' Hw]. destruct (stopped_work t t' Hs Hst Hw) as [Hst' Hlt].
    assert (rtc run_step t t') as Hrun by (apply rtc_once; by left). destruct (joinable_run t t' Hrun Hs Hj) as [Hs' Hj'].
    destruct (IH t' ltac:(lia) Hs' Hj' Hst') as (u & Hu & Hcu). exists u. split; [by etrans|done]. }
  enough (forall n s, length (control s) = n -> settled s -> joinable s -> exists s', rtc run_step s s' /\ control s' = []) as H by eauto.
  intros n. induction n as [|n IH]; intros t Hn Hs Hj.
  { exists t. split; [apply rtc_refl|by apply nil_length_inv]. }
  destruct (stopped_or_next t Hs) as [Hst|[t' Hc]].
  - by apply (Hend (S (rank t))); [lia|..].
  - assert (rtc run_step t t') as Hrun by (apply rtc_once; left; by apply w_control). destruct (joinable_run t t' Hrun Hs Hj) as [Hs' Hj'].
    apply control_step_inv in Hc as (a & Ea & _). rewrite Ea in Hn. injection Hn as Hn.
    destruct (IH t' Hn Hs' Hj') as (u & Hu & Hcu). exists u. split; [by etrans|done].
Qed.


(** At any time, also while the engine is being ended, every worker has processed its tasks once each and in the order its queue
    took them. *)
Theorem worker_keeps_order qs s0 s1 s i w :
  Forall (fun q => contents q = []) qs -> started qs = Some s0 -> rtc run_step s0 s1 ->
  rtc run_step (set_control (Destroy_program (length (workers s1))) s1) s -> workers s !! i = Some w ->
  taken w = processed w ++ current w ++ contents (mQueue (base w)).
Proof.
  intros Hq H0 H1 H Hi. destruct (live_run _ _ H1 (started_live _ _ Hq H0)) as (Hw & _ & Hj).
  destruct (joinable_run _ _ H (settled_destroyed s1 Hw)) as [Hs _]; [by intros _|]. apply (wo_order _ (ws_ok _ _ _ (st_worker s Hs i w Hi))).
Qed.

(** A second [Destroy] never returns: [join] of the apply loop's thread, which was joined by the first, throws. *)
Theorem destroy_twice_throws s s' :
  mEventApplyLoopThread s = (RunEnded, false) -> rtc run_step (set_control (Destroy_program (length (workers s))) s) s' -> control s' <> [].
Proof.
  intros Ha H. enough (JoinApply ∈ control s') as Hin by (intros E; rewrite E in Hin; by apply not_elem_of_nil in Hin).
  enough (JoinApply ∈ control s' /\ mEventApplyLoopThread s' = (RunEnded, false)) by naive_solver.
  remember (set_control _ s) as s0 eqn:E. assert (JoinApply ∈ control s0 /\ mEventApplyLoopThread s0 = (RunEnded, false)) as Hi.
  { subst. split; [|done]. cbn. unfold Destroy_program. set_solver. }
  clear E Ha. induction H as [|s0 s1 s2 H _ IH]; [done|]. apply IH. destruct Hi as [Hin Ha]. clear IH.
  destruct H as [H|H]; [destruct H as [s0 i threw w w' Hi Hw'|s0 s1 Hx Hap|s0 s1 Hc]|destruct H as [s0 s1 Hx Hap|s0 x s1 Hx]].
  1: done.
  1, 3: unfold apply_step in Hap; by rewrite Ha in Hap.
  - apply control_step_inv in Hc as (a & Ea & Hn & Hj). rewrite Ha in *. destruct (decide (a = JoinApply)) as [->|Hne]; [by discriminate (Hj eq_refl)|].
    rewrite Ea in Hin. split; [set_solver|by apply Hn].
  - apply submit_step_inv in Hx as (i & w & Hi & E1 & E2 & E3). by rewrite E2, E3.
Qed.

(** [Destroy] does not wait for the commands that were accepted: a worker that finds [mRunning] false leaves them in its queue, where nothing
    takes them any more, and whoever waits for their answers waits for ever. *)
Theorem accepted_commands_are_left q x :
  running q = true -> contents q = [] ->
  exists s0 s1 s w, started [q] = Some s0 /\ rtc run_step s0 s1 /\
    rtc run_step (set_control (Destroy_program 1) s1) s /\ control s = [] /\ workers s = [w] /\ taken w = [x] /\ processed w = [].
Proof.
  intros Hr Hc. destruct (enqueue_running x q Hr) as (q' & Hq & Hc' & Hr'). rewrite Hc in Hc'.
  eexists _, _, _, _. split; [reflexivity|]. split; [|split].
  - apply rtc_once. right. apply (i_submit _ x). unfold submit_step. change (getQueueId _ _) with O. unfold submit_to, submit_worker. cbn. rewrite Hq. reflexivity.
  - do 2 (eapply rtc_l; [left; apply w_control; reflexivity|]). eapply rtc_l; [left; eapply (w_worker _ 0 false); reflexivity|].
    do 2 (eapply rtc_l; [left; apply w_control; reflexivity|]). eapply rtc_l; [left; apply w_apply; reflexivity|].
    eapply rtc_l; [left; apply w_control; reflexivity|]. apply rtc_refl.
  - cbn. by split_and!.
Qed.

End Loops.
