(* ===== verification/CommandProcessor.v ===== *)
(** * Running commands

    [execution::CommandProcessor] (kv-engine/execution/CommandProcessor.h/.cpp):
    [process] makes sure the node leads the term it works in, [doExecute] runs a
    command: lock, check, execute, allocate a version and hand the events to
    raft, apply them to the store, unlock, reply. *)

From S2P Require Import Prelude Status Proto KVStore SharedMutex Lockable VersionStore Event Command.

(** [toResponseCode] *)
Definition toResponseCode (s : Status.t) : ResponseCode :=
  if Status.isOK s then RC_OK
  else if Status.isPrecondUnMatched s then RC_PRECOND_NOT_MATCHED
  else if (Status.isInvalidArg s || Status.isNotSupported s)%bool then RC_BAD_REQUEST
  else if Status.isWrongRoute s then RC_WRONG_ROUTE
  else if Status.isMigratedRoute s then RC_MIGRATED_ROUTE
  else if Status.isClientRouteOutOfDate s then RC_CLIENT_ROUTE_OUT_OF_DATE
  else if Status.isServerRouteOutOfDate s then RC_SERVER_ROUTE_OUT_OF_DATE
  else RC_GENERAL_ERROR.

Inductive RaftRole := Follower | Candidate | Leader | Learner.

#[global] Instance RaftRole_eq_dec : EqDecision RaftRole.
Proof. solve_decision. Defined.

(** What the processor asks of the rest of the engine, in order: replies sent to
    clients, tasks for the reply loop ([replyAsync]) and bundles for raft
    ([persistAsync]). A context is the command it belongs to and its response. *)
Inductive Effect (S : Type) :=
| Reply (r : Response)
| ReplyAsync (expectedIndex expectedTerm : Z) (version : VersionType) (cmd : Command S)
    (r : Response) (isFollowerReadReply : bool)
| PersistAsync (expectedTerm : Z) (version : VersionType) (cmd : Command S) (r : Response)
    (events : EventList).
Arguments Reply {S} r.
Arguments ReplyAsync {S} _ _ _ _ _ _.
Arguments PersistAsync {S} _ _ _ _ _.

Record Engine (S : Type) := mkEngine {
  mKVStorePtr : S;
  mVersionStorePtr : VersionStore;
  mCurTerm : Z;
  raftLastSentIndex : Z;
  effects : list (Effect S);
}.
Arguments mkEngine {S} _ _ _ _ _.
Arguments mKVStorePtr {S} _.
Arguments mVersionStorePtr {S} _.
Arguments mCurTerm {S} _.
Arguments raftLastSentIndex {S} _.
Arguments effects {S} _.

Section CommandProcessor.
Context {S : Type} `{!KVStore S}.

Definition set_kv (kv : S) (e : Engine S) : Engine S :=
  mkEngine kv (mVersionStorePtr e) (mCurTerm e) (raftLastSentIndex e) (effects e).

Definition in_kv {A} (m : M S A) : M (Engine S) A := zoom mKVStorePtr set_kv m.

Definition set_versions (vs : VersionStore) (e : Engine S) : Engine S :=
  mkEngine (mKVStorePtr e) vs (mCurTerm e) (raftLastSentIndex e) (effects e).

Definition emit (x : Effect S) : M (Engine S) unit :=
  modify (fun e => mkEngine (mKVStorePtr e) (mVersionStorePtr e) (mCurTerm e) (raftLastSentIndex e)
                            (effects e ++ [x])).

(** [context->initSuccessResponse(...)] *)
Definition initResponse (cmd : Command S) (events : EventList) (r : Response) : M (Engine S) Response :=
  let* e := get in
  match initSuccessResponse cmd (getCurMaxVersion (mVersionStorePtr e)) events r with
  | Some r => ret r
  | None => stop AssertFail
  end.

(** [context->fillResponseAndReply(...)] *)
Definition reply (cmd : Command S) (code : ResponseCode) (message : string) (leaderId : option Z)
    (r : Response) : M (Engine S) unit :=
  match fillResponseAndReply cmd code message leaderId r with
  | Some r => emit (Reply r)
  | None => stop AssertFail
  end.

(** The loop over the events of [doExecute]: the events to replicate, the
    version reads have to wait for, the version an import expects. *)
Definition is_nonread (e : Event) : bool :=
  match getType e with
  | READ | IMPORT => false
  | WRITE => negb (isNoOP e)
  | DELETE | APPEND => true
  end.

Definition nonReadEvents (events : EventList) : EventList := filter (fun e => is_nonread e = true) events.

Definition read_version (curMax : VersionType) (e : Event) : VersionType :=
  match e with
  | EvRead r => if (r_isNotFound r && bool_decide (r_version r = kInvalidVersion))%bool
                then curMax else r_version r
  | _ => kInvalidVersion
  end.

Definition maxReadVersion (curMax : VersionType) (events : EventList) : VersionType :=
  foldl (fun acc e => Z.max acc (read_version curMax e)) kInvalidVersion events.

Definition expectedVersion (events : EventList) : VersionType :=
  foldl (fun acc e => match e with EvImport iv _ => iv | _ => acc end) kInvalidVersion events.

(** The assertion on an import: it is the only event. *)
Definition import_alone (events : EventList) : bool :=
  forallb (fun e => match e with EvImport _ _ => bool_decide (length events = 1%nat) | _ => true end)
          events.

Fixpoint assignVersions (version : VersionType) (events : EventList) : M (Engine S) EventList :=
  match events with
  | [] => ret []
  | e :: es => let* e := assignVersion version e in
               let* es := assignVersions version es in ret (e :: es)
  end.

(** [mVersionStorePtr->allocateNextVersion(callback, expectedVersion)] with the
    callback of [doExecute]: assign the version, build the response, enqueue the
    bundle. The events come back with their version, as the shared objects they
    are. *)
Definition allocateAndPersist (cmd : Command S) (events : EventList) (r : Response)
    : M (Engine S) EventList :=
  let* e := get in
  let '(version, vs) := allocateNextVersion (expectedVersion events) (mVersionStorePtr e) in
  modify (set_versions vs) ;;;
  let* events := assignVersions version events in
  let* r := initResponse cmd events r in
  assert_ (negb (bool_decide (nonReadEvents events = []))) ;;;
  emit (PersistAsync (mCurTerm e) version cmd r (nonReadEvents events)) ;;;
  ret events.

(** The part of [doExecute] after a successful [execute]. *)
Definition dispatch (cmd : Command S) (events : EventList) (r : Response) : M (Engine S) EventList :=
  let* e := get in
  assert_ (import_alone events) ;;;
  match nonReadEvents events with
  | [] =>
      let* r := initResponse cmd events r in
      emit (ReplyAsync 0 (mCurTerm e)
              (maxReadVersion (getCurMaxVersion (mVersionStorePtr e)) events) cmd r false) ;;;
      ret events
  | _ => allocateAndPersist cmd events r
  end.

(** [assert(command->finish(mKVStorePtr, events).isOK());] *)
Definition finishCommand (cmd : Command S) (events : EventList) : M (Engine S) unit :=
  let* f := in_kv (finish cmd events) in
  assert_ (Status.isOK f).

(** The reply of a command that failed, or produced no event. *)
Definition replyDirectly (cmd : Command S) (s : Status.t) (r : Response) : M (Engine S) unit :=
  let* r := initResponse cmd [] r in
  reply cmd (toResponseCode s) (Status.getDetail s) None r.

Definition doExecute (preExecute : option (Command S -> M S Status.t)) (cmd : Command S)
    : M (Engine S) unit :=
  let* (s, r) := in_kv (prepare cmd (initialResponse cmd)) in
  if Status.isOK s then
    let* s := match preExecute with
              | Some cb => if skipPreExecuteCB cmd then ret Status.ok else in_kv (cb cmd)
              | None => ret Status.ok
              end in
    if Status.isOK s then
      let* (s, events, r) := in_kv (execute cmd r) in
      if ((Status.isOK s || Status.isNotFound s) && negb (bool_decide (length events = O)))%bool then
        let* events := dispatch cmd events r in
        finishCommand cmd events
      else
        finishCommand cmd events ;;;
        replyDirectly cmd s r
    else
      finishCommand cmd [] ;;;
      replyDirectly cmd s r
  else reply cmd (toResponseCode s) (Status.getDetail s) None r.

(** [doFollowerReadExecute]: every event is a read; a miss waits for the largest
    version allocated. *)
Definition followerReadVersion (vs : VersionStore) (events : EventList) : option VersionType :=
  foldl (fun acc e =>
    acc ← acc;
    match e with
    | EvRead r => Some (Z.max acc (if r_isNotFound r then getMaxAllocatedVersion vs else r_version r))
    | _ => None
    end) (Some kInvalidVersion) events.

Definition doFollowerReadExecute (cmd : Command S) : M (Engine S) unit :=
  let* (s, r) := in_kv (prepare cmd (initialResponse cmd)) in
  if Status.isOK s then
    let* (s, events, r) := in_kv (execute cmd r) in
    if ((Status.isOK s || Status.isNotFound s) && negb (bool_decide (length events = O)))%bool then
      let* e := get in
      match followerReadVersion (mVersionStorePtr e) events with
      | None => stop AssertFail
      | Some v =>
          let* r := initResponse cmd events r in
          emit (ReplyAsync 0 (mCurTerm e) v cmd r true) ;;;
          finishCommand cmd events
      end
    else
      finishCommand cmd events ;;;
      replyDirectly cmd s r
  else reply cmd (toResponseCode s) (Status.getDetail s) None r.

(** ** Leadership *)

(** What [waitTillLeaderIsReadyOrStepDown] returns: the node lost the term, or it
    leads it, with the last index of its log and the last bundle in it. *)
Inductive Await :=
| SteppedDown
| Ready (lastLogIndex : Z) (lastBundle : option Bundle).

(** What [process] reads from the rest of the engine, call by call. *)
Record Environment := mkEnv {
  roleAndTerm : nat -> RaftRole * Z;
  await : nat -> Await;
  becomeLeaderOK : nat -> Status.t;
  leaderHint : option Z;
}.

Definition becomeLeader (curTerm lastLogIndex : Z) (lastBundle : option Bundle) : M (Engine S) unit :=
  let* maxVersionInLeader := match lastBundle with
                             | Some b => getVersionFromBundle b
                             | None => ret kInvalidVersion
                             end in
  modify (fun e => set_versions (recoverMaxVersion maxVersionInLeader (mVersionStorePtr e)) e) ;;;
  in_kv kvClear ;;;
  in_kv kvFlush ;;;
  modify (fun e => mkEngine (mKVStorePtr e) (mVersionStorePtr e) curTerm lastLogIndex (effects e)).

(** The loop of [process], [n] the number of its iterations so far: whether the
    command may run. [fuel] bounds the iterations; running out of it is waiting
    for ever. *)
Fixpoint waitLeader (fuel n : nat) (env : Environment) (cmd : Command S) : M (Engine S) bool :=
  match fuel with
  | O => stop WouldBlock
  | Datatypes.S fuel =>
      let '(curRole, curTerm) := roleAndTerm env n in
      if bool_decide (curRole = Leader) then
        let* e := get in
        if bool_decide (mCurTerm e = curTerm) then ret true
        else
          match await env n with
          | SteppedDown =>
              in_kv kvClear ;;;
              waitLeader fuel (Datatypes.S n) env cmd
          | Ready lastLogIndex lastBundle =>
              if Status.isOK (becomeLeaderOK env n) then
                becomeLeader curTerm lastLogIndex lastBundle ;;;
                ret true
              else
                in_kv kvClear ;;;
                reply cmd RC_GENERAL_ERROR "fail after become leader" (leaderHint env)
                      (initialResponse cmd) ;;;
                ret false
          end
      else
        reply cmd RC_NOT_LEADER "NotLeaderAnyMore" (leaderHint env) (initialResponse cmd) ;;;
        ret false
  end.

(** [process]. The build decides whether stale reads are served at all
    ([DISABLE_FOLLOWER_READ]); a stale read asks for no leadership. This is one
    thread; ProcessorThreads.v has their interleaving. *)
Definition process (DISABLE_FOLLOWER_READ : bool) (fuel : nat) (env : Environment)
    (preExecute : option (Command S -> M S Status.t)) (cmd : Command S) : M (Engine S) unit :=
  if (isFollowerReadCmd cmd && negb DISABLE_FOLLOWER_READ)%bool then doFollowerReadExecute cmd
  else
    let* ready := waitLeader fuel O env cmd in
    if (ready : bool) then doExecute preExecute cmd else ret tt.

End CommandProcessor.
