(* ===== verification/ProcessorThreads.v ===== *)
(** * The threads of the command processor

    [CommandProcessor::process] (kv-engine/execution/CommandProcessor.cpp) runs on many threads. A thread whose term is
    not the one the processor leads in becomes leader for all of them: it takes [mBecomeLeaderMutex], waits on
    [mProcessCommandCv] until no command runs, and clears the stores while it holds [mProcessComamndMutex]. CommandProcessor.v
    has what one thread does to the engine; here are the locks, the count of running commands and the
    interleaving of the threads: every access of shared state is a step. *)

From S2P Require Import Prelude CommandProcessor.

(** Where a thread stands in [process]. The terms are the local [curTerm]; [PEnter] and [PRun] keep it for the theorem.
    - [PLoop]: before [getRoleAndTerm];
    - [PCheck]: leader, before [mCurTerm == curTerm];
    - [PBecomeLock]: before [mBecomeLeaderMutex];
    - [PRecheck]: has it, before the second [mCurTerm == curTerm];
    - [PProcessLock]: before [mProcessComamndMutex], at first or after a wake-up;
    - [PHold]: has both, before the predicate of [wait_for];
    - [PSleep]: has the first, sleeps in [wait_for];
    - [PBecoming]: has both, and [mRunningCmdCnt == 0] was seen;
    - [PCond]: before [while (mCurTerm != curTerm)];
    - [PEnter]: before the count is increased;
    - [PRun]: runs its command;
    - [PDone]: returned. *)
Inductive Pc :=
| PLoop
| PCheck (term : Z)
| PBecomeLock (term : Z)
| PRecheck (term : Z)
| PProcessLock (term : Z)
| PHold (term : Z)
| PSleep (term : Z)
| PBecoming (term : Z)
| PCond (term : Z)
| PEnter (term : option Z)
| PRun (term : option Z)
| PDone.

#[global] Instance Pc_eq_dec : EqDecision Pc.
Proof. solve_decision. Defined.

(** A thread: whether its command is a stale read, and where it stands. *)
Record Thread := mkThread { isStaleRead : bool; pc : Pc }.

(** [leads] records the terms [mCurTerm] has been set to. *)
Record Processor := mkProcessor {
  threads : list Thread;
  mBecomeLeaderMutex : option nat;
  mProcessComamndMutex : option nat;
  mRunningCmdCnt : Z;
  mCurTerm : Z;
  leads : list Z;
}.

(** No thread has called [process] yet, for the commands of [stale]. *)
Definition new_Processor (stale : list bool) : Processor :=
  mkProcessor ((fun b => mkThread b PLoop) <$> stale) None None 0 0 [].

(** What raft and the callback answer to a thread that becomes leader. *)
Inductive Outcome := NotLeader | CallbackFailed | BecameLeader.

(** What a thread is told at its next step: role and term, or how becoming leader ended. *)
Inductive Input := Role (curRole : RaftRole) (curTerm : Z) | Ended (o : Outcome) | NoInput.

Definition at_pc (i : nat) (p : Pc) (s : Processor) : Processor :=
  mkProcessor (alter (fun t => mkThread (isStaleRead t) p) i (threads s)) (mBecomeLeaderMutex s) (mProcessComamndMutex s)
              (mRunningCmdCnt s) (mCurTerm s) (leads s).

Definition set_mutexes (become process : option nat) (s : Processor) : Processor :=
  mkProcessor (threads s) become process (mRunningCmdCnt s) (mCurTerm s) (leads s).

Definition set_count (n : Z) (s : Processor) : Processor :=
  mkProcessor (threads s) (mBecomeLeaderMutex s) (mProcessComamndMutex s) (u64 n) (mCurTerm s) (leads s).

Definition set_term (term : Z) (s : Processor) : Processor :=
  mkProcessor (threads s) (mBecomeLeaderMutex s) (mProcessComamndMutex s) (mRunningCmdCnt s) term (leads s ++ [term]).

(** The next step of thread [i]; [None] when it is blocked or has returned. The two sections that only change the count are
    one step each, and so is leaving the block of both locks. That the wait for the running commands takes less than
    its three seconds is taken for granted. *)
Definition thread_step (i : nat) (inp : Input) (s : Processor) : option Processor :=
  t ← threads s !! i;
  match pc t, inp with
  | PLoop, Role curRole curTerm =>
      Some (at_pc i (if isStaleRead t then PEnter None
                     else if bool_decide (curRole = Leader) then PCheck curTerm else PDone) s)
  | PCheck curTerm, _ => Some (at_pc i (if bool_decide (mCurTerm s = curTerm) then PEnter (Some curTerm) else PBecomeLock curTerm) s)
  | PBecomeLock curTerm, _ =>
      match mBecomeLeaderMutex s with
      | Some _ => None
      | None => Some (at_pc i (PRecheck curTerm) (set_mutexes (Some i) (mProcessComamndMutex s) s))
      end
  | PRecheck curTerm, _ =>
      if bool_decide (mCurTerm s = curTerm) then Some (at_pc i (PEnter (Some curTerm)) (set_mutexes None (mProcessComamndMutex s) s))
      else Some (at_pc i (PProcessLock curTerm) s)
  | PProcessLock curTerm, _ =>
      match mProcessComamndMutex s with
      | Some _ => None
      | None => Some (at_pc i (PHold curTerm) (set_mutexes (mBecomeLeaderMutex s) (Some i) s))
      end
  | PHold curTerm, _ =>
      if bool_decide (mRunningCmdCnt s = 0) then Some (at_pc i (PBecoming curTerm) s)
      else Some (at_pc i (PSleep curTerm) (set_mutexes (mBecomeLeaderMutex s) None s))
  | PSleep curTerm, _ => Some (at_pc i (PProcessLock curTerm) s)
  | PBecoming curTerm, Ended NotLeader => Some (at_pc i (PCond curTerm) (set_mutexes None None s))
  | PBecoming curTerm, Ended CallbackFailed => Some (at_pc i PDone (set_mutexes None None s))
  | PBecoming curTerm, Ended BecameLeader => Some (at_pc i (PCond curTerm) (set_mutexes None None (set_term curTerm s)))
  | PCond curTerm, _ => Some (at_pc i (if bool_decide (mCurTerm s = curTerm) then PEnter (Some curTerm) else PLoop) s)
  | PEnter term, _ =>
      match mProcessComamndMutex s with
      | Some _ => None
      | None => Some (at_pc i (PRun term) (set_count (mRunningCmdCnt s + 1) s))
      end
  | PRun _, _ =>
      match mProcessComamndMutex s with
      | Some _ => None
      | None => Some (at_pc i PDone (set_count (mRunningCmdCnt s - 1) s))
      end
  | _, _ => None
  end.

Definition step (s s' : Processor) : Prop := exists i inp, thread_step i inp s = Some s'.

(** ** Invariant *)

Definition has_become (p : Pc) : bool :=
  match p with PRecheck _ | PProcessLock _ | PHold _ | PSleep _ | PBecoming _ => true | _ => false end.
Definition has_process (p : Pc) : bool := match p with PHold _ | PBecoming _ => true | _ => false end.
Definition runs (p : Pc) : bool := match p with PRun _ => true | _ => false end.
Definition count_running (l : list Thread) : nat := length (filter (fun t => runs (pc t) = true) l).

(** The term a thread entered with. *)
Definition entered (t : Thread) (terms : list Z) : Prop :=
  match pc t with
  | PEnter o | PRun o => if isStaleRead t then True else exists term, o = Some term /\ term ∈ terms
  | _ => True
  end.

Record processor_ok (s : Processor) : Prop := {
  po_become i t : threads s !! i = Some t -> has_become (pc t) = true -> mBecomeLeaderMutex s = Some i;
  po_become_held i : mBecomeLeaderMutex s = Some i -> exists t, threads s !! i = Some t /\ has_become (pc t) = true;
  po_process i t : threads s !! i = Some t -> has_process (pc t) = true -> mProcessComamndMutex s = Some i;
  po_process_held i : mProcessComamndMutex s = Some i -> exists t, threads s !! i = Some t /\ has_process (pc t) = true;
  po_count : mRunningCmdCnt s = Z.of_nat (count_running (threads s));
  po_idle i t term : threads s !! i = Some t -> pc t = PBecoming term -> mRunningCmdCnt s = 0;
  po_entered i t : threads s !! i = Some t -> entered t (0 :: leads s);
  po_term : mCurTerm s ∈ 0 :: leads s;
}.

Lemma count_alter i t p l : l !! i = Some t ->
  Z.of_nat (count_running (alter (fun t => mkThread (isStaleRead t) p) i l)) =
  Z.of_nat (count_running l) + (if runs p then 1 else 0) - (if runs (pc t) then 1 else 0).
Proof.
  revert i. unfold count_running. induction l as [|x l IH]; intros [|i] Hi; [done|done| |].
  - injection Hi as ->. change (alter ?f 0%nat (t :: l)) with (f t :: l). rewrite !filter_cons. cbn [pc].
    destruct (decide (runs p = true)), (decide (runs (pc t) = true)), (runs p), (runs (pc t)); try done; cbn [length]; lia.
  - change (alter ?f (S i) (x :: l)) with (x :: alter f i l). specialize (IH i Hi). rewrite !filter_cons.
    destruct (decide (runs (pc x) = true)); cbn [length]; lia.
Qed.

Lemma count_le l : (count_running l <= length l)%nat.
Proof. apply length_filter. Qed.

(** A mutex after a step of thread [i] from [old] to [new], which say whether it has the mutex. *)
Definition mutex_step (i : nat) (old new : bool) (m m' : option nat) : Prop :=
  match old, new with
  | false, true => m = None /\ m' = Some i
  | true, false => m' = None
  | _, _ => m' = m
  end.

(** A mutex is held by the thread that is in its section. *)
Definition mutex_ok (has : Pc -> bool) (m : option nat) (l : list Thread) : Prop :=
  (forall i t, l !! i = Some t -> has (pc t) = true -> m = Some i) /\
  (forall i, m = Some i -> exists t, l !! i = Some t /\ has (pc t) = true).

Lemma mutex_step_ok has m m' l i t p : mutex_ok has m l -> l !! i = Some t -> mutex_step i (has (pc t)) (has p) m m' ->
  mutex_ok has m' (alter (fun t => mkThread (isStaleRead t) p) i l).
Proof.
  intros [H1 H2] Hi Hm. split.
  - intros j u Hj Hu. destruct (decide (i = j)) as [<-|Hne].
    + rewrite list_lookup_alter_eq, Hi in Hj. injection Hj as <-. cbn in Hu. rewrite Hu in Hm. destruct (has (pc t)) eqn:E; cbn in Hm.
      * rewrite Hm. by apply (H1 i t).
      * by destruct Hm as [_ ->].
    + rewrite list_lookup_alter_ne in Hj by done. pose proof (H1 j u Hj Hu) as Hmj.
      destruct (has (pc t)) eqn:E; [pose proof (H1 i t Hi E); congruence|]. destruct (has p); cbn in Hm; [destruct Hm; congruence|congruence].
  - intros j Hj. destruct (decide (i = j)) as [<-|Hne].
    + rewrite list_lookup_alter_eq, Hi. eexists. split; [reflexivity|]. cbn. destruct (has (pc t)) eqn:E, (has p) eqn:Ep; cbn in Hm; try done; try congruence.
      rewrite Hm in Hj. destruct (H2 i Hj) as (u & Hu & Hh). congruence.
    + rewrite list_lookup_alter_ne by done. apply H2. destruct (has (pc t)) eqn:E, (has p) eqn:Ep; cbn in Hm; try congruence.
      destruct Hm. congruence.
Qed.

(** What a step of thread [i] to [p] has to respect. *)
Lemma step_ok_by s i t p b pr n term ls :
  processor_ok s -> threads s !! i = Some t ->
  mutex_step i (has_become (pc t)) (has_become p) (mBecomeLeaderMutex s) b ->
  mutex_step i (has_process (pc t)) (has_process p) (mProcessComamndMutex s) pr ->
  n = mRunningCmdCnt s + (if runs p then 1 else 0) - (if runs (pc t) then 1 else 0) ->
  (n <> mRunningCmdCnt s -> mProcessComamndMutex s = None) -> ((exists term, p = PBecoming term) -> n = 0) ->
  (forall x, x ∈ leads s -> x ∈ ls) -> term ∈ 0 :: ls -> entered (mkThread (isStaleRead t) p) (0 :: ls) ->
  processor_ok (mkProcessor (alter (fun t => mkThread (isStaleRead t) p) i (threads s)) b pr n term ls).
Proof.
  intros Hok Hi Hb Hp Hn Hfree Hbec Hls Hterm Hent.
  assert (mutex_ok has_become (mBecomeLeaderMutex s) (threads s)) as Mb by (split; apply Hok).
  assert (mutex_ok has_process (mProcessComamndMutex s) (threads s)) as Mp by (split; apply Hok).
  pose proof (mutex_step_ok _ _ _ _ _ _ _ Mb Hi Hb) as [Hb1 Hb2]. pose proof (mutex_step_ok _ _ _ _ _ _ _ Mp Hi Hp) as [Hp1 Hp2].
  split; cbn [threads mBecomeLeaderMutex mProcessComamndMutex mRunningCmdCnt mCurTerm leads]; try done.
  - rewrite (count_alter i t p) by done. by rewrite Hn, (po_count _ Hok).
  - intros j u x Hj Hu. destruct (decide (i = j)) as [<-|Hne].
    + rewrite list_lookup_alter_eq, Hi in Hj. injection Hj as <-. apply Hbec. by exists x.
    + rewrite list_lookup_alter_ne in Hj by done. pose proof (po_idle _ Hok j u x Hj Hu) as H0.
      destruct (decide (n = mRunningCmdCnt s)) as [->|Hc]; [done|]. rewrite (po_process _ Hok j u Hj) in Hfree by (by rewrite Hu). by specialize (Hfree Hc).
  - intros j u Hj. destruct (decide (i = j)) as [<-|Hne].
    + rewrite list_lookup_alter_eq, Hi in Hj. by injection Hj as <-.
    + rewrite list_lookup_alter_ne in Hj by done. pose proof (po_entered _ Hok j u Hj) as He. unfold entered in *.
      destruct (pc u); try done; (destruct (isStaleRead u); [done|]); destruct He as (x & -> & Hx); exists x; (split; [done|]);
        apply elem_of_cons in Hx as [->|Hx]; [by left|right; by apply Hls|by left|right; by apply Hls].
Qed.

Lemma running_positive s i t : processor_ok s -> threads s !! i = Some t -> runs (pc t) = true -> 1 <= mRunningCmdCnt s.
Proof.
  intros Hok Hi Hr. rewrite (po_count _ Hok). unfold count_running.
  destruct (filter (fun t => runs (pc t) = true) (threads s)) eqn:E; [|cbn; lia]. exfalso.
  assert (t ∈ filter (fun t => runs (pc t) = true) (threads s)) as H by (apply list_elem_of_filter; split; [done|by eapply list_elem_of_lookup_2]).
  rewrite E in H. by apply elem_of_nil in H.
Qed.

Lemma thread_step_ok i inp s s' : Z.of_nat (length (threads s)) < 2 ^ 64 - 1 -> processor_ok s -> thread_step i inp s = Some s' -> processor_ok s'.
Proof.
  intros Hlen Hok H. unfold thread_step in H. destruct (threads s !! i) as [t|] eqn:Hi; [|done]. cbn in H.
  pose proof (po_term _ Hok) as Hterm. pose proof (po_count _ Hok) as Hc. pose proof (count_le (threads s)) as Hle.
  pose proof (po_entered _ Hok i t Hi) as Hent. unfold entered in Hent. pose proof (running_positive s i t Hok Hi) as Hpos.
  destruct (pc t) as [|x|x|x|x|x|x|x|x|o|o|] eqn:Hpc; [destruct inp as [role term|o|]|..|]; try done.
  all: repeat (case_match; try done); injection H as <-; unfold at_pc, set_mutexes, set_count, set_term; cbn [threads mBecomeLeaderMutex mProcessComamndMutex mRunningCmdCnt mCurTerm leads];
    repeat (match goal with E : bool_decide _ = true |- _ => apply bool_decide_eq_true in E | E : bool_decide _ = false |- _ => apply bool_decide_eq_false in E end).
  all: apply (step_ok_by s i t); rewrite ?Hpc; cbn; try done; try lia.
  all: try specialize (Hpos eq_refl); rewrite ?u64_small by (unfold is_u64; lia); try lia; try done; try by intros [? [=]].
  all: try match goal with E : isStaleRead ?u = _ |- context [isStaleRead ?u] => rewrite E; done end; try (destruct (isStaleRead t) eqn:?; [done|]; try done; eexists; split; [done|]; by subst).
  - intros y Hy. apply elem_of_app. by left.
  - right. apply elem_of_app. right. by apply list_elem_of_singleton.
Qed.

(** ** Progress *)

(** How far a thread is from its return on the way it can be led. *)
Definition distance (p : Pc) : nat :=
  match p with
  | PDone => 0 | PRun _ => 1 | PEnter _ => 2 | PLoop => 3 | PCond _ => 4 | PBecoming _ => 5 | PSleep _ => 6 | PHold _ => 7
  | PProcessLock _ => 8 | PRecheck _ => 9 | PBecomeLock _ => 10 | PCheck _ => 11
  end.

Definition distances (s : Processor) : nat := sum_list ((fun t => distance (pc t)) <$> threads s).

Lemma distances_alter i t p (l : list Thread) : l !! i = Some t ->
  (sum_list ((fun t => distance (pc t)) <$> alter (fun t => mkThread (isStaleRead t) p) i l) + distance (pc t) =
   sum_list ((fun t => distance (pc t)) <$> l) + distance p)%nat.
Proof.
  revert i. induction l as [|x l IH]; intros [|i] Hi; [done|done| |].
  - injection Hi as ->. change (alter ?f 0%nat (t :: l)) with (f t :: l). cbn. lia.
  - change (alter ?f (S i) (x :: l)) with (x :: alter f i l). specialize (IH i Hi). cbn. lia.
Qed.

(** A step that brings a thread closer to its return. *)
Lemma closer s s' i t p inp : threads s !! i = Some t -> (distance p < distance (pc t))%nat ->
  thread_step i inp s = Some s' -> threads s' = alter (fun t => mkThread (isStaleRead t) p) i (threads s) ->
  exists s', rtc step s s' /\ (distances s' < distances s)%nat.
Proof.
  intros Hi Hp Hst Hth. exists s'. split; [apply rtc_once; by exists i, inp|]. unfold distances. rewrite Hth.
  pose proof (distances_alter i t p _ Hi). lia.
Qed.

(** Threads that can go on when nobody has [mProcessComamndMutex]. *)
Definition ready (p : Pc) : bool :=
  match p with PRun _ | PEnter _ | PLoop | PCond _ | PCheck _ | PRecheck _ | PProcessLock _ => true | _ => false end.

Lemma ready_closer s i t : mProcessComamndMutex s = None -> threads s !! i = Some t -> ready (pc t) = true ->
  exists s', rtc step s s' /\ (distances s' < distances s)%nat.
Proof.
  intros Hm Hi Hr. destruct t as [stale p]. cbn in Hr.
  assert (forall inp s', thread_step i inp s = Some s' -> (exists q, threads s' = alter (fun t => mkThread (isStaleRead t) q) i (threads s) /\ (distance q < distance p)%nat) ->
    exists s', rtc step s s' /\ (distances s' < distances s)%nat) as Hgo.
  { intros inp s' Hs (q & Hth & Hq). by eapply (closer s s' i (mkThread stale p) q inp). }
  destruct p; try done.
  - eapply (Hgo (Role Follower 0)); [unfold thread_step; rewrite Hi; reflexivity|]. eexists. split; [reflexivity|]. destruct stale; [cbn; lia|]. cbn. case_bool_decide; [done|cbn; lia].
  - eapply (Hgo NoInput); [unfold thread_step; rewrite Hi; reflexivity|]. eexists. split; [reflexivity|]. case_bool_decide; cbn; lia.
  - destruct (bool_decide (mCurTerm s = term)) eqn:E.
    + eapply (Hgo NoInput); [unfold thread_step; rewrite Hi; cbn; rewrite E; reflexivity|]. eexists. split; [reflexivity|]. cbn. lia.
    + eapply (Hgo NoInput); [unfold thread_step; rewrite Hi; cbn; rewrite E; reflexivity|]. eexists. split; [reflexivity|]. cbn. lia.
  - eapply (Hgo NoInput); [unfold thread_step; rewrite Hi; cbn; rewrite Hm; reflexivity|]. eexists. split; [reflexivity|]. cbn. lia.
  - eapply (Hgo NoInput); [unfold thread_step; rewrite Hi; reflexivity|]. eexists. split; [reflexivity|]. case_bool_decide; cbn; lia.
  - eapply (Hgo NoInput); [unfold thread_step; rewrite Hi; cbn; rewrite Hm; reflexivity|]. eexists. split; [reflexivity|]. cbn. lia.
  - eapply (Hgo NoInput); [unfold thread_step; rewrite Hi; cbn; rewrite Hm; reflexivity|]. eexists. split; [reflexivity|]. cbn. lia.
Qed.

(** A thread with [mProcessComamndMutex] can go on. *)
Lemma holder_closer s i t : threads s !! i = Some t -> has_process (pc t) = true ->
  exists s', rtc step s s' /\ (distances s' < distances s)%nat.
Proof.
  intros Hi Hp. destruct t as [stale p]. cbn in Hp. destruct p; try done.
  - destruct (bool_decide (mRunningCmdCnt s = 0)) eqn:E.
    + eapply (closer s _ i (mkThread stale (PHold term)) (PBecoming term) NoInput);
        [done|cbn; lia|unfold thread_step; rewrite Hi; cbn; rewrite E; reflexivity|reflexivity].
    + eapply (closer s _ i (mkThread stale (PHold term)) (PSleep term) NoInput);
        [done|cbn; lia|unfold thread_step; rewrite Hi; cbn; rewrite E; reflexivity|reflexivity].
  - eapply (closer s _ i (mkThread stale (PBecoming term)) (PCond term) (Ended BecameLeader));
      [done|cbn; lia|unfold thread_step; rewrite Hi; reflexivity|reflexivity].
Qed.

Lemma at_pc_lookup i t p s : threads s !! i = Some t -> threads (at_pc i p s) !! i = Some (mkThread (isStaleRead t) p).
Proof. intros Hi. cbn. by rewrite list_lookup_alter_eq, Hi. Qed.

(** When no command runs and the mutex is free, a thread that sleeps goes on to become leader. *)
Lemma sleeper_closer s i t term : threads s !! i = Some t -> pc t = PSleep term -> mProcessComamndMutex s = None -> mRunningCmdCnt s = 0 ->
  exists s', rtc step s s' /\ (distances s' < distances s)%nat.
Proof.
  intros Hi Hp Hm Hc. set (s1 := at_pc i (PProcessLock term) s). set (s2 := at_pc i (PHold term) (set_mutexes (mBecomeLeaderMutex s) (Some i) s1)).
  set (s3 := at_pc i (PBecoming term) s2). pose proof (at_pc_lookup i t (PProcessLock term) s Hi) as H1. fold s1 in H1.
  pose proof (at_pc_lookup i _ (PHold term) (set_mutexes (mBecomeLeaderMutex s) (Some i) s1) H1) as H2. fold s2 in H2.
  exists s3. split.
  - eapply rtc_l; [exists i, NoInput; unfold thread_step; rewrite Hi; cbn; rewrite Hp; reflexivity|]. fold s1.
    eapply rtc_l; [exists i, NoInput; unfold thread_step; rewrite H1; cbn; rewrite Hm; reflexivity|]. fold s2.
    apply rtc_once. exists i, NoInput. unfold thread_step. rewrite H2. cbn. by rewrite Hc.
  - unfold distances. pose proof (distances_alter i t (PProcessLock term) (threads s) Hi) as D1. rewrite Hp in D1.
    pose proof (distances_alter i _ (PHold term) (threads s1) H1) as D2. pose proof (distances_alter i _ (PBecoming term) (threads s2) H2) as D3.
    cbn in D1, D2, D3. change (threads s3) with (alter (fun t => mkThread (isStaleRead t) (PBecoming term)) i (threads s2)).
    cbn in *. lia.
Qed.

Lemma can_go_on s : processor_ok s -> Exists (fun t => pc t <> PDone) (threads s) ->
  exists s', rtc step s s' /\ (distances s' < distances s)%nat.
Proof.
  intros Hok Hex. destruct (mProcessComamndMutex s) as [i|] eqn:Hm.
  { destruct (po_process_held _ Hok i Hm) as (t & Hi & Ht). by eapply holder_closer. }
  destruct (decide (Exists (fun t => ready (pc t) = true) (threads s))) as [Hr|Hr].
  { apply Exists_exists in Hr as (t & [i Hi]%list_elem_of_lookup & Ht). by eapply ready_closer. }
  assert (forall i t, threads s !! i = Some t -> ready (pc t) = false /\ has_process (pc t) = false) as Hno.
  { intros i t Hi. split; [|destruct (has_process (pc t)) eqn:E; [rewrite (po_process _ Hok i t Hi E) in Hm; done|done]].
    destruct (ready (pc t)) eqn:E; [|done]. exfalso. apply Hr, Exists_exists. exists t. split; [by eapply list_elem_of_lookup_2|done]. }
  apply Exists_exists in Hex as (t & [i Hi]%list_elem_of_lookup & Ht).
  destruct (mBecomeLeaderMutex s) as [j|] eqn:Hb.
  - destruct (po_become_held _ Hok j Hb) as (u & Hj & Hu). destruct (Hno j u Hj) as [E1 E2]. destruct (pc u) eqn:Eu; try done.
    eapply sleeper_closer; [done|done|done|]. rewrite (po_count _ Hok). unfold count_running.
    destruct (filter (fun t => runs (pc t) = true) (threads s)) as [|x l] eqn:E; [done|]. exfalso.
    assert (x ∈ filter (fun t => runs (pc t) = true) (threads s)) as [Hx [k Hk]%list_elem_of_lookup]%list_elem_of_filter by (rewrite E; left).
    destruct (Hno k x Hk) as [Hx' _]. by destruct (pc x).
  - destruct (Hno i t Hi) as [E1 E2]. destruct (pc t) eqn:Et; try done.
    + eapply (closer s _ i t (PRecheck term) NoInput); [done|rewrite Et; cbn; lia|unfold thread_step; rewrite Hi; cbn; rewrite Et, Hb; reflexivity|reflexivity].
    + pose proof (po_become _ Hok i t Hi ltac:(by rewrite Et)). congruence.
Qed.

Lemma new_processor_ok stale : processor_ok (new_Processor stale).
Proof.
  assert (forall i t, threads (new_Processor stale) !! i = Some t -> pc t = PLoop) as H.
  { intros i t Hi. cbn in Hi. rewrite list_lookup_fmap in Hi. destruct (stale !! i); [|done]. by injection Hi as <-. }
  split; try done.
  - intros i t Hi. by rewrite (H i t Hi).
  - intros i t Hi. by rewrite (H i t Hi).
  - clear H. cbn [new_Processor threads mRunningCmdCnt]. induction stale as [|b l IH]; [done|]. exact IH.
  - intros i t Hi. unfold entered. by rewrite (H i t Hi).
  - cbn. left.
Qed.

Lemma thread_step_length i inp s s' : thread_step i inp s = Some s' -> length (threads s') = length (threads s).
Proof.
  unfold thread_step. destruct (threads s !! i) as [t|]; [|done]. cbn. intros H.
  repeat (case_match; try done); injection H as <-; cbn; by rewrite length_alter.
Qed.

Lemma reached_ok s0 s : rtc step s0 s -> processor_ok s0 -> Z.of_nat (length (threads s0)) < 2 ^ 64 - 1 ->
  processor_ok s /\ length (threads s) = length (threads s0).
Proof.
  induction 1 as [|s0 s1 s (i & inp & Hst) _ IH]; [done|]. intros Hok Hlen. pose proof (thread_step_length _ _ _ _ Hst) as Hl.
  rewrite <- Hl. apply IH; [by eapply thread_step_ok|by rewrite Hl].
Qed.

(** C9: becoming leader is exclusive. However the threads of the processor interleave, whatever raft reports to them: the
    count is the number of commands that run; while a thread becomes leader, and so while it clears the stores and
    recovers the version, no command runs and no other thread becomes leader; a command that is not a stale
    read runs only after the processor was made the leader of the term raft reported to its thread (or raft reported
    the initial term 0). And the threads never block each other for good: from every state all of them can
    return. *)
Theorem leader_change_is_exclusive stale s :
  Z.of_nat (length stale) < 2 ^ 64 - 1 -> rtc step (new_Processor stale) s ->
  mRunningCmdCnt s = Z.of_nat (count_running (threads s)) /\
  (forall i t term, threads s !! i = Some t -> pc t = PBecoming term ->
     forall j u, threads s !! j = Some u -> runs (pc u) = false /\ (has_process (pc u) = true -> j = i)) /\
  (forall i t o, threads s !! i = Some t -> pc t = PRun o -> isStaleRead t = false -> exists term, o = Some term /\ term ∈ 0 :: leads s) /\
  exists s', rtc step s s' /\ Forall (fun t => pc t = PDone) (threads s').
Proof.
  intros Hlen Hsteps. destruct (reached_ok _ _ Hsteps (new_processor_ok stale)) as [Hok Hl]; [cbn; by rewrite length_fmap|].
  split_and!; [apply Hok| | |].
  - intros i t term Hi Ht j u Hj. pose proof (po_idle _ Hok i t term Hi Ht) as H0. split.
    + destruct (runs (pc u)) eqn:E; [|done]. pose proof (running_positive s j u Hok Hj E). lia.
    + intros Hu. pose proof (po_process _ Hok j u Hj Hu). pose proof (po_process _ Hok i t Hi ltac:(by rewrite Ht)). congruence.
  - intros i t o Hi Ht Hs. pose proof (po_entered _ Hok i t Hi) as He. unfold entered in He. by rewrite Ht, Hs in He.
  - clear Hsteps. assert (Z.of_nat (length (threads s)) < 2 ^ 64 - 1) as Hb by (rewrite Hl; cbn; by rewrite length_fmap). clear Hl Hlen.
    remember (distances s) as n eqn:Hn. revert s Hok Hb Hn. induction (lt_wf n) as [n _ IH]. intros s Hok Hb ->.
    destruct (decide (Exists (fun t => pc t <> PDone) (threads s))) as [Hex|Hex].
    + destruct (can_go_on s Hok Hex) as (s1 & Hs1 & Hlt). destruct (reached_ok _ _ Hs1 Hok Hb) as [Hok1 Hl1].
      destruct (IH (distances s1) Hlt s1 Hok1 ltac:(by rewrite Hl1) eq_refl) as (s' & Hs' & Hdone). exists s'. split; [by etrans|done].
    + exists s. split; [done|]. apply Forall_forall. intros t Ht. destruct (decide (pc t = PDone)) as [|Hne]; [done|].
      exfalso. apply Hex, Exists_exists. by exists t.
Qed.

(** One thread runs a command of the first term while another one, in the second term, waits to become leader. *)
Lemma leader_change_is_exclusive_witness : exists s,
  rtc step (new_Processor [false; false]) s /\ (exists t, threads s !! 1%nat = Some t /\ pc t = PSleep 2) /\
  mRunningCmdCnt s = Z.of_nat (count_running (threads s)) /\
  exists s', rtc step s s' /\ Forall (fun t => pc t = PDone) (threads s').
Proof.
  set (run := fix run l s := match l with [] => Some s | (i, inp) :: l => s ← thread_step i inp s; run l s end).
  assert (forall l s s', run l s = Some s' -> rtc step s s') as Hrun.
  { induction l as [|[i inp] l IH]; intros s s' H; [injection H as ->; done|]. cbn in H. destruct (thread_step i inp s) eqn:E; [|done].
    eapply rtc_l; [by exists i, inp|by apply IH]. }
  set (l := [(0, Role Leader 1); (0, NoInput); (0, NoInput); (0, NoInput); (0, NoInput); (0, NoInput); (0, Ended BecameLeader); (0, NoInput); (0, NoInput);
             (1, Role Leader 2); (1, NoInput); (1, NoInput); (1, NoInput); (1, NoInput); (1, NoInput)]%nat).
  set (s := mkProcessor [mkThread false (PRun (Some 1)); mkThread false (PSleep 2)] (Some 1%nat) None 1 1 [1]).
  assert (rtc step (new_Processor [false; false]) s) as Hs by (apply (Hrun l); vm_compute; reflexivity).
  exists s. split; [done|]. split; [by eexists|].
  destruct (leader_change_is_exclusive [false; false] s ltac:(cbn; lia) Hs) as (H1 & _ & _ & H2). done.
Defined.
