(* ===== verification/ProcessorSpec.v ===== *)
(** * What the command processor guarantees

    Every run of [doExecute] is one of four shapes ([Executed]); from them: the
    locks are balanced on every path, a command has exactly one effect outside
    the store, what is sent to raft is what is applied in memory, versions are
    handed to raft in order, and only a leader of the current term does any of
    it. *)

From S2P Require Import Prelude Status Proto KVStore SharedMutex Lockable VersionStore Event Command.
From S2P Require Import CommandProcessor.

(** An event with its version assigned. *)
Definition with_version (v : VersionType) (e : Event) : Event :=
  match e with
  | EvWrite w => EvWrite (set_w_version v w)
  | EvImport iv w => EvImport iv (set_w_version v w)
  | EvDelete d => EvDelete (mkDeleteEvent (d_key d) (d_deletedValue d) (d_deletedVersion d) v)
  | EvRead r => EvRead r
  end.

Lemma is_nonread_with_version v e : is_nonread (with_version v e) = is_nonread e.
Proof. by destruct e. Qed.

Lemma nonReadEvents_with_version v es :
  nonReadEvents (with_version v <$> es) = with_version v <$> nonReadEvents es.
Proof.
  unfold nonReadEvents. induction es as [|e es IH]; [done|].
  rewrite fmap_cons, !filter_cons, is_nonread_with_version. case_decide; [|done].
  by rewrite fmap_cons, IH.
Qed.

(** What is sent to raft can be replicated, and carries the version. *)
Lemma nonReadEvents_versioned v es :
  Forall (fun e => replicable e /\ getAllocatedVersion e = v) (nonReadEvents (with_version v <$> es)).
Proof.
  rewrite nonReadEvents_with_version. apply Forall_fmap, Forall_forall. intros e He. cbn.
  apply list_elem_of_filter in He as [He _]. by destruct e.
Qed.

(** Not an import: imports do not reach raft at all, see
    [import_never_completes]. *)
Definition no_import (x : Event) : Prop := getType x <> IMPORT.

Lemma with_version_no_import v es :
  Forall no_import es ->
  Forall no_import (with_version v <$> es).
Proof. intros H. apply Forall_fmap. eapply Forall_impl; [exact H|]. by intros []. Qed.

(** Without an import no version is asked for. *)
Lemma expectedVersion_none es :
  Forall no_import es -> expectedVersion es = kInvalidVersion.
Proof.
  unfold expectedVersion. induction 1 as [|e es He _ IH]; [done|]. by destruct e.
Qed.

Section Processor.
Context {S : Type} `{!KVStore S}.
Implicit Types (e : Engine S) (cmd : Command S).

Lemma assignVersions_inv v es c e es' c' e' :
  assignVersions v es c e = Done es' c' e' -> es' = with_version v <$> es /\ c' = c /\ e' = e.
Proof.
  revert es' c' e'. induction es as [|x es IH]; intros es' c' e' H; cbn [assignVersions] in H.
  { by inv_run H. }
  apply bind_inv in H as (x' & c1 & e1 & H1 & H).
  assert (x' = with_version v x /\ c1 = c /\ e1 = e) as (-> & -> & ->).
  { destruct x; cbn in H1; inv_run H1; done. }
  apply bind_inv in H as (es1 & c2 & e2 & H2 & H). apply IH in H2 as (-> & -> & ->).
  by inv_run H.
Qed.

(** The version of the next bundle and the counter after it. *)
Definition allocated es e : VersionType * VersionStore :=
  allocateNextVersion (expectedVersion es) (mVersionStorePtr e).

(** What [dispatch] does: a task for the reply loop when nothing has to be
    replicated, a bundle for raft otherwise. *)
Inductive Dispatched cmd es e : EventList -> Engine S -> Prop :=
| OnlyReads r0 r :
    nonReadEvents es = [] ->
    initSuccessResponse cmd (getCurMaxVersion (mVersionStorePtr e)) es r0 = Some r ->
    Dispatched cmd es e es
      (mkEngine (mKVStorePtr e) (mVersionStorePtr e) (mCurTerm e) (raftLastSentIndex e)
                (effects e ++ [ReplyAsync 0 (mCurTerm e)
                   (maxReadVersion (getCurMaxVersion (mVersionStorePtr e)) es) cmd r false]))
| Replicated r0 r :
    nonReadEvents es <> [] ->
    initSuccessResponse cmd (getCurMaxVersion (allocated es e).2)
      (with_version (allocated es e).1 <$> es) r0 = Some r ->
    Dispatched cmd es e (with_version (allocated es e).1 <$> es)
      (mkEngine (mKVStorePtr e) (allocated es e).2 (mCurTerm e) (raftLastSentIndex e)
                (effects e ++ [PersistAsync (mCurTerm e) (allocated es e).1 cmd r
                   (nonReadEvents (with_version (allocated es e).1 <$> es))])).

Lemma initResponse_inv cmd es r c e r' c' e' :
  initResponse cmd es r c e = Done r' c' e' ->
  initSuccessResponse cmd (getCurMaxVersion (mVersionStorePtr e)) es r = Some r' /\ c' = c /\ e' = e.
Proof. intros H. unfold initResponse in H. by inv_run H. Qed.

Lemma dispatch_inv cmd es r c e es' c' e' :
  dispatch cmd es r c e = Done es' c' e' -> c' = c /\ Dispatched cmd es e es' e'.
Proof.
  unfold dispatch. intros H. apply bind_inv in H as (e0 & c0 & e0' & H0 & H). run_in H0; simplify_eq.
  apply bind_inv in H as ([] & c1 & e1 & H1 & H).
  assert (c1 = c0 /\ e1 = e0') as [-> ->].
  { unfold assert_ in H1. by destruct (import_alone es); inv_run H1. }
  destruct (nonReadEvents es) as [|x xs] eqn:En.
  - apply bind_inv in H as (r1 & c2 & e2 & H2 & H). apply initResponse_inv in H2 as (Hr & -> & ->).
    unfold emit in H. inv_run H. split; [done|]. by econstructor.
  - assert (nonReadEvents es <> []) as Hne by (by rewrite En).
    clear x xs En. unfold allocateAndPersist in H.
    apply bind_inv in H as (e2 & c2 & e2' & H2 & H). run_in H2; simplify_eq.
    pose proof (Replicated cmd es e2') as HR. unfold allocated in HR.
    destruct (allocateNextVersion _ _) as [v vs].
    apply bind_inv in H as ([] & c3 & e3 & H3 & H). run_in H3; simplify_eq.
    apply bind_inv in H as (es1 & c4 & e4 & H4 & H). apply assignVersions_inv in H4 as (-> & -> & ->).
    apply bind_inv in H as (r2 & c5 & e5 & H5 & H). apply initResponse_inv in H5 as (Hr & -> & ->).
    apply bind_inv in H as ([] & c6 & e6 & H6 & H).
    unfold assert_ in H6. case_match; inv_run H6. unfold emit in H. inv_run H.
    split; [done|]. by eapply HR.
Qed.

(** The callback a command runs before it executes. *)
Definition gate (pre : option (Command S -> M S Status.t)) cmd : M (Engine S) Status.t :=
  match pre with
  | Some cb => if skipPreExecuteCB cmd then ret Status.ok else in_kv (cb cmd)
  | None => ret Status.ok
  end.

(** The shapes of a run of [doExecute]. *)
Inductive Executed pre cmd c e : clock -> Engine S -> Prop :=
| NotPrepared s r0 c1 e1 c' e' :
    in_kv (prepare cmd (initialResponse cmd)) c e = Done (s, r0) c1 e1 -> Status.isOK s = false ->
    reply cmd (toResponseCode s) (Status.getDetail s) None r0 c1 e1 = Done tt c' e' ->
    Executed pre cmd c e c' e'
| Gated s1 s r0 c1 e1 c2 e2 c3 e3 c' e' :
    in_kv (prepare cmd (initialResponse cmd)) c e = Done (s1, r0) c1 e1 -> Status.isOK s1 = true ->
    gate pre cmd c1 e1 = Done s c2 e2 -> Status.isOK s = false ->
    finishCommand cmd [] c2 e2 = Done tt c3 e3 ->
    replyDirectly cmd s r0 c3 e3 = Done tt c' e' ->
    Executed pre cmd c e c' e'
| Refused s1 s2 s es r0 r c1 e1 c2 e2 c3 e3 c4 e4 c' e' :
    in_kv (prepare cmd (initialResponse cmd)) c e = Done (s1, r0) c1 e1 -> Status.isOK s1 = true ->
    gate pre cmd c1 e1 = Done s2 c2 e2 -> Status.isOK s2 = true ->
    in_kv (execute cmd r0) c2 e2 = Done (s, es, r) c3 e3 ->
    (es = [] \/ (Status.isOK s = false /\ Status.isNotFound s = false)) ->
    finishCommand cmd es c3 e3 = Done tt c4 e4 ->
    replyDirectly cmd s r c4 e4 = Done tt c' e' ->
    Executed pre cmd c e c' e'
| Performed s1 s2 s es es' r0 r c1 e1 c2 e2 c3 e3 e4 c' e' :
    in_kv (prepare cmd (initialResponse cmd)) c e = Done (s1, r0) c1 e1 -> Status.isOK s1 = true ->
    gate pre cmd c1 e1 = Done s2 c2 e2 -> Status.isOK s2 = true ->
    in_kv (execute cmd r0) c2 e2 = Done (s, es, r) c3 e3 ->
    Dispatched cmd es e3 es' e4 ->
    finishCommand cmd es' c3 e4 = Done tt c' e' ->
    Executed pre cmd c e c' e'.

Lemma doExecute_Executed pre cmd c e x c' e' :
  doExecute pre cmd c e = Done x c' e' -> Executed pre cmd c e c' e'.
Proof.
  destruct x. unfold doExecute. intros H. apply bind_inv in H as ([s1 r0] & c1 & e1 & H1 & H).
  destruct (Status.isOK s1) eqn:Es1; [|by eapply NotPrepared].
  apply bind_inv in H as (s2 & c2 & e2 & H2 & H). fold (gate pre cmd) in H2.
  destruct (Status.isOK s2) eqn:Es2.
  - apply bind_inv in H as ([[s es] r] & c3 & e3 & H3 & H).
    destruct (_ && _)%bool eqn:Eb in H.
    + apply bind_inv in H as (es' & c4 & e4 & H4 & H). apply dispatch_inv in H4 as [-> H4].
      by eapply Performed.
    + apply bind_inv in H as ([] & c4 & e4 & H4 & H). eapply Refused; eauto.
      destruct es as [|y es]; [by left|right]. cbn in Eb. rewrite andb_true_r in Eb.
      by apply orb_false_iff in Eb.
  - apply bind_inv in H as ([] & c3 & e3 & H3 & H). by eapply Gated.
Qed.

(** ** One effect *)

Definition add_effect (x : Effect S) e : Engine S :=
  mkEngine (mKVStorePtr e) (mVersionStorePtr e) (mCurTerm e) (raftLastSentIndex e) (effects e ++ [x]).

Lemma in_kv_inv {A} (m : M S A) c e a c' e' :
  in_kv m c e = Done a c' e' ->
  exists kv, m c (mKVStorePtr e) = Done a c' kv /\ e' = set_kv kv e.
Proof. unfold in_kv, zoom. intros H. case_match; simplify_eq. eauto. Qed.

Lemma in_kv_Done {A} (m : M S A) c e a c' kv :
  m c (mKVStorePtr e) = Done a c' kv -> in_kv m c e = Done a c' (set_kv kv e).
Proof. apply zoom_Done. Qed.

Lemma reply_inv cmd code msg l r c e x c' e' :
  reply cmd code msg l r c e = Done x c' e' ->
  c' = c /\ exists r', fillResponseAndReply cmd code msg l r = Some r' /\ e' = add_effect (Reply r') e.
Proof. unfold reply, emit. intros H. case_match; inv_run H; eauto. Qed.

Lemma replyDirectly_inv cmd s r c e x c' e' :
  replyDirectly cmd s r c e = Done x c' e' -> c' = c /\ exists r', e' = add_effect (Reply r') e.
Proof.
  unfold replyDirectly. intros H. apply bind_inv in H as (r1 & c1 & e1 & H1 & H).
  apply initResponse_inv in H1 as (_ & -> & ->). apply reply_inv in H as (-> & r' & _ & ->). eauto.
Qed.

Lemma finishCommand_inv cmd es c e x c' e' :
  finishCommand cmd es c e = Done x c' e' ->
  exists f kv, finish cmd es c (mKVStorePtr e) = Done f c' kv /\ Status.isOK f = true /\ e' = set_kv kv e.
Proof.
  unfold finishCommand. intros H. apply bind_inv in H as (f & c1 & e1 & H1 & H).
  apply in_kv_inv in H1 as (kv & H1 & ->). unfold assert_ in H.
  destruct (Status.isOK f) eqn:Ef; [|discriminate]. run_in H. simplify_eq. eauto 6.
Qed.

Lemma gate_inv pre cmd c e s c' e' :
  gate pre cmd c e = Done s c' e' -> exists kv, e' = set_kv kv e.
Proof.
  unfold gate. intros H. destruct pre as [cb|]; [destruct (skipPreExecuteCB cmd)|].
  - run_in H. simplify_eq. exists (mKVStorePtr e'). by destruct e'.
  - apply in_kv_inv in H as (kv & _ & ->). eauto.
  - run_in H. simplify_eq. exists (mKVStorePtr e'). by destruct e'.
Qed.

Lemma Dispatched_effect cmd es e es' e' :
  Dispatched cmd es e es' e' ->
  mKVStorePtr e' = mKVStorePtr e /\ mCurTerm e' = mCurTerm e /\ exists x, effects e' = effects e ++ [x].
Proof. destruct 1; cbn; eauto. Qed.

End Processor.

(** Invert the steps of a run. *)
Ltac inv_steps :=
  repeat match goal with
  | H : in_kv _ _ _ = Done _ _ _ |- _ => apply in_kv_inv in H as (? & H & ->)
  | H : gate _ _ _ _ = Done _ _ _ |- _ => apply gate_inv in H as (? & ->)
  | H : finishCommand _ _ _ _ = Done _ _ _ |- _ => apply finishCommand_inv in H as (? & ? & H & ? & ->)
  | H : reply _ _ _ _ _ _ _ = Done _ _ _ |- _ => apply reply_inv in H as (-> & ? & _ & ->)
  | H : replyDirectly _ _ _ _ _ = Done _ _ _ |- _ => apply replyDirectly_inv in H as (-> & ? & ->)
  end.

Section Runs.
Context {S : Type} `{!KVStore S}.
Implicit Types (e : Engine S) (cmd : Command S).

(** ** Runs, forward *)

(** An event no version is assigned to yet. *)
Definition unversioned (x : Event) : Prop := getType x = READ \/ getAllocatedVersion x = kInvalidVersion.

Lemma assignVersions_run v es c e :
  Forall unversioned es -> assignVersions v es c e = Done (with_version v <$> es) c e.
Proof.
  induction 1 as [|x es Hx _ IH]; [done|]. cbn [assignVersions fmap list_fmap].
  assert (assignVersion v x c e = Done (with_version v x) c e) as Hx'.
  { destruct Hx as [Hx|Hx], x; cbn in Hx |- *; try done; rewrite Hx; done. }
  rewrite (bind_Done _ _ _ _ _ _ _ Hx'), (bind_Done _ _ _ _ _ _ _ IH). done.
Qed.

Section Forward.
Variables (cmd : Command S) (c c1 c2 c3 : clock) (e : Engine S) (kv1 kv2 kv3 : S).
Variables (s st f : Status.t) (es : EventList) (r0 r r' : Response).
Hypothesis Hprep : prepare cmd (initialResponse cmd) c (mKVStorePtr e) = Done (st, r0) c1 kv1.
Hypothesis Hst : Status.isOK st = true.
Hypothesis Hexec : execute cmd r0 c1 kv1 = Done (s, es, r) c2 kv2.
Hypothesis Hs : (Status.isOK s || Status.isNotFound s)%bool = true.
Hypothesis Hes : es <> [].
Hypothesis Hni : Forall no_import es.
Hypothesis Hf : Status.isOK f = true.

Lemma doExecute_dispatches es' e' :
  dispatch cmd es r c2 (set_kv kv2 e) = Done es' c2 e' ->
  mKVStorePtr e' = kv2 ->
  finish cmd es' c2 kv2 = Done f c3 kv3 ->
  doExecute None cmd c e = Done tt c3 (set_kv kv3 e').
Proof.
  intros Hd He Hfin. unfold doExecute.
  rewrite (bind_Done _ _ _ _ _ _ _ (in_kv_Done _ _ _ _ _ _ Hprep)), Hst.
  rewrite (bind_Done _ _ _ _ Status.ok c1 (set_kv kv1 e)) by done.
  change (Status.isOK Status.ok) with true. cbn iota.
  rewrite (bind_Done _ _ _ _ (s, es, r) c2 (set_kv kv2 e)); [|exact (in_kv_Done _ c1 (set_kv kv1 e) _ _ _ Hexec)].
  rewrite Hs. destruct es as [|x xs] eqn:E; [done|]. rewrite <- E in *.
  rewrite bool_decide_eq_false_2 by (by rewrite E). cbn [negb andb].
  rewrite (bind_Done _ _ _ _ _ _ _ Hd). unfold finishCommand.
  rewrite (bind_Done _ _ _ _ f c3 (set_kv kv3 e')).
  - rewrite Hf. done.
  - apply in_kv_Done. by rewrite He.
Qed.

Lemma import_alone_none : import_alone es = true.
Proof.
  apply forallb_forall. intros x Hx%list_elem_of_In. rewrite Forall_forall in Hni.
  specialize (Hni x Hx). by destruct x.
Qed.

(** A command with events to replicate. *)
Lemma doExecute_replicated v vs :
  allocateNextVersion kInvalidVersion (mVersionStorePtr e) = (v, vs) ->
  nonReadEvents es <> [] -> Forall unversioned es ->
  initSuccessResponse cmd (getCurMaxVersion vs) (with_version v <$> es) r = Some r' ->
  finish cmd (with_version v <$> es) c2 kv2 = Done f c3 kv3 ->
  doExecute None cmd c e = Done tt c3
    (mkEngine kv3 vs (mCurTerm e) (raftLastSentIndex e)
       (effects e ++ [PersistAsync (mCurTerm e) v cmd r' (nonReadEvents (with_version v <$> es))])).
Proof.
  intros Hv Hn Hu Hr Hfin.
  eapply (doExecute_dispatches _ (mkEngine kv2 vs (mCurTerm e) (raftLastSentIndex e) _));
    [|done|exact Hfin].
  unfold dispatch. run. rewrite import_alone_none. cbn beta iota.
  destruct (nonReadEvents es) as [|x xs] eqn:E; [done|].
  unfold allocateAndPersist. run. rewrite expectedVersion_none by done. cbn [mVersionStorePtr set_kv].
  rewrite Hv. cbn beta iota. rewrite assignVersions_run by done. unfold initResponse. run.
  cbn [mVersionStorePtr set_versions]. rewrite Hr. cbn beta iota.
  rewrite nonReadEvents_with_version, E. cbn. reflexivity.
Qed.

(** A command that only read. *)
Lemma doExecute_read :
  nonReadEvents es = [] ->
  initSuccessResponse cmd (getCurMaxVersion (mVersionStorePtr e)) es r = Some r' ->
  finish cmd es c2 kv2 = Done f c3 kv3 ->
  doExecute None cmd c e = Done tt c3
    (mkEngine kv3 (mVersionStorePtr e) (mCurTerm e) (raftLastSentIndex e)
       (effects e ++ [ReplyAsync 0 (mCurTerm e)
          (maxReadVersion (getCurMaxVersion (mVersionStorePtr e)) es) cmd r' false])).
Proof.
  intros Hn Hr Hfin.
  eapply (doExecute_dispatches _ (mkEngine kv2 (mVersionStorePtr e) (mCurTerm e) (raftLastSentIndex e) _));
    [|done|exact Hfin].
  unfold dispatch. run. rewrite import_alone_none. cbn beta iota. rewrite Hn.
  unfold initResponse. run. cbn [mVersionStorePtr set_kv]. rewrite Hr. reflexivity.
Qed.

End Forward.

(** A stale read, whoever leads. *)
Lemma process_stale fuel env pre cmd c e st r0 c1 kv1 s es r c2 kv2 v r' f c3 kv3 :
  isFollowerReadCmd cmd = true ->
  prepare cmd (initialResponse cmd) c (mKVStorePtr e) = Done (st, r0) c1 kv1 -> Status.isOK st = true ->
  execute cmd r0 c1 kv1 = Done (s, es, r) c2 kv2 -> (Status.isOK s || Status.isNotFound s)%bool = true -> es <> [] ->
  followerReadVersion (mVersionStorePtr e) es = Some v ->
  initSuccessResponse cmd (getCurMaxVersion (mVersionStorePtr e)) es r = Some r' ->
  finish cmd es c2 kv2 = Done f c3 kv3 -> Status.isOK f = true ->
  process false fuel env pre cmd c e = Done tt c3 (add_effect (ReplyAsync 0 (mCurTerm e) v cmd r' true) (set_kv kv3 e)).
Proof.
  intros Hcmd Hprep Hst Hexec Hs Hes Hv Hr Hfin Hf. unfold process, doFollowerReadExecute. rewrite Hcmd. cbn [andb negb].
  rewrite (bind_Done _ _ _ _ _ _ _ (in_kv_Done _ _ _ _ _ _ Hprep)), Hst.
  rewrite (bind_Done _ _ _ _ (s, es, r) c2 (set_kv kv2 e)); [|exact (in_kv_Done _ c1 (set_kv kv1 e) _ _ _ Hexec)].
  rewrite Hs. destruct es as [|x xs] eqn:E; [done|]. rewrite <- E in *. rewrite bool_decide_eq_false_2 by (by rewrite E). cbn [negb andb].
  unfold initResponse, emit, finishCommand. run. cbn [mVersionStorePtr set_kv]. rewrite Hv. cbn beta iota. cbn [mVersionStorePtr set_kv]. rewrite Hr. cbn beta iota.
  change (mkEngine _ _ _ _ _) with (add_effect (ReplyAsync 0 (mCurTerm e) v cmd r' true) (set_kv kv2 e)) at 1.
  rewrite (in_kv_Done _ c2 (add_effect _ (set_kv kv2 e)) _ _ _ Hfin). by rewrite Hf.
Qed.

(** A command without events. *)
Lemma doExecute_refused cmd c e st r0 c1 kv1 s r c2 kv2 f c3 kv3 r1 r2 :
  prepare cmd (initialResponse cmd) c (mKVStorePtr e) = Done (st, r0) c1 kv1 -> Status.isOK st = true ->
  execute cmd r0 c1 kv1 = Done (s, [], r) c2 kv2 ->
  finish cmd [] c2 kv2 = Done f c3 kv3 -> Status.isOK f = true ->
  initSuccessResponse cmd (getCurMaxVersion (mVersionStorePtr e)) [] r = Some r1 ->
  fillResponseAndReply cmd (toResponseCode s) (Status.getDetail s) None r1 = Some r2 ->
  doExecute None cmd c e = Done tt c3 (add_effect (Reply r2) (set_kv kv3 e)).
Proof.
  intros Hprep Hst Hexec Hfin Hf Hr1 Hr2. unfold doExecute.
  rewrite (bind_Done _ _ _ _ _ _ _ (in_kv_Done _ _ _ _ _ _ Hprep)), Hst.
  rewrite (bind_Done _ _ _ _ Status.ok c1 (set_kv kv1 e)) by done.
  change (Status.isOK Status.ok) with true. cbn iota.
  rewrite (bind_Done _ _ _ _ (s, [], r) c2 (set_kv kv2 e)); [|exact (in_kv_Done _ c1 (set_kv kv1 e) _ _ _ Hexec)].
  rewrite bool_decide_eq_true_2 by done. rewrite andb_false_r. unfold finishCommand.
  rewrite (bind_Done _ _ _ _ tt c3 (set_kv kv3 e)).
  - unfold replyDirectly, initResponse, reply, emit. run. cbn [mVersionStorePtr set_kv]. rewrite Hr1. cbn beta iota.
    by rewrite Hr2.
  - rewrite (bind_Done _ _ _ _ f c3 (set_kv kv3 e)); [by rewrite Hf|].
    exact (in_kv_Done _ c2 (set_kv kv2 e) _ _ _ Hfin).
Qed.

Lemma Executed_one_effect pre cmd c e c' e' :
  Executed pre cmd c e c' e' ->
  mCurTerm e' = mCurTerm e /\ exists x, effects e' = effects e ++ [x].
Proof.
  destruct 1; inv_steps; cbn; [by eauto..|].
  destruct (Dispatched_effect _ _ _ _ _ H4) as (_ & -> & y & ->). cbn. eauto.
Qed.

(** ** Raft gets what memory gets *)

(** A command that finishes by applying its events under its locks. *)
Definition applies_events cmd (keys : list KeyType) (isExclusive : bool) : Prop :=
  forall es, finish cmd es = finish_events keys isExclusive es.

(** Reads and no-ops apply as nothing. *)
Lemma until_error_nonread es st st' f c (s : S) c' s' :
  Forall no_import es -> Status.isOK st' = true ->
  until_error es apply st c s = Done f c' s' -> Status.isOK f = true ->
  exists f', until_error (nonReadEvents es) apply st' c s = Done f' c' s' /\ Status.isOK f' = true.
Proof.
  intros Hi. revert st st' c s. induction Hi as [|x es Hx _ IH]; intros st st' c s Hst H Hf.
  { cbn in H. run_in H. simplify_eq. by exists st'. }
  cbn [until_error] in H. apply bind_inv in H as (s1 & c1 & k1 & H1 & H).
  destruct (Status.isOK s1) eqn:E1; [|run_in H; congruence].
  unfold nonReadEvents in *. rewrite filter_cons. case_decide as Hr.
  - cbn [until_error]. rewrite (bind_Done _ _ _ _ _ _ _ H1). rewrite E1. eapply IH; eauto.
  - assert (c1 = c /\ k1 = s) as [-> ->]; [|eapply IH; eauto].
    destruct x as [w|r|d|iv w]; cbn in H1, Hr; [|by run_in H1; simplify_eq|done|by destruct Hx].
    unfold is_nonread, applyWrite in *. cbn in Hr. destruct (w_isNoOp w); [|done].
    by run_in H1; simplify_eq.
Qed.

(** C2: raft gets what memory gets. When a command hands a bundle to raft, the
    events of the bundle all carry the version just allocated and can be
    replicated, and the store ends as after its [execute], those events applied
    in order without an error, and the unlock of the command's keys. *)
Theorem persisted_events_are_applied pre cmd keys excl c e c' e' t v r evs :
  applies_events cmd keys excl ->
  (forall r c s st es r' c' s', execute cmd r c s = Done (st, es, r') c' s' -> Forall no_import es) ->
  doExecute pre cmd c e = Done tt c' e' ->
  effects e' = effects e ++ [PersistAsync t v cmd r evs] ->
  t = mCurTerm e /\ evs <> [] /\ Forall (fun x => replicable x /\ getAllocatedVersion x = v) evs /\
  (v, mVersionStorePtr e') = allocateNextVersion kInvalidVersion (mVersionStorePtr e) /\
  exists sp r0 cp kvp c0 kv0 s0 es r1 c1 kv1 f c2 kv2 u,
    prepare cmd (initialResponse cmd) c (mKVStorePtr e) = Done (sp, r0) cp kvp /\ Status.isOK sp = true /\
    execute cmd r0 c0 kv0 = Done (s0, es, r1) c1 kv1 /\
    until_error evs apply Status.ok c1 kv1 = Done f c2 kv2 /\ Status.isOK f = true /\
    kvUnlock keys excl c2 kv2 = Done u c' (mKVStorePtr e') /\ Status.isOK u = true.
Proof.
  intros Happ Hni H%doExecute_Executed He.
  destruct H; inv_steps; cbn in He; try (apply app_inv_head in He; discriminate).
  pose proof (Hni _ _ _ _ _ _ _ _ H3) as Hes. rewrite Happ in H5.
  destruct (finish_events_inv _ _ _ _ _ _ _ _ H5) as (f & c4 & k4 & u & Hun & Hu & Hku & ->).
  destruct H4 as [r2 r3 Hn _|r2 r3 Hn _]; cbn in He, Hun; apply app_inv_head in He; simplify_eq.
  assert (expectedVersion es = kInvalidVersion) as Hev by (by apply expectedVersion_none).
  unfold allocated in *. cbn in *. rewrite Hev in *.
  destruct (until_error_nonread (with_version
     (allocateNextVersion kInvalidVersion (mVersionStorePtr e)).1 <$> es) Status.ok Status.ok
     _ _ _ _ _ ltac:(by apply with_version_no_import) eq_refl Hun H1) as (f' & Hf' & Hok).
  split_and!; [done | | apply nonReadEvents_versioned | by destruct (allocateNextVersion _ _) |].
  - rewrite nonReadEvents_with_version. by intros ?%fmap_nil_inv.
  - eexists _, _, _, _, _, _, _, _, _, _, _, f', _, _, _. eauto 10.
Qed.

End Runs.

(** ** Locks *)

Section Locks.
Context {S K : Type} `{!KVStore S} `{!EqDecision K} `{!Lockable S K}.
Implicit Types (e : Engine S) (cmd : Command S).

Definition engine_locks e : K -> option SharedMutex := lock_view (mKVStorePtr e).

(** [finish] puts back the mutexes [prepare] moved. *)
Lemma finish_releases cmd (L : CommandLaws cmd) es r r0 s s1 s2 st c c1 c2 f c' s' :
  prepare cmd r c s = Done (st, r0) c1 s1 -> Status.isOK st = true ->
  (forall i, lock_view s2 i = lock_view s1 i) ->
  finish cmd es c2 s2 = Done f c' s' ->
  forall i, lock_view s' i = lock_view s i.
Proof.
  intros H Hst Hv Hf. apply (prepare_locks _ L) in H. rewrite Hst in H. destruct H as (c0 & s0 & Hv0 & H).
  destruct (kvLock_moves _ _ _ _ _ _ _ H) as (_ & _ & Hmv).
  destruct (finish_unlocks _ L _ _ _ _ _ _ Hf) as (u & c3 & s3 & Hv3 & Hun).
  destruct (kvUnlock_moves (lock_keys _ L) (lock_excl _ L) c3 s3) as (s4 & Hun' & Hmv').
  { intros i Hi. rewrite Hv3, Hv. eapply moved_defined; [|exact Hmv|exact Hi]. apply release_acquire. }
  rewrite Hun in Hun'. simplify_eq. intros i. rewrite <- Hv0.
  eapply moved_undo; [apply release_acquire | exact Hmv |].
  intros j. specialize (Hmv' j). rewrite Hv3, Hv in Hmv'. exact Hmv'.
Qed.

Lemma not_prepared_keeps cmd (L : CommandLaws cmd) r r0 c s st c' s' :
  prepare cmd r c s = Done (st, r0) c' s' -> Status.isOK st = false ->
  forall i, lock_view s' i = lock_view s i.
Proof. intros H Hst. apply (prepare_locks _ L) in H. by rewrite Hst in H. Qed.

Lemma execute_keeps_view cmd (L : CommandLaws cmd) r c s x c' s' :
  execute cmd r c s = Done x c' s' -> forall i, lock_view s' i = lock_view s i.
Proof. intros H. by apply (execute_keeps _ L r (lock_view s) c s x c' s'). Qed.

(** The callback leaves the locks alone. *)
Definition gate_keeps (pre : option (Command S -> M S Status.t)) : Prop :=
  forall cb cmd, pre = Some cb -> keeps_locks lock_view (cb cmd).

Lemma gate_keeps_view pre cmd c e s c' e' :
  gate_keeps pre -> gate pre cmd c e = Done s c' e' ->
  forall i, engine_locks e' i = engine_locks e i.
Proof.
  intros Hp H. unfold gate in H. destruct pre as [cb|]; [destruct (skipPreExecuteCB cmd)|].
  - by run_in H; simplify_eq.
  - apply in_kv_inv in H as (kv & H & ->).
    by apply (Hp cb cmd eq_refl (engine_locks e) c (mKVStorePtr e) s c' kv).
  - by run_in H; simplify_eq.
Qed.

Lemma Executed_balanced pre cmd (L : CommandLaws cmd) c e c' e' :
  gate_keeps pre -> Executed pre cmd c e c' e' ->
  forall i, engine_locks e' i = engine_locks e i.
Proof.
  intros Hp H.
  destruct H as [s r0 c1 e1 c' e' H1 Hs Hr|s1 s r0 c1 e1 c2 e2 c3 e3 c' e' H1 Hs1 H2 _ H3 H4
    |s1 s2 s es r0 r c1 e1 c2 e2 c3 e3 c4 e4 c' e' H1 Hs1 H2 _ H3 _ H4 H5
    |s1 s2 s es es' r0 r c1 e1 c2 e2 c3 e3 e4 c' e' H1 Hs1 H2 _ H3 H4 H5];
  apply in_kv_inv in H1 as (kv1 & H1 & ->); [|pose proof (gate_keeps_view _ _ _ _ _ _ _ Hp H2) as Hv2..].
  - apply reply_inv in Hr as (-> & r' & _ & ->). by eapply not_prepared_keeps.
  - apply finishCommand_inv in H3 as (f & kv3 & H3 & _ & ->).
    apply replyDirectly_inv in H4 as (-> & r & ->). by eapply finish_releases.
  - apply in_kv_inv in H3 as (kv3 & H3 & ->). apply finishCommand_inv in H4 as (f & kv4 & H4 & _ & ->).
    apply replyDirectly_inv in H5 as (-> & r' & ->). eapply finish_releases; [exact L|exact H1|exact Hs1| |exact H4].
    intros i. etransitivity; [by eapply execute_keeps_view | apply Hv2].
  - apply in_kv_inv in H3 as (kv3 & H3 & ->). apply finishCommand_inv in H5 as (f & kv5 & H5 & _ & ->).
    destruct (Dispatched_effect _ _ _ _ _ H4) as (Hk & _ & _). rewrite Hk in H5.
    eapply finish_releases; [exact L|exact H1|exact Hs1| |exact H5].
    intros i. etransitivity; [by eapply execute_keeps_view | apply Hv2].
Qed.

Lemma follower_balanced cmd (L : CommandLaws cmd) c e x c' e' :
  doFollowerReadExecute cmd c e = Done x c' e' ->
  forall i, engine_locks e' i = engine_locks e i.
Proof.
  unfold doFollowerReadExecute. intros H. apply bind_inv in H as ([s1 r0] & c1 & e1 & H1 & H).
  apply in_kv_inv in H1 as (kv1 & H1 & ->). destruct (Status.isOK s1) eqn:Hs1.
  2: { apply reply_inv in H as (-> & r' & _ & ->). by eapply not_prepared_keeps. }
  apply bind_inv in H as ([[s es] r] & c2 & e2 & H2 & H). apply in_kv_inv in H2 as (kv2 & H2 & ->).
  pose proof (execute_keeps_view _ L _ _ _ _ _ _ H2) as Hv.
  destruct (_ && _)%bool in H.
  - apply bind_inv in H as (e3 & c3 & e3' & H3 & H). run_in H3. simplify_eq.
    destruct (followerReadVersion _ _) as [v|]; [|discriminate].
    apply bind_inv in H as (r1 & c4 & e4 & H4 & H). apply initResponse_inv in H4 as (_ & -> & ->).
    apply bind_inv in H as ([] & c5 & e5 & H5 & H). unfold emit in H5. run_in H5. simplify_eq.
    apply finishCommand_inv in H as (f & kv5 & H & _ & ->). by eapply finish_releases.
  - apply bind_inv in H as ([] & c3 & e3 & H3 & H).
    apply finishCommand_inv in H3 as (f & kv5 & H3 & _ & ->).
    apply replyDirectly_inv in H as (-> & r' & ->). by eapply finish_releases.
Qed.

Lemma in_kv_keeps {A} (m : M S A) : keeps_locks lock_view m -> keeps_locks engine_locks (in_kv m).
Proof.
  intros Hm ms c e a c' e' HI H. apply in_kv_inv in H as (kv & H & ->).
  exact (Hm ms _ _ _ _ _ HI H).
Qed.

Lemma waitLeader_keeps fuel n env cmd : keeps_locks engine_locks (waitLeader fuel n env cmd).
Proof.
  revert n. induction fuel as [|fuel IH]; intros n ms; cbn [waitLeader]; [auto with goblin|].
  assert (forall code msg l r, preserves (fun e => forall i, engine_locks e i = ms i)
    (reply cmd code msg l r)) as Hreply.
  { intros code msg l r c e x c' e' HI H. by apply reply_inv in H as (-> & r' & _ & ->). }
  destruct (roleAndTerm env n) as [role term]. case_match; [|auto with goblin].
  apply preserves_bind; [auto with goblin|]. intros e0. case_match; [auto with goblin|].
  case_match; [|case_match].
  - apply preserves_bind; [apply in_kv_keeps; auto with goblin | intros; apply IH].
  - apply preserves_bind; [|auto with goblin]. unfold becomeLeader, getVersionFromBundle.
    apply preserves_bind; [repeat case_match; auto with goblin|]. intros v.
    apply preserves_bind; [by apply preserves_modify|]. intros _.
    apply preserves_bind; [apply in_kv_keeps; auto with goblin|]. intros _.
    apply preserves_bind; [apply in_kv_keeps; auto with goblin|]. intros _.
    by apply preserves_modify.
  - apply preserves_bind; [apply in_kv_keeps; auto with goblin|]. auto with goblin.
Qed.

(** C8: locks are balanced. However a command ends, whether it is refused for want
    of leadership, stopped by the callback, refused by its preconditions or
    performed, when [process] returns every mutex of the store is as it was
    before. *)
Theorem process_balances_locks flag fuel env pre cmd (L : CommandLaws cmd) c e c' e' :
  gate_keeps pre ->
  process flag fuel env pre cmd c e = Done tt c' e' ->
  forall i, engine_locks e' i = engine_locks e i.
Proof.
  intros Hp. unfold process. destruct (_ && _)%bool; [apply follower_balanced, L|]. intros H.
  apply bind_inv in H as (ready & c1 & e1 & H1 & H).
  assert (forall i, engine_locks e1 i = engine_locks e i) as Hv1.
  { by apply (waitLeader_keeps fuel O env cmd (engine_locks e) c e ready c1 e1). }
  destruct ready; [|by run_in H; simplify_eq]. intros i. rewrite <- Hv1.
  eapply Executed_balanced; [exact L|exact Hp|]. by eapply doExecute_Executed.
Qed.

End Locks.

(** ** Versions *)

Section Versions.
Context {S : Type} `{!KVStore S}.
Implicit Types (e : Engine S) (cmd : Command S).

(** The versions handed to raft, in order. *)
Definition persisted (l : list (Effect S)) : list VersionType :=
  omap (fun x => match x with PersistAsync _ v _ _ _ => Some v | _ => None end) l.

Lemma persisted_app l1 l2 : persisted (l1 ++ l2) = persisted l1 ++ persisted l2.
Proof. apply omap_app. Qed.

(** A command that makes no import event. *)
Definition imports_nothing cmd : Prop :=
  forall r c s st es r' c' s', execute cmd r c s = Done (st, es, r') c' s' -> Forall no_import es.

Lemma Executed_versions pre cmd c e c' e' :
  imports_nothing cmd -> Executed pre cmd c e c' e' ->
  (mVersionStorePtr e' = mVersionStorePtr e /\ persisted (effects e') = persisted (effects e)) \/
  exists v, (v, mVersionStorePtr e') = allocateNextVersion kInvalidVersion (mVersionStorePtr e) /\
    persisted (effects e') = persisted (effects e) ++ [v].
Proof.
  intros Hni H. destruct H; inv_steps; cbn; rewrite ?persisted_app; cbn [persisted omap];
    rewrite ?app_nil_r; [by left..|].
  pose proof (Hni _ _ _ _ _ _ _ _ H3) as Hes.
  destruct H4 as [r2 r3 Hn _|r2 r3 Hn _]; cbn; rewrite persisted_app; cbn.
  - left. by rewrite app_nil_r.
  - right. unfold allocated. rewrite expectedVersion_none by done. eexists. split; [|done].
    by destruct (allocateNextVersion _ _).
Qed.

Lemma run_versions pre cmds c e c' e' :
  Forall imports_nothing cmds ->
  0 <= mNextVersion (mVersionStorePtr e) ->
  mNextVersion (mVersionStorePtr e) + Z.of_nat (length cmds) < 2 ^ 64 ->
  forM cmds (doExecute pre) c e = Done tt c' e' ->
  exists n, n <= Z.of_nat (length cmds) /\
    persisted (effects e') = persisted (effects e) ++ seqZ (mNextVersion (mVersionStorePtr e)) n.
Proof.
  intros Hni. revert c e. induction Hni as [|cmd cmds Hc _ IH]; intros c e H0 Hb H; cbn [forM] in H.
  { run_in H. simplify_eq. exists 0. rewrite seqZ_nil, app_nil_r by lia. split; [cbn; lia | done]. }
  apply bind_inv in H as ([] & c1 & e1 & H1%doExecute_Executed & H). cbn [length] in Hb.
  destruct (Executed_versions _ _ _ _ _ _ Hc H1) as [[Hv Hp]|(v & Hv & Hp)].
  - destruct (IH c1 e1) as (n & Hn & Hpn); [rewrite Hv; lia..|done|].
    exists n. rewrite Hpn, Hp, Hv. split; [cbn [length]; lia | done].
  - rewrite allocate_any in Hv by lia. inversion Hv as [[Hv1 Hv2]].
    destruct (IH c1 e1) as (n & Hn & Hpn); [rewrite Hv2; cbn; lia..|done|].
    exists (Z.max n 0 + 1). split; [cbn [length]; lia|].
    rewrite Hpn, Hp, Hv2, Hv1, <- app_assoc. cbn [mNextVersion]. f_equal.
    rewrite (seqZ_cons _ (Z.max n 0 + 1)) by lia. cbn. f_equal.
    destruct (decide (0 <= n)).
    + by replace (Z.pred (Z.max n 0 + 1)) with n by lia.
    + rewrite !seqZ_nil by lia. done.
Qed.


(** ** Leadership *)

Lemma waitLeader_inv fuel n env cmd c e b c' e' :
  waitLeader fuel n env cmd c e = Done b c' e' ->
  if (b : bool) then effects e' = effects e /\ exists m, roleAndTerm env m = (Leader, mCurTerm e')
  else exists r, effects e' = effects e ++ [Reply r].
Proof.
  revert n c e. induction fuel as [|fuel IH]; intros n c e H; [discriminate|]. cbn [waitLeader] in H.
  destruct (roleAndTerm env n) as [role term] eqn:Er. case_bool_decide as Hl.
  2: { apply bind_inv in H as ([] & c1 & e1 & H1 & H). apply reply_inv in H1 as (-> & r & _ & ->).
       run_in H. simplify_eq. by exists r. }
  subst role. apply bind_inv in H as (e0 & c0 & e0' & H0 & H). run_in H0. simplify_eq.
  case_bool_decide as Ht. { run_in H. simplify_eq. eauto. }
  destruct (await env n) as [|idx lb].
  { apply bind_inv in H as ([] & c1 & e1 & H1 & H). apply in_kv_inv in H1 as (kv & _ & ->).
    by apply IH in H. }
  destruct (Status.isOK (becomeLeaderOK env n)).
  - apply bind_inv in H as ([] & c1 & e1 & H1 & H). run_in H. simplify_eq.
    unfold becomeLeader in H1. apply bind_inv in H1 as (v & c2 & e2 & H2 & H1).
    assert (e2 = e0') as ->.
    { destruct lb as [[|[]]|]; unfold getVersionFromBundle in H2; run_in H2; by simplify_eq. }
    apply bind_inv in H1 as ([] & c3 & e3 & H3 & H1). run_in H3. simplify_eq.
    apply bind_inv in H1 as ([] & c4 & e4 & H4 & H1). apply in_kv_inv in H4 as (kv4 & _ & ->).
    apply bind_inv in H1 as (st & c5 & e5 & H5 & H1). apply in_kv_inv in H5 as (kv5 & _ & ->).
    run_in H1. simplify_eq. cbn. eauto.
  - apply bind_inv in H as ([] & c1 & e1 & H1 & H). apply in_kv_inv in H1 as (kv & _ & ->).
    apply bind_inv in H as ([] & c2 & e2 & H2 & H). apply reply_inv in H2 as (-> & r & _ & ->).
    run_in H. simplify_eq. by exists r.
Qed.

(** The term an effect is bound to. *)
Definition persist_term (x : Effect S) : option Z :=
  match x with PersistAsync t _ _ _ _ => Some t | _ => None end.

Lemma Executed_persist_term pre cmd c e c' e' x t :
  Executed pre cmd c e c' e' -> effects e' = effects e ++ [x] -> persist_term x = Some t ->
  t = mCurTerm e.
Proof.
  intros H Hx Hp. destruct H; inv_steps; cbn in Hx;
    try (apply app_inv_head in Hx; simplify_eq; discriminate).
  destruct H4; cbn in Hx; apply app_inv_head in Hx; simplify_eq/=; done.
Qed.

(** C13: one command, one effect, and only a leader persists. A command that needs
    leadership and is processed to its end causes exactly one effect: a reply,
    a task for the reply loop or a bundle for raft. A bundle is marked with the
    term the processor works in, and raft reported this node as the leader of
    that term while the command was processed. *)
Theorem one_effect_from_the_leader flag fuel env pre cmd c e c' e' :
  (isFollowerReadCmd cmd && negb flag = false)%bool ->
  process flag fuel env pre cmd c e = Done tt c' e' ->
  exists x, effects e' = effects e ++ [x] /\
    forall t, persist_term x = Some t -> t = mCurTerm e' /\ exists n, roleAndTerm env n = (Leader, t).
Proof.
  intros Hf. unfold process. rewrite Hf. intros H. apply bind_inv in H as (b & c1 & e1 & H1 & H).
  apply waitLeader_inv in H1. destruct b.
  - destruct H1 as (He & m & Hm). apply doExecute_Executed in H.
    destruct (Executed_one_effect _ _ _ _ _ _ H) as (Ht & x & Hx). rewrite He in Hx.
    exists x. split; [done|]. intros t Hp.
    assert (t = mCurTerm e1) as -> by (by eapply Executed_persist_term; [exact H | by rewrite He | ]).
    split; [done | by exists m].
  - destruct H1 as (r & Hr). run_in H. simplify_eq. exists (Reply r). split; [done | discriminate].
Qed.

End Versions.
