(* ===== verification/CommandsSpec.v ===== *)
(** * Commands end to end

    What clients observe of puts, gets, deletes and imports: [doExecute] run on an
    engine whose store is the in-memory overlay over any delegate. The store the
    server uses answers like this one, see [wsconcur_refines_inmemory]. *)

From S2P Require Import Prelude Status Proto KVStore SharedMutex Lockable InMemoryKVStore VersionStore.
From S2P Require Import Event Command KVPutCommand KVGetCommand KVDeleteCommand KVImportCommand.
From S2P Require Import CommandProcessor ProcessorSpec.

#[local] Arguments allocateNextVersion : simpl never.
#[local] Arguments kInvalidVersion : simpl never.
#[local] Arguments InMemoryKVStore.readKV : simpl never.
#[local] Arguments InMemoryKVStore.deleteKV : simpl never.

Section EndToEnd.
Context {D : Type} `{!KVStore D} {IPS : NodeIps}.
Implicit Types (e : Engine (InMemoryKVStore D)).

Definition next_version e : VersionType := mNextVersion (mVersionStorePtr e).

(** The engine after a command sent [x] out and took the next version. *)
Definition advanced (kv : InMemoryKVStore D) (x : Effect (InMemoryKVStore D)) e : Engine (InMemoryKVStore D) :=
  mkEngine kv (mkVersionStore (next_version e + 1) (mMaxVersion (mVersionStorePtr e)))
           (mCurTerm e) (raftLastSentIndex e) (effects e ++ [x]).

(** The engine after a command that only read. *)
Definition answered (kv : InMemoryKVStore D) (x : Effect (InMemoryKVStore D)) e : Engine (InMemoryKVStore D) :=
  mkEngine kv (mVersionStorePtr e) (mCurTerm e) (raftLastSentIndex e) (effects e ++ [x]).

Lemma put_run req c e :
  we_enableTTL (pq_entry req) = false ->
  0 <= next_version e < 2 ^ 64 - 1 ->
  let w := mkWriteEvent (we_key (pq_entry req)) (we_value (pq_entry req)) (next_version e) false
             INFINITE_TTL NEVER_EXPIRE (u32 (c O)) (we_udfMeta (pq_entry req)) false in
  exists r, wr_code (pp_result r) = RC_OK /\ wr_version (pp_result r) = next_version e /\
    doExecute None (KVPutCommand.command req) c e =
    Done tt (later c) (advanced
      (mkInMemory (notify_bucket (OnWrite (w_key w) (w_value w) (w_version w))
         (insert_entry (w_key w) (mkEntry (w_value w) (w_version w) INFINITE_TTL NEVER_EXPIRE (u32 (c O)))
            (w_udfMeta w) (bucket (mKVStorePtr e)))) (mDelegate (mKVStorePtr e)))
      (PersistAsync (mCurTerm e) (next_version e) (KVPutCommand.command req) (PutResp r) [EvWrite w]) e).
Proof.
  intros Ht Hv w. destruct (mKVStorePtr e) as [b d] eqn:Ekv. eexists. split; [|split]; cycle 2.
  - etransitivity; [eapply doExecute_replicated with (v := next_version e) (f := Status.ok)|];
      rewrite ?Ekv.
    + reflexivity.
    + reflexivity.
    + cbn. unfold plain, KVPutCommand.execute. rewrite Ht. reflexivity.
    + reflexivity.
    + discriminate.
    + by repeat constructor.
    + reflexivity.
    + by apply allocate_any.
    + discriminate.
    + constructor; [by right | constructor].
    + reflexivity.
    + reflexivity.
    + reflexivity.
  - reflexivity.
  - reflexivity.
Qed.

(** A get that misses meta data and does not allow a stale value. *)
Definition plain_get (req : GetRequest) : Prop :=
  gq_allowStale req = false /\ gq_isMetaReturned req = false.

Lemma get_run_found req c e v ttl ver c' kv :
  plain_get req ->
  InMemoryKVStore.readKV (re_key (gq_entry req)) fresh_out c (mKVStorePtr e) =
    Done (Status.ok, mkOut v ttl ver) c' kv ->
  0 < ver ->
  exists r, rr_code (gp_result r) = RC_OK /\ rr_version (gp_result r) = ver /\
    rr_value (gp_result r) = v /\
    doExecute None (KVGetCommand.command req) c e =
    Done tt c' (answered kv (ReplyAsync 0 (mCurTerm e) ver (KVGetCommand.command req) (GetResp r) false) e).
Proof.
  intros [Hs Hm] Hr Hver. eexists. split; [|split; [|split]]; cycle 3.
  - unfold answered. replace ver with (maxReadVersion (getCurMaxVersion (mVersionStorePtr e))
      [newReadEvent (re_key (gq_entry req)) v ttl ver false]) at 1
      by (cbn; unfold kInvalidVersion; lia).
    etransitivity; [eapply doExecute_read with (f := Status.ok)|].
    + reflexivity.
    + reflexivity.
    + cbn. unfold plain, KVGetCommand.execute, KVGetCommand.isFollowerReadCmd. rewrite Hs. cbn.
      unfold bind. rewrite Hr. cbn. rewrite Hm. reflexivity.
    + reflexivity.
    + discriminate.
    + by repeat constructor.
    + reflexivity.
    + reflexivity.
    + cbn. rewrite Hm. reflexivity.
    + reflexivity.
    + reflexivity.
  - reflexivity.
  - reflexivity.
  - reflexivity.
Qed.

Lemma get_run_miss req c e st out c' kv :
  plain_get req ->
  InMemoryKVStore.readKV (re_key (gq_entry req)) fresh_out c (mKVStorePtr e) = Done (st, out) c' kv ->
  Status.isNotFound st = true -> 0 < outVersion out ->
  exists r, rr_code (gp_result r) = RC_KEY_NOT_EXIST /\
    doExecute None (KVGetCommand.command req) c e =
    Done tt c' (answered kv (ReplyAsync 0 (mCurTerm e) (outVersion out) (KVGetCommand.command req)
                               (GetResp r) false) e).
Proof.
  intros [Hs Hm] Hr Hst Hver. eexists. split; cycle 1.
  - unfold answered. replace (outVersion out) with (maxReadVersion (getCurMaxVersion (mVersionStorePtr e))
      [newReadEvent (re_key (gq_entry req)) (outValue out) (outTTL out) (outVersion out) true]) at 1
      by (cbn; rewrite bool_decide_eq_false_2; unfold kInvalidVersion; lia).
    etransitivity; [eapply doExecute_read with (f := Status.ok)|].
    + reflexivity.
    + reflexivity.
    + cbn. unfold plain, KVGetCommand.execute, KVGetCommand.isFollowerReadCmd. rewrite Hs. cbn.
      unfold bind. rewrite Hr. cbn. rewrite Hst. reflexivity.
    + by rewrite Hst, orb_true_r.
    + discriminate.
    + by repeat constructor.
    + reflexivity.
    + reflexivity.
    + reflexivity.
    + reflexivity.
    + reflexivity.
  - reflexivity.
Qed.

(** A stale get asks the delegate and nobody else: neither the entries of the store nor the role of the node. *)
Lemma stale_get_found req fuel env pre c e v ttl ver c' d' :
  gq_allowStale req = true ->
  kvReadKV (re_key (gq_entry req)) fresh_out c (mDelegate (mKVStorePtr e)) = Done (Status.ok, mkOut v ttl ver) c' d' ->
  (gq_isMetaReturned req = true -> exists ms meta, kvReadMeta (re_key (gq_entry req)) empty_meta c' d' = Done (ms, meta) c' d') ->
  exists r, rr_code (gp_result r) = RC_OK /\ rr_version (gp_result r) = ver /\ rr_value (gp_result r) = v /\
    process false fuel env pre (KVGetCommand.command req) c e =
    Done tt c' (answered (mkInMemory (bucket (mKVStorePtr e)) d')
      (ReplyAsync 0 (mCurTerm e) (Z.max kInvalidVersion ver) (KVGetCommand.command req) (GetResp r) true) e).
Proof.
  intros Hs Hr Hm. set (key := re_key (gq_entry req)) in *.
  assert (exists x, r_isNotFound x = false /\ r_version x = ver /\ r_value x = v /\
    KVGetCommand.execute req c (mKVStorePtr e) = Done (Status.ok, [EvRead x]) c' (mkInMemory (bucket (mKVStorePtr e)) d')) as (x & Hx & Hxv & Hxx & Hexec).
  { unfold KVGetCommand.execute, KVGetCommand.isFollowerReadCmd. rewrite Hs. fold key. cbn. unfold readKVFromProxy, readMetaFromProxy, on_delegate, zoom, bind.
    rewrite Hr. change (Status.isNotFound Status.ok) with false. change (Status.isOK Status.ok) with true. cbn. destruct (gq_isMetaReturned req); [|by eexists (mkReadEvent _ _ _ _ _ _ _)].
    destruct (Hm eq_refl) as (ms & meta & Hmeta). cbn. rewrite Hmeta. destruct (Status.isNotFound ms), (m_udfMeta meta); by eexists (mkReadEvent _ _ _ _ _ _ _). }
  eexists. split; [|split; [|split]]; cycle 3.
  - eapply (process_stale fuel env pre _ c e Status.ok) with (s := Status.ok) (f := Status.ok) (es := [EvRead x]);
      [exact Hs|reflexivity|reflexivity| |reflexivity|discriminate| | |reflexivity|reflexivity].
    + cbn. unfold plain, bind. by rewrite Hexec.
    + cbn. by rewrite Hx, Hxv.
    + cbn. rewrite Hx. reflexivity.
  - by destruct (gq_isMetaReturned req).
  - by destruct (gq_isMetaReturned req).
  - by destruct (gq_isMetaReturned req).
Qed.

Lemma stale_get_miss req fuel env pre c e st out c' d' :
  gq_allowStale req = true ->
  kvReadKV (re_key (gq_entry req)) fresh_out c (mDelegate (mKVStorePtr e)) = Done (st, out) c' d' -> Status.isNotFound st = true ->
  exists r, rr_code (gp_result r) = RC_KEY_NOT_EXIST /\
    process false fuel env pre (KVGetCommand.command req) c e =
    Done tt c' (answered (mkInMemory (bucket (mKVStorePtr e)) d')
      (ReplyAsync 0 (mCurTerm e) (Z.max kInvalidVersion (getMaxAllocatedVersion (mVersionStorePtr e))) (KVGetCommand.command req) (GetResp r) true) e).
Proof.
  intros Hs Hr Hst. eexists. split; cycle 1.
  - eapply (process_stale fuel env pre _ c e Status.ok) with (s := st) (f := Status.ok)
      (es := [newReadEvent (re_key (gq_entry req)) (outValue out) (outTTL out) (outVersion out) true]);
      [exact Hs|reflexivity|reflexivity| | | | | |reflexivity|reflexivity].
    + cbn. unfold plain, KVGetCommand.execute, KVGetCommand.isFollowerReadCmd. rewrite Hs. cbn.
      unfold readKVFromProxy, on_delegate, zoom, bind. rewrite Hr. cbn. rewrite Hst. reflexivity.
    + by rewrite Hst, orb_true_r.
    + discriminate.
    + reflexivity.
    + reflexivity.
  - reflexivity.
Qed.

(** A delete of any version, or of the version the key has. *)
Lemma delete_run req c e v ttl ver c' kv kv' st :
  let k := de_key (dq_entry req) in
  de_version (dq_entry req) = kInvalidVersion \/ de_version (dq_entry req) = ver ->
  InMemoryKVStore.readKV k fresh_out c (mKVStorePtr e) = Done (Status.ok, mkOut v ttl ver) c' kv ->
  InMemoryKVStore.deleteKV k (next_version e) ver c' kv = Done st c' kv' ->
  0 <= next_version e < 2 ^ 64 - 1 ->
  exists r d, dp_result r = mkRemoveResult RC_OK ver (if dq_returnValue req then v else "") /\
    d_key d = k /\ d_version d = next_version e /\ d_deletedVersion d = ver /\
    doExecute None (KVDeleteCommand.command req) c e =
    Done tt c' (advanced kv' (PersistAsync (mCurTerm e) (next_version e) (KVDeleteCommand.command req)
                                (DeleteResp r) [EvDelete d]) e).
Proof.
  intros k Htv Hr Hd Hv. subst k. do 2 eexists. split_and!; cycle 4.
  - etransitivity; [eapply doExecute_replicated with (v := next_version e) (f := Status.ok)|].
    + reflexivity.
    + reflexivity.
    + cbn. unfold plain, KVDeleteCommand.execute.
      cbn [kvReadKV InMemoryKVStore_KVStore]. unfold bind. rewrite Hr. cbn.
      rewrite bool_decide_eq_false_2 by naive_solver. reflexivity.
    + reflexivity.
    + discriminate.
    + by repeat constructor.
    + reflexivity.
    + by apply allocate_any.
    + discriminate.
    + constructor; [by right | constructor].
    + reflexivity.
    + cbn. unfold KVDeleteCommand.finish, finish_events. cbn [until_error fmap list_fmap apply with_version].
      cbn [kvDeleteKV InMemoryKVStore_KVStore d_key d_version d_deletedVersion]. unfold bind.
      cbn. rewrite Hd. reflexivity.
    + reflexivity.
  - reflexivity.
  - reflexivity.
  - reflexivity.
  - reflexivity.
Qed.

(** A delete of a key that is not there, or not in the version that is asked for. *)
Lemma delete_run_kept req c e st out c' kv :
  InMemoryKVStore.readKV (de_key (dq_entry req)) fresh_out c (mKVStorePtr e) = Done (st, out) c' kv ->
  Status.isNotFound st = true \/
    st = Status.ok /\ de_version (dq_entry req) <> kInvalidVersion /\ de_version (dq_entry req) <> outVersion out ->
  exists r n, dp_result r = mkRemoveResult RC_KEY_NOT_EXIST kInvalidVersion "" /\
    doExecute None (KVDeleteCommand.command req) c e =
    Done tt c' (answered kv (ReplyAsync 0 (mCurTerm e) n (KVDeleteCommand.command req) (DeleteResp r) false) e).
Proof.
  intros Hr Hst. do 2 eexists. split; cycle 1.
  - unfold answered. etransitivity; [eapply doExecute_read with (f := Status.ok) (es := [newReadEvent (de_key (dq_entry req)) (outValue out) (outTTL out) (outVersion out) true])|].
    + reflexivity.
    + reflexivity.
    + cbn. unfold plain, KVDeleteCommand.execute. cbn [kvReadKV InMemoryKVStore_KVStore]. unfold bind. rewrite Hr. cbn.
      destruct Hst as [->|(-> & H1 & H2)]; [reflexivity|]. cbn. rewrite bool_decide_eq_true_2 by done. reflexivity.
    + destruct Hst as [->|(-> & _)]; [apply orb_true_r|done].
    + discriminate.
    + by repeat constructor.
    + reflexivity.
    + reflexivity.
    + reflexivity.
    + reflexivity.
    + reflexivity.
  - reflexivity.
Qed.

(** The engine's commands run one after the other. *)
Definition session (cmds : list (Command (InMemoryKVStore D))) : M (Engine (InMemoryKVStore D)) unit :=
  forM cmds (doExecute None).

Lemma session_cons cmd cmds c e c1 e1 :
  doExecute None cmd c e = Done tt c1 e1 -> session (cmd :: cmds) c e = session cmds c1 e1.
Proof. intros H. unfold session. cbn [forM]. by rewrite (bind_Done _ _ _ _ _ _ _ H). Qed.

(** A put without ttl and a get of the key: what they send out, and the engine after them. *)
Lemma put_get_run pr gr c e :
  re_key (gq_entry gr) = we_key (pq_entry pr) -> plain_get gr -> we_enableTTL (pq_entry pr) = false -> 0 < next_version e < 2 ^ 64 - 1 ->
  exists c' e' r1 r2 w,
    session [KVPutCommand.command pr; KVGetCommand.command gr] c e = Done tt c' e' /\
    effects e' = effects e ++
      [PersistAsync (mCurTerm e) (next_version e) (KVPutCommand.command pr) (PutResp r1) [EvWrite w];
       ReplyAsync 0 (mCurTerm e) (next_version e) (KVGetCommand.command gr) (GetResp r2) false] /\
    mVersionStorePtr e' = mkVersionStore (next_version e + 1) (mMaxVersion (mVersionStorePtr e)) /\
    mCurTerm e' = mCurTerm e /\ mDelegate (mKVStorePtr e') = mDelegate (mKVStorePtr e) /\
    w_version w = next_version e /\ w_value w = we_value (pq_entry pr) /\
    wr_version (pp_result r1) = next_version e /\
    rr_code (gp_result r2) = RC_OK /\ rr_value (gp_result r2) = we_value (pq_entry pr) /\
    rr_version (gp_result r2) = next_version e.
Proof.
  intros Hk Hg Ht Hv. destruct (put_run pr c e Ht ltac:(lia)) as (r1 & _ & Hv1 & Hput).
  set (e1 := advanced _ _ e) in Hput.
  destruct (readKV_live (we_key (pq_entry pr)) fresh_out (later c) (bucket (mKVStorePtr e1))
    (mDelegate (mKVStorePtr e1)) (mkEntry (we_value (pq_entry pr)) (next_version e)
      INFINITE_TTL NEVER_EXPIRE (u32 (c O)))) as (c2 & Hread);
    [apply lookup_insert_eq | by left |].
  destruct (get_run_found gr (later c) e1 _ _ _ _ _ Hg
    ltac:(rewrite Hk; exact Hread) ltac:(cbn; lia)) as (r2 & Hc2 & Hver2 & Hval2 & Hget).
  do 4 eexists. exists (mkWriteEvent (we_key (pq_entry pr)) (we_value (pq_entry pr)) (next_version e)
    false INFINITE_TTL NEVER_EXPIRE (u32 (c O)) (we_udfMeta (pq_entry pr)) false).
  split_and!; [by rewrite (session_cons _ _ _ _ _ _ Hput), (session_cons _ _ _ _ _ _ Hget) | | | | | | | eassumption..];
    [cbn; by rewrite <- app_assoc|done..].
Qed.

(** A get sees the put before it. A put without ttl followed by a get of the
    same key completes; the put is sent to raft under the next version, the get
    answers the value and the version of the put, and its answer waits until
    that version is committed. *)
Theorem put_then_get pr gr c e :
  re_key (gq_entry gr) = we_key (pq_entry pr) -> plain_get gr ->
  we_enableTTL (pq_entry pr) = false ->
  0 < next_version e < 2 ^ 64 - 1 ->
  exists c' e' r1 r2 w,
    session [KVPutCommand.command pr; KVGetCommand.command gr] c e = Done tt c' e' /\
    effects e' = effects e ++
      [PersistAsync (mCurTerm e) (next_version e) (KVPutCommand.command pr) (PutResp r1) [EvWrite w];
       ReplyAsync 0 (mCurTerm e) (next_version e) (KVGetCommand.command gr) (GetResp r2) false] /\
    w_version w = next_version e /\ w_value w = we_value (pq_entry pr) /\
    wr_version (pp_result r1) = next_version e /\
    rr_code (gp_result r2) = RC_OK /\ rr_value (gp_result r2) = we_value (pq_entry pr) /\
    rr_version (gp_result r2) = next_version e.
Proof.
  intros Hk Hg Ht Hv. destruct (put_get_run pr gr c e Hk Hg Ht Hv) as (c' & e' & r1 & r2 & w & Hrun & Heff & _ & _ & _ & Hrest).
  by exists c', e', r1, r2, w.
Qed.

(** A get misses what was deleted before it. A put without ttl, a delete and a
    get of the same key complete; the get answers that the key does not exist,
    and its answer waits until the delete is committed. *)
Theorem put_delete_get pr dr gr c e :
  de_key (dq_entry dr) = we_key (pq_entry pr) -> re_key (gq_entry gr) = we_key (pq_entry pr) ->
  plain_get gr -> de_version (dq_entry dr) = kInvalidVersion ->
  we_enableTTL (pq_entry pr) = false ->
  0 < next_version e < 2 ^ 64 - 2 ->
  exists c' e' r1 r2 r3 w d,
    session [KVPutCommand.command pr; KVDeleteCommand.command dr; KVGetCommand.command gr] c e =
      Done tt c' e' /\
    effects e' = effects e ++
      [PersistAsync (mCurTerm e) (next_version e) (KVPutCommand.command pr) (PutResp r1) [EvWrite w];
       PersistAsync (mCurTerm e) (next_version e + 1) (KVDeleteCommand.command dr) (DeleteResp r2)
         [EvDelete d];
       ReplyAsync 0 (mCurTerm e) (next_version e + 1) (KVGetCommand.command gr) (GetResp r3) false] /\
    d_version d = next_version e + 1 /\ d_deletedVersion d = next_version e /\
    dr_version (dp_result r2) = next_version e /\
    rr_code (gp_result r3) = RC_KEY_NOT_EXIST.
Proof.
  intros Hkd Hkg Hg Hd Ht Hv. destruct (put_run pr c e Ht ltac:(lia)) as (r1 & _ & Hv1 & Hput).
  set (e1 := advanced _ _ e) in Hput.
  assert (mData (bucket (mKVStorePtr e1)) !! we_key (pq_entry pr) =
    Some (mkEntry (we_value (pq_entry pr)) (next_version e) INFINITE_TTL NEVER_EXPIRE (u32 (c O)))) as Hl1
    by apply lookup_insert_eq.
  assert (mDeletedData (bucket (mKVStorePtr e1)) !! we_key (pq_entry pr) = None) as Hl2
    by apply lookup_delete_eq.
  destruct (readKV_live (we_key (pq_entry pr)) fresh_out (later c) _
    (mDelegate (mKVStorePtr e1)) _ Hl1 ltac:(by left)) as (c2 & Hread).
  destruct (delete_run dr (later c) e1 _ _ _ c2 _ _ Status.ok ltac:(by left)
    ltac:(rewrite Hkd; exact Hread)
    ltac:(rewrite Hkd; eapply deleteKV_live; exact Hl1) ltac:(cbn; lia))
    as (r2 & d & Hr2 & _ & Hdv & Hdd & Hdel).
  assert (dr_version (dp_result r2) = next_version e) as Hv2 by (by rewrite Hr2).
  set (e2 := advanced _ _ e1) in Hdel.
  destruct (get_run_miss gr c2 e2 (Status.notFound (we_key (pq_entry pr) +:+ " not found"))
    (set_outVersion (next_version e + 1) fresh_out) c2 (mKVStorePtr e2) Hg) as (r3 & Hc3 & Hget).
  { rewrite Hkg. apply readKV_buried; cbn.
    - apply lookup_delete_eq.
    - cbn in Hl2. rewrite Hl2. apply lookup_insert_eq. }
  { done. }
  { cbn. lia. }
  do 5 eexists. exists (mkWriteEvent (we_key (pq_entry pr)) (we_value (pq_entry pr)) (next_version e)
    false INFINITE_TTL NEVER_EXPIRE (u32 (c O)) (we_udfMeta (pq_entry pr)) false), d.
  split_and!; [by rewrite (session_cons _ _ _ _ _ _ Hput), (session_cons _ _ _ _ _ _ Hdel),
    (session_cons _ _ _ _ _ _ Hget) | | eassumption..].
  cbn. by rewrite <- !app_assoc.
Qed.

(** A delete of a key that is only in the delegate is not visible. The overlay keeps
    no tombstone for a key it does not hold, so a get after a delete that was
    sent to raft still answers the deleted value, as a success, and waits for no
    more than the deleted value's own version. *)
Theorem delete_then_get_of_uncached_key dr gr c e v ttl ver :
  let k := de_key (dq_entry dr) in
  let kv := mKVStorePtr e in
  re_key (gq_entry gr) = k -> plain_get gr -> de_version (dq_entry dr) = kInvalidVersion ->
  mData (bucket kv) !! k = None -> mDeletedData (bucket kv) !! k = None ->
  (forall c, kvReadKV k fresh_out c (mDelegate kv) = Done (Status.ok, mkOut v ttl ver) c (mDelegate kv)) ->
  0 < ver -> 0 <= next_version e < 2 ^ 64 - 1 ->
  exists c' e' r1 r2 d,
    session [KVDeleteCommand.command dr; KVGetCommand.command gr] c e = Done tt c' e' /\
    effects e' = effects e ++
      [PersistAsync (mCurTerm e) (next_version e) (KVDeleteCommand.command dr) (DeleteResp r1) [EvDelete d];
       ReplyAsync 0 (mCurTerm e) ver (KVGetCommand.command gr) (GetResp r2) false] /\
    d_key d = k /\ rr_code (gp_result r2) = RC_OK /\ rr_value (gp_result r2) = v.
Proof.
  intros k kv Hk Hg Hd Hl1 Hl2 Hread Hver Hv.
  assert (forall c, InMemoryKVStore.readKV k fresh_out c kv = Done (Status.ok, mkOut v ttl ver) c kv) as Hr.
  { intros c0. subst kv. destruct (mKVStorePtr e) as [b d] eqn:E. cbn in *.
    rewrite readKV_absent by done. unfold on_delegate. by erewrite zoom_Done by apply Hread. }
  destruct (delete_run dr c e v ttl ver c kv kv Status.ok ltac:(by left) (Hr c)) as (r1 & d & _ & Hdk & _ & _ & Hdel).
  { subst kv. destruct (mKVStorePtr e). by apply deleteKV_not_live. }
  { done. }
  set (e1 := advanced _ _ e) in Hdel.
  destruct (get_run_found gr c e1 v ttl ver c kv Hg ltac:(rewrite Hk; apply Hr) Hver)
    as (r2 & Hc & _ & Hval & Hget).
  do 5 eexists. split_and!; [by rewrite (session_cons _ _ _ _ _ _ Hdel), (session_cons _ _ _ _ _ _ Hget)
    | | eassumption..].
  cbn. by rewrite <- app_assoc.
Qed.

End EndToEnd.

Section ImportCommand.
Context {S K : Type} `{!KVStore S} `{!EqDecision K} `{!Lockable S K} {IPS : NodeIps}.

(** No import completes. The context of an import command is that of a put,
    whose response asserts a write event; an import event is not one, so
    executing an import that takes its lock never returns. *)
Theorem import_never_completes req c (e : Engine S) x c' e' :
  (we_enableTTL (pq_entry req) = true -> we_ttl (pq_entry req) <> INFINITE_TTL) ->
  doExecute None (Import_.command req) c e <> Done x c' e'.
Proof.
  intros Ht H%doExecute_Executed.
  assert (forall r c s st es r' c' s', Command.execute (Import_.command (S := S) req) r c s = Done (st, es, r') c' s' ->
    Status.isOK st = true /\ exists iv w, es = [EvImport iv w]) as Hex.
  { intros r c0 s st es r' c0' s' He. cbn in He. unfold plain, Import_.execute in He.
    destruct (we_enableTTL (pq_entry req)).
    - rewrite bool_decide_eq_false_2 in He by auto. cbn [andb] in He. run_in He. simplify_eq. eauto.
    - cbn [andb] in He. run_in He. simplify_eq. eauto. }
  destruct H as [s r0 c1 e1 c' e' H1 Hs|s1 s r0 c1 e1 c2 e2 c3 e3 c' e' H1 _ H2 Hs
    |s1 s2 s es r0 r c1 e1 c2 e2 c3 e3 c4 e4 c' e' _ _ _ _ H3 Hn _ _
    |s1 s2 s es es' r0 r c1 e1 c2 e2 c3 e3 e4 c' e' _ _ _ _ H3 H4 _].
  - apply in_kv_inv in H1 as (kv & H1 & _). apply prepared_inv in H1 as [_ H1]. cbn in H1.
    unfold Import_.prepare in H1. apply kvLock_moves in H1 as (-> & _). discriminate.
  - unfold gate in H2. run_in H2. by simplify_eq.
  - apply in_kv_inv in H3 as (kv & H3 & _). apply Hex in H3 as (Hok & iv & w & ->).
    destruct Hn as [|[]]; congruence.
  - apply in_kv_inv in H3 as (kv & H3 & _). apply Hex in H3 as (Hok & iv & w & ->).
    destruct H4 as [r2 r1 Hn Hi|r2 r1 Hn Hi]; [|done]. cbn in Hi. by destruct r2.
Qed.

End ImportCommand.
