(* ===== verification/RaftEventStore.v ===== *)
(** * The event store on raft

    [raft::RaftEventStore] (kv-engine/raft/RaftEventStore.h/.cpp): it turns the
    bundles of the command processor into log entries, hands them to raft in
    batches, and loads committed bundles back for the apply loop.

    Raft, the encryption and the protobuf runtime are libraries. What a method
    reads from raft is an argument: one [RaftView] per call, taken from a
    sequence, so that raft may move between any two of them. *)

From S2P Require Import Prelude Status Proto KVStore VersionStore Event Command CommandProcessor.

(** [gringofts::raft::LogEntry] *)
Record LogEntry := mkLogEntry {
  le_term : Z;
  le_index : Z;
  le_noop : bool;
  le_keyVersion : Z;
  le_payload : string;
}.

(** [gringofts::CryptoUtil], and [SerializeToString] and [ParseFromString] of a
    bundle; [None] is a failure. *)
Class LogCodec := {
  cryptoEnabled : bool;
  latestSecKeyVersion : Z;
  kInvalidSecKeyVersion : Z;
  kOldestSecKeyVersion : Z;
  encrypt : Z -> string -> string;
  decrypt : Z -> string -> option string;
  serBundle : Bundle -> string;
  parBundle : string -> option Bundle;
}.

(** What is encrypted with the latest key decrypts with it, encryption that is
    not enabled leaves the payload alone, and a bundle parses back. *)
Class LogCodecLaws (C : LogCodec) := {
  bundle_roundtrip b : parBundle (serBundle b) = Some b;
  encrypt_disabled p : cryptoEnabled = false -> encrypt latestSecKeyVersion p = p;
  decrypt_encrypt p :
    cryptoEnabled = true ->
    decrypt (if bool_decide (latestSecKeyVersion = kInvalidSecKeyVersion)
             then kOldestSecKeyVersion else latestSecKeyVersion)
            (encrypt latestSecKeyVersion p) = Some p;
}.

(** What one look at [gringofts::raft::RaftInterface] shows. [getEntries start
    size] are the entries it returns, [getEntry] is a single one. *)
Record RaftView := mkRaftView {
  getCommitIndex : Z;
  getLastLogIndex : Z;
  getCurrentTerm : Z;
  getRaftRole : RaftRole;
  getEntry : Z -> option LogEntry;
  getEntries : Z -> Z -> list LogEntry;
}.

(** A task of the persist queue: [{events, version, expectedTerm, context}]. *)
Record PersistTask (S : Type) := mkPersistTask {
  pt_events : EventList;
  pt_version : VersionType;
  pt_term : Z;
  pt_cmd : Command S;
  pt_resp : Response;
}.
Arguments mkPersistTask {S} _ _ _ _ _.
Arguments pt_events {S} _.
Arguments pt_version {S} _.
Arguments pt_term {S} _.
Arguments pt_cmd {S} _.
Arguments pt_resp {S} _.

(** [ReplyLoop::Task] *)
Record ReplyTask (S : Type) := mkReplyTask {
  rt_index : Z;
  rt_term : Z;
  rt_version : VersionType;
  rt_followerRead : bool;
  rt_cmd : Command S;
  rt_resp : Response;
}.
Arguments mkReplyTask {S} _ _ _ _ _ _.
Arguments rt_index {S} _.
Arguments rt_term {S} _.
Arguments rt_version {S} _.
Arguments rt_followerRead {S} _.
Arguments rt_cmd {S} _.
Arguments rt_resp {S} _.

(** [pushed] are the tasks handed to the reply loop, [sent] the requests handed
    to raft, both in order. *)
Record RaftEventStore (S : Type) := mkRES {
  mLogStoreTerm : Z;
  mLogStoreRole : RaftRole;
  mCachedBundles : list (Bundle * Z);
  mAppliedIndex : Z;
  mLoadedIndex : Z;
  mPersistQueue : list (PersistTask S);
  mBatchReqs : list LogEntry;
  mLastSentLogIndex : Z;
  pushed : list (ReplyTask S);
  sent : list LogEntry;
}.
Arguments mkRES {S} _ _ _ _ _ _ _ _ _ _.
Arguments mLogStoreTerm {S} _.
Arguments mLogStoreRole {S} _.
Arguments mCachedBundles {S} _.
Arguments mAppliedIndex {S} _.
Arguments mLoadedIndex {S} _.
Arguments mPersistQueue {S} _.
Arguments mBatchReqs {S} _.
Arguments mLastSentLogIndex {S} _.
Arguments pushed {S} _.
Arguments sent {S} _.

Definition new_RES {S} : RaftEventStore S := mkRES 0 Follower [] 0 0 [] [] 0 [] [].

Definition kMaxBatchSize : nat := 100.
Definition kMaxPayLoadSizeInBytes : Z := 5000000.

Section RaftEventStore.
Context {S : Type} {C : LogCodec}.

(** ** Loading *)

Definition set_loading (cached : list (Bundle * Z)) (applied loaded : Z) (s : RaftEventStore S) : RaftEventStore S :=
  mkRES (mLogStoreTerm s) (mLogStoreRole s) cached applied loaded (mPersistQueue s) (mBatchReqs s)
        (mLastSentLogIndex s) (pushed s) (sent s).

(** One round of [decryptEntries]: nothing for a no-op. *)
Definition decryptEntry (entry : LogEntry) : option (list (Bundle * Z)) :=
  if le_noop entry then Some []
  else
    payload ← (if cryptoEnabled then
                 decrypt (if bool_decide (le_keyVersion entry = kInvalidSecKeyVersion)
                          then kOldestSecKeyVersion else le_keyVersion entry)
                         (le_payload entry)
               else Some (le_payload entry));
    bundle ← parBundle payload;
    Some [(bundle, le_index entry)].

Fixpoint decryptEntries (entries : list LogEntry) : option (list (Bundle * Z)) :=
  match entries with
  | [] => Some []
  | e :: es => b ← decryptEntry e; bs ← decryptEntries es; Some (b ++ bs)
  end.

(** [loadBundles]: the bundles and the number of entries they come from. *)
Definition loadBundles (v : RaftView) (startIndex size : Z) : M (RaftEventStore S) (list (Bundle * Z) * Z) :=
  let entries := getEntries v startIndex size in
  match decryptEntries entries with
  | None => stop AssertFail
  | Some bundles => ret (bundles, Z.of_nat (length entries))
  end.

(** [loadNextBundle]; the [n]-th look at raft is [raft n]. [fuel] bounds the
    recursion, which goes on while it loads nothing but no-ops. *)
Fixpoint loadNextBundle (fuel n : nat) (raft : nat -> RaftView)
    : M (RaftEventStore S) (option (Bundle * Z)) :=
  match fuel with
  | O => stop WouldBlock
  | Datatypes.S fuel =>
      let* s := get in
      match mCachedBundles s with
      | b :: bs =>
          put (set_loading bs (Z.max (mAppliedIndex s) b.2) (mLoadedIndex s) s) ;;;
          ret (Some b)
      | [] =>
          let commitIndex := getCommitIndex (raft n) in
          if bool_decide (commitIndex <= mLoadedIndex s) then ret None
          else
            let* (bundles, size) := loadBundles (raft (Datatypes.S n)) (mLoadedIndex s + 1)
                                      (commitIndex - mLoadedIndex s) in
            if bool_decide (size = 0) then ret None
            else
              modify (set_loading bundles (mAppliedIndex s) (mLoadedIndex s + size)) ;;;
              loadNextBundle fuel (Datatypes.S (Datatypes.S n)) raft
      end
  end.

Definition resetLoadedLogIndex (logIndex : Z) : M (RaftEventStore S) unit :=
  let* s := get in
  assert_ (bool_decide (mAppliedIndex s = 0 /\ mLoadedIndex s = 0)) ;;;
  put (set_loading (mCachedBundles s) logIndex logIndex s).

(** ** Leadership *)

(** Steps 3 and 4 of [waitTillLeaderIsReadyOrStepDown]: from [index] on every
    entry up to [lastIndex] is a no-op and the last one is of the expected term.
    [None] is a failed assertion. *)
Fixpoint onlyNoops (v : RaftView) (expectedTerm index : Z) (count : nat) : option bool :=
  match count with
  | O => Some false
  | Datatypes.S count =>
      entry ← getEntry v index;
      if le_noop entry then
        match count with
        | O => if bool_decide (le_term entry = expectedTerm) then Some true else Some false
        | _ => onlyNoops v expectedTerm (index + 1) count
        end
      else Some false
  end.

(** [waitTillLeaderIsReadyOrStepDown]. A round looks at raft four times: for the
    term, the last index, the commit index and the entries. The indices of this
    object are read from [own], since the apply loop advances them meanwhile;
    the applied index is read twice. The members of the cluster, which are
    returned too, are left out. *)
Fixpoint waitTillLeaderIsReadyOrStepDown (fuel n : nat) (expectedTerm : Z) (raft : nat -> RaftView)
    (own : nat -> Z * Z) : M (RaftEventStore S) Await :=
  match fuel with
  | O => stop WouldBlock
  | Datatypes.S fuel =>
      let again := waitTillLeaderIsReadyOrStepDown fuel (n + 4)%nat expectedTerm raft own in
      if bool_decide (getCurrentTerm (raft n) <> expectedTerm) then ret SteppedDown
      else
        let lastIndex := getLastLogIndex (raft (n + 1)%nat) in
        let commitIndex := getCommitIndex (raft (n + 2)%nat) in
        let '(loadedIndex, appliedIndex) := own n in
        if bool_decide (loadedIndex <> commitIndex \/ commitIndex <> lastIndex) then again
        else
          let v := raft (n + 3)%nat in
          match onlyNoops v expectedTerm (appliedIndex + 1) (Z.to_nat (lastIndex - appliedIndex)) with
          | None => stop AssertFail
          | Some false => again
          | Some true =>
              if bool_decide (0 < (own (n + 3)%nat).2) then
                let* (bundles, _) := loadBundles v appliedIndex 1 in
                match bundles with
                | [(bundle, _)] => ret (Ready lastIndex (Some bundle))
                | _ => stop AssertFail
                end
              else ret (Ready lastIndex None)
          end
  end.

Definition set_role (term : Z) (role : RaftRole) (s : RaftEventStore S) : RaftEventStore S :=
  mkRES term role (mCachedBundles s) (mAppliedIndex s) (mLoadedIndex s) (mPersistQueue s) (mBatchReqs s)
        (mLastSentLogIndex s) (pushed s) (sent s).

(** [refreshRoleAndTerm]: the role is read between two equal readings of the
    term. *)
Fixpoint refreshRoleAndTerm (fuel n : nat) (raft : nat -> RaftView) : M (RaftEventStore S) unit :=
  match fuel with
  | O => stop WouldBlock
  | Datatypes.S fuel =>
      let term1 := getCurrentTerm (raft n) in
      let role := getRaftRole (raft (n + 1)%nat) in
      let term2 := getCurrentTerm (raft (n + 2)%nat) in
      if bool_decide (term1 = term2) then modify (set_role term1 role)
      else refreshRoleAndTerm fuel (n + 3)%nat raft
  end.

Definition getRoleAndTerm : M (RaftEventStore S) (RaftRole * Z) :=
  let* s := get in ret (mLogStoreRole s, mLogStoreTerm s).

Definition set_persist (queue : list (PersistTask S)) (batch : list LogEntry) (last : Z)
    (ps : list (ReplyTask S)) (out : list LogEntry) (s : RaftEventStore S) : RaftEventStore S :=
  mkRES (mLogStoreTerm s) (mLogStoreRole s) (mCachedBundles s) (mAppliedIndex s) (mLoadedIndex s)
        queue batch last ps out.

Definition updateLogIndexWhenNewLeader (lastLogIndex : Z) : M (RaftEventStore S) unit :=
  modify (fun s => set_persist (mPersistQueue s) (mBatchReqs s) lastLogIndex (pushed s) (sent s) s).

(** ** Persisting *)

Definition pushTask (t : ReplyTask S) : M (RaftEventStore S) unit :=
  modify (fun s => set_persist (mPersistQueue s) (mBatchReqs s) (mLastSentLogIndex s)
                               (pushed s ++ [t]) (sent s) s).

(** Both overloads of [replyAsync]. *)
Definition replyAsync (expectedIndex expectedTerm : Z) (version : VersionType) (cmd : Command S)
    (r : Response) (isFollowerReadReply : bool) : M (RaftEventStore S) unit :=
  pushTask (mkReplyTask expectedIndex expectedTerm version isFollowerReadReply cmd r).

Definition persistAsync (expectedTerm : Z) (cmd : Command S) (r : Response) (version : VersionType)
    (events : EventList) : M (RaftEventStore S) unit :=
  assert_ (negb (bool_decide (events = []))) ;;;
  modify (fun s => set_persist (mPersistQueue s ++ [mkPersistTask events version expectedTerm cmd r])
                               (mBatchReqs s) (mLastSentLogIndex s) (pushed s) (sent s) s).

(** The log entry of a task. [size] is [ByteSizeLong] of an entry, a function of
    the protobuf runtime. *)
Definition entry_of (index term : Z) (bundle : Bundle) : LogEntry :=
  mkLogEntry term index false latestSecKeyVersion (encrypt latestSecKeyVersion (serBundle bundle)).

(** [dequeue]. [meanwhile] is what another thread stores in [mLastSentLogIndex]
    between the read at the start and the compare-and-exchange at the end. *)
Definition dequeue (byteSize : LogEntry -> Z) (meanwhile : option Z) : M (RaftEventStore S) unit :=
  let* s := get in
  match mPersistQueue s with
  | [] => stop WouldBlock
  | t :: queue =>
      let previousLogIndex := mLastSentLogIndex s in
      let nextLogIndex := u64 (previousLogIndex + 1) in
      let* bundle := toBundle (pt_events t) in
      let entry := entry_of nextLogIndex (pt_term t) bundle in
      assert_ (bool_decide (byteSize entry <= kMaxPayLoadSizeInBytes)) ;;;
      let current := default previousLogIndex meanwhile in
      put (set_persist queue (mBatchReqs s ++ [entry])
             (if bool_decide (current = previousLogIndex) then nextLogIndex else current)
             (pushed s ++ [mkReplyTask nextLogIndex (pt_term t) (pt_version t) false (pt_cmd t) (pt_resp t)])
             (sent s) s)
  end.

(** [maySendBatch]; [due] is whether [kMaxDelayInMs] have passed since the last
    batch. *)
Definition maySendBatch (due : bool) : M (RaftEventStore S) unit :=
  let* s := get in
  if bool_decide (mBatchReqs s = []) then ret tt
  else if (bool_decide (length (mBatchReqs s) < kMaxBatchSize)%nat && negb due)%bool then ret tt
  else put (set_persist (mPersistQueue s) [] (mLastSentLogIndex s) (pushed s) (sent s ++ mBatchReqs s) s).

(** One round of [persistLoopMain] that finds [count] tasks in the queue. *)
Fixpoint dequeueAll (byteSize : LogEntry -> Z) (count : nat) : M (RaftEventStore S) unit :=
  match count with
  | O => ret tt
  | Datatypes.S count => dequeue byteSize None ;;; dequeueAll byteSize count
  end.

Definition persistRound (byteSize : LogEntry -> Z) (due : bool) (count : nat) : M (RaftEventStore S) unit :=
  dequeueAll byteSize count ;;;
  maySendBatch due.

End RaftEventStore.

(** ** Loading is in order, without loss or repetition *)

Section Load.
Context {S : Type} {C : LogCodec}.
Implicit Types (st : RaftEventStore S).

(** The committed log: the entry of index [i] is at position [i - 1]. *)
Variable log : list LogEntry.

(** [getEntries] returns consecutive entries of the log from the index asked for,
    at most as many as asked for. *)
Definition sees (v : RaftView) : Prop :=
  forall start size, 1 <= start -> 0 <= size ->
  exists k, (Z.of_nat k <= size) /\ getEntries v start size = take k (drop (Z.to_nat (start - 1)) log).

(** The whole log is committed, and [getEntries] returns all that is asked for. *)
Definition shows_all (v : RaftView) : Prop :=
  getCommitIndex v = Z.of_nat (length log) /\
  forall start size, 1 <= start -> 0 <= size ->
  getEntries v start size = take (Z.to_nat size) (drop (Z.to_nat (start - 1)) log).

Lemma decryptEntries_app l1 l2 b1 b2 :
  decryptEntries l1 = Some b1 -> decryptEntries l2 = Some b2 ->
  decryptEntries (l1 ++ l2) = Some (b1 ++ b2).
Proof.
  revert b1. induction l1 as [|e l1 IH]; intros b1 H1 H2; cbn in *; [by simplify_eq|].
  destruct (decryptEntry e) as [x|]; [|discriminate]. cbn in *.
  destruct (decryptEntries l1) as [y|]; [|discriminate]. cbn in *. simplify_eq.
  rewrite (IH y) by done. cbn. by rewrite <- app_assoc.
Qed.

Lemma decryptEntries_app_inv l1 l2 b :
  decryptEntries (l1 ++ l2) = Some b ->
  exists b1 b2, decryptEntries l1 = Some b1 /\ decryptEntries l2 = Some b2 /\ b = b1 ++ b2.
Proof.
  revert b. induction l1 as [|e l1 IH]; intros b H; cbn in *; [by exists [], b|].
  destruct (decryptEntry e) as [x|]; [|discriminate]. cbn in *.
  destruct (decryptEntries (l1 ++ l2)) as [y|] eqn:E; [|discriminate]. cbn in *. simplify_eq.
  destruct (IH y eq_refl) as (b1 & b2 & -> & -> & ->). cbn. exists (x ++ b1), b2.
  by rewrite <- app_assoc.
Qed.

(** What was delivered so far since the start at index [m], and what is cached,
    are the bundles of the entries loaded so far. *)
Definition loaded (m : nat) (delivered : list (Bundle * Z)) st : Prop :=
  Z.of_nat m <= mLoadedIndex st <= Z.of_nat (length log) /\
  decryptEntries (drop m (take (Z.to_nat (mLoadedIndex st)) log)) =
    Some (delivered ++ mCachedBundles st) /\
  mAppliedIndex st = foldl Z.max (Z.of_nat m) delivered.*2.

Variables (m : nat) (all : list (Bundle * Z)).
Hypothesis Hall : decryptEntries (drop m log) = Some all.

Lemma loaded_prefix delivered st : loaded m delivered st -> delivered `prefix_of` all.
Proof.
  intros (Hr & Hd & _). rewrite <- (take_drop (Z.to_nat (mLoadedIndex st)) log) in Hall.
  rewrite drop_app_le in Hall by (rewrite length_take; lia).
  apply decryptEntries_app_inv in Hall as (b1 & b2 & H1 & _ & ->).
  rewrite Hd in H1. simplify_eq. rewrite <- app_assoc. by eexists.
Qed.

(** The entries a load adds. *)
Lemma loaded_more delivered st k :
  loaded m delivered st -> mCachedBundles st = [] ->
  let entries := take k (drop (Z.to_nat (mLoadedIndex st)) log) in
  exists bs, decryptEntries entries = Some bs /\
    loaded m delivered (set_loading bs (mAppliedIndex st) (mLoadedIndex st + Z.of_nat (length entries)) st).
Proof.
  intros (Hr & Hd & Ha) Hc entries. rewrite Hc, app_nil_r in Hd.
  set (i := Z.to_nat (mLoadedIndex st)) in *.
  assert (exists bs, decryptEntries entries = Some bs) as (bs & Hbs).
  { pose proof Hall as H. rewrite <- (take_drop i log) in H.
    rewrite drop_app_le in H by (rewrite length_take; lia).
    apply decryptEntries_app_inv in H as (b1 & b2 & _ & H2 & _).
    rewrite <- (take_drop k (drop i log)) in H2.
    apply decryptEntries_app_inv in H2 as (b3 & b4 & H3 & _ & _). eauto. }
  exists bs. split; [done|]. unfold loaded. cbn [mLoadedIndex mCachedBundles set_loading].
  assert (length entries <= length log - i)%nat as Hlen.
  { subst entries. rewrite length_take, length_drop. lia. }
  split_and!; [lia..| |exact Ha].
  replace (Z.to_nat (mLoadedIndex st + Z.of_nat (length entries))) with (i + length entries)%nat by lia.
  assert (take (i + length entries) log = take i log ++ entries) as ->.
  { rewrite <- take_take_drop. f_equal. subst entries. rewrite length_take.
    destruct (decide (k <= length (drop i log))%nat).
    - by rewrite Nat.min_l by done.
    - rewrite Nat.min_r by lia. by rewrite !take_ge by lia. }
  rewrite drop_app_le by (rewrite length_take; lia). by apply decryptEntries_app.
Qed.

Lemma loaded_all delivered st :
  loaded m delivered st -> mCachedBundles st = [] -> Z.of_nat (length log) <= mLoadedIndex st ->
  delivered = all.
Proof.
  intros (Hr & Hd & _) Hc Hle. rewrite take_ge, Hc, app_nil_r, Hall in Hd by lia. by simplify_eq.
Qed.

Lemma loadNextBundle_step fuel n raft c st delivered :
  (forall i, sees (raft i)) -> loaded m delivered st ->
  (length log - Z.to_nat (mLoadedIndex st) + 1 < fuel)%nat ->
  exists r c' st', loadNextBundle fuel n raft c st = Done r c' st' /\
    loaded m (delivered ++ option_list r) st' /\
    ((forall i, shows_all (raft i)) -> r = None -> delivered = all).
Proof.
  intros Hsees. revert n st. induction fuel as [|fuel IH]; intros n st Hl Hf; [lia|].
  cbn [loadNextBundle]. run. destruct (mCachedBundles st) as [|b bs] eqn:Ec.
  2: { eexists (Some b), c, _. split; [reflexivity|]. destruct Hl as (Hr & Hd & Ha).
       unfold loaded. cbn. rewrite fmap_app, foldl_app, <- Ha, <- app_assoc, Hd, Ec. done. }
  case_bool_decide as Hci.
  { exists None, c, st. cbn [option_list]. rewrite app_nil_r. split_and!; [done..|].
    intros Hsa _. eapply loaded_all; [done|done|]. by rewrite <- (proj1 (Hsa n)). }
  pose proof Hl as ([Hm0 Hm1] & _ & _).
  destruct (Hsees (Datatypes.S n) (mLoadedIndex st + 1) (getCommitIndex (raft n) - mLoadedIndex st))
    as (k & Hk & He); [lia..|].
  replace (mLoadedIndex st + 1 - 1) with (mLoadedIndex st) in He by lia.
  destruct (loaded_more delivered st k Hl Ec) as (bs & Hbs & Hl').
  unfold loadBundles. rewrite He, Hbs. cbn beta iota. run. case_bool_decide as Hz.
  { exists None, c, st. cbn [option_list]. rewrite app_nil_r. split_and!; [done..|].
    intros Hsa _. exfalso. rewrite <- He in Hz. rewrite (proj2 (Hsa _)) in Hz by lia.
    rewrite (proj1 (Hsa _)), length_take, length_drop in Hz. rewrite (proj1 (Hsa _)) in Hci. lia. }
  pose proof Hl' as ([Hm2 Hm3] & _ & _). apply (IH _ _ Hl').
  cbn [mLoadedIndex set_loading] in *. lia.
Qed.

(** Calls of [loadNextBundle], one after the other; what they return. *)
Fixpoint loadCalls (fuel : nat) (rafts : list (nat -> RaftView)) : M (RaftEventStore S) (list (Bundle * Z)) :=
  match rafts with
  | [] => ret []
  | raft :: rafts =>
      let* r := loadNextBundle fuel O raft in
      let* rs := loadCalls fuel rafts in
      ret (option_list r ++ rs)
  end.

Lemma loadCalls_run fuel rafts c st delivered :
  Forall (fun raft => forall i, sees (raft i)) rafts -> (length log + 1 < fuel)%nat ->
  loaded m delivered st ->
  exists bs c' st', loadCalls fuel rafts c st = Done bs c' st' /\ loaded m (delivered ++ bs) st' /\
    (Forall (fun raft => forall i, shows_all (raft i)) rafts ->
     delivered ++ bs = all \/ length bs = length rafts).
Proof.
  intros Hs Hf. revert c st delivered. induction Hs as [|raft rafts Hr _ IH]; intros c st delivered Hl.
  { exists [], c, st. rewrite app_nil_r. split_and!; [done..|by right]. }
  destruct (loadNextBundle_step fuel O raft c st delivered Hr Hl) as (r & c1 & st1 & H1 & Hl1 & Hall1).
  { pose proof Hl as ([? ?] & _). lia. }
  destruct (IH c1 st1 _ Hl1) as (bs & c2 & st2 & H2 & Hl2 & Hall2).
  exists (option_list r ++ bs), c2, st2. cbn [loadCalls].
  rewrite (bind_Done _ _ _ _ _ _ _ H1), (bind_Done _ _ _ _ _ _ _ H2), app_assoc. split_and!; [done..|].
  intros [Hsa1 Hsa2]%Forall_cons. destruct r as [b|].
  - destruct (Hall2 Hsa2) as [?|Hlen]; [by left|right]. cbn. by rewrite Hlen.
  - left. apply loaded_prefix in Hl2 as [k Hk]. rewrite (Hall1 Hsa1 eq_refl) in Hk |- *.
    cbn [option_list] in *. rewrite app_nil_r, <- app_assoc in *.
    assert (bs = []) as ->; [|by rewrite app_nil_r].
    apply (f_equal length) in Hk. rewrite !length_app in Hk. destruct bs; [done|cbn in Hk; lia].
Qed.

End Load.

(** Committed bundles are loaded in order, each once. A node that recovers at
    index [m] and calls [loadNextBundle] any number of times, raft committing and
    answering however it does in between, is given exactly the first bundles
    after index [m] of the committed log, in their order, with their indices,
    and every call returns; the applied index is that of the last one. Once raft
    shows the whole log as committed, as many calls as there are bundles load
    all of them. *)
Theorem bundles_loaded_in_order {S} {C : LogCodec} log m all fuel rafts c (st : RaftEventStore S) :
  decryptEntries (drop m log) = Some all -> (m <= length log)%nat ->
  Forall (fun raft => forall i, sees log (raft i)) rafts -> (length log + 1 < fuel)%nat ->
  mCachedBundles st = [] -> mAppliedIndex st = 0 -> mLoadedIndex st = 0 ->
  exists bs c' st', (resetLoadedLogIndex (Z.of_nat m) ;;; loadCalls fuel rafts) c st = Done bs c' st' /\
    bs `prefix_of` all /\ mAppliedIndex st' = foldl Z.max (Z.of_nat m) bs.*2 /\
    (Forall (fun raft => forall i, shows_all log (raft i)) rafts ->
     (length all <= length rafts)%nat -> bs = all).
Proof.
  intros Hall Hm Hs Hf Hc Ha Hl.
  set (st0 := set_loading [] (Z.of_nat m) (Z.of_nat m) st).
  assert (loaded log m [] st0) as Hl0.
  { unfold loaded. cbn. rewrite Nat2Z.id. rewrite drop_ge by (rewrite length_take; lia).
    split_and!; [lia..|done|done]. }
  destruct (loadCalls_run log m all Hall fuel rafts c st0 [] Hs Hf Hl0) as (bs & c' & st' & Hrun & Hl' & Hsa).
  pose proof (loaded_prefix log m all Hall _ _ Hl') as Hpre.
  exists bs, c', st'. split_and!.
  - unfold resetLoadedLogIndex. run. rewrite Ha, Hl, bool_decide_eq_true_2 by done. rewrite Hc.
    exact Hrun.
  - done.
  - by destruct Hl' as (_ & _ & ->).
  - intros Hs' Hlen. destruct (Hsa Hs') as [?|Heq]; [done|].
    destruct Hpre as [k Hk]. cbn in Hk. subst all. rewrite length_app in Hlen.
    destruct k; [by rewrite app_nil_r|cbn in Hlen; lia].
Qed.

(** ** Persisting is in order, and replies wait for their own entry *)

Section Persist.
Context {S : Type} {C : LogCodec} {CL : LogCodecLaws C}.
Implicit Types (st : RaftEventStore S) (t : PersistTask S).

Lemma decryptEntry_entry_of i term b : decryptEntry (entry_of i term b) = Some [(b, i)].
Proof.
  unfold decryptEntry, entry_of. cbn. destruct cryptoEnabled eqn:E.
  - rewrite decrypt_encrypt by done. cbn. by rewrite bundle_roundtrip.
  - rewrite encrypt_disabled by done. cbn. by rewrite bundle_roundtrip.
Qed.

(** The tasks, the log entries made of them and the tasks of the reply loop, from
    log index [i] on: the entry of a task has its term, decodes to its events,
    and the reply of the task waits for exactly that index and term. *)
Inductive matched : Z -> list (PersistTask S) -> list LogEntry -> list (ReplyTask S) -> Prop :=
| matched_nil i : matched i [] [] []
| matched_cons i t ts entry entries replies b :
    le_index entry = i -> le_term entry = pt_term t -> le_noop entry = false ->
    decryptEntry entry = Some [(b, i)] ->
    (forall c st, fromBundle b c st = Done (rebuilt <$> pt_events t) c st) ->
    matched (i + 1) ts entries replies ->
    matched i (t :: ts) (entry :: entries)
      (mkReplyTask i (pt_term t) (pt_version t) false (pt_cmd t) (pt_resp t) :: replies).

(** The entry and the task of a reply. *)
Lemma matched_reply i ts entries replies r :
  matched i ts entries replies -> r ∈ replies ->
  exists t entry b, t ∈ ts /\ entry ∈ entries /\ i <= rt_index r /\
    le_index entry = rt_index r /\ le_term entry = rt_term r /\ rt_cmd r = pt_cmd t /\
    decryptEntry entry = Some [(b, rt_index r)] /\
    forall c st, fromBundle b c st = Done (rebuilt <$> pt_events t) c st.
Proof.
  induction 1 as [|i t ts entry es rs b Hi Ht Hn Hd Hf _ IH]; [by intros ?%elem_of_nil|].
  intros [->|Hr]%elem_of_cons.
  - exists t, entry, b. cbn. split_and!; try done; try lia; by left.
  - destruct (IH Hr) as (t' & entry' & b' & H1 & H2 & H3 & Hrest).
    exists t', entry', b'. split_and!; try apply Hrest; [by right|by right|lia].
Qed.

Variable byteSize : LogEntry -> Z.
Hypothesis fits : forall e, byteSize e <= kMaxPayLoadSizeInBytes.

Lemma toBundle_pure {T U} es c c' (x : T) (y : U) b :
  toBundle es c x = Done b c x -> toBundle es c' y = Done b c' y.
Proof.
  revert b. induction es as [|e es IH]; intros b H; cbn [toBundle] in *; [by run_in H; simplify_eq|].
  destruct (toProtoEvent e); [|discriminate]. apply bind_inv in H as (b' & c1 & s1 & H1 & H).
  run_in H. simplify_eq. erewrite bind_Done by (by apply IH). done.
Qed.

Lemma fromBundle_pure {T U} b c c' (x : T) (y : U) es :
  fromBundle b c x = Done es c x -> fromBundle b c' y = Done es c' y.
Proof.
  revert es. induction b as [|p b IH]; intros es H; cbn [fromBundle] in *; [by run_in H; simplify_eq|].
  destruct (ofProtoEvent p); [|discriminate]. apply bind_inv in H as (es' & c1 & s1 & H1 & H).
  run_in H. simplify_eq. erewrite bind_Done by (by apply IH). done.
Qed.

Lemma dequeue_run st t ts c :
  mPersistQueue st = t :: ts -> Forall replicable (pt_events t) ->
  0 <= mLastSentLogIndex st < 2 ^ 64 - 1 ->
  let i := mLastSentLogIndex st + 1 in
  exists b, (forall c st, fromBundle b c st = Done (rebuilt <$> pt_events t) c st) /\
    dequeue byteSize None c st = Done tt c
      (set_persist ts (mBatchReqs st ++ [entry_of i (pt_term t) b]) i
         (pushed st ++ [mkReplyTask i (pt_term t) (pt_version t) false (pt_cmd t) (pt_resp t)])
         (sent st) st).
Proof.
  intros Hq Hr Hi i. destruct (toBundle_fromBundle (pt_events t) c st Hr) as (b & Hb & Hf).
  exists b. split; [intros; by eapply fromBundle_pure|].
  unfold dequeue. run. rewrite Hq. rewrite u64_small by (unfold is_u64; lia).
  rewrite Hb, bool_decide_eq_true_2 by apply fits. cbn. rewrite bool_decide_eq_true_2 by done. done.
Qed.

Lemma dequeueAll_run ts : forall st c,
  mPersistQueue st = ts -> Forall (fun t => Forall replicable (pt_events t)) ts ->
  0 <= mLastSentLogIndex st -> mLastSentLogIndex st + Z.of_nat (length ts) < 2 ^ 64 ->
  exists entries replies, matched (mLastSentLogIndex st + 1) ts entries replies /\
    dequeueAll byteSize (length ts) c st = Done tt c
      (set_persist [] (mBatchReqs st ++ entries) (mLastSentLogIndex st + Z.of_nat (length ts))
         (pushed st ++ replies) (sent st) st).
Proof.
  induction ts as [|t ts IH]; intros st c Hq Hr H0 Hi.
  - exists [], []. split; [constructor|]. cbn. rewrite !app_nil_r, Z.add_0_r.
    destruct st. cbn in *. by subst.
  - apply Forall_cons in Hr as [Ht Hr]. cbn [length] in *.
    destruct (dequeue_run st t ts c Hq Ht ltac:(lia)) as (b & Hb & Hrun).
    set (st1 := set_persist ts _ _ _ _ st) in Hrun.
    destruct (IH st1 c eq_refl Hr ltac:(cbn; lia) ltac:(cbn; lia)) as (es & rs & Hm & Hrun1).
    exists (entry_of (mLastSentLogIndex st + 1) (pt_term t) b :: es),
      (mkReplyTask (mLastSentLogIndex st + 1) (pt_term t) (pt_version t) false (pt_cmd t) (pt_resp t) :: rs).
    split; [econstructor; eauto using decryptEntry_entry_of|].
    cbn [dequeueAll]. rewrite (bind_Done _ _ _ _ _ _ _ Hrun), Hrun1. unfold st1, set_persist. cbn.
    rewrite <- !app_assoc. cbn. do 2 f_equal. lia.
Qed.

Lemma persistRound_run due st c :
  Forall (fun t => Forall replicable (pt_events t)) (mPersistQueue st) ->
  0 <= mLastSentLogIndex st ->
  mLastSentLogIndex st + Z.of_nat (length (mPersistQueue st)) < 2 ^ 64 ->
  exists entries replies st',
    persistRound byteSize due (length (mPersistQueue st)) c st = Done tt c st' /\
    matched (mLastSentLogIndex st + 1) (mPersistQueue st) entries replies /\
    sent st' ++ mBatchReqs st' = sent st ++ mBatchReqs st ++ entries /\
    pushed st' = pushed st ++ replies /\ mPersistQueue st' = [] /\
    mLastSentLogIndex st' = mLastSentLogIndex st + Z.of_nat (length (mPersistQueue st)).
Proof.
  intros Hr H0 Hi. destruct (dequeueAll_run _ st c eq_refl Hr H0 Hi) as (es & rs & Hm & Hrun).
  set (st1 := set_persist [] _ _ _ _ st) in Hrun.
  assert (exists st', maySendBatch due c st1 = Done tt c st' /\
    sent st' ++ mBatchReqs st' = sent st1 ++ mBatchReqs st1 /\ pushed st' = pushed st1 /\
    mPersistQueue st' = [] /\ mLastSentLogIndex st' = mLastSentLogIndex st1) as (st' & Hs & H1 & H2 & H3 & H4).
  { unfold maySendBatch. run. destruct (bool_decide (mBatchReqs st1 = [])); [by eexists|].
    destruct (bool_decide _ && negb due)%bool; eexists; (split; [reflexivity|]); [done|].
    cbn. by rewrite app_nil_r. }
  exists es, rs, st'. split_and!; [|done|done|done|done|done].
  unfold persistRound. by rewrite (bind_Done _ _ _ _ _ _ _ Hrun).
Qed.


End Persist.

(** ** The leader waits for its own term *)

Section Ready.
Context {S : Type} {C : LogCodec}.

Lemma onlyNoops_true v term count : forall index,
  onlyNoops v term index count = Some true ->
  (0 < count)%nat /\
  (forall i, index <= i < index + Z.of_nat count -> exists e, getEntry v i = Some e /\ le_noop e = true) /\
  exists e, getEntry v (index + Z.of_nat count - 1) = Some e /\ le_term e = term.
Proof.
  induction count as [|count IH]; intros index H; cbn in H; [done|].
  destruct (getEntry v index) as [e|] eqn:E; [|discriminate]. cbn in H.
  destruct (le_noop e) eqn:En; [|discriminate].
  destruct count as [|count].
  - case_bool_decide as Ht; [|discriminate]. split_and!; [lia| |].
    + intros i Hi. replace i with index by lia. eauto.
    + exists e. by replace (index + Z.of_nat 1 - 1) with index by lia.
  - apply IH in H as (_ & Hn & e' & He' & Ht'). split_and!; [lia| |].
    + intros i Hi. destruct (decide (i = index)) as [->|]; [eauto|]. apply Hn. lia.
    + exists e'. split; [|done]. rewrite <- He'. f_equal. lia.
Qed.

(** A leader of [term] that is caught up with its log at look [n]. *)
Record caught_up (raft : nat -> RaftView) (own : nat -> Z * Z) (term : Z) (n : nat)
    (lastIndex : Z) (lastBundle : option Bundle) : Prop := {
  cu_term : getCurrentTerm (raft n) = term;
  cu_last : getLastLogIndex (raft (n + 1)%nat) = lastIndex;
  cu_commit : getCommitIndex (raft (n + 2)%nat) = lastIndex;
  cu_loaded : (own n).1 = lastIndex;
  cu_applied : (own n).2 < lastIndex;
  cu_noops : forall i, (own n).2 < i <= lastIndex ->
    exists e, getEntry (raft (n + 3)%nat) i = Some e /\ le_noop e = true;
  cu_own_noop : exists e, getEntry (raft (n + 3)%nat) lastIndex = Some e /\ le_term e = term;
  cu_bundle :
    match lastBundle with
    | Some b => 0 < (own (n + 3)%nat).2 /\
        exists i, decryptEntries (getEntries (raft (n + 3)%nat) (own n).2 1) = Some [(b, i)]
    | None => (own (n + 3)%nat).2 <= 0
    end;
}.

(** C29: a leader serves only when it is caught up. Whenever
    [waitTillLeaderIsReadyOrStepDown] reports the leader ready, there was a round in
    which the term was still the expected one, everything in the log was
    committed and loaded, everything after the last bundle was a no-op, the last
    entry was of the leader's own term, and the bundle returned was the one at
    the applied index. *)
Theorem leader_is_ready_when_caught_up fuel n term raft own lastIndex lastBundle c c'
    (st st' : RaftEventStore S) :
  waitTillLeaderIsReadyOrStepDown fuel n term raft own c st = Done (Ready lastIndex lastBundle) c' st' ->
  exists k, (k < fuel)%nat /\ caught_up raft own term (n + 4 * k)%nat lastIndex lastBundle.
Proof.
  revert n. induction fuel as [|fuel IH]; intros n H; [discriminate|].
  cbn [waitTillLeaderIsReadyOrStepDown] in H. case_bool_decide as Ht; [discriminate|].
  destruct (own n) as [loadedIndex appliedIndex] eqn:Eo.
  assert (waitTillLeaderIsReadyOrStepDown fuel (n + 4)%nat term raft own c st =
          Done (Ready lastIndex lastBundle) c' st' ->
          exists k, (k < Datatypes.S fuel)%nat /\
                    caught_up raft own term (n + 4 * k)%nat lastIndex lastBundle) as Hagain.
  { intros Hr. destruct (IH _ Hr) as (k & Hk & Hc). exists (Datatypes.S k). split; [lia|].
    by replace (n + 4 * Datatypes.S k)%nat with (n + 4 + 4 * k)%nat by lia. }
  case_bool_decide as Hi; [by apply Hagain|].
  destruct (onlyNoops _ _ _ _) as [[]|] eqn:En; [|by apply Hagain|discriminate].
  apply onlyNoops_true in En as (Hpos & Hn & Hlast). exists 0%nat. split; [lia|].
  rewrite Nat.mul_0_r, Nat.add_0_r.
  assert (Hl : getLastLogIndex (raft (n + 1)%nat) = lastIndex /\
    match lastBundle with
    | Some b => 0 < (own (n + 3)%nat).2 /\
        exists i, decryptEntries (getEntries (raft (n + 3)%nat) appliedIndex 1) = Some [(b, i)]
    | None => (own (n + 3)%nat).2 <= 0
    end).
  { case_bool_decide as Ha; [|by run_in H; simplify_eq; split; [|lia]].
    unfold loadBundles in H. destruct (decryptEntries _) as [bs|]; [|discriminate].
    run_in H. destruct bs as [|[b i] []]; [discriminate| |discriminate].
    simplify_eq. eauto. }
  destruct Hl as [Hl Hb]. rewrite Hl in Hi, Hn, Hlast, Hpos.
  constructor; rewrite ?Eo; cbn; [by destruct (decide (getCurrentTerm (raft n) = term))
    |done|lia|lia|lia| |..].
  - intros i Hr. apply Hn. lia.
  - destruct Hlast as (e & He & Het). exists e. split; [|done]. rewrite <- He. f_equal. lia.
  - done.
Qed.

End Ready.
