(* ===== verification/ReplyLoop.v ===== *)
(** * The reply loop

    [raft::ReplyLoop] (kv-engine/raft/ReplyLoop.h/.cpp): a write is answered when
    the log entry it waits for is committed, or can no longer be; a read is
    answered when the version it saw is known to be committed.

    Raft is an argument, as in RaftEventStore.v: the [n]-th look at it is [raft n],
    and [running n] is what [mRunning] holds at that time. *)

From S2P Require Import Prelude Status Proto KVStore VersionStore Event Command CommandProcessor RaftEventStore.

(** The version store shared with the processor, the queues of the two execution
    services, and what has been answered, in order. *)
Record ReplyLoop (S : Type) := mkReplyLoop {
  mVersionStore : VersionStore;
  mWriteReplyExecutionService : list (ReplyTask S);
  mReadReplyExecutionService : list (ReplyTask S);
  replied : list (ReplyTask S * ResponseCode * Response);
}.
Arguments mkReplyLoop {S} _ _ _ _.
Arguments mVersionStore {S} _.
Arguments mWriteReplyExecutionService {S} _.
Arguments mReadReplyExecutionService {S} _.
Arguments replied {S} _.

Section ReplyLoop.
Context {S : Type}.
Implicit Types (t : ReplyTask S).

(** [pushTask]: a task with an index is a write. *)
Definition submitTask t : M (ReplyLoop S) unit :=
  modify (fun l =>
    if bool_decide (rt_index t <> 0)
    then mkReplyLoop (mVersionStore l) (mWriteReplyExecutionService l ++ [t])
                     (mReadReplyExecutionService l) (replied l)
    else mkReplyLoop (mVersionStore l) (mWriteReplyExecutionService l)
                     (mReadReplyExecutionService l ++ [t]) (replied l)).

(** The inner loop of [waitTillCommittedOrQuit]: the term, the last index read
    while the term stayed the same, and the next look. *)
Fixpoint readTermAndLast (fuel n : nat) (raft : nat -> RaftView) : option (Z * Z * nat) :=
  match fuel with
  | O => None
  | Datatypes.S fuel =>
      let term1 := getCurrentTerm (raft n) in
      let lastLogIndex := getLastLogIndex (raft (n + 1)%nat) in
      let term2 := getCurrentTerm (raft (n + 2)%nat) in
      if bool_decide (term1 = term2) then Some (term1, lastLogIndex, (n + 3)%nat)
      else readTermAndLast fuel (n + 3)%nat raft
  end.

Fixpoint waitTillCommittedOrQuit {T} (fuel n : nat) (raft : nat -> RaftView) (running : nat -> bool)
    (index term : Z) : M T bool :=
  match fuel with
  | O => stop WouldBlock
  | Datatypes.S fuel' =>
      if negb (running n) then ret false
      else
        match readTermAndLast fuel n raft with
        | None => stop WouldBlock
        | Some (term1, lastLogIndex, n) =>
            assert_ (bool_decide (term <= term1)) ;;;
            if bool_decide (lastLogIndex < index /\ term < term1) then ret false
            else if bool_decide (getCommitIndex (raft n) < index) then
              waitTillCommittedOrQuit fuel' (n + 1)%nat raft running index term
            else
              match getEntry (raft (n + 1)%nat) index with
              | None => stop AssertFail
              | Some entry => ret (bool_decide (le_term entry = term))
              end
        end
  end.

(** What [replyTask] does once the code is known: answer, then raise the largest
    committed version to the version of the task. Every task has a context. *)
Definition answer (leaderHint : option Z) t (code : ResponseCode) (message : string)
    : M (ReplyLoop S) unit :=
  match fillResponseAndReply (rt_cmd t) code message leaderHint (rt_resp t) with
  | None => stop AssertFail
  | Some r =>
      modify (fun l => mkReplyLoop (updateCurMaxVersion (rt_version t) (mVersionStore l))
                (mWriteReplyExecutionService l) (mReadReplyExecutionService l)
                (replied l ++ [(t, code, r)]))
  end.

Definition replyTask (fuel n : nat) (raft : nat -> RaftView) (running : nat -> bool)
    (leaderHint : option Z) t : M (ReplyLoop S) unit :=
  if bool_decide (rt_index t <> 0) then
    let* isCommitted := waitTillCommittedOrQuit fuel n raft running (rt_index t) (rt_term t) in
    if (isCommitted : bool) then answer leaderHint t RC_OK "Success"
    else answer leaderHint t RC_NOT_LEADER "NotLeaderAnyMore"
  else
    let* l := get in
    if (negb (rt_followerRead t) && bool_decide (getCurMaxVersion (mVersionStore l) < rt_version t))%bool
    then submitTask (mkReplyTask (rt_index t) (rt_term t) (rt_version t) false (rt_cmd t) (rt_resp t))
    else answer leaderHint t RC_OK "Success".

(** ** The loop as a whole *)

(** What raft may show to one call. *)
Variable possible : (nat -> RaftView) -> Prop.

(** A worker takes the task at the head of a queue, or the event store or the
    processor pushes one. The version store is shared: others change it too. *)
Inductive step : ReplyLoop S -> ReplyLoop S -> Prop :=
| step_push t l c c' l' :
    submitTask t c l = Done tt c' l' -> step l l'
| step_write fuel n raft running hint t ts vs rs out c c' l' :
    possible raft ->
    replyTask fuel n raft running hint t c (mkReplyLoop vs ts rs out) = Done tt c' l' ->
    step (mkReplyLoop vs (t :: ts) rs out) l'
| step_read fuel n raft running hint t ws rs vs out c c' l' :
    possible raft ->
    replyTask fuel n raft running hint t c (mkReplyLoop vs ws rs out) = Done tt c' l' ->
    step (mkReplyLoop vs ws (t :: rs) out) l'
| step_versions vs ws rs vs' out :
    step (mkReplyLoop vs ws rs out) (mkReplyLoop vs' ws rs out).

End ReplyLoop.

(** What raft promises about the sequence of looks: the commit index does not go
    back, and what is committed is what [log], the one committed log, holds. *)
Record RaftSafe (log : Z -> option LogEntry) (raft : nat -> RaftView) : Prop := {
  commit_mono i j : (i <= j)%nat -> getCommitIndex (raft i) <= getCommitIndex (raft j);
  commit_log n i e : 0 < i <= getCommitIndex (raft n) -> getEntry (raft n) i = Some e -> log i = Some e;
}.

Section Committed.
Context {S : Type}.
Variable log : Z -> option LogEntry.
Implicit Types (t : ReplyTask S) (l : ReplyLoop S).

Lemma waitTillCommittedOrQuit_state {T} fuel raft running index term : forall n b c c' (s s' : T),
  waitTillCommittedOrQuit fuel n raft running index term c s = Done b c' s' -> s' = s.
Proof.
  induction fuel as [|fuel IH]; intros n b c c' s s' H; [discriminate|].
  cbn [waitTillCommittedOrQuit] in H. destruct (running n); cbn [negb] in H; [|by run_in H; simplify_eq].
  destruct (readTermAndLast _ _ _) as [[[term1 last] m]|]; [|discriminate].
  apply bind_inv in H as (u & c1 & s1 & Ha & H). unfold assert_ in Ha.
  destruct (bool_decide (term <= term1)); [|discriminate]. run_in Ha. simplify_eq.
  case_bool_decide; [by run_in H; simplify_eq|]. case_bool_decide; [by eapply IH|].
  destruct (getEntry _ _); [|discriminate]. by run_in H; simplify_eq.
Qed.

(** [waitTillCommittedOrQuit] says yes only of a committed entry of that term. *)
Lemma wait_true {T} fuel raft running index term : forall n c c' (s s' : T),
  RaftSafe log raft -> 0 < index ->
  waitTillCommittedOrQuit fuel n raft running index term c s = Done true c' s' ->
  exists e, log index = Some e /\ le_term e = term.
Proof.
  induction fuel as [|fuel IH]; intros n c c' s s' Hs Hi H; [discriminate|].
  cbn [waitTillCommittedOrQuit] in H. destruct (running n); [|discriminate].
  cbn [negb] in H. destruct (readTermAndLast _ _ _) as [[[term1 last] m]|]; [|discriminate].
  apply bind_inv in H as (u & c1 & s1 & _ & H).
  case_bool_decide; [discriminate|]. case_bool_decide as Hc; [by eapply IH|].
  destruct (getEntry (raft (m + 1)%nat) index) as [e|] eqn:Ee; [|discriminate].
  run_in H. simplify_eq. exists e. split; [|by eapply bool_decide_eq_true].
  eapply (commit_log log raft Hs (m + 1)%nat); [|done].
  pose proof (commit_mono log raft Hs m (m + 1)%nat ltac:(lia)). lia.
Qed.

Definition backed (x : ReplyTask S * ResponseCode * Response) : Prop :=
  let '(t, code, _) := x in
  0 < rt_index t -> code = RC_OK -> exists e, log (rt_index t) = Some e /\ le_term e = rt_term t.

Lemma replyTask_backed fuel n raft running hint t c c' l l' :
  RaftSafe log raft -> replyTask fuel n raft running hint t c l = Done tt c' l' ->
  Forall backed (replied l) -> Forall backed (replied l').
Proof.
  intros Hs H Hl. unfold replyTask in H.
  assert (Hans : forall code msg c1 l1, answer hint t code msg c1 l1 = Done tt c' l' ->
    replied l1 = replied l -> backed (t, code, rt_resp t) -> Forall backed (replied l')).
  { intros code msg c1 l1 Ha Hr Hb. unfold answer in Ha. case_match; [|discriminate].
    run_in Ha. simplify_eq. cbn. rewrite Hr. apply Forall_app. split; [done|]. by apply Forall_singleton. }
  case_bool_decide as Hi.
  - apply bind_inv in H as (b & c1 & l1 & Hw & H).
    assert (l1 = l) as -> by (by eapply waitTillCommittedOrQuit_state).
    destruct b; eapply Hans; [done|done| |done|done|done].
    intros Hp _. by eapply wait_true.
  - run_in H. destruct (_ && _)%bool; [|eapply Hans; [done|done|intros Hp _; lia]].
    unfold submitTask in H. run_in H. simplify_eq. by case_match.
Qed.

Lemma steps_backed l l' :
  rtc (step (RaftSafe log)) l l' -> Forall backed (replied l) -> Forall backed (replied l').
Proof.
  induction 1 as [|l1 l2 l3 Hst _ IH]; [done|]. intros Hl. apply IH. clear IH.
  destruct Hst as [t l c c' l' H | ? ? ? ? ? ? ? ? ? ? ? ? ? Hp H | ? ? ? ? ? ? ? ? ? ? ? ? ? Hp H |].
  - unfold submitTask in H. run_in H. simplify_eq. by case_match.
  - by eapply replyTask_backed in H.
  - by eapply replyTask_backed in H.
  - done.
Qed.

End Committed.

Section Durable.
Context {S : Type} {C : LogCodec} {CL : LogCodecLaws C}.
Variable byteSize : LogEntry -> Z.
Hypothesis fits : forall e, byteSize e <= kMaxPayLoadSizeInBytes.
Variable log : Z -> option LogEntry.

(** C5: a write that is answered OK is durable. The tasks of the persist queue
    are turned into log entries and reply tasks; raft keeps its promises, among
    them that no other entry has the index and the term of an entry the leader
    appended. Whatever the reply loop does, in any order, with any view of raft: if it
    answers one of these tasks with OK, the committed log holds, at the index
    the task waited for, the entry that decodes to the events of that very
    command. *)
Theorem acked_write_is_durable due (st st' : RaftEventStore S) vs l t r c c' :
  Forall (fun t => Forall replicable (pt_events t)) (mPersistQueue st) ->
  0 <= mLastSentLogIndex st ->
  mLastSentLogIndex st + Z.of_nat (length (mPersistQueue st)) < 2 ^ 64 ->
  pushed st = [] ->
  persistRound byteSize due (length (mPersistQueue st)) c st = Done tt c' st' ->
  (forall e e', e ∈ sent st' ++ mBatchReqs st' -> log (le_index e) = Some e' ->
     le_term e' = le_term e -> e' = e) ->
  rtc (step (RaftSafe log)) (mkReplyLoop vs [] [] []) l ->
  t ∈ pushed st' -> (t, RC_OK, r) ∈ replied l ->
  exists task entry b, task ∈ mPersistQueue st /\ rt_cmd t = pt_cmd task /\
    log (rt_index t) = Some entry /\ decryptEntry entry = Some [(b, rt_index t)] /\
    forall c s, fromBundle b c s = Done (rebuilt <$> pt_events task) c (s : RaftEventStore S).
Proof.
  intros Hq H0 Hmax Hp Hrun Hraft Hsteps Ht Hr.
  destruct (persistRound_run byteSize fits due st c Hq H0 Hmax)
    as (es & rs & st1 & Hrun1 & Hm & Hsent & Hpush & _).
  rewrite Hrun in Hrun1. simplify_eq. rewrite Hpush, Hp in Ht.
  destruct (matched_reply _ _ _ _ _ Hm Ht) as (task & entry & b & Hin & He & Hi & Hei & Het & Hc & Hd & Hf).
  pose proof (steps_backed log _ _ Hsteps ltac:(constructor)) as Hb.
  rewrite Forall_forall in Hb. specialize (Hb _ Hr). cbn in Hb.
  destruct (Hb ltac:(lia) eq_refl) as (e' & He' & Ht').
  exists task, entry, b. split_and!; try done. rewrite He'. f_equal.
  apply Hraft; [|by rewrite Hei|by rewrite Ht', Het].
  rewrite Hsent. apply elem_of_app. right. apply elem_of_app. by right.
Qed.

End Durable.

Section Waiting.
Context {T : Type}.
Variables (raft : nat -> RaftView) (running : nat -> bool) (index term : Z).

(** From look [N] on raft is in one term, and either the entry's index stays
    committed or the term is a later one whose log stays too short for it. *)
Definition decided (N : nat) : Prop :=
  exists term1, (forall n, (N <= n)%nat -> getCurrentTerm (raft n) = term1) /\
    ((forall n, (N <= n)%nat -> index <= getCommitIndex (raft n)) \/
     (term < term1 /\ forall n, (N <= n)%nat -> getLastLogIndex (raft n) < index)).

Lemma readTermAndLast_some fuel N : forall n,
  (forall i j, (N <= i)%nat -> (N <= j)%nat -> getCurrentTerm (raft i) = getCurrentTerm (raft j)) ->
  (N - n < fuel)%nat ->
  exists t l m, readTermAndLast fuel n raft = Some (t, l, (m + 3)%nat) /\ (n <= m)%nat /\
    t = getCurrentTerm (raft m) /\ l = getLastLogIndex (raft (m + 1)%nat).
Proof.
  induction fuel as [|fuel IH]; intros n Hst Hf; [lia|]. cbn [readTermAndLast].
  case_bool_decide as Heq; [by exists (getCurrentTerm (raft n)), (getLastLogIndex (raft (n + 1)%nat)), n|].
  destruct (decide (N <= n)%nat) as [Hn|Hn]; [exfalso; apply Heq, Hst; lia|].
  destruct (IH (n + 3)%nat Hst ltac:(lia)) as (t & l & m & H1 & H2 & H3). exists t, l, m.
  split_and!; [done|lia|apply H3..].
Qed.

(** C30: a write does not wait for ever. If the term never falls below that of the
    task, committed entries can be read, and from some look on the term is stable
    with either the commit index past the task or the log too short for it, then
    [waitTillCommittedOrQuit] returns, within as many rounds as there are looks
    until then. *)
Theorem waiting_write_is_answered N fuel c (s : T) :
  decided N ->
  (forall n, term <= getCurrentTerm (raft n)) ->
  (forall n m, (n < m)%nat -> index <= getCommitIndex (raft n) -> exists e, getEntry (raft m) index = Some e) ->
  (N < fuel)%nat ->
  exists b, waitTillCommittedOrQuit fuel 0 raft running index term c s = Done b c s.
Proof.
  intros (term1 & Hst & Hdec) Hterm Hentry Hf.
  enough (forall n, (N - n < fuel)%nat ->
    exists b, waitTillCommittedOrQuit fuel n raft running index term c s = Done b c s) as H by (apply H; lia).
  clear Hf. induction fuel as [|fuel IH]; intros n Hf; [lia|].
  cbn [waitTillCommittedOrQuit]. destruct (running n); cbn [negb]; [|by eexists].
  destruct (readTermAndLast_some (Datatypes.S fuel) N n) as (t & l & m & -> & Hnm & -> & ->); [|lia|].
  { intros i j Hi Hj. by rewrite (Hst i Hi), (Hst j Hj). }
  run. rewrite bool_decide_eq_true_2 by apply Hterm. cbn beta iota.
  case_bool_decide as Hq; [by eexists|]. case_bool_decide as Hc.
  - destruct (decide (N <= m)%nat) as [Hm|Hm]; [|apply IH; lia]. exfalso.
    destruct Hdec as [Hci|[Hlt Hl]]; [specialize (Hci (m + 3)%nat ltac:(lia)); lia|].
    apply Hq. rewrite Hst by done. split; [apply Hl; lia|done].
  - destruct (Hentry (m + 3)%nat (m + 3 + 1)%nat ltac:(lia) ltac:(lia)) as (e & ->). by eexists.
Qed.

End Waiting.

(** ** Reads and writes that are not committed *)

Section DirtyRead.
Context {S : Type}.
Implicit Types (w r : ReplyTask S) (l : ReplyLoop S).

Lemma answer_run hint w code msg resp c l :
  fillResponseAndReply (rt_cmd w) code msg hint (rt_resp w) = Some resp ->
  answer hint w code msg c l = Done tt c
    (mkReplyLoop (updateCurMaxVersion (rt_version w) (mVersionStore l)) (mWriteReplyExecutionService l)
       (mReadReplyExecutionService l) (replied l ++ [(w, code, resp)])).
Proof. intros H. unfold answer. by rewrite H. Qed.

(** A task without an index is answered at once, or goes back to the queue. *)
Lemma read_task_run fuel n raft running hint r c l :
  rt_index r = 0 ->
  replyTask fuel n raft running hint r c l =
    (if (negb (rt_followerRead r) && bool_decide (mMaxVersion (mVersionStore l) < rt_version r))%bool
     then submitTask (mkReplyTask (rt_index r) (rt_term r) (rt_version r) false (rt_cmd r) (rt_resp r))
     else answer hint r RC_OK "Success") c l.
Proof. intros Hr. unfold replyTask. rewrite bool_decide_eq_false_2 by lia. run. reflexivity. Qed.

(** A read waits for a version that is not committed. *)
Lemma read_waits fuel n raft running hint r c l :
  rt_index r = 0 -> rt_followerRead r = false -> mMaxVersion (mVersionStore l) < rt_version r ->
  exists l0, replyTask fuel n raft running hint r c l = Done tt c l0 /\ replied l0 = replied l.
Proof.
  intros Hr Hf Hv. rewrite read_task_run, Hf, bool_decide_eq_true_2 by done. cbn [negb andb]. unfold submitTask. run.
  eexists. split; [done|]. by case_match.
Qed.

(** Once any task of its version or a later one has been answered, the read is. *)
Lemma read_released fuel n raft running hint w r code msg respw respr c l :
  fillResponseAndReply (rt_cmd w) code msg hint (rt_resp w) = Some respw ->
  rt_index r = 0 -> rt_version r <= rt_version w ->
  fillResponseAndReply (rt_cmd r) RC_OK "Success" hint (rt_resp r) = Some respr ->
  exists l1 l2, answer hint w code msg c l = Done tt c l1 /\ replyTask fuel n raft running hint r c l1 = Done tt c l2 /\
    replied l2 = replied l ++ [(w, code, respw); (r, RC_OK, respr)].
Proof.
  intros Hw Hr Hv Hrr. rewrite (answer_run _ _ _ _ _ _ _ Hw). eexists _, _. split; [done|].
  rewrite read_task_run by done. cbn [mVersionStore]. rewrite updateCurMaxVersion_max, (bool_decide_eq_false_2 (_ < _)), andb_false_r by lia.
  rewrite (answer_run _ _ _ _ _ _ _ Hrr). split; [done|]. cbn. by rewrite <- app_assoc.
Qed.

(** A read of a version that is not committed waits, but it is released by
    the failure of the write it waits for. The read sits in the queue as long as
    the committed version is below the one it saw. When the write of that version
    turns out not to be committed, its client is told NOT_LEADER, yet the
    committed version is raised to the version of the write all the same, and
    the read is then answered OK. *)
Theorem failed_write_releases_reads fuel n raft running hint w r respw respr c l :
  rt_index w <> 0 ->
  waitTillCommittedOrQuit fuel n raft running (rt_index w) (rt_term w) c l = Done false c l ->
  fillResponseAndReply (rt_cmd w) RC_NOT_LEADER "NotLeaderAnyMore" hint (rt_resp w) = Some respw ->
  rt_index r = 0 -> rt_followerRead r = false ->
  getCurMaxVersion (mVersionStore l) < rt_version r <= rt_version w ->
  fillResponseAndReply (rt_cmd r) RC_OK "Success" hint (rt_resp r) = Some respr ->
  (exists l0, replyTask fuel n raft running hint r c l = Done tt c l0 /\ replied l0 = replied l) /\
  exists l1 l2, replyTask fuel n raft running hint w c l = Done tt c l1 /\
    replyTask fuel n raft running hint r c l1 = Done tt c l2 /\
    replied l2 = replied l ++ [(w, RC_NOT_LEADER, respw); (r, RC_OK, respr)].
Proof.
  intros Hw Hwait Hrw Hr Hf Hv Hrr. unfold getCurMaxVersion in Hv. split; [apply read_waits; [done..|lia]|].
  destruct (read_released fuel n raft running hint w r _ _ _ _ c l Hrw Hr ltac:(lia) Hrr) as (l1 & l2 & H1 & H2 & H3).
  exists l1, l2. split; [|done]. unfold replyTask at 1. rewrite bool_decide_eq_true_2 by done.
  by rewrite (bind_Done _ _ _ _ _ _ _ Hwait).
Qed.

End DirtyRead.
