(* ===== verification/EventApplyLoop.v ===== *)
(** * The apply loop

    [execution::EventApplyLoop] (kv-engine/execution/EventApplyLoop.h/.cpp): it
    takes committed bundles from the event store one by one, applies their
    events to the database and saves the index reached, the milestone, together
    with them. After a restart it goes on from the saved milestone. *)

From S2P Require Import Prelude Status Proto KVStore Event CommandProcessor RaftEventStore.
From S2P Require Import RocksDBKVStore RocksDBSpec.

(** The object, and the locals [appliedIndex] and [appliedBundle] of [run]. *)
Record EventApplyLoop (K S : Type) := mkApplyLoop {
  mKVStore : K;
  mRaftEventStore : RaftEventStore S;
  mShouldRecover : bool;
  mLastMilestone : Z;
  mLastSaveMilestoneTimeInNano : Z;
  mLastMilestoneKeyVersion : Z;
  appliedIndex : Z;
  appliedBundle : option Bundle;
}.
Arguments mkApplyLoop {K S} _ _ _ _ _ _ _ _.
Arguments mKVStore {K S} _.
Arguments mRaftEventStore {K S} _.
Arguments mShouldRecover {K S} _.
Arguments mLastMilestone {K S} _.
Arguments mLastSaveMilestoneTimeInNano {K S} _.
Arguments mLastMilestoneKeyVersion {K S} _.
Arguments appliedIndex {K S} _.
Arguments appliedBundle {K S} _.

Definition kApplyBatchSize : Z := 100.
Definition kSaveMilestoneTimeoutInNano : Z := 50000000.

Section EventApplyLoop.
Context {K S : Type} `{!KVStore K} {C : LogCodec}.

(** [isClearState] of the store. *)
Variable clearState : K -> bool.

(** A loop on a store, not yet recovered. *)
Definition new_ApplyLoop (kv : K) : EventApplyLoop K S := mkApplyLoop kv new_RES true 0 0 0 0 None.

Definition set_store (kv : K) (l : EventApplyLoop K S) : EventApplyLoop K S :=
  mkApplyLoop kv (mRaftEventStore l) (mShouldRecover l) (mLastMilestone l) (mLastSaveMilestoneTimeInNano l)
              (mLastMilestoneKeyVersion l) (appliedIndex l) (appliedBundle l).
Definition set_events (es : RaftEventStore S) (l : EventApplyLoop K S) : EventApplyLoop K S :=
  mkApplyLoop (mKVStore l) es (mShouldRecover l) (mLastMilestone l) (mLastSaveMilestoneTimeInNano l)
              (mLastMilestoneKeyVersion l) (appliedIndex l) (appliedBundle l).
Definition in_store {A} (m : M K A) : M (EventApplyLoop K S) A := zoom mKVStore set_store m.
Definition in_events {A} (m : M (RaftEventStore S) A) : M (EventApplyLoop K S) A :=
  zoom mRaftEventStore set_events m.

Definition set_recovered (milestone : Z) (l : EventApplyLoop K S) : EventApplyLoop K S :=
  mkApplyLoop (mKVStore l) (mRaftEventStore l) false milestone (mLastSaveMilestoneTimeInNano l)
              (mLastMilestoneKeyVersion l) (appliedIndex l) (appliedBundle l).
Definition set_saved (milestone time version : Z) (l : EventApplyLoop K S) : EventApplyLoop K S :=
  mkApplyLoop (mKVStore l) (mRaftEventStore l) (mShouldRecover l) milestone time version
              (appliedIndex l) (appliedBundle l).
Definition set_applied (index : Z) (bundle : option Bundle) (l : EventApplyLoop K S) : EventApplyLoop K S :=
  mkApplyLoop (mKVStore l) (mRaftEventStore l) (mShouldRecover l) (mLastMilestone l)
              (mLastSaveMilestoneTimeInNano l) (mLastMilestoneKeyVersion l) index bundle.

Definition recoverSelf : M (EventApplyLoop K S) unit :=
  let* l := get in
  assert_ (clearState (mKVStore l)) ;;;
  let* (s, milestone) := in_store (kvLoadMilestone 0) in
  if Status.isOK s then
    in_events (resetLoadedLogIndex milestone) ;;;
    modify (set_recovered milestone)
  else if Status.isNotFound s then
    in_events (resetLoadedLogIndex 0) ;;;
    modify (set_recovered (mLastMilestone l))
  else stop AssertFail.

(** The part of a round of [run] that saves the milestone; [false] is the
    [continue] of a commit that failed. *)
Definition saveMilestone (tsInNano : Z) : M (EventApplyLoop K S) bool :=
  let* l := get in
  if bool_decide (mLastMilestone l < appliedIndex l /\
       (kApplyBatchSize <= appliedIndex l - mLastMilestone l \/
        kSaveMilestoneTimeoutInNano < u64 (tsInNano - mLastSaveMilestoneTimeInNano l)))
  then
    let* s := in_store (kvCommit (appliedIndex l)) in
    if Status.isOK s then
      match appliedBundle l with
      | None => stop Undefined
      | Some bundle =>
          let* version := getVersionFromBundle bundle in
          modify (set_saved (appliedIndex l) tsInNano version) ;;;
          ret true
      end
    else ret false
  else ret true.

(** The inner loop: apply the events of a bundle until they all succeed.
    [shouldExit n] is what [mShouldExit] holds before the [n]-th attempt. *)
Fixpoint applyBundle (attempts n : nat) (shouldExit : nat -> bool) (bundle : Bundle) (index : Z)
    : M (EventApplyLoop K S) unit :=
  match attempts with
  | O => stop WouldBlock
  | Datatypes.S attempts =>
      if shouldExit n then ret tt
      else
        let* events := fromBundle bundle in
        let* s := in_store (until_error events apply Status.ok) in
        if Status.isOK s then modify (set_applied index (Some bundle))
        else applyBundle attempts (Datatypes.S n) shouldExit bundle index
  end.

(** One round of the loop of [run]. *)
Definition runOnce (fuel attempts : nat) (tsInNano : Z) (raft : nat -> RaftView) (shouldExit : nat -> bool)
    : M (EventApplyLoop K S) unit :=
  let* l := get in
  (if mShouldRecover l then
     recoverSelf ;;;
     modify (fun l => set_applied (mLastMilestone l) (appliedBundle l) l)
   else ret tt) ;;;
  let* saved := saveMilestone tsInNano in
  if (saved : bool) then
    let* bundleWithIndexOpt := in_events (loadNextBundle fuel O raft) in
    match bundleWithIndexOpt with
    | None => ret tt
    | Some (bundle, index) => applyBundle attempts O shouldExit bundle index
    end
  else ret tt.

End EventApplyLoop.
