(* ===== verification/ApplyLoopSpec.v ===== *)
(** * What the apply loop leaves in the database

    The rows on disk are those of replaying the committed log up to the saved
    milestone, and together with the write batch those of replaying it up to the
    applied index, over any number of rounds and restarts. *)

From S2P Require Import Prelude Status Proto KVStore Event CommandProcessor RaftEventStore.
From S2P Require Import RocksDBKVStore RocksDBSpec EventApplyLoop.

(** ** Events as operations on rows *)

Definition ops_of_event (e : Event) : list RowOp :=
  match e with
  | EvWrite w | EvImport _ w =>
      if w_isNoOp w then []
      else if w_enableTTL w then
        [RPut (w_key w) (ttl_row_of (w_value w) (w_version w) (w_ttl w) (w_deadline w) (w_updateTime w)
                                    (w_udfMeta w))]
      else [RPut (w_key w) (row_of (w_value w) (w_version w) (w_updateTime w) (w_udfMeta w))]
  | EvRead _ => []
  | EvDelete d => [RDelete (d_key d)]
  end.

Definition ops_of_bundle (b : Bundle) : list RowOp :=
  match mapM ofProtoEvent b with Some es => es ≫= ops_of_event | None => [] end.

Definition push_ops (ops : list RowOp) (d : Disk) : Disk := mkDisk (rows d) (pending d ++ ops) (milestone d).

Lemma apply_ops_app m ops1 ops2 : apply_ops m (ops1 ++ ops2) = apply_ops (apply_ops m ops1) ops2.
Proof. apply foldl_app. Qed.

Lemma fromBundle_mapM {S} b es c (s : S) : mapM ofProtoEvent b = Some es -> fromBundle b c s = Done es c s.
Proof.
  revert es. induction b as [|p b IH]; intros es H; cbn in H; [by injection H as <-|].
  cbn [fromBundle]. destruct (ofProtoEvent p) as [e|]; [|discriminate]. cbn in H.
  destruct (mapM ofProtoEvent b) as [es'|]; [|discriminate]. cbn in H. injection H as <-.
  run. by rewrite (IH es' eq_refl).
Qed.

Lemma getVersionFromBundle_some {S} b es c (s : S) :
  mapM ofProtoEvent b = Some es -> b <> [] -> exists v, getVersionFromBundle b c s = Done v c s.
Proof. destruct b as [|[] b]; intros H Hne; [done|by eexists|by eexists|discriminate..]. Qed.

(** ** The log *)

Section Indexed.
Context {C : LogCodec}.

(** The entry at position [k] has index [m + 1 + k]. *)
Definition indexed (m : Z) (log : list LogEntry) : Prop :=
  forall k e, log !! k = Some e -> le_index e = m + 1 + Z.of_nat k.

(** The index of the last bundle delivered since [m]. *)
Definition reached (m : Z) (delivered : list (Bundle * Z)) : Z := default m (last delivered.*2).

Lemma indexed_tail m e log : indexed m (e :: log) -> indexed (m + 1) log.
Proof. intros H k x Hk. rewrite (H (Datatypes.S k) x Hk). lia. Qed.

Lemma reached_cons m b i d : reached m ((b, i) :: d) = reached i d.
Proof. unfold reached. cbn [fmap list_fmap snd]. rewrite last_cons. by destruct (last d.*2). Qed.

Lemma reached_snoc m b i d : reached m (d ++ [(b, i)]) = i.
Proof. unfold reached. rewrite fmap_app. cbn. by rewrite last_snoc. Qed.

(** The bundles up to the index of a delivered one are the delivered ones. *)
Lemma take_reached log : forall m all d,
  indexed m log -> decryptEntries log = Some all -> d `prefix_of` all ->
  m <= reached m d <= m + Z.of_nat (length log) /\
  decryptEntries (take (Z.to_nat (reached m d - m)) log) = Some d.
Proof.
  induction log as [|e log IH]; intros m all d Hi Hall Hpre; cbn in Hall.
  { simplify_eq. apply prefix_nil_inv in Hpre as ->. cbn. split; [lia|]. by rewrite take_nil. }
  destruct (decryptEntry e) as [x|] eqn:Ee; [|discriminate]. cbn in Hall.
  destruct (decryptEntries log) as [y|] eqn:Ey; [|discriminate]. cbn in Hall. simplify_eq.
  destruct d as [|[b i] d]. { cbn. rewrite Z.sub_diag. split; [lia|done]. }
  assert (x = [] \/ x = [(b, i)] /\ i = m + 1 /\ d `prefix_of` y) as [->|(-> & -> & Hd)].
  { unfold decryptEntry in Ee. destruct (le_noop e); [left; by simplify_eq|right].
    rewrite (Hi O e eq_refl) in Ee.
    destruct (if cryptoEnabled then _ else _) as [p|]; [|discriminate]. cbn in Ee.
    destruct (parBundle p); [|discriminate]. cbn in Ee. simplify_eq. cbn in Hpre.
    apply prefix_cons_inv_1 in Hpre as Heq. apply prefix_cons_inv_2 in Hpre. simplify_eq.
    split_and!; [do 2 f_equal; lia|lia|done]. }
  - destruct (IH (m + 1) y ((b, i) :: d) (indexed_tail _ _ _ Hi) eq_refl Hpre) as [Hb Hd].
    rewrite !reached_cons in *. cbn [length]. split; [lia|].
    replace (Z.to_nat (reached i d - m)) with (Datatypes.S (Z.to_nat (reached i d - (m + 1)))) by lia.
    cbn. rewrite Ee. cbn. by rewrite Hd.
  - destruct (IH (m + 1) y d (indexed_tail _ _ _ Hi) eq_refl Hd) as [Hb Hd'].
    rewrite reached_cons. cbn [length]. split; [lia|].
    replace (Z.to_nat (reached (m + 1) d - m)) with (Datatypes.S (Z.to_nat (reached (m + 1) d - (m + 1)))) by lia.
    cbn. rewrite Ee. cbn. by rewrite Hd'.
Qed.

Lemma reached_mono log m all d b i :
  indexed m log -> decryptEntries log = Some all -> d ++ [(b, i)] `prefix_of` all -> reached m d <= i.
Proof.
  intros Hi Hall Hpre. destruct (take_reached log m all _ Hi Hall Hpre) as [_ H1].
  destruct (take_reached log m all d Hi Hall) as [Hr H2]; [by eapply prefix_app_l|].
  rewrite reached_snoc in H1. destruct (decide (reached m d <= i)) as [|Hgt]; [done|exfalso].
  rewrite <- (take_drop (Z.to_nat (i - m)) (take (Z.to_nat (reached m d - m)) log)) in H2.
  rewrite take_take, Nat.min_l in H2 by lia.
  apply decryptEntries_app_inv in H2 as (b1 & b2 & H3 & _ & Hd). rewrite H1 in H3. injection H3 as <-.
  apply (f_equal length) in Hd. rewrite !length_app in Hd. cbn in Hd. lia.
Qed.

End Indexed.

Section Recovery.
Context {P : ProtoCodec} {PL : ProtoCodecLaws P} {R : RocksDB} {RL : RocksDBLaws R} {LOOKUP : WSLookup}.
Context {S : Type} {C : LogCodec}.
Implicit Types (l : EventApplyLoop RocksDBKVStore S) (d : Disk).

(** ** Applying a bundle *)

Lemma apply_rep e c s d :
  rep s d -> Forall op_readable (ops_of_event e) ->
  exists s', apply e c s = Done Status.ok c s' /\ rep s' (push_ops (ops_of_event e) d).
Proof.
  intros Hrep Hok.
  assert (Hnone : push_ops [] d = d) by (destruct d; unfold push_ops; cbn; by rewrite app_nil_r).
  assert (Hw : forall w, Forall op_readable (ops_of_event (EvWrite w)) ->
    exists s', applyWrite w c s = Done Status.ok c s' /\ rep s' (push_ops (ops_of_event (EvWrite w)) d)).
  { intros w Hw. cbn [ops_of_event] in *. unfold applyWrite. destruct (w_isNoOp w); [by rewrite Hnone; eexists|].
    destruct (w_enableTTL w); rewrite Forall_singleton in Hw.
    - apply writeTTLKV_rep; [done | exact Hw].
    - apply writeKV_rep; [done | exact Hw]. }
  destruct e as [w|r|x|iv w]; [by apply Hw | cbn [ops_of_event]; rewrite Hnone; by eexists | | by apply Hw].
  destruct (deleteKV_rep (d_key x) (d_version x) (d_deletedVersion x) c s d Hrep) as (s' & Hrun & Hrep').
  exists s'. split; [|done]. cbn [apply]. by rewrite (bind_Done _ _ _ _ _ _ _ Hrun).
Qed.

Lemma apply_events_rep es : forall c s d,
  rep s d -> Forall op_readable (es ≫= ops_of_event) ->
  exists s', until_error es apply Status.ok c s = Done Status.ok c s' /\
    rep s' (push_ops (es ≫= ops_of_event) d).
Proof.
  induction es as [|e es IH]; intros c s d Hrep Hok.
  - exists s. split; [done|]. cbn. destruct d. unfold push_ops. cbn in *. by rewrite app_nil_r.
  - rewrite bind_cons, Forall_app in Hok. destruct Hok as [He Hes].
    destruct (apply_rep e c s d Hrep He) as (s1 & H1 & Hrep1).
    destruct (IH c s1 _ Hrep1 Hes) as (s2 & H2 & Hrep2). exists s2. cbn [until_error].
    rewrite (bind_Done _ _ _ _ _ _ _ H1). split; [done|]. rewrite bind_cons.
    unfold push_ops in *. cbn [rows pending milestone] in Hrep2. by rewrite <- app_assoc in Hrep2.
Qed.

(** ** The replay of the log *)

Variable log : list LogEntry.

(** The rows after the first [n] entries. *)
Definition replay (n : Z) : gmap string Row :=
  match decryptEntries (take (Z.to_nat n) log) with
  | Some bs => apply_ops ∅ (bs.*1 ≫= ops_of_bundle)
  | None => ∅
  end.

(** A bundle the code can apply: it has events, of the kinds that are
    replicated, and their metas fit. *)
Definition bundle_ok (b : Bundle) : Prop :=
  b <> [] /\ is_Some (mapM ofProtoEvent b) /\ Forall op_readable (ops_of_bundle b).

Record log_ok : Prop := {
  ok_indexed : indexed 0 log;
  ok_bundles : exists bs, decryptEntries log = Some bs /\ Forall (fun x => bundle_ok x.1) bs;
  ok_length : Z.of_nat (length log) < 2 ^ 64;
}.
Hypothesis Hlog : log_ok.

Lemma bundles_from m :
  exists all, decryptEntries (drop m log) = Some all /\ Forall (fun x => bundle_ok x.1) all.
Proof.
  destruct (ok_bundles Hlog) as (bs & Hbs & Hok). rewrite <- (take_drop m log) in Hbs.
  apply decryptEntries_app_inv in Hbs as (b1 & b2 & _ & H2 & ->). apply Forall_app in Hok as [_ Hok].
  by exists b2.
Qed.

Lemma indexed_drop m : (m <= length log)%nat -> indexed (Z.of_nat m) (drop m log).
Proof.
  intros Hm k e. rewrite lookup_drop. intros H. rewrite (ok_indexed Hlog _ _ H). lia.
Qed.

(** The replay up to a delivered bundle. *)
Lemma replay_reached m all ds :
  (m <= length log)%nat -> decryptEntries (drop m log) = Some all -> ds `prefix_of` all ->
  Z.of_nat m <= reached (Z.of_nat m) ds <= Z.of_nat (length log) /\
  replay (reached (Z.of_nat m) ds) = apply_ops (replay (Z.of_nat m)) (ds.*1 ≫= ops_of_bundle).
Proof.
  intros Hm Hall Hpre.
  destruct (take_reached (drop m log) (Z.of_nat m) all ds (indexed_drop m Hm) Hall Hpre) as [Hr Hd].
  rewrite length_drop in Hr. split; [lia|]. unfold replay. rewrite Nat2Z.id.
  replace (Z.to_nat (reached (Z.of_nat m) ds)) with (m + Z.to_nat (reached (Z.of_nat m) ds - Z.of_nat m))%nat by lia.
  rewrite <- take_take_drop.
  destruct (ok_bundles Hlog) as (bs & Hbs & _). rewrite <- (take_drop m log) in Hbs.
  apply decryptEntries_app_inv in Hbs as (b1 & b2 & H1 & _ & _). rewrite H1.
  rewrite (decryptEntries_app _ _ _ _ H1 Hd). by rewrite fmap_app, bind_app, apply_ops_app.
Qed.

Lemma replay_all m all :
  (m <= length log)%nat -> Some all = decryptEntries (drop m log) ->
  replay (reached (Z.of_nat m) all) = replay (Z.of_nat (length log)).
Proof.
  intros Hm Hall. symmetry in Hall. destruct (replay_reached m all all Hm Hall) as [_ ->]; [done|].
  unfold replay. rewrite !Nat2Z.id, firstn_all.
  destruct (ok_bundles Hlog) as (bs & Hbs & _). rewrite Hbs. rewrite <- (take_drop m log) in Hbs.
  apply decryptEntries_app_inv in Hbs as (b1 & b2 & -> & H2 & ->). rewrite Hall in H2. simplify_eq.
  by rewrite fmap_app, bind_app, apply_ops_app.
Qed.

Lemma bundles_length es : forall bs, decryptEntries es = Some bs -> (length bs <= length es)%nat.
Proof.
  induction es as [|e es IH]; intros bs H; cbn in H; [by simplify_eq|].
  destruct (decryptEntry e) as [x|] eqn:Ee; [|discriminate]. cbn in H.
  destruct (decryptEntries es) as [y|]; [|discriminate]. cbn in H. simplify_eq.
  rewrite length_app. specialize (IH y eq_refl). cbn.
  assert (length x <= 1)%nat; [|lia].
  unfold decryptEntry in Ee. destruct (le_noop e); [by simplify_eq; cbn; lia|].
  destruct (if cryptoEnabled then _ else _) as [p|]; [|discriminate]. cbn in Ee.
  destruct (parBundle p); [|discriminate]. cbn in Ee. by simplify_eq.
Qed.

(** ** The invariant *)

(** Running since a recovery at [m], with [delivered] taken from the log. *)
Record running (m : nat) (delivered : list (Bundle * Z)) l d : Prop := {
  run_rep : rep (mKVStore l) d;
  run_started : mShouldRecover l = false;
  run_start : (m <= length log)%nat;
  run_loaded : loaded log m delivered (mRaftEventStore l);
  run_milestone : default 0 (milestone d) = mLastMilestone l;
  run_rows : rows d = replay (mLastMilestone l);
  run_applied : appliedIndex l = reached (Z.of_nat m) delivered;
  run_pending : apply_ops (rows d) (pending d) = replay (appliedIndex l);
  run_ahead : Z.of_nat m <= mLastMilestone l <= appliedIndex l;
  run_bundle : mLastMilestone l < appliedIndex l -> exists b, appliedBundle l = Some b /\ bundle_ok b;
}.

(** Just started on what is on disk. *)
Record starting l d : Prop := {
  start_rep : rep (mKVStore l) d;
  start_recover : mShouldRecover l = true;
  start_clean : pending d = [];
  start_rows : rows d = replay (default 0 (milestone d));
  start_bound : 0 <= default 0 (milestone d) <= Z.of_nat (length log);
  start_fresh : mCachedBundles (mRaftEventStore l) = [] /\ mAppliedIndex (mRaftEventStore l) = 0 /\
                mLoadedIndex (mRaftEventStore l) = 0;
  start_zero : mLastMilestone l = 0;
}.

Lemma running_bound m delivered l d :
  running m delivered l d -> delivered `prefix_of` default [] (decryptEntries (drop m log)) /\
  appliedIndex l <= Z.of_nat (length log).
Proof.
  intros Hr. destruct (bundles_from m) as (all & Hall & _).
  pose proof (loaded_prefix log m all Hall _ _ (run_loaded _ _ _ _ Hr)) as Hpre.
  rewrite (run_applied _ _ _ _ Hr), Hall.
  destruct (replay_reached m all delivered (run_start _ _ _ _ Hr) Hall Hpre). split; [done|lia].
Qed.

Lemma loaded_start m (st : RaftEventStore S) :
  (m <= length log)%nat -> loaded log m [] (set_loading [] (Z.of_nat m) (Z.of_nat m) st).
Proof.
  intros Hm. unfold loaded. cbn. rewrite Nat2Z.id, drop_ge by (rewrite length_take; lia).
  split_and!; [lia..|done|done].
Qed.

Lemma recoverSelf_running c l d :
  starting l d ->
  exists l1, (recoverSelf isClearState ;;; modify (fun l => set_applied (mLastMilestone l) (appliedBundle l) l))
               c l = Done tt c l1 /\
    running (Z.to_nat (default 0 (milestone d))) [] l1 d.
Proof.
  intros [Hrep Hrec Hcl Hrows Hb (Hc & Ha & Hld) Hz].
  assert (isClearState (mKVStore l) = true) as Hclear.
  { unfold isClearState. destruct Hrep as (_ & -> & _). rewrite Hcl. done. }
  assert (forall n, resetLoadedLogIndex n c (mRaftEventStore l) =
    Done tt c (set_loading [] n n (mRaftEventStore l))) as Hreset.
  { intros n. unfold resetLoadedLogIndex. run. rewrite bool_decide_eq_true_2 by done. by rewrite Hc. }
  pose proof (loadMilestone_rep 0 c _ _ Hrep) as Hm.
  assert (exists l1, (recoverSelf isClearState ;;;
      modify (fun l => set_applied (mLastMilestone l) (appliedBundle l) l)) c l = Done tt c l1 /\
    l1 = set_applied (default 0 (milestone d)) (appliedBundle l) (set_recovered (default 0 (milestone d))
           (set_events (set_loading [] (default 0 (milestone d)) (default 0 (milestone d)) (mRaftEventStore l)) l)))
    as (l1 & Hrun & ->).
  { unfold recoverSelf. run. rewrite Hclear. unfold in_store, in_events, zoom.
    destruct (milestone d) as [n|].
    - rewrite Hm. change (Status.isOK Status.ok) with true. cbn -[resetLoadedLogIndex]. rewrite Hreset.
      eexists. split; [done|]. by destruct l.
    - destruct Hm as (text & Hm). rewrite Hm.
      change (Status.isOK (Status.notFound text)) with false.
      change (Status.isNotFound (Status.notFound text)) with true.
      cbn -[resetLoadedLogIndex]. rewrite Hreset. eexists. split; [done|]. destruct l; cbn in *. by subst. }
  eexists. split; [done|]. set (n := default 0 (milestone d)) in *.
  constructor; try done; cbn; unfold reached; cbn; rewrite ?Z2Nat.id by lia; try done; try lia.
  - replace n with (Z.of_nat (Z.to_nat n)) at 2 3 by lia. apply loaded_start. lia.
  - rewrite Hcl. done.
Qed.

Lemma saveMilestone_running ts m delivered c l d :
  running m delivered l d ->
  exists l1 d1, saveMilestone ts c l = Done true c l1 /\ running m delivered l1 d1 /\
    mLastMilestone l <= mLastMilestone l1.
Proof.
  intros Hr. pose proof Hr as [Hrep Hst Hm Hld Hmil Hrows Happ Hpend Hahead Hb].
  unfold saveMilestone. run. case_bool_decide as Hdue; [|by exists l, d].
  destruct (running_bound _ _ _ _ Hr) as [_ Hbound]. pose proof (ok_length Hlog) as Hlen.
  destruct (commit_rep (appliedIndex l) c _ _ Hrep) as (kv & Hc & Hrep'); [unfold is_u64; lia|].
  destruct (Hb ltac:(lia)) as (b & Eb & Hok). pose proof Hok as (Hne & (es & Hes) & _).
  destruct (getVersionFromBundle_some b es c (set_store kv l) Hes Hne) as (v & Hv).
  unfold in_store, zoom. rewrite Hc. change (Status.isOK Status.ok) with true. cbn beta iota.
  rewrite Eb, Hv. eexists _, _. split; [done|].
  split; [constructor; cbn; try done; lia|cbn; lia].
Qed.

Lemma applyBundle_running attempts m all delivered b i c l d :
  decryptEntries (drop m log) = Some all -> Forall (fun x => bundle_ok x.1) all ->
  rep (mKVStore l) d -> mShouldRecover l = false -> (m <= length log)%nat ->
  loaded log m (delivered ++ [(b, i)]) (mRaftEventStore l) ->
  default 0 (milestone d) = mLastMilestone l -> rows d = replay (mLastMilestone l) ->
  appliedIndex l = reached (Z.of_nat m) delivered ->
  apply_ops (rows d) (pending d) = replay (appliedIndex l) ->
  Z.of_nat m <= mLastMilestone l <= appliedIndex l ->
  exists l1 d1, applyBundle (Datatypes.S attempts) 0 (fun _ => false) b i c l = Done tt c l1 /\
    running m (delivered ++ [(b, i)]) l1 d1 /\ mLastMilestone l1 = mLastMilestone l.
Proof.
  intros Hall Hoks Hrep Hst Hm Hld Hmil Hrows Happ Hpend Hahead.
  pose proof (loaded_prefix log m all Hall _ _ Hld) as Hpre.
  assert (Hpre0 : delivered `prefix_of` all) by (by eapply prefix_app_l).
  destruct (replay_reached m all _ Hm Hall Hpre) as [Hbd Hrep1].
  destruct (replay_reached m all _ Hm Hall Hpre0) as [_ Hrep0].
  rewrite reached_snoc in Hrep1, Hbd. rewrite fmap_app, bind_app, apply_ops_app, <- Hrep0 in Hrep1.
  cbn in Hrep1. rewrite app_nil_r in Hrep1.
  assert (bundle_ok b) as Hok.
  { destruct Hpre as [k ->]. rewrite !Forall_app, Forall_singleton in Hoks. apply Hoks. }
  pose proof Hok as (Hne & (es & Hes) & Hops). unfold ops_of_bundle in Hops, Hrep1. rewrite Hes in Hops, Hrep1.
  destruct (apply_events_rep es c _ _ Hrep Hops) as (kv & Hrun & Hrep').
  cbn [applyBundle]. run. rewrite (fromBundle_mapM b es c l Hes). unfold in_store, zoom. rewrite Hrun.
  change (Status.isOK Status.ok) with true. cbn beta iota. eexists _, _. split; [done|].
  assert (appliedIndex l <= i).
  { rewrite Happ. eapply reached_mono; [by apply indexed_drop | done | done]. }
  split; [|done]. constructor; cbn; rewrite ?reached_snoc; try done; [|lia|eauto].
  unfold push_ops. cbn [rows pending]. by rewrite apply_ops_app, Hpend, Happ, Hrep1.
Qed.

(** A round of a running loop: it completes, and when raft shows the whole log it
    either takes another bundle or there is none left. *)
Lemma runOnce_running fuel attempts ts raft m delivered c l d :
  running m delivered l d -> (forall i, sees log (raft i)) -> (length log + 1 < fuel)%nat ->
  exists c' l' d' delivered',
    runOnce isClearState fuel (Datatypes.S attempts) ts raft (fun _ => false) c l = Done tt c' l' /\
    running m delivered' l' d' /\ delivered `prefix_of` delivered' /\ mLastMilestone l <= mLastMilestone l' /\
    ((forall i, shows_all log (raft i)) ->
     Some delivered' = decryptEntries (drop m log) \/ length delivered' = Datatypes.S (length delivered)).
Proof.
  intros Hr Hsees Hf. destruct (saveMilestone_running ts m delivered c l d Hr) as (l1 & d1 & Hsave & Hr1 & Hup).
  destruct (bundles_from m) as (all & Hall & Hoks).
  pose proof Hr1 as [Hrep Hst Hm Hld Hmil Hrows Happ Hpend Hahead Hb].
  destruct (loadNextBundle_step log m all Hall fuel 0 raft c (mRaftEventStore l1) delivered Hsees Hld)
    as (r & c1 & st1 & Hload & Hld1 & Hdone).
  { pose proof Hld as ([? ?] & _). lia. }
  unfold runOnce. run. rewrite (run_started _ _ _ _ Hr). cbn beta iota. rewrite Hsave.
  unfold in_events, zoom. rewrite Hload. cbn beta iota. destruct r as [[b i]|]; cbn [option_list] in Hld1.
  - destruct (applyBundle_running attempts m all delivered b i c1 (set_events st1 l1) d1)
      as (l2 & d2 & Hrun & Hr2 & Heq); try done.
    exists c1, l2, d2, (delivered ++ [(b, i)]). split_and!; [done|done|by apply prefix_app_r|by rewrite Heq|].
    intros _. right. rewrite length_app. cbn. lia.
  - rewrite app_nil_r in Hld1. exists c1, (set_events st1 l1), d1, delivered. split_and!; [done| |done|done|].
    + by constructor.
    + intros Hsa. left. by rewrite (Hdone Hsa eq_refl).
Qed.

Lemma runOnce_starting fuel attempts ts raft c l d :
  starting l d -> (forall i, sees log (raft i)) -> (length log + 1 < fuel)%nat ->
  exists c' l' d' delivered',
    runOnce isClearState fuel (Datatypes.S attempts) ts raft (fun _ => false) c l = Done tt c' l' /\
    running (Z.to_nat (default 0 (milestone d))) delivered' l' d'.
Proof.
  intros Hs Hsees Hf. destruct (recoverSelf_running c l d Hs) as (l1 & Hrec & Hr).
  destruct (runOnce_running fuel attempts ts raft _ _ c l1 d Hr Hsees Hf) as (c' & l' & d' & ds & Hrun & Hr' & _).
  exists c', l', d', ds. split; [|done]. rewrite <- Hrun. unfold runOnce. run.
  rewrite (start_recover _ _ Hs), (run_started _ _ _ _ Hr). run_in Hrec. by rewrite Hrec.
Qed.

(** ** Restarts *)

(** The process ends, in order or not, and a new store is opened on the same
    files: what was written is there, the batch is empty. Nothing but [kvCommit]
    writes, and the database writes a batch whole, so a crash inside a round
    leaves on disk what a crash before or after that round leaves. *)
Definition restart (s : RocksDBKVStore) : RocksDBKVStore :=
  mkRocks _ (mRocksDB s) (mWalDir s) (mDBDir s) (mColumnFamilyNames s) (mColumnFamilyHandles s) [] no_observers.

Inductive life : EventApplyLoop RocksDBKVStore S -> EventApplyLoop RocksDBKVStore S -> Prop :=
| life_round fuel attempts ts raft c c' l l' :
    (forall i, sees log (raft i)) -> (length log + 1 < fuel)%nat ->
    runOnce isClearState fuel (Datatypes.S attempts) ts raft (fun _ => false) c l = Done tt c' l' ->
    life l l'
| life_crash l : life l (new_ApplyLoop (restart (mKVStore l))).

(** A loop that lives, with milestone [n] on its disk. *)
Definition alive (n : Z) l : Prop :=
  exists d, default 0 (milestone d) = n /\ (starting l d \/ exists m delivered, running m delivered l d).

Lemma new_starting s d :
  rep s d -> rows d = replay (default 0 (milestone d)) -> 0 <= default 0 (milestone d) <= Z.of_nat (length log) ->
  starting (new_ApplyLoop (restart s)) (mkDisk (rows d) [] (milestone d)).
Proof.
  intros ((Hh & Hw & Hk) & _ & _ & db & Hdb & Hrest) Hrows Hb. constructor; try done.
  split; [done|]. split; [done|]. split; [constructor|]. by exists db.
Qed.

(** The milestone on disk never goes back. *)
Lemma alive_life n l l' : alive n l -> life l l' -> exists n', n <= n' /\ alive n' l'.
Proof.
  intros Halive Hlife. revert Halive. destruct Hlife as [fuel att ts raft c c' l0 l0' Hs Hf Hrun|l0]; intros (d & <- & Hl).
  - destruct Hl as [Hl|(m & ds & Hl)].
    + destruct (runOnce_starting fuel att ts raft c l0 d Hl Hs Hf) as (c1 & l1 & d1 & ds & Hrun1 & Hr).
      rewrite Hrun in Hrun1. simplify_eq. exists (default 0 (milestone d1)). split; [|exists d1; eauto].
      rewrite (run_milestone _ _ _ _ Hr). pose proof (run_ahead _ _ _ _ Hr). pose proof (start_bound _ _ Hl). lia.
    + destruct (runOnce_running fuel att ts raft m ds c l0 d Hl Hs Hf) as (c1 & l1 & d1 & ds' & Hrun1 & Hr & _ & Hup & _).
      rewrite Hrun in Hrun1. simplify_eq. exists (default 0 (milestone d1)). split; [|exists d1; eauto].
      by rewrite (run_milestone _ _ _ _ Hr), (run_milestone _ _ _ _ Hl).
  - exists (default 0 (milestone d)). split; [done|]. exists (mkDisk (rows d) [] (milestone d)). split; [done|left]. destruct Hl as [Hl|(m & ds & Hl)].
    + destruct Hl as [Hrep _ _ Hrows Hb _ _]. by apply new_starting.
    + pose proof (running_bound _ _ _ _ Hl) as [_ Hb]. pose proof (run_ahead _ _ _ _ Hl) as Ha.
      apply (new_starting _ d); [by destruct Hl| |]; rewrite (run_milestone _ _ _ _ Hl); [by destruct Hl|lia].
Qed.

Lemma alive_rtc n l l' : rtc life l l' -> alive n l -> exists n', n <= n' /\ alive n' l'.
Proof.
  intros H. revert n. induction H as [l|l l1 l2 H1 _ IH]; intros n Hn; [by exists n|].
  destruct (alive_life n _ _ Hn H1) as (n1 & ? & Hn1). destruct (IH n1 Hn1) as (n2 & ? & Hn2). exists n2. split; [lia|done].
Qed.

Lemma new_alive s : rep s (mkDisk ∅ [] None) -> alive 0 (new_ApplyLoop s).
Proof. intros Hrep. eexists. split; [|left; constructor; try done]; cbn; lia. Qed.

(** The disk of a loop that lives. *)
Lemma alive_disk n l :
  alive n l -> exists d, rep (mKVStore l) d /\ default 0 (milestone d) = n /\ rows d = replay n /\ 0 <= n <= Z.of_nat (length log).
Proof.
  intros (d & <- & [Hs|(m & ds & Hr)]); exists d; [by destruct Hs|]. pose proof (running_bound _ _ _ _ Hr) as [_ Hb].
  pose proof (run_ahead _ _ _ _ Hr). rewrite (run_milestone _ _ _ _ Hr). split_and!; [by destruct Hr..|lia|lia].
Qed.

(** C6: the database is always a replay of the log, over crashes. A server
    starts on an empty database and lives through any sequence of rounds of the
    apply loop and crashes, raft showing more or less of the committed log to
    each round. At every point the rows on disk are those of replaying the log up
    to the milestone on disk; a loop that has recovered holds, with its write
    batch, exactly the rows of replaying it up to its applied index: nothing is
    lost and nothing is applied twice. *)
Theorem database_replays_the_log s l :
  rep s (mkDisk ∅ [] None) -> rtc life (new_ApplyLoop s) l ->
  exists d, rep (mKVStore l) d /\ rows d = replay (default 0 (milestone d)) /\
    (mShouldRecover l = false ->
     default 0 (milestone d) = mLastMilestone l /\
     apply_ops (rows d) (pending d) = replay (appliedIndex l)).
Proof.
  intros Hrep Hl. destruct (alive_rtc _ _ _ Hl (new_alive s Hrep)) as (n & _ & d & _ & [Hs|(m & ds & Hr)]); exists d.
  - split_and!; [by destruct Hs..|]. rewrite (start_recover _ _ Hs). discriminate.
  - split_and!; [by destruct Hr| |by destruct Hr]. rewrite (run_milestone _ _ _ _ Hr). by destruct Hr.
Qed.

(** Rounds in a row on a raft that shows the whole log. *)
Lemma rounds_catch_up fuel attempts rounds : forall m delivered c l d,
  running m delivered l d -> (length log + 1 < fuel)%nat ->
  Forall (fun x : Z * (nat -> RaftView) => forall i, sees log (x.2 i) /\ shows_all log (x.2 i)) rounds ->
  exists c' l' d' delivered',
    forM rounds (fun x => runOnce isClearState fuel (Datatypes.S attempts) x.1 x.2 (fun _ => false)) c l =
      Done tt c' l' /\ running m delivered' l' d' /\ delivered `prefix_of` delivered' /\
    (Some delivered' = decryptEntries (drop m log) \/
     length delivered' = (length delivered + length rounds)%nat).
Proof.
  induction rounds as [|[ts raft] rounds IH]; intros m delivered c l d Hr Hf Hs.
  { exists c, l, d, delivered. cbn. rewrite Nat.add_0_r. eauto. }
  apply Forall_cons in Hs as [Hs Hss]. cbn [snd] in Hs.
  destruct (runOnce_running fuel attempts ts raft m delivered c l d Hr) as (c1 & l1 & d1 & ds1 & Hrun1 & Hr1 & Hp1 & _ & H1);
    [apply Hs|done|].
  destruct (IH m ds1 c1 l1 d1 Hr1 Hf Hss) as (c2 & l2 & d2 & ds2 & Hrun2 & Hr2 & Hp2 & H2).
  exists c2, l2, d2, ds2. cbn [forM fst snd]. rewrite (bind_Done _ _ _ _ _ _ _ Hrun1). split_and!; [done|done|by etrans|].
  destruct H2 as [?|H2]; [by left|]. destruct (H1 ltac:(apply Hs)) as [Hall|Hlen].
  - left. destruct (running_bound _ _ _ _ Hr2) as [Hpre _]. rewrite <- Hall in Hpre |- *. cbn in Hpre.
    f_equal. symmetry. apply prefix_length_eq; [done|by apply prefix_length].
  - right. cbn. lia.
Qed.

(** C28: the apply loop completes and catches up. On a database with any saved
    milestone a loop that is just started completes every round, and as soon as raft shows
    the whole log, one round more than there are entries brings the database
    and its write batch to the rows of replaying the whole log. *)
Theorem apply_loop_catches_up fuel attempts rounds c s d :
  rep s d -> rows d = replay (default 0 (milestone d)) ->
  0 <= default 0 (milestone d) <= Z.of_nat (length log) -> (length log + 1 < fuel)%nat ->
  Forall (fun x : Z * (nat -> RaftView) => forall i, sees log (x.2 i) /\ shows_all log (x.2 i)) rounds ->
  (length log + 1 <= length rounds)%nat ->
  exists c' l' d',
    forM rounds (fun x => runOnce isClearState fuel (Datatypes.S attempts) x.1 x.2 (fun _ => false)) c
      (new_ApplyLoop (restart s)) = Done tt c' l' /\
    rep (mKVStore l') d' /\ apply_ops (rows d') (pending d') = replay (Z.of_nat (length log)).
Proof.
  intros Hrep Hrows Hb Hf Hs Hlen. pose proof (new_starting s d Hrep Hrows Hb) as Hst.
  destruct rounds as [|[ts raft] rounds]; [cbn in Hlen; lia|]. apply Forall_cons in Hs as [Hs Hss].
  destruct (runOnce_starting fuel attempts ts raft c _ _ Hst) as (c1 & l1 & d1 & ds1 & Hrun1 & Hr1); [apply Hs|done|].
  destruct (rounds_catch_up fuel attempts rounds _ ds1 c1 l1 d1 Hr1 Hf Hss)
    as (c2 & l2 & d2 & ds2 & Hrun2 & Hr2 & _ & H2).
  exists c2, l2, d2. cbn [forM fst snd]. rewrite (bind_Done _ _ _ _ _ _ _ Hrun1).
  split_and!; [done | by destruct Hr2 |]. rewrite (run_pending _ _ _ _ Hr2), (run_applied _ _ _ _ Hr2).
  eapply replay_all; [apply Hr2|]. destruct H2 as [H2|H2]; [done|].
  destruct (running_bound _ _ _ _ Hr2) as [Hpre _]. destruct (bundles_from (Z.to_nat (default 0 (milestone d))))
    as (all & Hall & _). cbn [milestone] in *. rewrite Hall in *. cbn in Hpre. f_equal.
  apply prefix_length_eq; [done|]. apply bundles_length in Hall. rewrite length_drop in Hall.
  cbn in Hlen. lia.
Qed.

End Recovery.
