(* ===== verification/ReplicationSpec.v ===== *)
(** * From the client to the database of every node

    The parts of the engine put together: what the processor asks of the event store is performed, the persist
    loop makes log entries of it, the reply loop answers once raft has committed them, and the apply loop of any
    node brings the committed log into its database, over any number of crashes. Stale reads are answered from that
    database. *)

From S2P Require Import Prelude Status Proto KVStore VersionStore ProxyKVStore Event Command KVPutCommand InMemoryKVStore CommandProcessor CommandsSpec.
From S2P Require Import RaftEventStore ReplyLoop RocksDBKVStore RocksDBSpec EventApplyLoop ApplyLoopSpec.

(** The calls of the event store the processor makes; a direct reply makes none. *)
Definition perform {S} (x : Effect S) : M (RaftEventStore S) unit :=
  match x with
  | Reply _ => ret tt
  | ReplyAsync index term version cmd r follower => replyAsync index term version cmd r follower
  | PersistAsync term version cmd r events => persistAsync term cmd r version events
  end.

(** ** Entries and tasks, by position *)

Lemma matched_lookup {S} {C : LogCodec} i ts entries replies k (t : PersistTask S) :
  matched i ts entries replies -> ts !! k = Some t ->
  exists entry b, entry ∈ entries /\ le_index entry = i + Z.of_nat k /\ le_term entry = pt_term t /\
    decryptEntry entry = Some [(b, i + Z.of_nat k)] /\
    (forall c (st : RaftEventStore S), fromBundle b c st = Done (rebuilt <$> pt_events t) c st) /\
    replies !! k = Some (mkReplyTask (i + Z.of_nat k) (pt_term t) (pt_version t) false (pt_cmd t) (pt_resp t)).
Proof.
  intros Hm. revert k. induction Hm as [|i t' ts entry es rs b Hi Ht Hn Hd Hf _ IH]; intros k Hk; [done|].
  destruct k as [|k]; cbn in Hk.
  - simplify_eq. rewrite Z.add_0_r. exists entry, b. split_and!; [by left|done..].
  - destruct (IH k Hk) as (entry' & b' & Hin & Hi' & Ht' & Hd' & Hf' & Hr').
    replace (i + Z.of_nat (Datatypes.S k)) with (i + 1 + Z.of_nat k) by lia. exists entry', b'. split_and!; [by right|done..].
Qed.

Lemma fromBundle_mapM_inv {S} b es c (s : S) : fromBundle b c s = Done es c s -> mapM ofProtoEvent b = Some es.
Proof.
  revert es. induction b as [|p b IH]; intros es H; cbn [fromBundle] in H; [by run_in H; simplify_eq|].
  cbn. destruct (ofProtoEvent p) as [e|]; [|discriminate]. apply bind_inv in H as (es' & c1 & s1 & H1 & H).
  run_in H. simplify_eq. by rewrite (IH es' H1).
Qed.

Lemma ops_rebuilt es : (rebuilt <$> es) ≫= ops_of_event = es ≫= ops_of_event.
Proof. induction es as [|e es IH]; [done|]. cbn. rewrite IH. by destruct e. Qed.

Lemma apply_ops_untouched ops : forall m key, key ∉ op_key <$> ops -> apply_ops m ops !! key = m !! key.
Proof.
  induction ops as [|op ops IH]; intros m key Hn; [done|]. cbn in Hn. apply not_elem_of_cons in Hn as [Hne Hn].
  unfold apply_ops in *. cbn [foldl]. rewrite IH by done. destruct op; cbn in *; [by apply lookup_insert_ne|by apply lookup_delete_ne].
Qed.

Section Replication.
Context {P : ProtoCodec} {PL : ProtoCodecLaws P} {R : RocksDB} {RL : RocksDBLaws R} {LOOKUP : WSLookup}.
Context {C : LogCodec} {CL : LogCodecLaws C}.

(** The committed log; its first entry has index 1. *)
Variable log : list LogEntry.
Hypothesis Hlog : log_ok log.

Definition committed (index : Z) : option LogEntry := log !! Z.to_nat (index - 1).

(** The operations of the entries after [index], up to [last]. *)
Definition ops_between (index last : Z) : list RowOp :=
  match decryptEntries (drop (Z.to_nat index) (take (Z.to_nat last) log)) with
  | Some bs => bs.*1 ≫= ops_of_bundle
  | None => []
  end.

(** The replay goes through every committed entry. *)
Lemma replay_through index last entry b :
  0 < index <= last -> committed index = Some entry -> decryptEntry entry = Some [(b, index)] ->
  replay log last = apply_ops (apply_ops (replay log (index - 1)) (ops_of_bundle b)) (ops_between index last).
Proof.
  intros Hi He Hd. unfold replay, ops_between.
  destruct (ok_bundles _ Hlog) as (bs & Hbs & _). rewrite <- (take_drop (Z.to_nat last) log) in Hbs.
  apply decryptEntries_app_inv in Hbs as (b1 & b2 & Hb1 & _ & _). rewrite Hb1.
  assert (take (Z.to_nat last) log !! Z.to_nat (index - 1) = Some entry) as He' by (by rewrite lookup_take_lt by lia).
  pose proof (take_drop_middle _ _ _ He') as Hsplit. rewrite <- Hsplit in Hb1.
  apply decryptEntries_app_inv in Hb1 as (x & y & Hx & Hy & ->). cbn in Hy. rewrite Hd in Hy. cbn in Hy.
  replace (Datatypes.S (Z.to_nat (index - 1))) with (Z.to_nat index) in Hy by lia.
  destruct (decryptEntries (drop _ _)) as [z|]; [|done]. cbn in Hy. simplify_eq.
  rewrite take_take, Nat.min_l in Hx by lia. rewrite Hx.
  by rewrite fmap_app, bind_app, apply_ops_app, fmap_cons, bind_cons, apply_ops_app.
Qed.

(** What a node holds of a committed entry, once its milestone has passed it. *)
Lemma held_entry {S} s (l : EventApplyLoop RocksDBKVStore S) index entry b es :
  rep s (mkDisk ∅ [] None) -> rtc (life log) (new_ApplyLoop s) l ->
  0 < index -> committed index = Some entry -> decryptEntry entry = Some [(b, index)] -> mapM ofProtoEvent b = Some es ->
  exists d, rep (mKVStore l) d /\
    (index <= default 0 (milestone d) ->
     rows d = apply_ops (apply_ops (replay log (index - 1)) (es ≫= ops_of_event)) (ops_between index (default 0 (milestone d)))).
Proof.
  intros Hrep Hlife Hi He Hd Hes.
  destruct (alive_rtc log Hlog _ _ _ Hlife (new_alive log s Hrep)) as (n & _ & Hl).
  destruct (alive_disk log Hlog _ _ Hl) as (d & Hr & <- & Hrows & _).
  exists d. split; [done|]. intros Hm. rewrite Hrows, (replay_through index _ entry b) by done. unfold ops_of_bundle at 1. by rewrite Hes.
Qed.

Context {S : Type}.
Variable byteSize : LogEntry -> Z.
Hypothesis fits : forall e, byteSize e <= kMaxPayLoadSizeInBytes.

(** What raft promises for the entries of a leader: an entry of the log with index and term of one of them is it. *)
Definition own_entries (st : RaftEventStore S) : Prop :=
  forall e e', e ∈ sent st ++ mBatchReqs st -> committed (le_index e) = Some e' -> le_term e' = le_term e -> e' = e.

(** A task of the persist queue, from its round to the databases. *)
Lemma acknowledged_task due st c k task :
  Forall (fun t => Forall replicable (pt_events t)) (mPersistQueue st) -> 0 <= mLastSentLogIndex st ->
  mLastSentLogIndex st + Z.of_nat (length (mPersistQueue st)) < 2 ^ 64 -> mPersistQueue st !! k = Some task ->
  exists st' t, persistRound byteSize due (length (mPersistQueue st)) c st = Done tt c st' /\
    t ∈ pushed st' /\ rt_cmd t = pt_cmd task /\ rt_version t = pt_version task /\
    forall vs l r, own_entries st' -> rtc (step (RaftSafe committed)) (mkReplyLoop vs [] [] []) l -> (t, RC_OK, r) ∈ replied l ->
    forall T s (l' : EventApplyLoop RocksDBKVStore T), rep s (mkDisk ∅ [] None) -> rtc (life log) (new_ApplyLoop s) l' ->
    exists d, rep (mKVStore l') d /\
      (rt_index t <= default 0 (milestone d) ->
       rows d = apply_ops (apply_ops (replay log (rt_index t - 1)) (pt_events task ≫= ops_of_event)) (ops_between (rt_index t) (default 0 (milestone d)))).
Proof.
  intros Hq H0 Hmax Hk. destruct (persistRound_run byteSize fits due st c Hq H0 Hmax) as (es & rs & st' & Hrun & Hm & Hsent & Hpush & _).
  destruct (matched_lookup _ _ _ _ _ _ Hm Hk) as (entry & b & Hin & Hi & Ht & Hd & Hf & Hr).
  eexists st', _. split; [exact Hrun|]. split; [rewrite Hpush; apply elem_of_app; right; by eapply list_elem_of_lookup_2|]. do 2 (split; [done|]).
  intros vs l r Hown Hsteps Hrep T s l' Hs Hl'. cbn [rt_index].
  pose proof (steps_backed committed _ _ Hsteps ltac:(constructor)) as Hb. rewrite Forall_forall in Hb.
  specialize (Hb _ Hrep). cbn in Hb. destruct (Hb ltac:(lia) eq_refl) as (e' & He' & Ht').
  assert (e' = entry) as ->.
  { apply Hown; [|by rewrite Hi|by rewrite Ht', Ht]. rewrite Hsent. apply elem_of_app. right. apply elem_of_app. by right. }
  destruct (held_entry s l' (mLastSentLogIndex st + 1 + Z.of_nat k) entry b _ Hs Hl' ltac:(lia) He' Hd (fromBundle_mapM_inv _ _ c st (Hf c st))) as (d & Hd1 & Hd2).
  exists d. split; [done|]. intros Hle. rewrite Hd2 by done. by rewrite ops_rebuilt.
Qed.

End Replication.

Section Put.
Context {P : ProtoCodec} {PL : ProtoCodecLaws P} {R : RocksDB} {RL : RocksDBLaws R} {LOOKUP : WSLookup}.
Context {C : LogCodec} {CL : LogCodecLaws C} {D : Type} `{!KVStore D} {IPS : NodeIps}.
Variable log : list LogEntry.
Hypothesis Hlog : log_ok log.
Variable byteSize : LogEntry -> Z.
Hypothesis fits : forall e, byteSize e <= kMaxPayLoadSizeInBytes.
Implicit Types (e : Engine (InMemoryKVStore D)) (st : RaftEventStore (InMemoryKVStore D)).


End Put.

(** ** Stale reads *)

Section StaleRead.
Context {P : ProtoCodec} {PL : ProtoCodecLaws P} {R : RocksDB} {RL : RocksDBLaws R} {LOOKUP : WSLookup}.
Context {C : LogCodec} {CL : LogCodecLaws C} {IPS : NodeIps}.
Variable log : list LogEntry.
Hypothesis Hlog : log_ok log.
Implicit Types (e : Engine (InMemoryKVStore (ReadOnlyKVStore RocksDBKVStore))) (req : GetRequest).

(** What the first [n] entries of the log answer to a get at time [now]. *)
Definition replay_answer (n now : Z) (key : string) : ResponseCode * option (string * VersionType) :=
  match replay log n !! key with
  | Some row => if row_expired now row then (RC_KEY_NOT_EXIST, None) else (RC_OK, Some (row.2, m_version row.1))
  | None => (RC_KEY_NOT_EXIST, None)
  end.

(** What a response says of the key. *)
Definition answer_of (r : GetResponse) : ResponseCode * option (string * VersionType) :=
  let x := gp_result r in
  (rr_code x, if bool_decide (rr_code x = RC_OK) then Some (rr_value x, rr_version x) else None).

(** Stale gets on database [s] are answered by the first [n] entries, whatever the node has in memory and
    whoever leads, and change nothing on the node. *)
Definition answers_as_of (n : Z) (s : RocksDBKVStore) : Prop :=
  forall req fuel env pre c e, gq_allowStale req = true -> behind (mDelegate (mKVStorePtr e)) = s ->
  exists c' version r,
    process false fuel env pre (KVGetCommand.command req) c e =
      Done tt c' (answered (mKVStorePtr e) (ReplyAsync 0 (mCurTerm e) version (KVGetCommand.command req) (GetResp r) true) e) /\
    answer_of r = replay_answer n (u32 (c O)) (re_key (gq_entry req)).

Lemma answers_rep n s d : rep s d -> rows d = replay log n -> answers_as_of n s.
Proof.
  intros Hd Hrows req fuel env pre c e Hs <-. destruct e as [[b [[s]]] vs term last fx]. unfold behind in *. cbn in Hd.
  unfold replay_answer. rewrite <- Hrows. set (key := re_key (gq_entry req)).
  assert (forall c st out c1, kvReadKV key fresh_out c s = Done (st, out) c1 s -> kvReadKV key fresh_out c (wrap s) = Done (st, out) c1 (wrap s)) as Hro.
  { intros c0 st out c1 H. rewrite ro_readKV. unfold zoom. rewrite behind_wrap, H. done. }
  pose proof (readKV_rep key fresh_out c s d Hd) as Hr. pose proof (fun c => readMeta_rep key empty_meta c s d Hd) as Hm.
  destruct (rows d !! key) as [row|].
  - assert (row_expired (u32 (c O)) row = false -> exists c1, kvReadKV key fresh_out c s = Done (Status.ok, mkOut row.2 (outTTL fresh_out) (m_version row.1)) c1 s) as Hlive.
    { unfold row_expired. intros Hx%bool_decide_eq_false. rewrite Hr. repeat case_bool_decide; eauto; tauto. }
    assert (row_expired (u32 (c O)) row = true -> exists c1, kvReadKV key fresh_out c s = Done (Status.notFound (key +:+ " not found"), fresh_out) c1 s) as Hdead.
    { unfold row_expired. intros Hx%bool_decide_eq_true. rewrite Hr. repeat case_bool_decide; eauto; tauto. }
    destruct (row_expired (u32 (c O)) row).
    + destruct (Hdead eq_refl) as (c1 & Hrun%Hro). edestruct (stale_get_miss req fuel env pre c (mkEngine (mkInMemory b (wrap s)) vs term last fx)) as (r & Hc & Hp);
        [done|exact Hrun|done|]. eexists _, _, r. split; [exact Hp|]. unfold answer_of. by rewrite Hc.
    + destruct (Hlive eq_refl) as (c1 & Hrun%Hro). edestruct (stale_get_found req fuel env pre c (mkEngine (mkInMemory b (wrap s)) vs term last fx)) as (r & Hc & Hv & Hx & Hp);
        [done|exact Hrun| |].
      * intros _. eexists _, _. rewrite ro_readMeta. unfold zoom. by rewrite behind_wrap, Hm.
      * eexists _, _, r. split; [exact Hp|]. unfold answer_of. by rewrite Hc, Hv, Hx.
  - edestruct (stale_get_miss req fuel env pre c (mkEngine (mkInMemory b (wrap s)) vs term last fx)) as (r & Hc & Hp);
      [done|exact (Hro _ _ _ _ Hr)|done|]. eexists _, _, r. split; [exact Hp|]. unfold answer_of. by rewrite Hc.
Qed.

(** C11: stale reads are consistent and never go back in time. On a node that started with an empty database and
    has lived through any rounds of its apply loop and any crashes, every get that allows stale values
    completes without asking who leads and is answered as the first [n] entries of the committed log answer it, the same [n]
    for all keys; what a leader holds in memory and has not committed is never shown. After any further rounds and
    crashes of the node the gets are answered by [n'] entries, and [n'] is not smaller than [n]. *)
Theorem stale_reads_are_monotonic {T} s (l l' : EventApplyLoop RocksDBKVStore T) :
  rep s (mkDisk ∅ [] None) -> rtc (life log) (new_ApplyLoop s) l -> rtc (life log) l l' ->
  exists n n', 0 <= n <= n' /\ n' <= Z.of_nat (length log) /\
    answers_as_of n (mKVStore l) /\ answers_as_of n' (mKVStore l').
Proof.
  intros Hrep Hl Hl'. destruct (alive_rtc log Hlog _ _ _ Hl (new_alive log s Hrep)) as (n & _ & Hn).
  destruct (alive_rtc log Hlog _ _ _ Hl' Hn) as (n' & Hle & Hn').
  destruct (alive_disk log Hlog _ _ Hn) as (d & Hd & _ & Hrows & Hb). destruct (alive_disk log Hlog _ _ Hn') as (d' & Hd' & _ & Hrows' & Hb').
  exists n, n'. split_and!; [lia..| |]; eauto using answers_rep.
Qed.

End StaleRead.

(** ** A stale read that misses *)

Section StaleMiss.
Context {D : Type} `{!KVStore D} {IPS : NodeIps}.
Implicit Types (e : Engine (InMemoryKVStore D)).

(** A stale read that misses releases the reads of values that are not committed. On a leader a put is executed, a get of
    its key, and a stale get of a key that is not there. Nothing of the put needs to have reached raft. The answer of
    the get waits for the version of the put. The answer of the stale get carries the largest version
    handed out, does not wait for it, and raises the committed version to it, so that the get is then answered with the value
    of the put, whatever raft has committed and whatever becomes of the put. *)
Theorem stale_miss_releases_reads pr gr sr fuel env pre c e :
  re_key (gq_entry gr) = we_key (pq_entry pr) -> plain_get gr -> we_enableTTL (pq_entry pr) = false ->
  0 < next_version e < 2 ^ 64 - 1 -> mMaxVersion (mVersionStorePtr e) < next_version e -> gq_allowStale sr = true ->
  (forall c, exists text c', kvReadKV (re_key (gq_entry sr)) fresh_out c (mDelegate (mKVStorePtr e)) =
     Done (Status.notFound text, fresh_out) c' (mDelegate (mKVStorePtr e))) ->
  exists c' e' r1 w rg rs,
    let v := next_version e in
    let g := mkReplyTask (S := InMemoryKVStore D) 0 (mCurTerm e) v false (KVGetCommand.command gr) (GetResp rg) in
    let s := mkReplyTask (S := InMemoryKVStore D) 0 (mCurTerm e) v true (KVGetCommand.command sr) (GetResp rs) in
    (session [KVPutCommand.command pr; KVGetCommand.command gr] ;;; process false fuel env pre (KVGetCommand.command sr)) c e = Done tt c' e' /\
    effects e' = effects e ++
      [PersistAsync (mCurTerm e) v (KVPutCommand.command pr) (PutResp r1) [EvWrite w];
       ReplyAsync 0 (mCurTerm e) v (KVGetCommand.command gr) (GetResp rg) false;
       ReplyAsync 0 (mCurTerm e) v (KVGetCommand.command sr) (GetResp rs) true] /\
    forall ws ts out fuel n raft running hint c, let l := mkReplyLoop (mVersionStorePtr e') ws ts out in
      (exists l0, replyTask fuel n raft running hint g c l = Done tt c l0 /\ replied l0 = out) /\
      exists l1 l2 ag as_, replyTask fuel n raft running hint s c l = Done tt c l1 /\
        replyTask fuel n raft running hint g c l1 = Done tt c l2 /\
        replied l2 = out ++ [(s, RC_OK, GetResp as_); (g, RC_OK, GetResp ag)] /\
        rr_value (gp_result ag) = we_value (pq_entry pr) /\ rr_version (gp_result ag) = v.
Proof.
  intros Hk Hg Ht Hv Hmax Hs Hmiss. destruct (put_get_run pr gr c e Hk Hg Ht Hv) as (c1 & e1 & r1 & rg & w & Hrun & Heff & Hvs & Hterm & Hd & _ & _ & _ & Hcode & Hval & Hver).
  destruct (Hmiss c1) as (text & c2 & Hread). rewrite <- Hd in Hread.
  destruct (stale_get_miss sr fuel env pre c1 e1 _ _ _ _ Hs Hread eq_refl) as (rs & _ & Hstale).
  rewrite Hvs, Hterm in Hstale. unfold getMaxAllocatedVersion in Hstale. cbn [mNextVersion] in Hstale.
  rewrite Z.add_simpl_r, u64_small, Z.max_r in Hstale by (unfold is_u64, kInvalidVersion; lia).
  eexists c2, _, r1, w, rg, rs. cbn zeta. split; [by rewrite (bind_Done _ _ _ _ _ _ _ Hrun)|]. split; [cbn; by rewrite Heff, <- app_assoc|].
  intros ws ts out fuel' n raft running hint c'. cbn [answered mVersionStorePtr]. rewrite Hvs. set (l := mkReplyLoop _ ws ts out).
  split; [by apply (read_waits fuel' n raft running hint _ c' l)|].
  assert (forall r code, code = RC_OK -> exists a, KVGetCommand.fillResponseAndReply code "Success" hint r = Some a /\ gp_result a = gp_result r) as Hfill.
  { intros r code ->. unfold KVGetCommand.fillResponseAndReply, fill_header. destruct hint; cbn; by eexists. }
  destruct (Hfill rg _ eq_refl) as (ag & Hag & Eag). destruct (Hfill rs _ eq_refl) as (as_ & Has & _).
  destruct (read_released fuel' n raft running hint (mkReplyTask 0 (mCurTerm e) (next_version e) true (KVGetCommand.command sr) (GetResp rs))
    (mkReplyTask 0 (mCurTerm e) (next_version e) false (KVGetCommand.command gr) (GetResp rg)) RC_OK "Success" (GetResp as_) (GetResp ag) c' l) as (l1 & l2 & H1 & H2 & H3).
  - cbn. by rewrite Has.
  - done.
  - done.
  - cbn. by rewrite Hag.
  - exists l1, l2, ag, as_. split_and!; [by rewrite read_task_run|done|done|by rewrite Eag|by rewrite Eag].
Qed.

End StaleMiss.
