(* ===== verification/Checkpoint.v ===== *)
(** * Checkpoints

    [RocksDBKVStore::createCheckpoint] (kv-engine/store/RocksDBKVStore.cpp) and
    [EventApplyLoop::takeSnapshotAndPersist] (kv-engine/execution/EventApplyLoop.h): a follower saves its database in a
    directory named after the milestone in it, from which a node can be started. *)

From S2P Require Import Prelude Status Proto KVStore Event CommandProcessor RaftEventStore RocksDBKVStore RocksDBSpec EventApplyLoop ApplyLoopSpec.

(** [rocksdb::Checkpoint], the opening of a database in a directory, and [rename]. [getForeign owner db key] is what
    [Get] finds in [db] with the handle of the default column family of [owner]. *)
Class CheckpointFiles (R : RocksDB) (F : Type) := {
  ckCreate : DB -> string -> F -> option F;
  ckOpen : F -> string -> list string -> option DB;
  ckRename : string -> string -> F -> option F;
  getForeign : DB -> DB -> string -> GetStatus;
}.
#[global] Hint Mode CheckpointFiles ! - : typeclass_instances.

(** A checkpoint holds what the database held; a renamed directory what it held under its old name. *)
Class CheckpointLaws (R : RocksDB) (F : Type) `{!CheckpointFiles R F} := {
  ckCreate_law db path (f f' : F) names : ckCreate db path f = Some f' ->
    exists db', ckOpen f' path names = Some db' /\ forall cf key, dbGet db' cf key = dbGet db cf key;
  ckRename_law path path' (f f' : F) names : ckRename path path' f = Some f' -> ckOpen f' path' names = ckOpen f path names;
}.

Section Checkpoint.
Context {P : ProtoCodec} {R : RocksDB} {LOOKUP : WSLookup} {F : Type} `{!CheckpointFiles R F}.

(** [tv_nsec] is the part of the time below seconds; the times taken for the log are left out. The milestone is read
    with [findCFHandle], a handle of the database that is running, and not of the one opened from the
    checkpoint. *)
Definition createCheckpoint (tv_nsec : Z) (baseDir : string) : M (RocksDBKVStore * F) string :=
  let* ts1InNano := currentTimeInNanos tv_nsec in
  let tmpPath := baseDir +:+ "/" +:+ to_string ts1InNano in
  let* (s, f) := get in
  match mRocksDB s with
  | None => stop Undefined
  | Some db =>
      match ckCreate db tmpPath f with
      | None => stop AssertFail
      | Some f1 =>
          match ckOpen f1 tmpPath (kCFMetaDefault :: mColumnFamilyNames s) with
          | None => stop AssertFail
          | Some rocksDB =>
              zoom fst (fun s x => (s, x.2)) (findCFHandle kCFMetaDefault None) ;;;
              let* lastAppliedIndex :=
                match getForeign db rocksDB kPersistedMilestone with
                | Found value => match stoull value with Some n => ret n | None => stop Uncaught end
                | NotFound _ => ret 0
                | Failed _ => stop AssertFail
                end in
              let checkpointPath := baseDir +:+ "/" +:+ to_string lastAppliedIndex +:+ "." +:+ to_string ts1InNano +:+ ".checkpoint" in
              match ckRename tmpPath checkpointPath f1 with
              | None => stop AssertFail
              | Some f2 => put (s, f2) ;;; ret checkpointPath
              end
          end
      end
  end.

(** [takeSnapshotAndPersist]; [leader] is [mRaftEventStore->isLeader()]. *)
Definition takeSnapshotAndPersist (leader : bool) (tv_nsec : Z) (snapshotDir : string) : M (RocksDBKVStore * F) (bool * string) :=
  if leader then ret (false, "leader no longer takes snapshot")
  else
    let* checkpointPath := createCheckpoint tv_nsec snapshotDir in
    ret (true, checkpointPath).

(** The store a node opens on a checkpoint, in place of its own database. *)
Definition open_checkpoint (s : RocksDBKVStore) (db : DB) : RocksDBKVStore :=
  mkRocks _ (Some db) (mWalDir s) (mDBDir s) (mColumnFamilyNames s) (mColumnFamilyHandles s) [] no_observers.

End Checkpoint.

Section Restore.
Context {P : ProtoCodec} {PL : ProtoCodecLaws P} {R : RocksDB} {RL : RocksDBLaws R} {LOOKUP : WSLookup}.
Context {F : Type} `{!CheckpointFiles R F} `{!CheckpointLaws R F} {C : LogCodec} {S : Type}.
Variable log : list LogEntry.
Hypothesis Hlog : log_ok log.

(** Reading the milestone of a checkpoint with a handle of the running database finds what the checkpoint holds. *)
Definition reads_checkpoint : Prop := forall db db' key, getForeign db db' key = dbGet db' kCFMetaDefault key.

(** A database with the same contents represents the same rows. *)
Lemma rep_copy s d db db' : rep s d -> mRocksDB s = Some db -> (forall cf key, dbGet db' cf key = dbGet db cf key) ->
  rep (open_checkpoint s db') (mkDisk (rows d) [] (milestone d)).
Proof.
  intros (Hwf & _ & _ & db0 & Hdb & Hr & Hm) Hs Heq. assert (db0 = db) as -> by congruence.
  split; [done|]. split; [done|]. split; [constructor|]. exists db'. split; [done|]. split.
  - intros key. specialize (Hr key). cbn. destruct (rows d !! key); by rewrite Heq.
  - unfold has_milestone in *. cbn. destruct (milestone d); by rewrite Heq.
Qed.

(** The file system has room: checkpoints are created, and a directory with a database can be renamed. *)
Definition files_work : Prop :=
  (forall db path (f : F), is_Some (ckCreate db path f)) /\ forall path path' (f : F) names, is_Some (ckOpen f path names) -> is_Some (ckRename path path' f).


End Restore.
