(* ===== verification/NetAdmin.v ===== *)
(** * The administration server

    [network::NetAdminServer] (kv-engine/network/NetAdminServer.h): snapshots, truncation of the log, offsets of the
    members and the applied index, for the operators of a node; the provider behind it
    ([NetAdminServiceProvider.h]), and the engine as a provider ([KVEngineImpl.cpp], [EventApplyLoop.h]). *)

From S2P Require Import Prelude Status Proto KVStore RocksDBKVStore Checkpoint.

(** [gringofts::raft::MemberOffsetInfo] *)
Record OffsetInfo := mkOffset { mId : Z; mAddress : string; mOffset : Z }.

(** [NetAdminServiceProvider], without [getLatestSnapshotOffset], which the server does not call. *)
Class NetAdminServiceProvider (P : Type) := {
  pTakeSnapshotAndPersist : M P (bool * string);
  pTruncatePrefix : Z -> M P unit;
  pLastApplied : M P Z;
  pGetMemberOffsets : M P (Status.t * OffsetInfo * list OffsetInfo);
  pGetLeaderHint : M P (option Z);
  pIsLeader : M P bool;
}.
#[global] Hint Mode NetAdminServiceProvider ! : typeclass_instances.

(** [CreateSnapshot_ResponseType] and [TruncatePrefix_ResponseType] *)
Inductive ResponseType := R_SUCCESS | R_FAILED | R_PROCESSING.

#[global] Instance ResponseType_eq_dec : EqDecision ResponseType.
Proof. solve_decision. Defined.

Record NetAdminServer (P : Type) := mkNetAdmin {
  mServer : bool;
  mIsShutdown : bool;
  mSnapshotIsRunning : bool;
  mTruncatePrefixIsRunning : bool;
  mSnapshotTakenCounter : Z;
  mSnapshotFailedCounter : Z;
  mPrefixTruncatedCounter : Z;
  mServiceProvider : P;
}.
Arguments mkNetAdmin {P} _ _ _ _ _ _ _ _.
Arguments mServer {P} _.
Arguments mIsShutdown {P} _.
Arguments mSnapshotIsRunning {P} _.
Arguments mTruncatePrefixIsRunning {P} _.
Arguments mSnapshotTakenCounter {P} _.
Arguments mSnapshotFailedCounter {P} _.
Arguments mPrefixTruncatedCounter {P} _.
Arguments mServiceProvider {P} _.

Section NetAdmin.
Context {P : Type} `{!NetAdminServiceProvider P}.

Definition new_NetAdmin (p : P) : NetAdminServer P := mkNetAdmin false false false false 0 0 0 p.

Definition set_provider (p : P) (s : NetAdminServer P) : NetAdminServer P :=
  mkNetAdmin (mServer s) (mIsShutdown s) (mSnapshotIsRunning s) (mTruncatePrefixIsRunning s) (mSnapshotTakenCounter s)
             (mSnapshotFailedCounter s) (mPrefixTruncatedCounter s) p.
Definition set_snapshot_running (b : bool) (s : NetAdminServer P) : NetAdminServer P :=
  mkNetAdmin (mServer s) (mIsShutdown s) b (mTruncatePrefixIsRunning s) (mSnapshotTakenCounter s)
             (mSnapshotFailedCounter s) (mPrefixTruncatedCounter s) (mServiceProvider s).
Definition set_truncate_running (b : bool) (s : NetAdminServer P) : NetAdminServer P :=
  mkNetAdmin (mServer s) (mIsShutdown s) (mSnapshotIsRunning s) b (mSnapshotTakenCounter s)
             (mSnapshotFailedCounter s) (mPrefixTruncatedCounter s) (mServiceProvider s).
Definition count_snapshot (ok : bool) (s : NetAdminServer P) : NetAdminServer P :=
  mkNetAdmin (mServer s) (mIsShutdown s) (mSnapshotIsRunning s) (mTruncatePrefixIsRunning s)
             (mSnapshotTakenCounter s + (if ok then 1 else 0)) (mSnapshotFailedCounter s + (if ok then 0 else 1))
             (mPrefixTruncatedCounter s) (mServiceProvider s).
Definition count_truncation (s : NetAdminServer P) : NetAdminServer P :=
  mkNetAdmin (mServer s) (mIsShutdown s) (mSnapshotIsRunning s) (mTruncatePrefixIsRunning s) (mSnapshotTakenCounter s)
             (mSnapshotFailedCounter s) (mPrefixTruncatedCounter s + 1) (mServiceProvider s).
Definition in_provider {A} (m : M P A) : M (NetAdminServer P) A := zoom mServiceProvider set_provider m.

(** [mSnapshotIsRunning.compare_exchange_strong(expected = false, true)]: whether the flag was exchanged. *)
Definition begin_snapshot : M (NetAdminServer P) bool :=
  let* s := get in
  if mSnapshotIsRunning s then ret false else put (set_snapshot_running true s) ;;; ret true.

(** The rest of [CreateSnapshot], once the flag was exchanged. *)
Definition take_snapshot : M (NetAdminServer P) (ResponseType * string) :=
  let* (succeed, snapshotPath) := in_provider pTakeSnapshotAndPersist in
  modify (count_snapshot succeed) ;;;
  modify (set_snapshot_running false) ;;;
  ret (if succeed : bool then R_SUCCESS else R_FAILED, snapshotPath).

Definition CreateSnapshot : M (NetAdminServer P) (ResponseType * string) :=
  let* ret_ := begin_snapshot in
  if (ret_ : bool) then take_snapshot else ret (R_PROCESSING, "").

Definition begin_truncate : M (NetAdminServer P) bool :=
  let* s := get in
  if mTruncatePrefixIsRunning s then ret false else put (set_truncate_running true s) ;;; ret true.

Definition truncate (firstIndexKept : Z) : M (NetAdminServer P) (ResponseType * string) :=
  in_provider (pTruncatePrefix firstIndexKept) ;;;
  modify count_truncation ;;;
  modify (set_truncate_running false) ;;;
  ret (R_SUCCESS, "OK").

Definition TruncatePrefix (firstIndexKept : Z) : M (NetAdminServer P) (ResponseType * string) :=
  let* ret_ := begin_truncate in
  if (ret_ : bool) then truncate firstIndexKept else ret (R_PROCESSING, "").

(** The answer: code, message and leader hint of the header, and the offsets. A leader hint that is empty is
    dereferenced all the same. *)
Definition GetMemberOffsets : M (NetAdminServer P) (ResponseCode * string * string * option (OffsetInfo * list OffsetInfo)) :=
  let* (s, leader, members) := in_provider pGetMemberOffsets in
  if Status.isNotLeader s then
    let* leaderId := in_provider pGetLeaderHint in
    match leaderId with
    | None => stop Undefined
    | Some leaderId => ret (RC_NOT_LEADER, "Not Leader", to_string leaderId, None)
    end
  else if negb (Status.isOK s) then ret (RC_GENERAL_ERROR, "General Error: Failed to get member offsets", "", None)
  else ret (RC_OK, "", "", Some (leader, members)).

(** The code and message of the header, whether the node leads, and the index. *)
Definition GetAppliedIndex : M (NetAdminServer P) (Z * string * bool * Z) :=
  let* first := in_provider pLastApplied in
  if bool_decide (first = 0) then ret (404, "no log applied", false, 0)
  else
    let* leader := in_provider pIsLeader in
    let* index := in_provider pLastApplied in
    ret (200, "", leader, index).

(** [run] and [shutdown]; [mServer] is whether the server was started. *)
Definition run_admin (s : NetAdminServer P) : NetAdminServer P :=
  if mIsShutdown s then s
  else mkNetAdmin true (mIsShutdown s) (mSnapshotIsRunning s) (mTruncatePrefixIsRunning s) (mSnapshotTakenCounter s)
                  (mSnapshotFailedCounter s) (mPrefixTruncatedCounter s) (mServiceProvider s).

Definition shutdown_admin (s : NetAdminServer P) : NetAdminServer P :=
  if mIsShutdown s then s
  else mkNetAdmin (mServer s) true (mSnapshotIsRunning s) (mTruncatePrefixIsRunning s) (mSnapshotTakenCounter s)
                  (mSnapshotFailedCounter s) (mPrefixTruncatedCounter s) (mServiceProvider s).

(** ** Calls at the same time

    The server runs calls on several threads. [taking] are the calls of [CreateSnapshot] that have exchanged the flag
    and have not returned, [answers] what the calls have answered. *)

Record Calls := mkCalls { server : NetAdminServer P; taking : nat; answers : list ResponseType }.

Inductive call_step : Calls -> Calls -> Prop :=
| call_begin x c c' b s : begin_snapshot c (server x) = Done b c' s ->
    call_step x (if (b : bool) then mkCalls s (S (taking x)) (answers x) else mkCalls s (taking x) (answers x ++ [R_PROCESSING]))
| call_end x c c' r path s n : taking x = S n -> take_snapshot c (server x) = Done (r, path) c' s ->
    call_step x (mkCalls s n (answers x ++ [r])).

(** Snapshots exclude each other: at most one call takes a snapshot, exactly while the flag is set; the
    counters count the snapshots taken and refused. *)
Theorem one_snapshot_at_a_time p x :
  rtc call_step (mkCalls (new_NetAdmin p) O []) x ->
  taking x = (if mSnapshotIsRunning (server x) then 1%nat else O) /\
  mSnapshotTakenCounter (server x) = Z.of_nat (length (filter (fun r => r = R_SUCCESS) (answers x))) /\
  mSnapshotFailedCounter (server x) = Z.of_nat (length (filter (fun r => r = R_FAILED) (answers x))).
Proof.
  intros H. remember (mkCalls (new_NetAdmin p) O []) as x0 eqn:Hx0.
  assert (taking x0 = (if mSnapshotIsRunning (server x0) then 1%nat else O) /\
    mSnapshotTakenCounter (server x0) = Z.of_nat (length (filter (fun r => r = R_SUCCESS) (answers x0))) /\
    mSnapshotFailedCounter (server x0) = Z.of_nat (length (filter (fun r => r = R_FAILED) (answers x0)))) as Hi by (by subst).
  clear Hx0. revert Hi. induction H as [|x y z Hst _ IH]; [done|]. intros (Ht & Hs & Hf). apply IH. clear IH.
  destruct Hst as [x c c' b s Hb|x c c' r path s n Hn Hb].
  - unfold begin_snapshot in Hb. run_in Hb. destruct (mSnapshotIsRunning (server x)) eqn:Hr; run_in Hb; injection Hb as <- _ <-; cbn.
    + rewrite Hr, !filter_app, !length_app. cbn. rewrite !Nat.add_0_r. done.
    + by rewrite Ht.
  - unfold take_snapshot in Hb. apply bind_inv in Hb as ([succeed snapshotPath] & c1 & s1 & Hp & Hb). run_in Hb. injection Hb as <- _ _ <-. cbn.
    assert (mSnapshotTakenCounter s1 = mSnapshotTakenCounter (server x) /\ mSnapshotFailedCounter s1 = mSnapshotFailedCounter (server x)) as [-> ->].
    { unfold in_provider, zoom in Hp. destruct (pTakeSnapshotAndPersist c (mServiceProvider (server x))); [|done]. by injection Hp as _ _ <-. }
    rewrite Hs, Hf, !filter_app, !length_app. rewrite Hn in Ht. split; [destruct (mSnapshotIsRunning (server x)); lia|].
    destruct succeed; cbn; repeat case_decide; try done; cbn; lia.
Qed.

(** A node that follows no known leader cannot say so: asked for the offsets it dereferences the empty hint. *)
Theorem unknown_leader_is_undefined c s c1 c2 p1 p2 text leader members :
  pGetMemberOffsets c (mServiceProvider s) = Done (Status.notLeader text, leader, members) c1 p1 ->
  pGetLeaderHint c1 p1 = Done None c2 p2 -> GetMemberOffsets c s = Stop Undefined.
Proof. intros H1 H2. unfold GetMemberOffsets, in_provider, zoom, bind. rewrite H1. change (Status.isNotLeader (Status.notLeader text)) with true. cbn [mServiceProvider set_provider]. by rewrite H2. Qed.

End NetAdmin.

(** ** The engine behind the server *)

(** What raft tells and does. *)
Class RaftAdmin (L : Type) := {
  raIsLeader : L -> bool;
  raLeaderHint : L -> option Z;
  raTruncatePrefix : Z -> L -> L;
  raMemberOffsets : L -> Z * list OffsetInfo;
}.
#[global] Hint Mode RaftAdmin ! : typeclass_instances.

Section Engine.
Context {PC : ProtoCodec} {R : RocksDB} {LOOKUP : WSLookup} {F L : Type} `{!CheckpointFiles R F} `{!RaftAdmin L}.
Context (tv_nsec : Z) (mSnapshotDir : string) (selfMemId : Z) (selfMemAddress : string).

(** The database with the file system, raft, and [mLastMilestone] of the apply loop. *)
Record EngineParts := mkParts { ep_store : RocksDBKVStore * F; ep_raft : L; ep_lastMilestone : Z }.

Definition checkLeaderShip : M EngineParts bool := let* e := get in ret (raIsLeader (ep_raft e)).

Definition engineTakeSnapshot : M EngineParts (bool * string) :=
  let* leader := checkLeaderShip in
  zoom ep_store (fun s e => mkParts s (ep_raft e) (ep_lastMilestone e)) (takeSnapshotAndPersist leader tv_nsec mSnapshotDir).

Definition engineTruncatePrefix (offsetKept : Z) : M EngineParts unit :=
  modify (fun e => mkParts (ep_store e) (raTruncatePrefix offsetKept (ep_raft e)) (ep_lastMilestone e)).

(** [getMemberOffsets]; what the caller passed is left alone when the node does not lead. *)
Definition engineGetMemberOffsets : M EngineParts (Status.t * OffsetInfo * list OffsetInfo) :=
  let* isLeader := checkLeaderShip in
  if (isLeader : bool) then
    let* e := get in
    let '(offset, followers) := raMemberOffsets (ep_raft e) in
    ret (Status.ok, mkOffset selfMemId selfMemAddress offset, followers)
  else ret (Status.notLeader "", mkOffset 0 "" 0, []).

#[local] Instance engine_provider : NetAdminServiceProvider EngineParts := {|
  pTakeSnapshotAndPersist := engineTakeSnapshot;
  pTruncatePrefix := engineTruncatePrefix;
  pLastApplied := let* e := get in ret (ep_lastMilestone e);
  pGetMemberOffsets := engineGetMemberOffsets;
  pGetLeaderHint := let* e := get in ret (raLeaderHint (ep_raft e));
  pIsLeader := checkLeaderShip;
|}.

(** A leader is asked for a snapshot: it refuses, and is as before. *)
Theorem leader_takes_no_snapshot c s : mSnapshotIsRunning s = false -> raIsLeader (ep_raft (mServiceProvider s)) = true ->
  exists s', CreateSnapshot c s = Done (R_FAILED, "leader no longer takes snapshot") c s' /\
    mServiceProvider s' = mServiceProvider s /\ mSnapshotIsRunning s' = false /\ mSnapshotFailedCounter s' = mSnapshotFailedCounter s + 1.
Proof.
  intros Hr Hl. unfold CreateSnapshot, begin_snapshot, take_snapshot, in_provider. run. rewrite Hr. cbn. unfold engineTakeSnapshot, checkLeaderShip. run.
  rewrite Hl. cbn. eexists. split; [reflexivity|]. cbn. split_and!; [by destruct (mServiceProvider s)|done|done].
Qed.

(** A node that does not lead and knows no leader cannot be asked for the offsets. *)
Theorem offsets_without_leader c s :
  raIsLeader (ep_raft (mServiceProvider s)) = false -> raLeaderHint (ep_raft (mServiceProvider s)) = None ->
  GetMemberOffsets c s = Stop Undefined.
Proof.
  intros Hl Hh. apply (unknown_leader_is_undefined c s c c (mServiceProvider s) (mServiceProvider s) "" (mkOffset 0 "" 0) []); cbn.
  - unfold engineGetMemberOffsets, checkLeaderShip. run. by rewrite Hl.
  - run. by rewrite Hh.
Qed.

End Engine.
