(* ===== verification/GenerateSpec.v ===== *)
(** * Generated values

    What a generate command does to the in-memory store, and the transfer of a
    balance between two accounts: the check of the versions makes it one step,
    although the balances are read before the accounts are locked. *)

From S2P Require Import Prelude OrderedMap Status Proto KVStore SharedMutex Lockable InMemoryKVStore.
From S2P Require Import VersionStore Event Command KVTransCommand KVGenerateCommand.
From S2P Require Import CommandProcessor ProcessorSpec.

#[local] Arguments allocateNextVersion : simpl never.
#[local] Arguments kInvalidVersion : simpl never.
#[local] Arguments InMemoryKVStore.readKV : simpl never.

Section GenerateSpec.
Context {D : Type} `{!KVStore D} {IPS : NodeIps} {GEN : GenerateFn} {UN : Uninitialised}.
Implicit Types (b : Bucket) (d : D).

Lemma readSources_plain keys m c b d :
  (forall k, k ∈ keys -> exists v ver, plain_entry b k v ver) ->
  exists c' b' m', readSources keys m c (mkInMemory b d) = Done (None, m') c' (mkInMemory b' d) /\
    same_data b b' /\ (omap_sorted m -> omap_sorted m') /\
    (forall k x, omap_find k m' = Some x ->
       (k ∈ keys /\ plain_entry b k x.1 x.2) \/ ((k ∉ keys) /\ omap_find k m = Some x)) /\
    (forall k, k ∈ keys -> is_Some (omap_find k m')) /\
    (forall k, k ∉ keys -> omap_find k m' = omap_find k m).
Proof.
  revert m c b. induction keys as [|k keys IH]; intros m c b Hkeys; cbn [readSources].
  { exists c, b, m. split_and!; try done; [intros k x Hx; right; split; [apply not_elem_of_nil|done]|].
    intros k Hk. by apply elem_of_nil in Hk. }
  destruct (Hkeys k ltac:(by left)) as (v & ver & Hk).
  destruct (read_plain k unset_out c b d v ver Hk) as (c1 & b1 & Hr & Hb1).
  rewrite (bind_Done _ _ _ _ _ _ _ Hr). cbn [Status.isOK outValue outVersion].
  destruct (IH (omap_put k (v, ver) m) c1 b1) as (c2 & b2 & m' & Hrun & Hb2 & Hs & Hf & Hin & Hout).
  { intros j Hj. destruct (Hkeys j ltac:(by right)) as (vj & verj & Hpj). exists vj, verj.
    by eapply plain_entry_same. }
  exists c2, b2, m'. split; [exact Hrun|]. split_and!.
  - by etransitivity.
  - intros Hm. by apply Hs, omap_put_sorted.
  - intros j x Hj. destruct (Hf j x Hj) as [[Hjk Hp]|[Hjk Hp]].
    + left. split; [by right|]. eapply plain_entry_same; [|exact Hp]. by symmetry.
    + destruct (decide (j = k)) as [->|Hne].
      * rewrite omap_find_put_eq in Hp. injection Hp as <-. left. split; [by left|done].
      * rewrite omap_find_put_ne in Hp by done. right. split; [|done]. rewrite not_elem_of_cons. done.
  - intros j [->|Hj]%elem_of_cons; [|by apply Hin].
    destruct (decide (k ∈ keys)) as [Hk'|Hk']; [by apply Hin|]. rewrite Hout, omap_find_put_eq by done. eauto.
  - intros j [Hne Hj]%not_elem_of_cons. rewrite Hout by done. by apply omap_find_put_ne.
Qed.

(** The check succeeds exactly when every source has the version it was read with. *)
Definition versions_match b (m : OMap string (ValueType * VersionType)) : Prop :=
  Forall (fun x => exists v, plain_entry b x.1 v x.2.2) m.

Lemma versions_match_same b1 b2 m : same_data b1 b2 -> versions_match b1 m <-> versions_match b2 m.
Proof.
  intros Hb. unfold versions_match. split; intros H; eapply Forall_impl;
    [exact H| |exact H|]; intros x (v & Hx); exists v; [by eapply plain_entry_same|].
  eapply plain_entry_same; [|exact Hx]. by symmetry.
Qed.

Lemma checkSources_plain m c b d :
  (forall k, k ∈ m.*1 -> exists v ver, plain_entry b k v ver) ->
  exists c' b' r, checkSources m c (mkInMemory b d) = Done r c' (mkInMemory b' d) /\ same_data b b' /\
    (r = None /\ versions_match b m \/
     exists st, r = Some st /\ Status.isPrecondUnMatched st = true /\ ~ versions_match b m).
Proof.
  revert c b. induction m as [|[k [v0 ver0]] m IH]; intros c b Hkeys; cbn [checkSources].
  { exists c, b, None. split; [done|]. split; [done|]. left. split; [done|constructor]. }
  destruct (Hkeys k ltac:(by left)) as (v & ver & Hk).
  destruct (read_plain k unset_out c b d v ver Hk) as (c1 & b1 & Hr & Hb1).
  rewrite (bind_Done _ _ _ _ _ _ _ Hr). cbn [Status.isOK outValue outVersion].
  destruct (decide (ver0 = ver)) as [->|Hne].
  - rewrite bool_decide_eq_false_2 by naive_solver. destruct (IH c1 b1) as (c2 & b2 & r & Hrun & Hb2 & Hres).
    { intros j Hj. destruct (Hkeys j ltac:(by right)) as (vj & verj & Hpj). exists vj, verj.
      by eapply plain_entry_same. }
    exists c2, b2, r. split; [exact Hrun|]. split; [by etransitivity|].
    pose proof (versions_match_same _ _ m Hb1) as Hsame.
    destruct Hres as [[-> Hm]|(st & -> & Hst & Hm)]; [left|right].
    + split; [done|]. constructor; [by exists v|by apply Hsame].
    + exists st. split_and!; [done|done|]. intros Hall. apply Hm, Hsame. by apply Forall_cons in Hall as [_ Hall].
  - rewrite bool_decide_eq_true_2 by naive_solver. eexists _, _, _. split; [reflexivity|]. split; [exact Hb1|].
    right. eexists. split_and!; [done|done|]. intros Hall. inversion Hall as [|? ? (v' & Hv') _]; subst. cbn in Hv'.
    by destruct (plain_entry_inj _ _ _ _ _ _ Hk Hv').
Qed.

(** The event of a key whose old value has no ttl. *)
Definition plain_write (x : KeyType * ValueType) : Event :=
  newWriteEvent x.1 x.2 false INFINITE_TTL NEVER_EXPIRE NOT_UPDATED DEFAULT_UDFMETA false.

Lemma oldTTL_plain k c b d v ver :
  plain_entry b k v ver ->
  oldTTL k c (mkInMemory b d) = Done (inr INFINITE_TTL) c (mkInMemory (notify_bucket (OnRead k) b) d).
Proof.
  intros (e & He & _ & _ & Ht).
  assert (kvReadMeta k empty_meta c (mkInMemory b d) =
    Done (Status.ok, fill_meta e (mUdfMetaMap b !! k) empty_meta) c
         (mkInMemory (notify_bucket (OnRead k) b) d)) as Hr.
  { cbn [kvReadMeta InMemoryKVStore_KVStore]. unfold InMemoryKVStore.readMeta, bind, get. cbn [bucket].
    by rewrite He. }
  unfold oldTTL. rewrite (bind_Done _ _ _ _ _ _ _ Hr). cbn [Status.isOK fill_meta m_ttl].
  rewrite Ht. by rewrite bool_decide_eq_false_2 by naive_solver.
Qed.

Lemma writeEvents_plain m es c b d :
  (forall k, k ∈ m.*1 -> exists v ver, plain_entry b k v ver) ->
  exists c' b', writeEvents m es c (mkInMemory b d) =
    Done (Status.ok, es ++ (plain_write <$> m)) c' (mkInMemory b' d) /\ same_data b b'.
Proof.
  revert es c b. induction m as [|[k v0] m IH]; intros es c b Hkeys; cbn [writeEvents fmap list_fmap].
  { exists c, b. by rewrite app_nil_r. }
  destruct (Hkeys k ltac:(by left)) as (v & ver & Hk).
  rewrite (bind_Done _ _ _ _ _ _ _ (oldTTL_plain k c b d v ver Hk)). rewrite bool_decide_eq_false_2 by naive_solver.
  destruct (IH (es ++ [plain_write (k, v0)]) c (notify_bucket (OnRead k) b)) as (c2 & b2 & Hrun & Hb2).
  { intros j Hj. apply Hkeys. by right. }
  exists c2, b2. split; [|done]. rewrite <- app_assoc in Hrun. exact Hrun.
Qed.

Lemma execute_plain g c b d :
  (forall k, k ∈ (mKVsToRead g).*1 -> exists v ver, plain_entry b k v ver) ->
  (forall k, k ∈ (mKVsToWrite g).*1 -> exists v ver, plain_entry b k v ver) ->
  exists c' b' st es, execute g c (mkInMemory b d) = Done (st, es) c' (mkInMemory b' d) /\ same_data b b' /\
    (st = Status.ok /\ versions_match b (mKVsToRead g) /\ es = plain_write <$> mKVsToWrite g \/
     Status.isPrecondUnMatched st = true /\ ~ versions_match b (mKVsToRead g) /\ es = []).
Proof.
  intros Hr Hw. unfold execute.
  destruct (checkSources_plain (mKVsToRead g) c b d Hr) as (c1 & b1 & r & Hrun & Hb1 & Hres).
  rewrite (bind_Done _ _ _ _ _ _ _ Hrun). destruct Hres as [[-> Hm]|(st & -> & Hst & Hm)].
  - destruct (writeEvents_plain (mKVsToWrite g) [] c1 b1 d) as (c2 & b2 & Hrun2 & Hb2).
    { intros k Hk. destruct (Hw k Hk) as (v & ver & Hp). exists v, ver. by eapply plain_entry_same. }
    exists c2, b2, Status.ok, (plain_write <$> mKVsToWrite g). split; [exact Hrun2|].
    split; [by etransitivity|]. by left.
  - exists c1, b1, st, []. split; [done|]. split; [done|]. by right.
Qed.

End GenerateSpec.

(** ** Transfers *)

Lemma std_equal_refl {A} `{!EqDecision A} (l : list A) : std_equal l l = Some true.
Proof. induction l as [|x l IH]; [done|]. cbn. by rewrite decide_True by done. Qed.

Lemma omap_put_keys {V} k (v : V) (m : OMap string V) : (omap_put k v m).*1 = set_insert k m.*1.
Proof.
  induction m as [|[k' v'] m IH]; [done|]. cbn. destruct (String.compare k k'); cbn; [done|done|].
  by rewrite IH.
Qed.

Section Transfer.
Context {D : Type} `{!KVStore D} {IPS : NodeIps} {UN : Uninitialised} {TC : TransferCodec}.
Implicit Types (b : Bucket) (d : D) (req : GenerateRequest) (t : TransferRequest).

(** A request to transfer from one account to another, both of them named as
    sources and as targets. *)
Record transfers req t : Prop := {
  transfers_parse : parseTransfer (nq_inputInfo req) = Some t;
  transfers_two : fromAccount t <> toAccount t;
  transfers_src k : k ∈ nq_srcKeys req <-> k = fromAccount t \/ k = toAccount t;
  transfers_tgt k : k ∈ nq_tgtKeys req <-> k = fromAccount t \/ k = toAccount t;
}.

(** What a transfer makes of the balances [nf] and [nt]. *)
Definition debited t (nf : Z) : Z := u64 (u64 nf - balance t).
Definition credited t (nt : Z) : Z := u64 (u64 nt + balance t).

Definition after_transfer t (nf nt : Z) : OMap string ValueType :=
  omap_put (toAccount t) (to_string (credited t nt))
    (omap_put (fromAccount t) (to_string (debited t nf)) []).

Lemma prepare_transfer req t c b d vf verf nf vt vert nt :
  transfers req t ->
  plain_entry b (fromAccount t) vf verf -> stoi vf = Some nf ->
  plain_entry b (toAccount t) vt vert -> stoi vt = Some nt ->
  exists c' b' kvs, prepareGenerate req empty_generated c (mkInMemory b d) =
    Done (Status.ok, mkGenerated kvs (after_transfer t nf nt) "transferDemoOutputInfo") c' (mkInMemory b' d) /\
    same_data b b' /\ omap_sorted kvs /\
    (forall k x, (k, x) ∈ kvs <-> k = fromAccount t /\ x = (vf, verf) \/ k = toAccount t /\ x = (vt, vert)).
Proof.
  intros [Hp Htwo Hsrc Htgt] Hf Hnf Ht Hnt. unfold prepareGenerate.
  destruct (readSources_plain (nq_srcKeys req) [] c b d) as (c1 & b1 & m & Hrun & Hb1 & Hs & Hfind & Hin & _).
  { intros k [->| ->]%Hsrc; eauto. }
  specialize (Hs (SSorted_nil _)).
  assert (forall k v ver, k ∈ nq_srcKeys req -> plain_entry b k v ver -> omap_find k m = Some (v, ver)) as Hget.
  { intros k v ver Hk Hpe. destruct (Hin k Hk) as ([v' ver'] & Hx). rewrite Hx.
    destruct (Hfind _ _ Hx) as [[_ Hpe']|[Hk' _]]; [|done].
    by destruct (plain_entry_inj _ _ _ _ _ _ Hpe Hpe') as [-> ->]. }
  pose proof (Hget _ _ _ ltac:(apply Hsrc; by left) Hf) as Hgf.
  pose proof (Hget _ _ _ ltac:(apply Hsrc; by right) Ht) as Hgt.
  exists c1, b1, m. split_and!; [|done|done|].
  - cbn [mKVsToRead empty_generated]. rewrite (bind_Done _ _ _ _ _ _ _ Hrun). cbn beta iota.
    unfold generate, TransferCommand_generate, transfer. rewrite Hp. unfold balanceIn.
    rewrite Hgf, Hgt, Hnf, Hnt. cbn [fmap option_fmap option_map]. cbn beta iota. cbn [Status.isOK].
    unfold sameKeys. cbn [mKVsToWrite mOutputInfo].
    rewrite !omap_put_keys. replace (set_of_list (nq_tgtKeys req))
      with (set_insert (toAccount t) (set_insert (fromAccount t) [])).
    + cbn [fmap list_fmap]. by rewrite std_equal_refl.
    + apply (StronglySorted_ext string_lt); [apply set_insert_sorted; repeat constructor|apply set_of_list_sorted|].
      intros k. rewrite elem_of_set_of_list, Htgt, !elem_of_set_insert. set_solver.
  - intros k x. rewrite elem_of_omap by done. split.
    + intros Hx. destruct (Hfind _ _ Hx) as [[Hk _]|[_ Hx']]; [|done].
      apply Hsrc in Hk as [->| ->]; [left|right]; (split; [done|congruence]).
    + by intros [[-> ->]|[-> ->]].
Qed.

(** A transfer keeps the sum of the two balances, in 64 bits. *)
Lemma transfer_sum t nf nt : u64 (debited t nf + credited t nt) = u64 (nf + nt).
Proof.
  unfold debited, credited, u64. rewrite <- Zplus_mod.
  replace (nf mod 2 ^ 64 - balance t + (nt mod 2 ^ 64 + balance t)) with (nf mod 2 ^ 64 + nt mod 2 ^ 64) by lia.
  by rewrite <- Zplus_mod.
Qed.

Lemma after_transfer_elem t nf nt k v :
  fromAccount t <> toAccount t ->
  (k, v) ∈ after_transfer t nf nt <->
  (k = fromAccount t /\ v = to_string (debited t nf)) \/ (k = toAccount t /\ v = to_string (credited t nt)).
Proof.
  intros Hne. unfold after_transfer.
  assert (omap_sorted (omap_put (fromAccount t) (to_string (debited t nf)) [])) by (apply omap_put_sorted; constructor).
  rewrite elem_of_omap_put by done. rewrite elem_of_omap_put by constructor.
  rewrite elem_of_nil. naive_solver.
Qed.


(** A transfer from an account to itself adds the amount: the credit is written
    over the debit. *)
Theorem transfer_to_self_adds t acc kvs out input v ver n :
  parseTransfer input = Some t -> fromAccount t = acc -> toAccount t = acc ->
  omap_find acc kvs = Some (v, ver) -> stoi v = Some n ->
  transfer kvs input [] out = inr (Status.ok, [(acc, to_string (credited t n))], "transferDemoOutputInfo").
Proof.
  intros Hp Hf Ht Hk Hn. unfold transfer, balanceIn. rewrite Hp, Hf, Ht, Hk, Hn. cbn.
  by rewrite string_compare_refl.
Qed.

(** An overdrawn account stops the server. The balance wraps around at 64 bits
    and is stored as such; the next transfer that reads it as an [int] throws an
    exception that nothing catches. *)
Theorem overdrawn_account_throws t1 t2 kvs out input nf ver :
  0 <= nf < 2 ^ 31 -> nf < balance t1 <= 2 ^ 63 ->
  parseTransfer input = Some t2 -> omap_find (fromAccount t2) kvs = Some (to_string (debited t1 nf), ver) ->
  transfer kvs input [] out = inl Uncaught.
Proof.
  intros Hnf Hover Hp Hk. unfold transfer. rewrite Hp. unfold balanceIn at 1. rewrite Hk.
  assert (debited t1 nf = nf - balance t1 + 2 ^ 64) as Hd.
  { unfold debited. rewrite (u64_small nf) by (unfold is_u64; lia). unfold u64.
    rewrite <- (Z_mod_plus_full _ 1). rewrite Z.mod_small; lia. }
  rewrite stoi_to_string by lia. by rewrite bool_decide_eq_false_2 by lia.
Qed.

(** Keys beyond the last target key are accepted although they are not locked: the
    comparison ends with the target keys. *)
Theorem extra_keys_accepted req (kvs : OMap string ValueType) extra :
  kvs.*1 = set_of_list (nq_tgtKeys req) ++ extra -> sameKeys req kvs = Some true.
Proof.
  intros Hk. unfold sameKeys. rewrite Hk. generalize (set_of_list (nq_tgtKeys req)) as l.
  induction l as [|x l IH]; [by destruct extra|]. cbn. by rewrite decide_True by done.
Qed.

End Transfer.
