(* ===== verification/TransSpec.v ===== *)
(** * Transactions as operations on a map

    What a transaction promises its client: its preconditions are checked against a
    map from keys to values and versions, and its entries are performed one after
    the other on that map, or none of them is. [transaction_refines_map] shows
    that a transaction run by the command processor on the in-memory store does so.
    The components of the object manager, which keep their state in the engine,
    are verified against this contract. *)

From S2P Require Import Prelude Status Proto KVStore SharedMutex Lockable ProxyKVStore InMemoryKVStore.
From S2P Require Import TemporalKVStore VersionStore Event Command KVTransCommand CommandProcessor ProcessorSpec.

#[local] Arguments allocateNextVersion : simpl never.
#[local] Arguments kInvalidVersion : simpl never.

(** ** The contract *)

Abbreviation AMap := (gmap string (string * Z)) (only parsing).

Definition acond (m : AMap) (cond : Precondition) : bool :=
  match cond with
  | VersionCond k ver _ => bool_decide (snd <$> m !! k = Some ver)
  | ExistCond k shouldExist => Bool.eqb shouldExist (bool_decide (is_Some (m !! k)))
  | UserMetaCond _ _ _ _ _ | CondUnset => true
  end.

Definition aconds (m : AMap) (conds : list Precondition) : bool := forallb (acond m) conds.

(** One entry, performed under version [v]. *)
Definition aentry (v : Z) (m : AMap) (entry : ReadWriteEntry) : ReadWriteResult * AMap :=
  match entry with
  | RWWrite w => (WriteRes (mkWriteResult RC_OK v), <[we_key w := (we_value w, v)]> m)
  | RWRead r =>
      (ReadRes (match m !! re_key r with
                | Some (value, ver) => mkReadResult RC_OK ver value 0 None
                | None => mkReadResult RC_KEY_NOT_EXIST kInvalidVersion "" 0 None
                end), m)
  | RWRemove d =>
      match m !! de_key d with
      | Some (value, ver) =>
          if bool_decide (de_version d <> kInvalidVersion /\ de_version d <> ver)
          then (RemoveRes (mkRemoveResult RC_KEY_NOT_EXIST kInvalidVersion ""), m)
          else (RemoveRes (mkRemoveResult RC_OK ver value), delete (de_key d) m)
      | None => (RemoveRes (mkRemoveResult RC_KEY_NOT_EXIST kInvalidVersion ""), m)
      end
  | RWUnset => (UnsetRes, m)
  end.

Fixpoint aentries (v : Z) (m : AMap) (entries : list ReadWriteEntry) : list ReadWriteResult * AMap :=
  match entries with
  | [] => ([], m)
  | entry :: entries =>
      let '(r, m) := aentry v m entry in
      let '(rs, m) := aentries v m entries in
      (r :: rs, m)
  end.

(** The answer to a transaction and the map after it. *)
Definition atrans (v : Z) (m : AMap) (conds : list Precondition) (entries : list ReadWriteEntry)
    : ResponseCode * list ReadWriteResult * AMap :=
  if aconds m conds then let '(rs, m') := aentries v m entries in (RC_OK, rs, m')
  else (RC_PRECOND_NOT_MATCHED, [], m).

Definition is_write_entry (entry : ReadWriteEntry) : Prop :=
  match entry with RWWrite _ => True | _ => False end.

(** What the map has after a transaction it had before, or got from a write. *)
Lemma aentries_versions v entries : forall (m : AMap) k x ver,
  (aentries v m entries).2 !! k = Some (x, ver) -> m !! k = Some (x, ver) \/ ver = v /\ Exists is_write_entry entries.
Proof.
  induction entries as [|entry entries IH]; intros m k x ver H; [by left|].
  cbn in H. destruct (aentry v m entry) as [r m1] eqn:E1. destruct (aentries v m1 entries) as [rs m2] eqn:E2.
  destruct (IH m1 k x ver) as [Hm|[-> Hw]]; [by rewrite E2| |by right; split; [|right]].
  destruct entry as [w|rd|d|]; cbn in E1.
  - injection E1 as <- <-. destruct (decide (k = we_key w)) as [->|Hne].
    + rewrite lookup_insert_eq in Hm. right. split; [congruence|by left].
    + rewrite lookup_insert_ne in Hm by done. by left.
  - injection E1 as <- <-. by left.
  - destruct (m !! de_key d) as [[y yv]|]; [case_bool_decide|]; injection E1 as <- <-; [by left| |by left].
    left. by apply lookup_delete_Some in Hm as [_ Hm].
  - injection E1 as <- <-. by left.
Qed.

(** The transactions the contract is about: no ttl, no user-defined meta, and no
    key looked at after it was removed, or removed after it was written, by the
    same transaction. *)
Definition plain_cond (cond : Precondition) : Prop :=
  match cond with
  | VersionCond _ _ op => op = EQUAL
  | ExistCond _ _ => True
  | UserMetaCond _ _ _ _ _ | CondUnset => False
  end.

Fixpoint plain_entries (written removed : gset string) (entries : list ReadWriteEntry) : Prop :=
  match entries with
  | [] => True
  | RWWrite w :: entries =>
      we_enableTTL w = false /\ plain_entries ({[we_key w]} ∪ written) (removed ∖ {[we_key w]}) entries
  | RWRead r :: entries => (re_key r ∉ removed) /\ plain_entries written removed entries
  | RWRemove d :: entries =>
      (de_key d ∉ removed) /\ (de_key d ∉ written) /\ plain_entries written ({[de_key d]} ∪ removed) entries
  | RWUnset :: _ => False
  end.

Record plain_trans (req : TransRequest) : Prop := {
  plain_stale : tq_allowStale req = false;
  plain_meta : tq_isMetaReturned req = false;
  plain_preconds : Forall plain_cond (tq_preconds req);
  plain_body : plain_entries ∅ ∅ (tq_entries req);
}.

Section TransSpec.
Context {D : Type} `{!KVStore D} {IPS : NodeIps}.
Implicit Types (s : InMemoryKVStore D) (m cur : gmap string (string * Z)) (ov : gmap string string).

(** The delegate does not have the key. *)
Definition misses (k : KeyType) (d : D) : Prop :=
  forall o c, exists msg ttl ver,
    kvReadKV k o c d = Done (Status.notFound msg, mkOut (outValue o) ttl ver) c d.

(** The in-memory store holds the map: what is in the map is in memory without a
    ttl, what is not was deleted or is nowhere. *)
Definition represents m s : Prop :=
  forall k, match m !! k with
            | Some (v, ver) => plain_entry (bucket s) k v ver
            | None => mData (bucket s) !! k = None /\
                      (is_Some (mDeletedData (bucket s) !! k) \/ misses k (mDelegate s))
            end.

(** What a read of [k] yields when the map has [x] for it. *)
Definition reads_as (x : option (string * Z)) (r : Status.t * ReadOut) : Prop :=
  match x with
  | Some (v, ver) => r = (Status.ok, mkOut v INFINITE_TTL ver)
  | None => Status.isNotFound r.1 = true /\ Status.isOK r.1 = false /\ outValue r.2 = ""
  end.

Lemma represents_same m b b' (d : D) :
  same_data b b' -> represents m (mkInMemory b d) -> represents m (mkInMemory b' d).
Proof.
  intros Hb Hr k. specialize (Hr k). destruct (m !! k) as [[v ver]|]; cbn in *; [by eapply plain_entry_same|].
  destruct Hb as (<- & _ & <-). done.
Qed.

Lemma read_run m s k c :
  represents m s ->
  exists r c' s', kvReadKV k fresh_out c s = Done r c' s' /\ reads_as (m !! k) r /\ represents m s'.
Proof.
  intros Hr. destruct s as [b d]. pose proof (Hr k) as Hk. destruct (m !! k) as [[v ver]|] eqn:E; cbn in Hk.
  - destruct (read_plain k fresh_out c b d v ver Hk) as (c' & b' & Hrun & Hb).
    eexists _, _, _. split; [exact Hrun|]. split; [done|]. by eapply represents_same.
  - destruct Hk as [Hd Hk]. cbn [kvReadKV InMemoryKVStore_KVStore]. destruct (mDeletedData b !! k) as [w|] eqn:Ew.
    + rewrite (readKV_buried _ _ _ _ _ _ Hd Ew). eexists _, _, _. split; [done|]. done.
    + destruct Hk as [[]|Hk]; [done|]. rewrite readKV_absent by done. unfold on_delegate.
      destruct (Hk fresh_out c) as (msg & ttl & ver & Hrun).
      erewrite zoom_Done by exact Hrun. eexists _, _, _. split; [done|]. done.
Qed.

(** ** Preconditions *)

(** How a check ends: with the next condition when it holds. *)
Definition checked (b : bool) (r : Iter Status.t) : Prop :=
  match r with
  | Next st => b = true /\ Status.isOK st = true
  | Break st => b = false /\ Status.isPrecondUnMatched st = true
  end.

Lemma checkVersionCond_run m s k ver c :
  represents m s ->
  exists r c' s', checkVersionCond false k ver EQUAL c s = Done r c' s' /\
    checked (acond m (VersionCond k ver EQUAL)) r /\ represents m s'.
Proof.
  intros Hr. destruct (read_run m s k c Hr) as ([st out] & c' & s' & Hrun & Hres & Hr').
  unfold checkVersionCond, readKV. rewrite (bind_Done _ _ _ _ _ _ _ Hrun). cbn [acond].
  destruct (m !! k) as [[v ver']|]; cbn [reads_as fst snd fmap option_fmap option_map] in *.
  - injection Hres as -> ->. cbn [Status.isOK outVersion]. rewrite (bool_decide_eq_true_2 (EQUAL = EQUAL)) by done.
    case_bool_decide as E; eexists _, _, _; (split; [reflexivity|]); (split; [|exact Hr']); cbn; (split; [|done]).
    + apply bool_decide_eq_false_2. congruence.
    + apply bool_decide_eq_true_2. by subst.
  - destruct Hres as (_ & -> & _). eexists _, _, _. split; [reflexivity|]. split; [|exact Hr'].
    split; [|done]. by apply bool_decide_eq_false_2.
Qed.

Lemma checkExistCond_run m s k ex c :
  represents m s ->
  exists r c' s', checkExistCond false k ex c s = Done r c' s' /\
    checked (acond m (ExistCond k ex)) r /\ represents m s'.
Proof.
  intros Hr. destruct (read_run m s k c Hr) as ([st out] & c' & s' & Hrun & Hres & Hr').
  unfold checkExistCond, readKV. rewrite (bind_Done _ _ _ _ _ _ _ Hrun). cbn [acond].
  destruct (m !! k) as [[v ver']|]; cbn [reads_as fst snd] in *.
  - injection Hres as -> ->. rewrite bool_decide_eq_true_2 by eauto. destruct ex; eexists _, _, _; by split; [reflexivity|].
  - destruct Hres as (-> & -> & _). rewrite bool_decide_eq_false_2 by (by intros []).
    destruct ex; eexists _, _, _; by split; [reflexivity|].
Qed.

Lemma checkPrecond_run m s conds st cs c :
  represents m s -> Forall plain_cond conds -> Status.isOK st = true ->
  exists st' c' s', checkPrecond false conds st cs c s = Done (st', cs) c' s' /\ represents m s' /\
    (if aconds m conds then Status.isOK st' = true else Status.isPrecondUnMatched st' = true).
Proof.
  intros Hr Hp. revert s st c Hr. induction Hp as [|cond conds Hc _ IH]; intros s st c Hr Hst; cbn [checkPrecond].
  { exists st, c, s. done. }
  assert (exists r c1 s1, checkOne false cond cs c s =
    Done (match r with Next st => Next (st, cs) | Break st => Break (st, cs) end) c1 s1 /\
    checked (acond m cond) r /\ represents m s1) as (r & c1 & s1 & Hrun & Hchk & Hr1).
  { destruct cond as [k ver op|k ex| |]; [cbn in Hc; subst op| |done|done]; cbn [checkOne]; unfold with_conds.
    - destruct (checkVersionCond_run m s k ver c Hr) as (r & c1 & s1 & Hrun & H). exists r, c1, s1. split; [|done].
      rewrite (bind_Done _ _ _ _ _ _ _ Hrun). by destruct r.
    - destruct (checkExistCond_run m s k ex c Hr) as (r & c1 & s1 & Hrun & H). exists r, c1, s1. split; [|done].
      rewrite (bind_Done _ _ _ _ _ _ _ Hrun). by destruct r. }
  rewrite (bind_Done _ _ _ _ _ _ _ Hrun). unfold aconds in *. cbn [forallb].
  destruct r as [st1|st1]; destruct Hchk as [-> Hst1]; cbn [andb].
  - by apply IH.
  - exists st1, c1, s1. done.
Qed.

(** ** Entries *)

(** The values the temporal store holds. *)
Definition overlays ov (o : Overlay) : Prop :=
  tDeletedData o = ∅ /\
  forall k, match ov !! k with
            | Some v => exists e, tData o !! k = Some e /\ e_value e = v /\ e_version e = kInvalidVersion /\
                                  e_ttl e = INFINITE_TTL
            | None => tData o !! k = None
            end.

(** What an entry sees: what the entries before it wrote, else the map. *)
Definition look m ov (k : KeyType) : option (string * Z) :=
  match ov !! k with
  | Some v => Some (v, kInvalidVersion)
  | None => m !! k
  end.

Lemma temp_read_run m s ov o k c :
  represents m s -> overlays ov o ->
  exists r c' s', in_temp o (kvReadKV k fresh_out) c s = Done (r, o) c' s' /\
    reads_as (look m ov k) r /\ represents m s'.
Proof.
  intros Hr [Hdel Ho]. specialize (Ho k). unfold in_temp, look.
  cbn [kvReadKV TemporalKVStore_KVStore]. unfold TemporalKVStore.readKV, bind, get. cbn [overlay].
  destruct (ov !! k) as [v|].
  - destruct Ho as (e & -> & Hv & Hver & Ht). unfold isTimeOut. rewrite bool_decide_eq_true_2 by done. cbn.
    eexists _, _, _. split; [reflexivity|]. split; [|done]. cbn. by rewrite Hv, Hver, Ht.
  - rewrite Ho, Hdel. rewrite bool_decide_eq_false_2 by set_solver.
    destruct (read_run m s k c Hr) as (r & c' & s' & Hrun & Hres & Hr').
    unfold through, zoom. cbn [tDelegate]. rewrite ro_readKV. unfold zoom. rewrite behind_wrap, Hrun.
    exists r, c', s'. done.
Qed.

(** The event of an entry. *)
Definition event_for m ov (entry : ReadWriteEntry) (e : Event) : Prop :=
  match entry with
  | RWWrite w => exists t, e = newWriteEvent (we_key w) (we_value w) false INFINITE_TTL NEVER_EXPIRE t
                                             (we_udfMeta w) false
  | RWRead r =>
      match look m ov (re_key r) with
      | Some (v, ver) => e = newReadEvent (re_key r) v INFINITE_TTL ver false
      | None => exists ttl ver, e = newReadEvent (re_key r) "" ttl ver true
      end
  | RWRemove d =>
      match look m ov (de_key d) with
      | Some (v, ver) =>
          if bool_decide (de_version d <> kInvalidVersion /\ de_version d <> ver)
          then e = newReadEvent (de_key d) v INFINITE_TTL ver true
          else e = newDeleteEvent (de_key d) v ver
      | None => exists ttl ver, e = newReadEvent (de_key d) "" ttl ver true
      end
  | RWUnset => False
  end.

Definition overlay_step ov (entry : ReadWriteEntry) : gmap string string :=
  match entry with
  | RWWrite w => <[we_key w := we_value w]> ov
  | _ => ov
  end.

Inductive events_for m : gmap string string -> list ReadWriteEntry -> EventList -> Prop :=
| EventsNil ov : events_for m ov [] []
| EventsCons ov entry e entries es :
    event_for m ov entry e -> events_for m (overlay_step ov entry) entries es ->
    events_for m ov (entry :: entries) (e :: es).

Lemma overlays_write ov o k v t u :
  overlays ov o ->
  overlays (<[k := v]> ov) (overlay_write k (mkEntry v kInvalidVersion INFINITE_TTL NEVER_EXPIRE t) u o).
Proof.
  intros [Hdel Ho]. split; [cbn; set_solver|]. intros j. cbn. destruct (decide (j = k)) as [->|Hne].
  - rewrite !lookup_insert_eq. eexists. split; [done|]. done.
  - rewrite !lookup_insert_ne by done. apply Ho.
Qed.

Definition plain_one (entry : ReadWriteEntry) : Prop :=
  match entry with
  | RWWrite w => we_enableTTL w = false
  | RWUnset => False
  | _ => True
  end.

Lemma execEntry_run m s ov o entry st events c curTime :
  represents m s -> overlays ov o -> plain_one entry ->
  (Status.isOK st = true \/ Status.isNotFound st = true) ->
  exists st' o' e c' s', execEntry false false curTime no_conds entry (st, o, events) c s =
      Done (Next (st', o', events ++ [e])) c' s' /\ (Status.isOK st' = true \/ Status.isNotFound st' = true) /\
    event_for m ov entry e /\ overlays (overlay_step ov entry) o' /\ represents m s'.
Proof.
  intros Hr Ho Hp Hst. destruct entry as [w|r|d|]; [| | |done]; cbn [execEntry event_for overlay_step].
  - cbn in Hp. unfold execWrite. rewrite Hp. cbn [ignoredUdfUintKeys no_conds udfUintKey2Meta].
    rewrite bool_decide_eq_false_2 by apply not_elem_of_nil. cbn [andb]. rewrite lookup_empty.
    unfold bind at 1, ret at 1. unfold bind at 1, ret at 1. unfold bind at 1, secondsSinceEpoch at 1.
    unfold in_temp. cbn. destruct s as [b dd]. eexists _, _, _, _, _. split; [reflexivity|].
    split; [by left|]. split; [eauto|]. split; [|done]. by apply overlays_write.
  - unfold execRead, readKV. destruct (temp_read_run m s ov o (re_key r) c Hr Ho) as ([st1 out] & c1 & s1 & Hrun & Hres & Hr1).
    assert (in_temp_copy o (kvReadKV (re_key r) fresh_out) c s = Done (st1, out) c1 s1) as Hcopy.
    { unfold in_temp_copy. by rewrite (bind_Done _ _ _ _ _ _ _ Hrun). }
    rewrite (bind_Done _ _ _ _ _ _ _ Hcopy). destruct (look m ov (re_key r)) as [[v ver]|]; cbn [reads_as fst snd] in Hres.
    + injection Hres as -> ->. cbn. eexists _, _, _, _, _. split; [reflexivity|]. split; [by left|]. done.
    + destruct Hres as (H1 & H2 & H3). rewrite H1. eexists _, _, _, _, _. split; [reflexivity|]. split; [by right|].
      split; [rewrite H3; eauto|]. done.
  - unfold execRemove. destruct (temp_read_run m s ov o (de_key d) c Hr Ho) as ([st1 out] & c1 & s1 & Hrun & Hres & Hr1).
    rewrite (bind_Done _ _ _ _ _ _ _ Hrun). destruct (look m ov (de_key d)) as [[v ver]|]; cbn [reads_as fst snd] in Hres.
    + injection Hres as -> ->. cbn [Status.isNotFound Status.isOK outVersion outValue outTTL].
      case_bool_decide; eexists _, _, _, _, _; (split; [reflexivity|]); (split; [by left|]); done.
    + destruct Hres as (H1 & H2 & H3). rewrite H1. eexists _, _, _, _, _. split; [reflexivity|]. split; [by right|].
      split; [rewrite H3; eauto|]. done.
Qed.

Lemma plain_entries_one written removed entries :
  plain_entries written removed entries -> Forall plain_one entries.
Proof.
  revert written removed. induction entries as [|[w|r|d|] entries IH]; intros written removed Hp; cbn in Hp.
  - constructor.
  - constructor; [apply Hp|]. eapply IH, Hp.
  - constructor; [done|]. eapply IH, Hp.
  - constructor; [done|]. eapply IH, Hp.
  - done.
Qed.

Lemma execEntries_run m s ov o entries st events c curTime :
  represents m s -> overlays ov o -> Forall plain_one entries ->
  (Status.isOK st = true \/ Status.isNotFound st = true) ->
  exists st' o' es c' s', execEntries false false curTime no_conds entries (st, o, events) c s =
      Done (st', o', events ++ es) c' s' /\ (Status.isOK st' = true \/ Status.isNotFound st' = true) /\
    events_for m ov entries es /\ represents m s'.
Proof.
  intros Hr Ho Hp. revert s ov o st events c Hr Ho.
  induction Hp as [|entry entries Hone _ IH]; intros s ov o st events c Hr Ho Hst; cbn [execEntries].
  { exists st, o, [], c, s. rewrite app_nil_r. split; [done|]. split; [done|]. split; [constructor|done]. }
  destruct (execEntry_run m s ov o entry st events c curTime Hr Ho Hone Hst)
    as (st1 & o1 & e & c1 & s1 & Hrun & Hst1 & He & Ho1 & Hr1).
  rewrite (bind_Done _ _ _ _ _ _ _ Hrun).
  destruct (IH s1 _ o1 st1 (events ++ [e]) c1 Hr1 Ho1 Hst1) as (st2 & o2 & es & c2 & s2 & Hrun2 & Hst2 & Hes & Hr2).
  exists st2, o2, (e :: es), c2, s2. rewrite <- app_assoc in Hrun2. split; [exact Hrun2|]. split; [done|].
  split; [by econstructor|done].
Qed.

(** ** Results and effect *)

(** The map the contract works on, in terms of what the code looks at. *)
Definition linked (v : Z) m ov (written removed : gset string) cur : Prop :=
  forall k, (is_Some (ov !! k) -> k ∈ written) /\
            (k ∉ removed -> cur !! k = match ov !! k with Some x => Some (x, v) | None => m !! k end).

(** The versions [initSuccessResponse] collects. *)
Definition versions_of (v : Z) ov (k2v : gmap string Z) : Prop := forall k, k2v !! k = (fun _ => v) <$> ov !! k.

Lemma linked_write v m ov written removed cur k x :
  linked v m ov written removed cur ->
  linked v m (<[k := x]> ov) ({[k]} ∪ written) (removed ∖ {[k]}) (<[k := (x, v)]> cur).
Proof.
  intros H j. destruct (H j) as [H1 H2]. destruct (decide (j = k)) as [->|Hne].
  - rewrite !lookup_insert_eq. set_solver.
  - rewrite !lookup_insert_ne by done. set_solver.
Qed.

Lemma linked_remove v m ov written removed cur k cur' :
  linked v m ov written removed cur -> (forall j, j <> k -> cur' !! j = cur !! j) ->
  linked v m ov written ({[k]} ∪ removed) cur'.
Proof.
  intros H Hc j. destruct (H j) as [H1 H2]. split; [done|]. intros Hj.
  rewrite Hc by set_solver. apply H2. set_solver.
Qed.

Lemma linked_none v m ov written removed cur k :
  linked v m ov written removed cur -> k ∉ written -> ov !! k = None.
Proof. intros H Hk. destruct (ov !! k) eqn:E; [|done]. destruct Hk. apply (H k). by rewrite E. Qed.

(** The sets [plain_entries] keeps track of. *)
Definition next_sets (entry : ReadWriteEntry) (wr : gset string * gset string) : gset string * gset string :=
  let '(written, removed) := wr in
  match entry with
  | RWWrite w => ({[we_key w]} ∪ written, removed ∖ {[we_key w]})
  | RWRemove d => (written, {[de_key d]} ∪ removed)
  | _ => (written, removed)
  end.

Lemma plain_entries_next written removed entry entries :
  plain_entries written removed (entry :: entries) ->
  plain_entries (next_sets entry (written, removed)).1 (next_sets entry (written, removed)).2 entries.
Proof. destruct entry; cbn; naive_solver. Qed.

(** What one entry answers is what the contract says. *)
Lemma entry_result_run v m ov written removed cur k2v lv entry e entries :
  event_for m ov entry e -> linked v m ov written removed cur -> versions_of v ov k2v ->
  plain_entries written removed (entry :: entries) ->
  exists k2v' lv', entry_result false entry (with_version v e) k2v lv = Some ((aentry v cur entry).1, k2v', lv') /\
    versions_of v (overlay_step ov entry) k2v' /\
    linked v m (overlay_step ov entry) (next_sets entry (written, removed)).1
      (next_sets entry (written, removed)).2 (aentry v cur entry).2.
Proof.
  intros He Hl Hv Hp. destruct entry as [w|r|d|]; cbn in Hp; cbn [event_for overlay_step next_sets fst snd] in *; [| | |done].
  - destruct He as [t ->]. eexists _, _. split; [reflexivity|]. split; [|by apply linked_write].
    intros k. cbn. destruct (decide (k = we_key w)) as [->|Hne]; [by rewrite !lookup_insert_eq|].
    by rewrite !lookup_insert_ne.
  - destruct Hp as [Hrem _]. destruct (Hl (re_key r)) as [_ Hcur]. specialize (Hcur Hrem). cbn [aentry fst snd].
    unfold look in He. pose proof (Hv (re_key r)) as Hvk. destruct (ov !! re_key r) as [x|].
    + subst e. eexists _, _. split; [|done]. cbn. rewrite Hcur, Hvk. reflexivity.
    + rewrite Hcur. destruct (m !! re_key r) as [[x ver]|].
      * subst e. eexists _, _. split; [|done]. cbn. rewrite Hvk. reflexivity.
      * destruct He as (ttl & ver & ->). eexists _, _. split; [|done]. reflexivity.
  - destruct Hp as (Hrem & Hwr & _). destruct (Hl (de_key d)) as [_ Hcur]. specialize (Hcur Hrem).
    pose proof (linked_none _ _ _ _ _ _ _ Hl Hwr) as Hov. unfold look in He. rewrite Hov in He, Hcur.
    cbn [aentry]. rewrite Hcur. destruct (m !! de_key d) as [[x ver]|].
    + case_bool_decide; subst e; eexists _, _; (split; [reflexivity|]); (split; [done|]);
        (eapply linked_remove; [exact Hl|]); intros j Hj; [done|by apply lookup_delete_ne].
    + destruct He as (ttl & ver & ->). eexists _, _. split; [reflexivity|]. split; [done|].
      by eapply linked_remove.
Qed.

Lemma entry_results_run v m ov written removed cur k2v lv entries es :
  events_for m ov entries es -> linked v m ov written removed cur -> versions_of v ov k2v ->
  plain_entries written removed entries ->
  exists lv', entry_results false entries (with_version v <$> es) k2v lv = Some ((aentries v cur entries).1, lv').
Proof.
  intros Hes. revert written removed cur k2v lv.
  induction Hes as [|ov entry e entries es He _ IH]; intros written removed cur k2v lv Hl Hv Hp; [by exists lv|].
  destruct (entry_result_run v m ov written removed cur k2v lv entry e entries He Hl Hv Hp) as (k2v' & lv' & Hr & Hv' & Hl').
  cbn [fmap list_fmap entry_results]. rewrite Hr. cbn [mbind option_bind].
  destruct (IH _ _ _ k2v' lv' Hl' Hv' (plain_entries_next _ _ _ _ Hp)) as (lv2 & Hrs). rewrite Hrs.
  exists lv2. cbn [aentries mbind option_bind]. destruct (aentry v cur entry) as [r1 m1]. cbn [fst snd].
  by destruct (aentries v m1 entries) as [rs m2].
Qed.

(** Applying an event does to the store what the contract does to the map. *)
Lemma represents_insert cur b (d : D) k x v t u n :
  represents cur (mkInMemory b d) ->
  represents (<[k := (x, v)]> cur)
    (mkInMemory (notify_bucket n (insert_entry k (mkEntry x v INFINITE_TTL NEVER_EXPIRE t) u b)) d).
Proof.
  intros Hr j. specialize (Hr j). destruct (decide (j = k)) as [->|Hne].
  - rewrite lookup_insert_eq. eexists. cbn. rewrite lookup_insert_eq. done.
  - rewrite lookup_insert_ne by done. destruct (cur !! j) as [[y ver]|]; cbn in *.
    + destruct Hr as (e & He & ?). exists e. cbn. by rewrite lookup_insert_ne.
    + by rewrite lookup_insert_ne, lookup_delete_ne.
Qed.

Lemma represents_delete cur b (d : D) k w :
  represents cur (mkInMemory b d) -> represents (delete k cur) (mkInMemory (bury k w b) d).
Proof.
  intros Hr j. specialize (Hr j). destruct (decide (j = k)) as [->|Hne].
  - rewrite lookup_delete_eq. cbn. rewrite lookup_delete_eq. split; [done|]. left.
    destruct (mDeletedData b !! k) eqn:E; [by rewrite E|]. by rewrite lookup_insert_eq.
  - rewrite lookup_delete_ne by done. destruct (cur !! j) as [[y ver]|]; cbn in *.
    + destruct Hr as (e & He & ?). exists e. cbn. by rewrite lookup_delete_ne.
    + rewrite lookup_delete_ne by done. destruct Hr as [Hr1 Hr2]. split; [done|].
      destruct (mDeletedData b !! k); [done|]. by rewrite lookup_insert_ne.
Qed.

Lemma apply_run v m ov written removed cur entry e entries c s :
  event_for m ov entry e -> linked v m ov written removed cur ->
  plain_entries written removed (entry :: entries) -> represents cur s ->
  exists s', apply (with_version v e) c s = Done Status.ok c s' /\ represents (aentry v cur entry).2 s'.
Proof.
  intros He Hl Hp Hr. destruct s as [b d].
  destruct entry as [w|r|rm|]; cbn in Hp; cbn [event_for] in He; [| | |done].
  - destruct He as [t ->]. eexists. split; [reflexivity|]. cbn. by apply represents_insert.
  - cbn [aentry snd]. exists (mkInMemory b d).
    destruct (look m ov (re_key r)) as [[x ver]|]; [subst e|destruct He as (ttl & ver & ->)]; done.
  - destruct Hp as (Hrem & Hwr & _). destruct (Hl (de_key rm)) as [_ Hcur]. specialize (Hcur Hrem).
    pose proof (linked_none _ _ _ _ _ _ _ Hl Hwr) as Hov. unfold look in He. rewrite Hov in He, Hcur.
    cbn [aentry]. rewrite Hcur. destruct (m !! de_key rm) as [[x ver]|] eqn:Em.
    + case_bool_decide; subst e; [by exists (mkInMemory b d)|]. cbn [snd].
      pose proof (Hr (de_key rm)) as Hk. rewrite Hcur in Hk. cbn in Hk. destruct Hk as (en & Hen & _).
      eexists. cbn [with_version newDeleteEvent apply d_key d_version d_deletedVersion].
      cbn [kvDeleteKV InMemoryKVStore_KVStore]. rewrite (bind_Done _ _ _ _ _ _ _ (deleteKV_live _ _ _ _ _ _ _ Hen)).
      split; [reflexivity|]. by apply represents_delete.
    + destruct He as (ttl & ver & ->). by exists (mkInMemory b d).
Qed.

Lemma apply_events_run v m ov written removed cur entries es st c s k2v :
  events_for m ov entries es -> linked v m ov written removed cur -> versions_of v ov k2v ->
  plain_entries written removed entries -> represents cur s -> Status.isOK st = true ->
  exists st' s', until_error (with_version v <$> es) apply st c s = Done st' c s' /\ Status.isOK st' = true /\
    represents (aentries v cur entries).2 s'.
Proof.
  intros Hes. revert written removed cur k2v st s.
  induction Hes as [|ov entry e entries es He _ IH]; intros written removed cur k2v st s Hl Hv Hp Hr Hst.
  { exists st, s. done. }
  destruct (entry_result_run v m ov written removed cur k2v 0 entry e entries He Hl Hv Hp) as (k2v' & lv' & _ & Hv' & Hl').
  destruct (apply_run v m ov written removed cur entry e entries c s He Hl Hp Hr) as (s1 & Hrun & Hr1).
  destruct (IH _ _ _ k2v' Status.ok s1 Hl' Hv' (plain_entries_next _ _ _ _ Hp) Hr1 ltac:(done)) as (st2 & s2 & Hrun2 & Hst2 & Hr2).
  exists st2, s2. cbn [fmap list_fmap until_error]. rewrite (bind_Done _ _ _ _ _ _ _ Hrun). split; [exact Hrun2|].
  split; [done|]. cbn [aentries]. destruct (aentry v cur entry) as [r1 m1]. cbn [fst snd] in *.
  by destruct (aentries v m1 entries) as [rs m2].
Qed.

(** ** The transaction as a whole *)

Lemma events_for_unversioned m ov entries es :
  events_for m ov entries es ->
  Forall unversioned es /\ Forall no_import es /\ length es = length entries /\
  (nonReadEvents es = [] -> forall v, with_version v <$> es = es).
Proof.
  induction 1 as [|ov entry e entries es He _ (IH1 & IH2 & IH3 & IH4)]; [done|].
  assert (unversioned e /\ no_import e /\ (is_nonread e = false -> forall v, with_version v e = e)) as (H1 & H2 & H3).
  { unfold unversioned, no_import. destruct entry as [w|r|d|]; cbn [event_for] in He; [| | |done].
    - destruct He as [t ->]. split; [by right|]. done.
    - destruct (look m ov (re_key r)) as [[v ver]|]; [subst e|destruct He as (ttl & ver & ->)]; (split; [by left|]; done).
    - destruct (look m ov (de_key d)) as [[v ver]|]; [case_bool_decide; subst e|destruct He as (ttl & ver & ->)];
        (split; [first [by left|by right]|]; done). }
  split; [by constructor|]. split; [by constructor|]. split; [cbn; lia|].
  unfold nonReadEvents. rewrite filter_cons. case_decide as Hd; [done|]. intros Hn v. cbn [fmap list_fmap].
  rewrite H3 by (by destruct (is_nonread e)). f_equal. by apply IH4.
Qed.

Lemma events_for_writes m ov entries es :
  events_for m ov entries es -> nonReadEvents es = [] -> Exists is_write_entry entries -> False.
Proof.
  induction 1 as [|ov entry e entries es He _ IH]; intros Hn Hw; [by apply Exists_nil in Hw|].
  unfold nonReadEvents in Hn. rewrite filter_cons in Hn. case_decide as Hd; [done|].
  apply Exists_cons in Hw as [Hw|Hw]; [|by apply IH]. destruct entry; [|done..]. destruct He as [t ->]. by apply Hd.
Qed.

Lemma getTargetKeys_plain req : Forall plain_one (tq_entries req) -> exists keys, getTargetKeys req = Some keys.
Proof.
  intros Hp. unfold getTargetKeys. assert (exists ks, mapM entry_key (tq_entries req) = Some ks) as [ks ->]; [|cbn; eauto].
  induction Hp as [|entry entries He _ [ks IH]]; [by exists []|]. destruct entry; [| | |done]; cbn; rewrite IH; cbn; eauto.
Qed.

Lemma represents_linked v m : linked v m ∅ ∅ ∅ m.
Proof. intros k. rewrite lookup_empty. split; [by intros []|done]. Qed.

Lemma execute_run m s req c :
  tq_allowStale req = false -> tq_isMetaReturned req = false -> Forall plain_cond (tq_preconds req) ->
  Forall plain_one (tq_entries req) -> represents m s ->
  exists st es c' s', execute req c s = Done (st, es, []) c' s' /\ represents m s' /\
    (if aconds m (tq_preconds req)
     then (Status.isOK st = true \/ Status.isNotFound st = true) /\ events_for m ∅ (tq_entries req) es /\
          (tq_entries req = [] -> Status.isOK st = true)
     else Status.isPrecondUnMatched st = true /\ es = []).
Proof.
  intros Hstale Hmeta Hconds Hbody Hr. unfold execute, isFollowerReadCmd. rewrite Hstale. cbn [andb].
  destruct (checkPrecond_run m s (tq_preconds req) Status.ok no_conds c Hr Hconds eq_refl) as (st1 & c1 & s1 & Hrun1 & Hr1 & Hst1).
  rewrite (bind_Done _ _ _ _ _ _ _ Hrun1). destruct (aconds m (tq_preconds req)).
  - rewrite Hst1. unfold bind at 1, secondsSinceEpoch at 1. rewrite Hmeta.
    destruct (execEntries_run m s1 ∅ empty_overlay (tq_entries req) st1 [] (later c1) (u32 (c1 O)) Hr1)
      as (st2 & o2 & es & c2 & s2 & Hrun2 & Hst2 & Hes & Hr2).
    { split; [done|]. intros k. by rewrite lookup_empty. }
    { done. }
    { by left. }
    rewrite (bind_Done _ _ _ _ _ _ _ Hrun2). exists st2, es, c2, s2. split; [done|]. split; [done|].
    split; [done|]. split; [done|]. intros Hnil. rewrite Hnil in Hrun2. cbn in Hrun2. run_in Hrun2. by simplify_eq.
  - assert (Status.isOK st1 = false) as Hno by (by destruct st1 as [[] ?]).
    rewrite Hno. exists st1, [], c1, s1. done.
Qed.

(** What the client is told by an effect. *)
Definition answer_of (x : Effect (InMemoryKVStore D)) : Response :=
  match x with
  | Reply r | ReplyAsync _ _ _ _ r _ | PersistAsync _ _ _ r _ => r
  end.

Lemma refused_code st : Status.isPrecondUnMatched st = true -> toResponseCode st = RC_PRECOND_NOT_MATCHED.
Proof. destruct st as [[] ?]; try done. Qed.

(** The methods of the command on a store. *)
Lemma trans_prepare req keys c s :
  getTargetKeys req = Some keys ->
  Command.prepare (command req) (initialResponse (command (S := InMemoryKVStore D) req)) c s =
    Done (Status.ok, TransResp (mkTransResponse empty_header [] []) []) c s.
Proof. intros Hk. cbn. unfold prepared, prepare. rewrite Hk. by destruct s. Qed.

Lemma trans_execute req st es c s c1 s1 :
  execute req c s = Done (st, es, []) c1 s1 ->
  Command.execute (command (S := InMemoryKVStore D) req) (TransResp (mkTransResponse empty_header [] []) []) c s =
    Done (st, es, TransResp (mkTransResponse empty_header [] []) []) c1 s1.
Proof. intros H. cbn. by rewrite (bind_Done _ _ _ _ _ _ _ H). Qed.

Lemma trans_finish req keys es c s :
  getTargetKeys req = Some keys ->
  Command.finish (command (S := InMemoryKVStore D) req) es c s =
    (let* st := until_error es apply Status.ok in ret st) c s.
Proof.
  intros Hk. cbn. unfold finish. rewrite Hk. unfold finish_events, bind.
  destruct (until_error es apply Status.ok c s) as [st c1 [b d]|]; [|done]. reflexivity.
Qed.

Lemma trans_response req vmax es results lv :
  es <> [] -> entry_results (tq_isMetaReturned req) (tq_entries req) es ∅ vmax = Some (results, lv) ->
  Command.initSuccessResponse (command (S := InMemoryKVStore D) req) vmax es
    (TransResp (mkTransResponse empty_header [] []) []) =
  Some (TransResp (mkTransResponse (set_h_latestVersion lv (set_h_code RC_OK empty_header)) results []) []).
Proof.
  intros Hes Hr. cbn. unfold initSuccessResponse. destruct es as [|x xs] eqn:E; [done|]. rewrite <- E in *.
  by rewrite Hr.
Qed.

(** A transaction without events is answered at once. *)
Lemma trans_refused req keys c (e : Engine (InMemoryKVStore D)) st c1 s1 :
  getTargetKeys req = Some keys -> execute req c (mKVStorePtr e) = Done (st, [], []) c1 s1 ->
  toResponseCode st = RC_OK \/ toResponseCode st = RC_PRECOND_NOT_MATCHED ->
  exists resp ks, doExecute None (command req) c e = Done tt c1 (add_effect (Reply (TransResp resp ks)) (set_kv s1 e)) /\
    h_code (tp_header resp) = toResponseCode st /\ tp_results resp = [].
Proof.
  intros Hk Hx Hcode.
  assert (exists resp, fillResponseAndReply (toResponseCode st) (Status.getDetail st) None
    (mkTransResponse (set_h_latestVersion (getCurMaxVersion (mVersionStorePtr e)) (set_h_code RC_OK empty_header)) [] []) =
    Some resp /\ h_code (tp_header resp) = toResponseCode st /\ tp_results resp = []) as (resp & Hf & Hc & Hr).
  { unfold fillResponseAndReply, fill_header. by destruct Hcode as [-> | ->]; eexists. }
  exists resp, []. split; [|done].
  eapply doExecute_refused; [by eapply trans_prepare|done|by eapply trans_execute| | |reflexivity|].
  - rewrite (trans_finish req keys) by done. reflexivity.
  - done.
  - cbn. cbn in Hf. rewrite Hf. done.
Qed.

(** The next version goes up by one, or stays if nothing is written. *)
Definition moves_on (entries : list ReadWriteEntry) (vs vs' : VersionStore) : Prop :=
  mNextVersion vs' = mNextVersion vs /\ ~ Exists is_write_entry entries \/ mNextVersion vs' = mNextVersion vs + 1.

(** A transaction with events. *)
Lemma trans_performed req keys c (e : Engine (InMemoryKVStore D)) m st es c1 s1 :
  plain_trans req -> getTargetKeys req = Some keys -> 0 <= mNextVersion (mVersionStorePtr e) < 2 ^ 64 - 1 ->
  execute req c (mKVStorePtr e) = Done (st, es, []) c1 s1 -> represents m s1 ->
  (Status.isOK st = true \/ Status.isNotFound st = true) -> events_for m ∅ (tq_entries req) es -> es <> [] ->
  exists e' x resp ks, doExecute None (command req) c e = Done tt c1 e' /\ effects e' = effects e ++ [x] /\
    answer_of x = TransResp resp ks /\ h_code (tp_header resp) = RC_OK /\
    tp_results resp = (aentries (mNextVersion (mVersionStorePtr e)) m (tq_entries req)).1 /\
    represents (aentries (mNextVersion (mVersionStorePtr e)) m (tq_entries req)).2 (mKVStorePtr e') /\
    moves_on (tq_entries req) (mVersionStorePtr e) (mVersionStorePtr e').
Proof.
  intros Hp Hk Hv Hx Hr Hst Hes Hne. set (v := mNextVersion (mVersionStorePtr e)).
  destruct (events_for_unversioned _ _ _ _ Hes) as (Hun & Hni & _ & Hreads).
  destruct (apply_events_run v m ∅ ∅ ∅ m (tq_entries req) es Status.ok c1 s1 ∅ Hes (represents_linked v m)
    ltac:(intros k; by rewrite !lookup_empty) (plain_body _ Hp) Hr eq_refl) as (st2 & s2 & Hap & Hst2 & Hr2).
  assert (forall vmax, exists lv, entry_results (tq_isMetaReturned req) (tq_entries req) (with_version v <$> es) ∅ vmax =
    Some ((aentries v m (tq_entries req)).1, lv)) as Hres.
  { intros vmax. rewrite (plain_meta _ Hp). eapply entry_results_run; [exact Hes|apply represents_linked| |apply Hp].
    intros k. by rewrite !lookup_empty. }
  assert ((Status.isOK st || Status.isNotFound st)%bool = true) as Hok by (destruct Hst as [-> | ->]; [done|by rewrite orb_true_r]).
  assert (with_version v <$> es <> []) as Hne' by (by intros ?%fmap_nil_inv).
  destruct (decide (nonReadEvents es = [])) as [Hn|Hn].
  - specialize (Hreads Hn v). rewrite Hreads in *. destruct (Hres (getCurMaxVersion (mVersionStorePtr e))) as (lv & Hlv).
    eexists _, _, _, _. split.
    { eapply doExecute_read with (f := st2); [by eapply trans_prepare|done|by eapply trans_execute|done..|by apply trans_response|].
      rewrite (trans_finish req keys) by done. by rewrite (bind_Done _ _ _ _ _ _ _ Hap). }
    split_and!; [reflexivity..|done|]. left. split; [done|]. exact (events_for_writes _ _ _ _ Hes Hn).
  - pose proof (allocate_any (mVersionStorePtr e)) as Hal.
    destruct (Hres (getCurMaxVersion (mkVersionStore (v + 1) (mMaxVersion (mVersionStorePtr e))))) as (lv & Hlv).
    eexists _, _, _, _. split.
    { eapply doExecute_replicated with (f := st2) (v := v); [by eapply trans_prepare|done|by eapply trans_execute|done..|
        by apply Hal|done|done|by apply trans_response|].
      rewrite (trans_finish req keys) by done. by rewrite (bind_Done _ _ _ _ _ _ _ Hap). }
    split_and!; [reflexivity..|done|]. by right.
Qed.

Lemma transaction_run req c (e : Engine (InMemoryKVStore D)) m :
  plain_trans req -> represents m (mKVStorePtr e) -> 0 <= mNextVersion (mVersionStorePtr e) < 2 ^ 64 - 1 ->
  let '(code, results, m') := atrans (mNextVersion (mVersionStorePtr e)) m (tq_preconds req) (tq_entries req) in
  exists c' e' x resp ks,
    doExecute None (command req) c e = Done tt c' e' /\ effects e' = effects e ++ [x] /\
    answer_of x = TransResp resp ks /\ h_code (tp_header resp) = code /\ tp_results resp = results /\
    represents m' (mKVStorePtr e') /\
    (code = RC_PRECOND_NOT_MATCHED /\ mVersionStorePtr e' = mVersionStorePtr e \/
     moves_on (tq_entries req) (mVersionStorePtr e) (mVersionStorePtr e')).
Proof.
  intros Hp Hr Hv.
  destruct (getTargetKeys_plain req (plain_entries_one _ _ _ (plain_body _ Hp))) as (keys & Hkeys).
  destruct (execute_run m (mKVStorePtr e) req c (plain_stale _ Hp) (plain_meta _ Hp) (plain_preconds _ Hp)
    (plain_entries_one _ _ _ (plain_body _ Hp)) Hr) as (st & es & c1 & s1 & Hrun & Hr1 & Hres).
  unfold atrans. destruct (aconds m (tq_preconds req)).
  - destruct Hres as (Hst & Hes & Hnil). destruct (events_for_unversioned _ _ _ _ Hes) as (_ & _ & Hlen & _).
    destruct (decide (es = [])) as [->|Hne].
    + destruct (tq_entries req) eqn:Et; [|done]. specialize (Hnil eq_refl).
      destruct (trans_refused req keys c e st c1 s1 Hkeys Hrun) as (resp & ks & Hd & Hc & Hre).
      { left. unfold toResponseCode. by rewrite Hnil. }
      cbn. eexists _, _, _, resp, ks. split; [exact Hd|]. split; [reflexivity|]. split; [done|].
      split; [rewrite Hc; unfold toResponseCode; by rewrite Hnil|]. split_and!; [done..|].
      right. left. split; [done|]. by intros []%Exists_nil.
    + destruct (trans_performed req keys c e m st es c1 s1 Hp Hkeys Hv Hrun Hr1 Hst Hes Hne) as (e' & x & resp & ks & H).
      destruct (aentries _ m (tq_entries req)) as [rs m']. exists c1, e', x, resp, ks. naive_solver.
  - destruct Hres as [Hst ->].
    destruct (trans_refused req keys c e st c1 s1 Hkeys Hrun) as (resp & ks & Hd & Hc & Hre).
    { right. by apply refused_code. }
    eexists _, _, _, resp, ks. split; [exact Hd|]. split; [reflexivity|]. split; [done|].
    split; [rewrite Hc; by apply refused_code|]. split_and!; [done..|by left].
Qed.


(** A read after a remove in the same transaction sees the removed value: the
    temporal store is not told of the remove. *)
Theorem read_after_remove_sees_the_value req c s m k v ver re :
  represents m s -> m !! k = Some (v, ver) -> re_key re = k ->
  tq_allowStale req = false -> tq_isMetaReturned req = false -> tq_preconds req = [] ->
  tq_entries req = [RWRemove (mkRemoveEntry k kInvalidVersion); RWRead re] ->
  exists st c' s', execute req c s =
    Done (st, [newDeleteEvent k v ver; newReadEvent k v INFINITE_TTL ver false], []) c' s'.
Proof.
  intros Hr Hk Hre Hst Hm Hc He.
  destruct (execute_run m s req c Hst Hm) as (st & es & c1 & s1 & Hrun & _ & Hres);
    [by rewrite Hc|rewrite He; by repeat constructor|done|].
  rewrite Hc in Hres. destruct Hres as (_ & Hes & _). rewrite He in Hes. exists st, c1, s1. rewrite Hrun.
  inversion Hes as [|? ? e1 ? es1 H1 Hes1]; subst. inversion Hes1 as [|? ? e2 ? es2 H2 Hes2]; subst.
  inversion Hes2; subst. cbn in H1, H2. unfold look in H1, H2. cbn in H1, H2. rewrite lookup_empty, Hk in H1, H2.
  rewrite bool_decide_eq_false_2 in H1 by naive_solver. by subst.
Qed.

End TransSpec.
