(* ===== verification/EngineContract.v ===== *)
(** * The engine and its clients

    What the components built on the engine ask of it ([KVEngine], kv-engine/KVEngine.h):
    the calls of [EngineOps] and the promise [EngineLaws], made in terms of a map from
    keys to values and versions that other clients may change between two calls.
    [processor_engine_laws] shows that a command processor with a single worker and the
    in-memory store keeps the promise. *)

From S2P Require Import Prelude Status Proto KVStore SharedMutex Lockable ProxyKVStore InMemoryKVStore VersionStore Event.
From S2P Require Import Command KVGetCommand KVDeleteCommand KVTransCommand KVEngineImpl CommandProcessor ProcessorSpec CommandsSpec TransSpec.

(** ** The interface *)

(** [KVEngine::get], [KVEngine::trans] and [KVEngine::exeBatch]. *)
Class EngineOps (E : Type) := {
  engGet : GetRequest -> M E GetResponse;
  engTrans : TransRequest -> M E TransResponse;
  engExeBatch : ExeBatchRequest -> M E ExeBatchResponse;
}.
#[global] Hint Mode EngineOps ! : typeclass_instances.

(** The versions in the map were allocated. *)
Definition versions_below (m : gmap string (string * Z)) (v : Z) : Prop :=
  forall k x ver, m !! k = Some (x, ver) -> 0 < ver < v.

(** The answer to a read. *)
Definition read_answer (m : gmap string (string * Z)) (k : string) : ReadResult :=
  match m !! k with
  | Some (value, ver) => mkReadResult RC_OK ver value 0 None
  | None => mkReadResult RC_KEY_NOT_EXIST kInvalidVersion "" 0 None
  end.

Definition plain_get (req : GetRequest) : Prop := gq_allowStale req = false /\ gq_isMetaReturned req = false.

(** [holds e m v]: the engine has the map [m] and allocates version [v] next. Before a call is
    served, others may take the map from [m] to [m1], where [evolves m m1], and allocate
    up to [slack] versions; a call then answers for [m1], or fails without effect. *)
Class EngineLaws (E : Type) (evolves : gmap string (string * Z) -> gmap string (string * Z) -> Prop)
    `{!EngineOps E} := {
  holds : E -> gmap string (string * Z) -> Z -> Prop;
  limit : Z;
  slack : Z;
  slack_nonneg : 0 <= slack;
  holds_versions e m v : holds e m v -> 0 < v /\ versions_below m v;
  get_law req c e m v : plain_get req -> holds e m v -> v + slack < limit ->
    exists resp c' e' m1 v1, engGet req c e = Done resp c' e' /\ evolves m m1 /\ v <= v1 <= v + slack /\ holds e' m1 v1 /\
      (h_code (gp_header resp) = RC_OK -> gp_result resp = read_answer m1 (re_key (gq_entry req)));
  batch_law req keys c e m v : bq_entries req = (fun k => RWRead (mkReadEntry k 0)) <$> keys ->
    holds e m v -> v + slack < limit ->
    exists resp c' e' m1 v1, engExeBatch req c e = Done resp c' e' /\ evolves m m1 /\ v <= v1 <= v + slack /\ holds e' m1 v1 /\
      (h_code (bp_header resp) = RC_OK ->
       Forall2 (fun k r => exists mi, evolves m mi /\ evolves mi m1 /\ r = ReadRes (read_answer mi k)) keys (bp_results resp));
  trans_law req c e m v : plain_trans req -> holds e m v -> v + slack < limit ->
    exists resp c' e' m1 v1 m2 v2, engTrans req c e = Done resp c' e' /\ evolves m m1 /\ v <= v1 <= v + slack /\
      versions_below m1 v1 /\ holds e' m2 v2 /\ v1 <= v2 <= v1 + 1 /\
      (atrans v1 m1 (tq_preconds req) (tq_entries req) = (h_code (tp_header resp), tp_results resp, m2) \/
       h_code (tp_header resp) <> RC_OK /\ m2 = m1);
}.
#[global] Hint Mode EngineLaws ! - - : typeclass_instances.
Arguments limit E {_ _ _}.
Arguments slack E {_ _ _}.
Arguments slack_nonneg E {_ _ _}.

(** ** A command processor with one worker *)

Section ProcessorEngine.
Context {D : Type} `{!KVStore D} {IPS : NodeIps}.
Implicit Types (e : Engine (InMemoryKVStore D)) (m : gmap string (string * Z)).

(** The command is run by the worker of a leader and its answer, once the entries it waits for
    are committed, is given to the caller. *)
Definition serve (cmd : Command (InMemoryKVStore D)) : M (Engine (InMemoryKVStore D)) Response :=
  doExecute None cmd ;;;
  let* after := get in
  match last (effects after) with
  | Some x => ret (answer_of x)
  | None => stop WouldBlock
  end.

Fixpoint serveEntries (header : RequestHeader) (entries : list ReadWriteEntry)
    : M (Engine (InMemoryKVStore D)) (list (ResponseHeader * ReadWriteResult)) :=
  match entries with
  | [] => ret []
  | entry :: entries =>
      match entry_command header entry with
      | None => stop WouldBlock
      | Some cmd =>
          let* r := serve cmd in
          match result_of r with
          | None => stop Undefined
          | Some a => let* l := serveEntries header entries in ret (a :: l)
          end
      end
  end.

#[export] Instance processor_engine : EngineOps (Engine (InMemoryKVStore D)) := {
  engGet req := let* r := serve (KVGetCommand.command req) in
                match r with GetResp r => ret r | _ => stop Undefined end;
  engTrans req := let* r := serve (KVTransCommand.command req) in
                  match r with TransResp r _ => ret r | _ => stop Undefined end;
  engExeBatch req := let* l := serveEntries (bq_header req) (bq_entries req) in
                     ret (mkExeBatchResponse (batch_header (set_h_code RC_OK empty_header) l.*1) l.*2);
}.

Definition processor_holds e m (v : Z) : Prop :=
  represents m (mKVStorePtr e) /\ v = mNextVersion (mVersionStorePtr e) /\ 0 < v /\ versions_below m v.

Lemma serve_run cmd c e c' e' x :
  doExecute None cmd c e = Done tt c' e' -> effects e' = effects e ++ [x] -> serve cmd c e = Done (answer_of x) c' e'.
Proof. intros H Hx. unfold serve. rewrite (bind_Done _ _ _ _ _ _ _ H). run. by rewrite Hx, last_snoc. Qed.

(** A get is answered from the map. *)
Lemma get_serve_run req c e m v :
  plain_get req -> processor_holds e m v ->
  exists resp c' e', serve (KVGetCommand.command req) c e = Done (GetResp resp) c' e' /\ processor_holds e' m v /\
    h_code (gp_header resp) = RC_OK /\ gp_result resp = read_answer m (re_key (gq_entry req)).
Proof.
  intros [Hs Hm] (Hr & Hv & Hpos & Hbelow). set (k := re_key (gq_entry req)).
  destruct (mKVStorePtr e) as [b d] eqn:Ee.
  destruct (read_run m _ k c Hr) as ([st [x ttl ver]] & c' & s' & Hrun & Has & Hr').
  set (ev := newReadEvent k x ttl ver (Status.isNotFound st)).
  assert (KVGetCommand.execute req c (mkInMemory b d) = Done (st, [ev]) c' s') as Hx.
  { unfold KVGetCommand.execute, KVGetCommand.isFollowerReadCmd. rewrite Hs. fold k. unfold bind. rewrite Hrun. unfold ev.
    destruct (m !! k) as [[y yv]|]; cbn in Has; [injection Has as -> -> -> ->; cbn; by rewrite Hm|].
    destruct Has as (-> & _ & _). done. }
  assert (Status.isOK st || Status.isNotFound st = true)%bool as Hst.
  { destruct (m !! k) as [[y yv]|]; cbn in Has; [by injection Has as -> _ _ _|]. destruct Has as (-> & _ & _). by rewrite orb_true_r. }
  assert (exists resp, KVGetCommand.initSuccessResponse req (getCurMaxVersion (mVersionStorePtr e)) [ev]
    (mkGetResponse empty_header empty_read_result) = Some resp /\ h_code (gp_header resp) = RC_OK /\
    gp_result resp = read_answer m k) as (resp & Hresp & Hcode & Hres).
  { unfold read_answer, ev. destruct (m !! k) as [[y yv]|]; cbn in Has.
    - injection Has as -> -> -> ->. eexists. cbn. rewrite Hm. split_and!; reflexivity.
    - destruct Has as (Hnf & _ & ->). eexists. cbn. rewrite Hnf. split_and!; reflexivity. }
  destruct s' as [b' d'].
  assert (doExecute None (KVGetCommand.command req) c e = Done tt c' (mkEngine (mkInMemory b' d')
    (mVersionStorePtr e) (mCurTerm e) (raftLastSentIndex e) (effects e ++ [ReplyAsync 0 (mCurTerm e)
    (maxReadVersion (getCurMaxVersion (mVersionStorePtr e)) [ev]) (KVGetCommand.command req) (GetResp resp) false]))) as Hdo.
  { eapply doExecute_read with (f := Status.ok).
    + rewrite Ee. reflexivity.
    + reflexivity.
    + cbn. unfold plain, bind. rewrite Hx. reflexivity.
    + done.
    + discriminate.
    + by repeat constructor.
    + reflexivity.
    + reflexivity.
    + exact (f_equal (fmap GetResp) Hresp).
    + reflexivity. }
  eexists resp, _, _. split; [exact (serve_run _ _ _ _ _ _ Hdo eq_refl)|]. by split_and!.
Qed.

(** A delete on the map: of any version, or of the version that is asked for. *)
Definition remove_answer m (req : DeleteRequest) : RemoveResult * gmap string (string * Z) :=
  let key := de_key (dq_entry req) in
  let targetVersion := de_version (dq_entry req) in
  match m !! key with
  | Some (x, ver) =>
      if bool_decide (targetVersion <> kInvalidVersion /\ targetVersion <> ver) then (mkRemoveResult RC_KEY_NOT_EXIST kInvalidVersion "", m)
      else (mkRemoveResult RC_OK ver (if dq_returnValue req then x else ""), delete key m)
  | None => (mkRemoveResult RC_KEY_NOT_EXIST kInvalidVersion "", m)
  end.

Lemma delete_serve_run req c e m v :
  processor_holds e m v -> v < 2 ^ 64 - 1 ->
  exists resp c' e', serve (KVDeleteCommand.command req) c e = Done (DeleteResp resp) c' e' /\ dp_result resp = (remove_answer m req).1 /\
    represents (remove_answer m req).2 (mKVStorePtr e').
Proof.
  intros (Hr & Hv & Hpos & _) Hlt. pose proof Hr as Hrep. unfold remove_answer. set (k := de_key (dq_entry req)).
  destruct (mKVStorePtr e) as [b d] eqn:Ee. destruct (read_run m _ k c Hr) as ([st [x ttl ver]] & c' & [b' d'] & Hrun & Has & Hr').
  destruct (m !! k) as [[y yv]|] eqn:Em; cbn in Has; [injection Has as -> -> -> ->|].
  - case_bool_decide as Hbv.
    + destruct (delete_run_kept req c e Status.ok (mkOut y INFINITE_TTL yv) c' (mkInMemory b' d')) as (r & n & Hres & Hdo); [by rewrite Ee|by right|].
      eexists r, _, _. split; [exact (serve_run _ _ _ _ _ _ Hdo eq_refl)|]. done.
    + pose proof (Hr' k) as Hk. rewrite Em in Hk. destruct Hk as (en & Hen & _).
      destruct (delete_run req c e y INFINITE_TTL yv c' (mkInMemory b' d') (mkInMemory (bury k (next_version e) b') d') Status.ok) as (r & dd & Hres & _ & _ & _ & Hdo).
      * destruct (decide (de_version (dq_entry req) = kInvalidVersion)); [by left|]. right. apply dec_stable. tauto.
      * by rewrite Ee.
      * by eapply deleteKV_live.
      * unfold next_version. lia.
      * eexists r, _, _. split; [exact (serve_run _ _ _ _ _ _ Hdo eq_refl)|]. split; [done|]. by apply represents_delete.
  - destruct Has as (Hnf & _ & _). destruct (delete_run_kept req c e st (mkOut x ttl ver) c' (mkInMemory b' d')) as (r & n & Hres & Hdo); [by rewrite Ee|by left|].
    eexists r, _, _. split; [exact (serve_run _ _ _ _ _ _ Hdo eq_refl)|]. done.
Qed.

Lemma serveEntries_run header keys : forall c e m v,
  processor_holds e m v ->
  exists l c' e', serveEntries header ((fun k => RWRead (mkReadEntry k 0)) <$> keys) c e = Done l c' e' /\
    processor_holds e' m v /\ Forall (fun h => h_code h = RC_OK) l.*1 /\ l.*2 = (fun k => ReadRes (read_answer m k)) <$> keys.
Proof.
  induction keys as [|k keys IH]; intros c e m v He.
  - by exists [], c, e.
  - destruct (get_serve_run (mkGetRequest header (mkReadEntry k 0) false false) c e m v ltac:(done) He)
      as (resp & c1 & e1 & H1 & He1 & Hc & Hres).
    destruct (IH c1 e1 m v He1) as (l & c' & e' & H2 & He' & Hl & Hl2).
    exists ((gp_header resp, ReadRes (gp_result resp)) :: l), c', e'. split_and!; [|done|by constructor|].
    + cbn. rewrite (bind_Done _ _ _ _ _ _ _ H1). cbn. by rewrite (bind_Done _ _ _ _ _ _ _ H2).
    + cbn. by rewrite Hres, Hl2.
Qed.

#[export] Instance processor_engine_laws : EngineLaws (Engine (InMemoryKVStore D)) eq.
Proof.
  refine {| holds := processor_holds; limit := 2 ^ 64 - 1; slack := 0 |}.
  - done.
  - by intros e m v (_ & _ & ? & ?).
  - intros req c e m v Hp He _.
    destruct (get_serve_run req c e m v Hp He) as (resp & c' & e' & H & He' & _ & Hres).
    exists resp, c', e', m, v. split_and!; [|done|lia|lia|done|done].
    cbn. by rewrite (bind_Done _ _ _ _ _ _ _ H).
  - intros req keys c e m v Hreq He _.
    destruct (serveEntries_run (bq_header req) keys c e m v He) as (l & c' & e' & H & He' & Hl & Hl2).
    eexists _, c', e', m, v. split; [cbn; rewrite Hreq, (bind_Done _ _ _ _ _ _ _ H); reflexivity|].
    split_and!; [done|lia|lia|done|]. intros _. cbn. rewrite Hl2. apply Forall2_fmap_r.
    apply Forall_Forall2_diag, Forall_forall. intros k _. by exists m.
  - intros req c e m v Hp (Hr & -> & Hpos & Hbelow) Hlim.
    pose proof (transaction_run req c e m Hp Hr ltac:(lia)) as H.
    pose proof (aentries_versions (mNextVersion (mVersionStorePtr e)) (tq_entries req) m) as Hver.
    destruct (atrans _ m _ _) as [[code results] m'] eqn:Ea.
    destruct H as (c' & e' & x & resp & ks & H1 & H2 & H3 & H4 & H5 & H6 & H7).
    exists resp, c', e', m, (mNextVersion (mVersionStorePtr e)), m', (mNextVersion (mVersionStorePtr e')).
    assert (mNextVersion (mVersionStorePtr e) <= mNextVersion (mVersionStorePtr e') <= mNextVersion (mVersionStorePtr e) + 1)
      as Hnext by (destruct H7 as [[_ ->]|[[-> _]| ->]]; lia).
    split_and!; [|done|lia|lia|done| |lia|lia|left; by rewrite H4, H5].
    + cbn. rewrite (bind_Done _ _ _ _ _ _ _ (serve_run _ _ _ _ _ _ H1 H2)), H3. done.
    + split_and!; [done|done|lia|]. intros k y ver Hk. unfold atrans in Ea. destruct (aconds m (tq_preconds req)).
      * destruct (aentries _ m _) as [rs m''] eqn:E. injection Ea as <- <- <-. cbn in Hver.
        destruct (Hver k y ver Hk) as [Hk'|[-> Hw]]; [specialize (Hbelow k y ver Hk'); lia|].
        destruct H7 as [[? _]|[[_ ?]|Hnx]]; [done|done|lia].
      * injection Ea as <- <- <-. specialize (Hbelow k y ver Hk). lia.
Defined.

End ProcessorEngine.
