(* ===== verification/Serial.v ===== *)
(** * Commands at the same time

    [CommandProcessor::doExecute] (kv-engine/execution/CommandProcessor.cpp) runs on many threads at once: a command locks the
    segments of its keys, reads, gets its version and its place in the log in one step
    ([VersionStore::allocateNextVersion] calls [persistAsync] under its mutex), applies its events, and unlocks. Locking.v
    has the mutexes. Here the threads also read and write what the locks protect, a key at a time; what a command
    computes from what it has read is the contract of TransSpec.v and EngineContract.v, which the
    processor keeps ([processor_performs]). Keys have no ttl. *)

From stdpp Require Import sorting.
From S2P Require Import Prelude Status Proto KVStore SharedMutex InMemoryKVStore Sharding ConcurInMemoryKVStore WSConcurInMemoryKVStore.
From S2P Require Import VersionStore Command KVPutCommand KVGetCommand KVDeleteCommand KVTransCommand CommandProcessor CommandsSpec Locking TransSpec EngineContract Instances.

Abbreviation AMap := (gmap string (string * Z)) (only parsing).

(** ** Commands on a map *)

Inductive Request :=
| GetReq (req : GetRequest)
| PutReq (req : PutRequest)
| DeleteReq (req : DeleteRequest)
| TransReq (req : TransRequest).

Inductive Answer :=
| GetAns (r : ReadResult)
| PutAns (version : Z)
| DeleteAns (r : RemoveResult)
| TransAns (code : ResponseCode) (results : list ReadWriteResult).

(** [getTargetKeys] *)
Definition keys_of (r : Request) : list KeyType :=
  match r with
  | GetReq req => [re_key (gq_entry req)]
  | PutReq req => [we_key (pq_entry req)]
  | DeleteReq req => [de_key (dq_entry req)]
  | TransReq req => default [] (KVTransCommand.getTargetKeys req)
  end.

(** The mode of [prepare]. *)
Definition exclusive (r : Request) : bool := match r with GetReq _ => false | _ => true end.

(** The answer and the map after the command, under version [v]. *)
Definition run_on (r : Request) (v : Z) (m : AMap) : Answer * AMap :=
  match r with
  | GetReq req => (GetAns (read_answer m (re_key (gq_entry req))), m)
  | PutReq req => (PutAns v, <[we_key (pq_entry req) := (we_value (pq_entry req), v)]> m)
  | DeleteReq req => let '(r, m') := remove_answer m req in (DeleteAns r, m')
  | TransReq req => let '(code, results, m') := atrans v m (tq_preconds req) (tq_entries req) in (TransAns code results, m')
  end.

(** A transaction with an entry of no kind stops the process before it locks. *)
Definition request_ok (r : Request) : Prop :=
  match r with TransReq req => is_Some (KVTransCommand.getTargetKeys req) | _ => True end.

Definition agree (ks : list KeyType) (m1 m2 : AMap) : Prop := forall k, k ∈ ks -> m1 !! k = m2 !! k.

(** The command processor performs a request so: it gives the answer and leaves the map. *)
Section Processor.
Context {D : Type} `{!KVStore D} {IPS : NodeIps}.

Definition command_of (r : Request) : Command (InMemoryKVStore D) :=
  match r with
  | GetReq req => KVGetCommand.command req
  | PutReq req => KVPutCommand.command req
  | DeleteReq req => KVDeleteCommand.command req
  | TransReq req => KVTransCommand.command req
  end.

Definition plain_request (r : Request) : Prop :=
  match r with
  | GetReq req => plain_get req
  | PutReq req => we_enableTTL (pq_entry req) = false
  | DeleteReq _ => True
  | TransReq req => plain_trans req
  end.

Definition answers (resp : Response) (a : Answer) : Prop :=
  match resp, a with
  | GetResp g, GetAns r => gp_result g = r
  | PutResp p, PutAns v => wr_code (pp_result p) = RC_OK /\ wr_version (pp_result p) = v
  | DeleteResp d, DeleteAns r => dp_result d = r
  | TransResp t _, TransAns code results => h_code (tp_header t) = code /\ tp_results t = results
  | _, _ => False
  end.

Theorem processor_performs r c (e : Engine (InMemoryKVStore D)) m v :
  plain_request r -> processor_holds e m v -> v < 2 ^ 64 - 1 ->
  exists resp c' e', serve (command_of r) c e = Done resp c' e' /\ answers resp (run_on r v m).1 /\
    represents (run_on r v m).2 (mKVStorePtr e').
Proof.
  intros Hp Hh Hv. pose proof Hh as (Hr & Hnv & Hpos & Hbelow). destruct r as [req|req|req|req]; cbn in Hp.
  - destruct (get_serve_run req c e m v Hp Hh) as (resp & c' & e' & Hs & (Hr' & _) & _ & Hres). by exists (GetResp resp), c', e'.
  - destruct (put_run req c e Hp) as (r & Hc & Hver & Hrun); [unfold next_version; lia|].
    eexists (PutResp r), _, _. split; [exact (serve_run _ _ _ _ _ _ Hrun eq_refl)|]. split; [cbn; unfold next_version in Hver; by rewrite Hnv|].
    unfold next_version. rewrite <- Hnv. cbn. destruct (mKVStorePtr e) as [b d]. by apply represents_insert.
  - destruct (delete_serve_run req c e m v Hh Hv) as (resp & c' & e' & Hs & Hres & Hrep). exists (DeleteResp resp), c', e'. cbn.
    by destruct (remove_answer m req).
  - pose proof (transaction_run req c e m Hp Hr ltac:(lia)) as H. cbn. rewrite <- Hnv in H. destruct (atrans v m _ _) as [[code results] m'].
    destruct H as (c' & e' & x & resp & ks & Hd & He & Ha & Hcode & Hres & Hrep & _). exists (TransResp resp ks), c', e'.
    split; [rewrite <- Ha; by eapply serve_run|]. done.
Qed.

End Processor.

(** ** Threads *)

Section Serial.
Context {HASH : StdHash} {LOOKUP : WSLookup} (reqs : list Request) (m0 : AMap).

(** The mutex of a key. *)
Definition mutex_of (k : KeyType) : WSName * nat := (mDefaultWSLookupFunc k, calculateSegmentIndex k).

(** Between [lock] and [unlock]: [view] is what was read; [rest] are the keys whose events are not applied yet, of a command that
    has its version and leaves [target]. *)
Inductive Phase :=
| Reading (view : gmap string (option (string * Z)))
| Writing (rest : list KeyType) (target : AMap)
| Finished.

(** [order] are the commands in the order they got their place in the log, or were done reading, with version and answer. *)
Record State := mkState {
  locks : Config (K := WSName * nat);
  phases : list Phase;
  mem : AMap;
  next : Z;
  order : list (nat * Z * Answer);
}.

Definition initial (v : Z) : State :=
  mkState (start ((fun r => (keys_of r, exclusive r)) <$> reqs)) (replicate (length reqs) (Reading ∅)) m0 v [].

(** The values that were read. *)
Definition seen (view : gmap string (option (string * Z))) : AMap := omap id view.

Definition set_key (k : KeyType) (x : option (string * Z)) (m : AMap) : AMap := partial_alter (fun _ => x) k m.

(** A command that did not change anything may do without a version of its own. *)
Inductive step : State -> State -> Prop :=
| s_acquire ms l1 l2 e h k td m' ph m v o :
    acquire e (ms k) = Some m' ->
    step (mkState (ms, l1 ++ Locking.mkThread e h (k :: td) :: l2) ph m v o)
         (mkState (upd ms k m', l1 ++ Locking.mkThread e (k :: h) td :: l2) ph m v o)
| s_release ms l1 l2 e h1 k h2 m' ph m v o :
    release e (ms k) = Some m' -> ph !! length l1 = Some Finished ->
    step (mkState (ms, l1 ++ Locking.mkThread e (h1 ++ k :: h2) [] :: l2) ph m v o)
         (mkState (upd ms k m', l1 ++ Locking.mkThread e (h1 ++ h2) [] :: l2) ph m v o)
| s_read i r t view k cfg ph m v o :
    reqs !! i = Some r -> cfg.2 !! i = Some t -> todo t = [] -> ph !! i = Some (Reading view) -> k ∈ keys_of r ->
    step (mkState cfg ph m v o) (mkState cfg (<[i := Reading (<[k := m !! k]> view)]> ph) m v o)
| s_commit i r t view cfg ph m v v' o :
    reqs !! i = Some r -> cfg.2 !! i = Some t -> todo t = [] -> ph !! i = Some (Reading view) ->
    (forall k, k ∈ keys_of r -> is_Some (view !! k)) -> v <= v' -> ((run_on r v (seen view)).2 <> seen view -> v < v') ->
    step (mkState cfg ph m v o)
         (mkState cfg (<[i := if exclusive r then Writing (keys_of r) (run_on r v (seen view)).2 else Finished]> ph) m v'
                  (o ++ [(i, v, (run_on r v (seen view)).1)]))
| s_write i k rest target cfg ph m v o :
    ph !! i = Some (Writing (k :: rest) target) ->
    step (mkState cfg ph m v o) (mkState cfg (<[i := Writing rest target]> ph) (set_key k (target !! k) m) v o)
| s_finish i target cfg ph m v o :
    ph !! i = Some (Writing [] target) ->
    step (mkState cfg ph m v o) (mkState cfg (<[i := Finished]> ph) m v o).

(** ** One after the other *)

(** The commands of [l] performed on the map in that order. *)
Definition perform_one (m : AMap) (x : nat * Z * Answer) : AMap :=
  match reqs !! x.1.1 with Some r => (run_on r x.1.2 m).2 | None => m end.
Definition serial (l : list (nat * Z * Answer)) : AMap := foldl perform_one m0 l.

(** *** Commands look at their keys only *)

Lemma aentry_local v entry m1 m2 ks : (forall k, entry_key entry = Some k -> k ∈ ks) -> agree ks m1 m2 ->
  (aentry v m1 entry).1 = (aentry v m2 entry).1 /\ agree ks (aentry v m1 entry).2 (aentry v m2 entry).2.
Proof.
  intros Hk Ha. destruct entry as [w|rd|d|]; cbn in *.
  - split; [done|]. intros k Hin. destruct (decide (k = we_key w)) as [->|]; [by rewrite !lookup_insert_eq|].
    rewrite !lookup_insert_ne by done. by apply Ha.
  - split; [|done]. by rewrite (Ha _ (Hk _ eq_refl)).
  - rewrite (Ha _ (Hk _ eq_refl)). destruct (m2 !! de_key d) as [[y yv]|]; [|done]. case_bool_decide; [done|]. split; [done|].
    cbn. intros k Hin. destruct (decide (k = de_key d)) as [->|]; [by rewrite !lookup_delete_eq|]. rewrite !lookup_delete_ne by done. by apply Ha.
  - done.
Qed.

Lemma aentries_local v entries ks : forall m1 m2, (forall entry k, entry ∈ entries -> entry_key entry = Some k -> k ∈ ks) -> agree ks m1 m2 ->
  (aentries v m1 entries).1 = (aentries v m2 entries).1 /\ agree ks (aentries v m1 entries).2 (aentries v m2 entries).2.
Proof.
  induction entries as [|entry entries IH]; intros m1 m2 Hk Ha; [done|]. cbn.
  destruct (aentry_local v entry m1 m2 ks (fun k => Hk entry k ltac:(left)) Ha) as [H1 H2].
  destruct (aentry v m1 entry) as [r1 n1], (aentry v m2 entry) as [r2 n2]. cbn in H1, H2.
  destruct (IH n1 n2 (fun e k H => Hk e k ltac:(by right)) H2) as [H3 H4].
  destruct (aentries v n1 entries), (aentries v n2 entries). cbn in *. by subst.
Qed.

Lemma aentries_frame v entries k : forall m, (forall entry, entry ∈ entries -> entry_key entry <> Some k) -> (aentries v m entries).2 !! k = m !! k.
Proof.
  induction entries as [|entry entries IH]; intros m Hk; [done|]. cbn. pose proof (Hk entry ltac:(left)) as Hne.
  assert ((aentry v m entry).2 !! k = m !! k) as Hone.
  { destruct entry as [w|rd|d|]; cbn in *; [by rewrite lookup_insert_ne by congruence|done| |done].
    destruct (m !! de_key d) as [[y yv]|]; [|done]. case_bool_decide; [done|]. cbn. by rewrite lookup_delete_ne by congruence. }
  destruct (aentry v m entry) as [r n]. specialize (IH n (fun e H => Hk e ltac:(by right))). destruct (aentries v n entries). cbn in *. congruence.
Qed.

Lemma aconds_local conds m1 m2 ks : (forall cond k, cond ∈ conds -> k ∈ cond_keys cond -> k ∈ ks) -> agree ks m1 m2 -> aconds m1 conds = aconds m2 conds.
Proof.
  intros Hk Ha. unfold aconds. induction conds as [|cond conds IH]; [done|]. cbn. rewrite IH by (intros c k Hc; apply Hk; by right).
  f_equal. specialize (Hk cond). destruct cond as [key ver op|key b| |]; cbn in *; [| |done|done];
    by rewrite (Ha key) by (apply (Hk key); [left|by apply list_elem_of_singleton]).
Qed.

Lemma target_keys req ks : KVTransCommand.getTargetKeys req = Some ks ->
  (forall cond k, cond ∈ tq_preconds req -> k ∈ cond_keys cond -> k ∈ ks) /\
  (forall entry k, entry ∈ tq_entries req -> entry_key entry = Some k -> k ∈ ks).
Proof.
  unfold KVTransCommand.getTargetKeys. destruct (mapM entry_key (tq_entries req)) as [eks|] eqn:E; [|done]. intros [= <-].
  apply mapM_Some in E. split.
  - intros cond k Hc Hk. apply elem_of_set_of_list, elem_of_app. left. apply list_elem_of_bind. by exists cond.
  - intros entry k [i Hi]%list_elem_of_lookup Hk. apply elem_of_set_of_list, elem_of_app. right.
    destruct (Forall2_lookup_l _ _ _ _ _ E Hi) as (k' & Hk' & Hek). rewrite Hk in Hek. injection Hek as <-. by eapply list_elem_of_lookup_2.
Qed.

Lemma run_local r v m1 m2 : request_ok r -> agree (keys_of r) m1 m2 ->
  (run_on r v m1).1 = (run_on r v m2).1 /\ agree (keys_of r) (run_on r v m1).2 (run_on r v m2).2.
Proof.
  intros Hok Ha. destruct r as [req|req|req|req]; cbn in *.
  - unfold read_answer. by rewrite (Ha (re_key (gq_entry req))) by left.
  - split; [done|]. intros k [->|Hk]%elem_of_cons; [by rewrite !lookup_insert_eq|by apply elem_of_nil in Hk].
  - unfold remove_answer. rewrite (Ha (de_key (dq_entry req))) by left. destruct (m2 !! de_key (dq_entry req)) as [[x ver]|]; [|done].
    case_bool_decide; [done|]. split; [done|]. intros k [->|Hk]%elem_of_cons; cbn; [by rewrite !lookup_delete_eq|by apply elem_of_nil in Hk].
  - destruct Hok as [ks Hks]. rewrite Hks in *. cbn in *. destruct (target_keys req ks Hks) as [Hc He].
    unfold atrans. rewrite (aconds_local _ m1 m2 ks Hc Ha). destruct (aconds m2 (tq_preconds req)); [|done].
    destruct (aentries_local v (tq_entries req) ks m1 m2 He Ha) as [H1 H2].
    destruct (aentries v m1 (tq_entries req)), (aentries v m2 (tq_entries req)). cbn in *. by subst.
Qed.

Lemma run_frame r v m k : request_ok r -> k ∉ keys_of r -> (run_on r v m).2 !! k = m !! k.
Proof.
  intros Hok Hk. destruct r as [req|req|req|req]; cbn in *; [done| | |].
  - rewrite lookup_insert_ne; [done|]. intros <-. apply Hk. left.
  - unfold remove_answer. destruct (m !! de_key (dq_entry req)) as [[x ver]|]; [|done]. case_bool_decide; [done|]. cbn.
    apply lookup_delete_ne. intros <-. apply Hk. left.
  - destruct Hok as [ks Hks]. rewrite Hks in *. cbn in *. destruct (target_keys req ks Hks) as [_ He].
    unfold atrans. destruct (aconds m (tq_preconds req)); [|done]. pose proof (aentries_frame v (tq_entries req) k m) as H.
    destruct (aentries v m (tq_entries req)). cbn in *. apply H. intros entry Hin Hek. apply Hk. by eapply He.
Qed.

Lemma run_shared r v m : exclusive r = false -> (run_on r v m).2 = m.
Proof. by destruct r. Qed.

(** *** A command has the mutexes of its keys *)

Lemma ws2Keys_add_covers name key acc :
  (exists l, (name, l) ∈ ws2Keys_add name key acc /\ key ∈ l) /\
  forall n l, (n, l) ∈ acc -> exists l', (n, l') ∈ ws2Keys_add name key acc /\ forall x, x ∈ l -> x ∈ l'.
Proof.
  induction acc as [|[n ks] acc [IH1 IH2]]; cbn.
  { split; [exists [key]; split; left|]. by intros n l H%elem_of_nil. }
  destruct (String.compare name n) eqn:E.
  - apply String.compare_eq_iff in E as ->. split.
    + eexists. split; [left|]. apply elem_of_set_insert. by left.
    + intros n' l [[= -> ->]|H]%elem_of_cons; [eexists; split; [left|]; intros x Hx; apply elem_of_set_insert; by right|].
      exists l. split; [by right|done].
  - split; [exists [key]; split; left|]. intros n' l H. exists l. split; [by right|done].
  - split; [destruct IH1 as (l & Hl & Hk); exists l; split; [by right|done]|].
    intros n' l [[= -> ->]|H]%elem_of_cons; [exists ks; split; [left|done]|]. destruct (IH2 n' l H) as (l' & Hl' & Hs). exists l'. split; [by right|done].
Qed.

Lemma mutex_of_footprint ks k : k ∈ ks -> mutex_of k ∈ ws_segments (ws2Keys ks).
Proof.
  intros Hk. assert (exists l, (mDefaultWSLookupFunc k, l) ∈ ws2Keys ks /\ k ∈ l) as (l & Hl & Hkl).
  { unfold ws2Keys. generalize (@nil (WSName * list KeyType)) as acc. revert Hk. induction ks as [|x ks IH]; intros Hk acc; [by apply elem_of_nil in Hk|].
    cbn [fold_left]. apply elem_of_cons in Hk as [->|Hk]; [|by apply IH].
    destruct (ws2Keys_add_covers (mDefaultWSLookupFunc x) x acc) as [H _]. revert H.
    generalize (ws2Keys_add (mDefaultWSLookupFunc x) x acc) as acc'. clear. induction ks as [|y ks IH]; intros acc' (l & Hl & Hx); [by exists l|].
    cbn [fold_left]. apply IH. destruct (ws2Keys_add_covers (mDefaultWSLookupFunc y) y acc') as [_ H]. destruct (H _ _ Hl) as (l' & Hl' & Hs).
    exists l'. split; [done|by apply Hs]. }
  unfold ws_segments. apply list_elem_of_bind. exists (mDefaultWSLookupFunc k, l). split; [|done]. apply list_elem_of_fmap. eexists. split; [reflexivity|].
  apply elem_of_indexFlags. by exists k.
Qed.

(** ** Invariant *)

(** Command [i] has all its locks and has not begun to give them back. *)
Definition inside (s : State) (i : nat) : Prop :=
  exists t p, (locks s).2 !! i = Some t /\ todo t = [] /\ phases s !! i = Some p /\ p <> Finished.

Record serial_ok (s : State) : Prop := {
  so_locks : inv ws_before (locks s);
  so_threads : length (locks s).2 = length reqs;
  so_phases : length (phases s) = length reqs;
  so_mode i t r : (locks s).2 !! i = Some t -> reqs !! i = Some r -> excl t = exclusive r;
  so_keys i t r p k : (locks s).2 !! i = Some t -> reqs !! i = Some r -> phases s !! i = Some p -> p <> Finished -> k ∈ keys_of r ->
    mutex_of k ∈ held t \/ mutex_of k ∈ todo t;
  so_todo i t p : (locks s).2 !! i = Some t -> phases s !! i = Some p -> p <> Reading ∅ -> todo t = [];
  so_writing i r rest target : reqs !! i = Some r -> phases s !! i = Some (Writing rest target) ->
    exclusive r = true /\ (forall k, k ∈ rest -> k ∈ keys_of r) /\
    forall k, k ∈ keys_of r -> serial (order s) !! k = if decide (k ∈ rest) then target !! k else mem s !! k;
  so_mem k : (forall i r rest target, reqs !! i = Some r -> phases s !! i = Some (Writing rest target) -> k ∉ keys_of r) ->
    mem s !! k = serial (order s) !! k;
  so_reading i r view k x : reqs !! i = Some r -> phases s !! i = Some (Reading view) -> view !! k = Some x ->
    k ∈ keys_of r /\ serial (order s) !! k = x;
  so_answers p i v a : order s !! p = Some (i, v, a) -> exists r, reqs !! i = Some r /\ a = (run_on r v (serial (take p (order s)))).1;
  so_once : NoDup (order s).*1.*1;
  so_committed i p : phases s !! i = Some p -> (exists view, p = Reading view) <-> i ∉ (order s).*1.*1;
  so_versions : StronglySorted Z.le (order s).*1.*2 /\ Forall (fun v => v <= next s) (order s).*1.*2;
  so_fresh p x : order s !! p = Some x -> perform_one (serial (take p (order s))) x <> serial (take p (order s)) ->
    x.1.2 < next s /\ forall q y, (p < q)%nat -> order s !! q = Some y -> x.1.2 < y.1.2;
}.

(** Two commands inside with a key in common both only read. *)
Lemma inside_exclusion s i j ri rj k : serial_ok s -> i <> j -> inside s i -> inside s j -> reqs !! i = Some ri -> reqs !! j = Some rj ->
  k ∈ keys_of ri -> k ∈ keys_of rj -> exclusive ri = false /\ exclusive rj = false.
Proof.
  intros Hok Hij (ti & pi & Hti & Htodo & Hpi & Hnf) (tj & pj & Htj & Htodo' & Hpj & Hnf') Hri Hrj Hk Hk'.
  rewrite <- (so_mode _ Hok i ti ri Hti Hri), <- (so_mode _ Hok j tj rj Htj Hrj).
  apply (inv_exclusion ws_before (locks s) i j ti tj (mutex_of k) (so_locks _ Hok) Hij Hti Htj).
  - destruct (so_keys _ Hok i ti ri pi k Hti Hri Hpi Hnf Hk) as [|H]; [done|]. rewrite Htodo in H. by apply elem_of_nil in H.
  - destruct (so_keys _ Hok j tj rj pj k Htj Hrj Hpj Hnf' Hk') as [|H]; [done|]. rewrite Htodo' in H. by apply elem_of_nil in H.
Qed.

Lemma thread_of s i r : serial_ok s -> reqs !! i = Some r -> is_Some ((locks s).2 !! i).
Proof. intros Hok Hr. apply lookup_lt_is_Some_2. rewrite (so_threads _ Hok). by eapply lookup_lt_Some. Qed.

Lemma inside_phase s i r p : serial_ok s -> reqs !! i = Some r -> phases s !! i = Some p -> p <> Finished -> p <> Reading ∅ -> inside s i.
Proof.
  intros Hok Hr Hp H1 H2. destruct (thread_of s i r Hok Hr) as [t Ht]. exists t, p. split_and!; try done. by apply (so_todo _ Hok i t p).
Qed.

(** What a command reads, with its locks, is what the commands before it in the order have left. *)
Lemma inside_reads s i r k : serial_ok s -> inside s i -> reqs !! i = Some r -> (forall rest target, phases s !! i <> Some (Writing rest target)) ->
  k ∈ keys_of r -> mem s !! k = serial (order s) !! k.
Proof.
  intros Hok Hin Hr Hnw Hk. apply (so_mem _ Hok). intros j rj rest target Hrj Hpj Hkj.
  assert (i <> j) as Hij by (intros <-; by eapply Hnw).
  destruct (so_writing _ Hok j rj rest target Hrj Hpj) as (He & _).
  destruct (inside_exclusion s i j r rj k Hok Hij Hin) as [_ H]; [by eapply inside_phase|done..|]. congruence.
Qed.

Lemma lock_step_ok s cfg' : serial_ok s -> Locking.step (locks s) cfg' -> length cfg'.2 = length reqs ->
  (forall i t, cfg'.2 !! i = Some t -> exists t0, (locks s).2 !! i = Some t0 /\ excl t = excl t0 /\ (todo t0 = [] -> todo t = []) /\
     (phases s !! i = Some Finished \/ forall x, x ∈ held t0 \/ x ∈ todo t0 -> x ∈ held t \/ x ∈ todo t)) ->
  serial_ok (mkState cfg' (phases s) (mem s) (next s) (order s)).
Proof.
  intros Hok Hst Hlen Ht. split; cbn; try apply Hok.
  - eapply step_inv; [apply _|done|apply Hok].
  - done.
  - intros i t r Hi Hr. destruct (Ht i t Hi) as (t0 & H0 & -> & _). by apply (so_mode _ Hok i t0).
  - intros i t r p k Hi Hr Hp Hnf Hk. destruct (Ht i t Hi) as (t0 & H0 & _ & _ & [Hf|Hx]); [congruence|]. apply Hx. by eapply (so_keys _ Hok i t0).
  - intros i t p Hi Hp Hne. destruct (Ht i t Hi) as (t0 & H0 & _ & Htodo & _). apply Htodo. by apply (so_todo _ Hok i t0 p).
Qed.

(** The other threads, when one is replaced. *)
Lemma replaced_lookup {A} (l1 l2 : list A) t t' i u : (l1 ++ t' :: l2) !! i = Some u ->
  i = length l1 /\ u = t' \/ i <> length l1 /\ (l1 ++ t :: l2) !! i = Some u.
Proof.
  intros H. destruct (decide (i = length l1)) as [->|Hne].
  - left. split; [done|]. rewrite lookup_app_r, Nat.sub_diag in H by done. by injection H as <-.
  - right. split; [done|]. destruct (decide (i < length l1)%nat); [by rewrite lookup_app_l in * by done|].
    rewrite lookup_app_r in * by lia. destruct (i - length l1)%nat eqn:E; [lia|]. done.
Qed.

Lemma phase_lookup (ph : list Phase) i p q j u : ph !! i = Some p -> <[i := q]> ph !! j = Some u -> j = i /\ u = q \/ j <> i /\ ph !! j = Some u.
Proof.
  intros Hi H. destruct (decide (j = i)) as [->|Hne].
  - rewrite list_lookup_insert_eq in H by (by eapply lookup_lt_Some). left. by injection H as <-.
  - rewrite list_lookup_insert_ne in H by done. by right.
Qed.

Lemma read_step_ok s i r t view k : serial_ok s -> reqs !! i = Some r -> (locks s).2 !! i = Some t -> todo t = [] ->
  phases s !! i = Some (Reading view) -> k ∈ keys_of r ->
  serial_ok (mkState (locks s) (<[i := Reading (<[k := mem s !! k]> view)]> (phases s)) (mem s) (next s) (order s)).
Proof.
  intros Hok Hr Ht Htodo Hp Hk. assert (mem s !! k = serial (order s) !! k) as Hmem.
  { eapply inside_reads; [done| |done|congruence|done]. exists t, (Reading view). done. }
  split; cbn [locks phases mem next order]; rewrite ?length_insert; try apply Hok.
  - intros j u rj p x Hj Hrj Hpj Hnf Hx. destruct (phase_lookup _ _ _ _ _ _ Hp Hpj) as [[-> ->]|[_ Hpj']]; [|by eapply (so_keys _ Hok)].
    by eapply (so_keys _ Hok i u rj (Reading view)).
  - intros j u p Hj Hpj Hne. destruct (phase_lookup _ _ _ _ _ _ Hp Hpj) as [[-> ->]|[_ Hpj']]; [congruence|by eapply (so_todo _ Hok)].
  - intros j rj rest target Hrj Hpj. destruct (phase_lookup _ _ _ _ _ _ Hp Hpj) as [[_ ?]|[_ Hpj']]; [done|by apply (so_writing _ Hok j)].
  - intros x Hx. apply (so_mem _ Hok). intros j rj rest target Hrj Hpj. apply (Hx j rj rest target Hrj).
    rewrite list_lookup_insert_ne by congruence. done.
  - intros j rj view' x y Hrj Hpj Hxy. destruct (phase_lookup _ _ _ _ _ _ Hp Hpj) as [[-> [= ->]]|[_ Hpj']]; [|by eapply (so_reading _ Hok j)].
    assert (rj = r) as -> by congruence. destruct (decide (x = k)) as [->|Hne].
    + rewrite lookup_insert_eq in Hxy. injection Hxy as <-. done.
    + rewrite lookup_insert_ne in Hxy by done. by eapply (so_reading _ Hok i).
  - intros j p Hpj. destruct (phase_lookup _ _ _ _ _ _ Hp Hpj) as [[-> ->]|[_ Hpj']]; [|by apply (so_committed _ Hok)].
    rewrite <- (so_committed _ Hok i _ Hp). split; eauto.
Qed.

Lemma serial_snoc o x : serial (o ++ [x]) = perform_one (serial o) x.
Proof. apply foldl_snoc. Qed.

(** What was read, of all keys, is what the order left. *)
Lemma seen_agrees s i r view : serial_ok s -> reqs !! i = Some r -> phases s !! i = Some (Reading view) ->
  (forall k, k ∈ keys_of r -> is_Some (view !! k)) -> agree (keys_of r) (seen view) (serial (order s)).
Proof.
  intros Hok Hr Hp Hall k Hk. destruct (Hall k Hk) as [x Hx]. unfold seen. rewrite lookup_omap, Hx. cbn.
  destruct (so_reading _ Hok i r view k x Hr Hp Hx) as [_ ->]. by destruct x.
Qed.

(** The order with one more command. *)
Lemma commit_answers s i r v a : serial_ok s -> reqs !! i = Some r -> a = (run_on r v (serial (order s))).1 ->
  forall p j w b, (order s ++ [(i, v, a)]) !! p = Some (j, w, b) ->
  exists rj, reqs !! j = Some rj /\ b = (run_on rj w (serial (take p (order s ++ [(i, v, a)])))).1.
Proof.
  intros Hok Hr Ha p j w b Ho. destruct (decide (p < length (order s))%nat) as [Hlt|Hge].
  - rewrite lookup_app_l in Ho by done. rewrite take_app_le by lia. by apply (so_answers _ Hok).
  - rewrite lookup_app_r in Ho by lia. destruct (p - length (order s))%nat eqn:E; [|done]. injection Ho as <- <- <-. exists r. split; [done|].
    by rewrite take_app_ge, E, take_0, app_nil_r by lia.
Qed.

Lemma commit_fresh s x v' : serial_ok s -> x.1.2 = next s -> next s <= v' -> (perform_one (serial (order s)) x <> serial (order s) -> next s < v') ->
  forall p y, (order s ++ [x]) !! p = Some y -> perform_one (serial (take p (order s ++ [x]))) y <> serial (take p (order s ++ [x])) ->
  y.1.2 < v' /\ forall q z, (p < q)%nat -> (order s ++ [x]) !! q = Some z -> y.1.2 < z.1.2.
Proof.
  intros Hok Hx Hv Hfresh p y Hy Hch. destruct (decide (p < length (order s))%nat) as [Hlt|Hge].
  - rewrite lookup_app_l in Hy by done. rewrite take_app_le in Hch by lia. destruct (so_fresh _ Hok p y Hy Hch) as [H1 H2]. split; [lia|].
    intros q z Hq Hz. destruct (decide (q < length (order s))%nat); [rewrite lookup_app_l in Hz by done; by eapply H2|].
    rewrite lookup_app_r in Hz by lia. destruct (q - length (order s))%nat; [|done]. injection Hz as <-. by rewrite Hx.
  - rewrite lookup_app_r in Hy by lia. destruct (p - length (order s))%nat eqn:E; [|done]. injection Hy as <-.
    rewrite take_app_ge, E, take_0, app_nil_r in Hch by lia. split; [rewrite Hx; by apply Hfresh|].
    intros q z Hq Hz. apply lookup_lt_Some in Hz. rewrite length_app in Hz. cbn in Hz. lia.
Qed.

Lemma commit_step_ok s i r t view v' : request_ok r -> serial_ok s -> reqs !! i = Some r -> (locks s).2 !! i = Some t -> todo t = [] ->
  phases s !! i = Some (Reading view) -> (forall k, k ∈ keys_of r -> is_Some (view !! k)) -> next s <= v' ->
  ((run_on r (next s) (seen view)).2 <> seen view -> next s < v') ->
  serial_ok (mkState (locks s) (<[i := if exclusive r then Writing (keys_of r) (run_on r (next s) (seen view)).2 else Finished]> (phases s))
    (mem s) v' (order s ++ [(i, next s, (run_on r (next s) (seen view)).1)])).
Proof.
  intros Hrok Hok Hr Ht Htodo Hp Hall Hv Hfresh. assert (inside s i) as Hin by (exists t, (Reading view); done).
  pose proof (seen_agrees s i r view Hok Hr Hp Hall) as Hseen. destruct (run_local r (next s) _ _ Hrok Hseen) as [Hans Htar].
  assert (serial (order s ++ [(i, next s, (run_on r (next s) (seen view)).1)]) = (run_on r (next s) (serial (order s))).2) as Hser.
  { rewrite serial_snoc. unfold perform_one. cbn. by rewrite Hr. }
  assert (forall j rj k, j <> i -> inside s j -> reqs !! j = Some rj -> k ∈ keys_of rj ->
    (run_on r (next s) (serial (order s))).2 !! k = serial (order s) !! k) as Hother.
  { intros j rj k Hji Hj Hrj Hk. destruct (decide (k ∈ keys_of r)) as [Hkr|Hkr]; [|by apply run_frame].
    destruct (inside_exclusion s j i rj r k Hok Hji Hj Hin Hrj Hr Hk Hkr) as [_ Hsh]. by rewrite run_shared. }
  split; cbn [locks phases mem next order]; rewrite ?Hser, ?length_insert; try apply Hok.
  - intros j u rj p k Hj Hrj Hpj Hnf Hk. destruct (phase_lookup _ _ _ _ _ _ Hp Hpj) as [[-> ->]|[_ Hpj']]; [|by eapply (so_keys _ Hok)].
    by eapply (so_keys _ Hok i u rj (Reading view)).
  - intros j u p Hj Hpj Hne. destruct (phase_lookup _ _ _ _ _ _ Hp Hpj) as [[-> ->]|[_ Hpj']]; [congruence|by eapply (so_todo _ Hok)].
  - intros j rj rest target Hrj Hpj. destruct (phase_lookup _ _ _ _ _ _ Hp Hpj) as [[-> Hw]|[Hne Hpj']].
    + assert (rj = r) as -> by congruence. destruct (exclusive r) eqn:He; [|done]. injection Hw as -> ->. split_and!; [done|done|].
      intros k Hk. rewrite decide_True by done. symmetry. by apply Htar.
    + destruct (so_writing _ Hok j rj rest target Hrj Hpj') as (H1 & H2 & H3). split_and!; [done|done|]. intros k Hk.
      rewrite (Hother j rj k Hne) by (done || by eapply inside_phase). by apply H3.
  - intros k Hk. destruct (exclusive r) eqn:He.
    + rewrite run_frame; [|done|by apply (Hk i r (keys_of r) (run_on r (next s) (seen view)).2 Hr); rewrite list_lookup_insert_eq by (by eapply lookup_lt_Some)].
      apply (so_mem _ Hok). intros j rj rest target Hrj Hpj. apply (Hk j rj rest target Hrj). by rewrite list_lookup_insert_ne by congruence.
    + rewrite run_shared by done. apply (so_mem _ Hok). intros j rj rest target Hrj Hpj. apply (Hk j rj rest target Hrj). by rewrite list_lookup_insert_ne by congruence.
  - intros j rj view' k x Hrj Hpj Hx. destruct (phase_lookup _ _ _ _ _ _ Hp Hpj) as [[_ Hw]|[Hne Hpj']]; [by destruct (exclusive r)|].
    destruct (so_reading _ Hok j rj view' k x Hrj Hpj' Hx) as [Hk Hs]. split; [done|]. rewrite (Hother j rj k Hne); [done| |done|done].
    eapply inside_phase; [done..|]. intros [= ->]. by rewrite lookup_empty in Hx.
  - apply (commit_answers s i r); congruence.
  - rewrite !fmap_app. apply NoDup_app. split_and!; [apply Hok| |cbn; apply NoDup_singleton].
    intros j Hj ->%list_elem_of_singleton. by apply (so_committed _ Hok i _ Hp); [exists view|].
  - intros j p Hpj. rewrite !fmap_app, elem_of_app. cbn. rewrite list_elem_of_singleton.
    destruct (phase_lookup _ _ _ _ _ _ Hp Hpj) as [[-> ->]|[Hne Hpj']].
    + split; [intros [? H]; by destruct (exclusive r)|tauto].
    + rewrite (so_committed _ Hok j _ Hpj'). tauto.
  - destruct (so_versions _ Hok) as [H1 H2]. rewrite !fmap_app. cbn. split.
    + apply StronglySorted_app_2; [|done|repeat constructor]. intros x y Hx ->%list_elem_of_singleton. rewrite Forall_forall in H2. by apply H2.
    + apply Forall_app. split; [eapply Forall_impl; [exact H2|]; cbn; lia|]. constructor; [done|constructor].
  - apply (commit_fresh s (i, next s, (run_on r (next s) (seen view)).1) v' Hok eq_refl Hv). intros Hch. apply Hfresh. intros Hsame. apply Hch.
    unfold perform_one. cbn. rewrite Hr. apply map_eq. intros k. destruct (decide (k ∈ keys_of r)) as [Hk|Hk]; [|by apply run_frame].
    rewrite <- (Htar k Hk), Hsame. by apply Hseen.
Qed.

Lemma write_step_ok s i r k rest target : serial_ok s -> reqs !! i = Some r -> phases s !! i = Some (Writing (k :: rest) target) ->
  serial_ok (mkState (locks s) (<[i := Writing rest target]> (phases s)) (set_key k (target !! k) (mem s)) (next s) (order s)).
Proof.
  intros Hok Hr Hp. destruct (so_writing _ Hok i r _ _ Hr Hp) as (He & Hin & Hser). pose proof (Hin k ltac:(left)) as Hk.
  assert (inside s i) as Hi by (by eapply inside_phase).
  assert (forall j rj x, j <> i -> inside s j -> reqs !! j = Some rj -> x ∈ keys_of rj -> x <> k) as Hother.
  { intros j rj x Hji Hj Hrj Hx ->. destruct (inside_exclusion s j i rj r k Hok Hji Hj Hi Hrj Hr Hx Hk). congruence. }
  assert (forall x, x <> k -> set_key k (target !! k) (mem s) !! x = mem s !! x) as Hne by (intros; by apply lookup_partial_alter_ne).
  split; cbn [locks phases mem next order]; rewrite ?length_insert; try apply Hok.
  - intros j u rj p x Hj Hrj Hpj Hnf Hx. destruct (phase_lookup _ _ _ _ _ _ Hp Hpj) as [[-> ->]|[_ Hpj']]; [|by eapply (so_keys _ Hok)].
    by eapply (so_keys _ Hok i u rj _ x Hj Hrj Hp).
  - intros j u p Hj Hpj Hnr. destruct (phase_lookup _ _ _ _ _ _ Hp Hpj) as [[-> ->]|[_ Hpj']]; [|by eapply (so_todo _ Hok)].
    by apply (so_todo _ Hok i u _ Hj Hp).
  - intros j rj rest' target' Hrj Hpj. destruct (phase_lookup _ _ _ _ _ _ Hp Hpj) as [[-> [= -> ->]]|[Hji Hpj']].
    + assert (rj = r) as -> by congruence. split_and!; [done|intros x Hx; apply Hin; by right|]. intros x Hx. rewrite (Hser x Hx).
      destruct (decide (x = k)) as [->|Hxk].
      * rewrite decide_True by left. case_decide; [done|]. unfold set_key. by rewrite lookup_partial_alter_eq.
      * rewrite Hne by done. destruct (decide (x ∈ rest)); [rewrite decide_True by (by right); done|]. rewrite decide_False; [done|]. by intros [|]%elem_of_cons.
    + destruct (so_writing _ Hok j rj rest' target' Hrj Hpj') as (H1 & H2 & H3). split_and!; [done|done|]. intros x Hx.
      rewrite Hne; [by apply H3|]. eapply Hother; [done| |done|done]. by eapply inside_phase.
  - intros x Hx. assert (x ∉ keys_of r) as Hxr by (apply (Hx i r rest target Hr); by rewrite list_lookup_insert_eq by (by eapply lookup_lt_Some)).
    rewrite Hne by (intros ->; done). apply (so_mem _ Hok). intros j rj rest' target' Hrj Hpj. destruct (decide (j = i)) as [->|Hji]; [congruence|].
    apply (Hx j rj rest' target' Hrj). by rewrite list_lookup_insert_ne by done.
  - intros j rj view x y Hrj Hpj Hxy. destruct (phase_lookup _ _ _ _ _ _ Hp Hpj) as [[_ ?]|[_ Hpj']]; [done|by eapply (so_reading _ Hok j)].
  - intros j p Hpj. destruct (phase_lookup _ _ _ _ _ _ Hp Hpj) as [[-> ->]|[_ Hpj']]; [|by apply (so_committed _ Hok)].
    rewrite <- (so_committed _ Hok i _ Hp). split; by intros [? ?].
Qed.

Lemma finish_step_ok s i r target : serial_ok s -> reqs !! i = Some r -> phases s !! i = Some (Writing [] target) ->
  serial_ok (mkState (locks s) (<[i := Finished]> (phases s)) (mem s) (next s) (order s)).
Proof.
  intros Hok Hr Hp. destruct (so_writing _ Hok i r _ _ Hr Hp) as (He & _ & Hser). split; cbn [locks phases mem next order]; rewrite ?length_insert; try apply Hok.
  - intros j u rj p x Hj Hrj Hpj Hnf Hx. destruct (phase_lookup _ _ _ _ _ _ Hp Hpj) as [[-> ->]|[_ Hpj']]; [done|by eapply (so_keys _ Hok)].
  - intros j u p Hj Hpj Hnr. destruct (phase_lookup _ _ _ _ _ _ Hp Hpj) as [[-> ->]|[_ Hpj']]; [|by eapply (so_todo _ Hok)].
    by apply (so_todo _ Hok i u _ Hj Hp).
  - intros j rj rest' target' Hrj Hpj. destruct (phase_lookup _ _ _ _ _ _ Hp Hpj) as [[_ ?]|[Hji Hpj']]; [done|by apply (so_writing _ Hok j)].
  - intros x Hx. destruct (decide (x ∈ keys_of r)) as [Hxr|Hxr]; [symmetry; by apply Hser|]. apply (so_mem _ Hok).
    intros j rj rest' target' Hrj Hpj. destruct (decide (j = i)) as [->|Hji]; [congruence|].
    apply (Hx j rj rest' target' Hrj). by rewrite list_lookup_insert_ne by done.
  - intros j rj view x y Hrj Hpj Hxy. destruct (phase_lookup _ _ _ _ _ _ Hp Hpj) as [[_ ?]|[_ Hpj']]; [done|by eapply (so_reading _ Hok j)].
  - intros j p Hpj. destruct (phase_lookup _ _ _ _ _ _ Hp Hpj) as [[-> ->]|[_ Hpj']]; [|by apply (so_committed _ Hok)].
    rewrite <- (so_committed _ Hok i _ Hp). split; by intros [? ?].
Qed.

Lemma replaced_length {A} (l1 l2 : list A) t t' : length (l1 ++ t' :: l2) = length (l1 ++ t :: l2).
Proof. by rewrite !length_app. Qed.

Lemma serial_step_ok s s' : Forall request_ok reqs -> step s s' -> serial_ok s -> serial_ok s'.
Proof.
  intros Hreqs Hst Hok. assert (forall i p, phases s !! i = Some p -> exists r, reqs !! i = Some r) as Hreq.
  { intros i p Hp. apply lookup_lt_is_Some_2. rewrite <- (so_phases _ Hok). by eapply lookup_lt_Some. }
  destruct Hst as [ms l1 l2 e h k td m' ph m v o Ha|ms l1 l2 e h1 k h2 m' ph m v o Hr Hf|i r t view k cfg ph m v o Hr Ht Htodo Hp Hk
    |i r t view cfg ph m v v' o Hr Ht Htodo Hp Hall Hv Hfresh|i k rest target cfg ph m v o Hp|i target cfg ph m v o Hp].
  - apply (lock_step_ok _ _ Hok (step_acquire ms l1 l2 e h k td m' Ha)).
    + cbn. rewrite <- (so_threads _ Hok). apply replaced_length.
    + intros i t Hi. destruct (replaced_lookup _ _ (Locking.mkThread e h (k :: td)) _ _ _ Hi) as [[-> ->]|[_ H]]; [|exists t; cbn; eauto 6].
      exists (Locking.mkThread e h (k :: td)). cbn. split_and!; [by rewrite lookup_app_r, Nat.sub_diag by done|done|done|].
      right. intros x. rewrite !elem_of_cons. tauto.
  - apply (lock_step_ok _ _ Hok (step_release ms l1 l2 e h1 k h2 m' Hr)).
    + cbn. rewrite <- (so_threads _ Hok). apply replaced_length.
    + intros i t Hi. destruct (replaced_lookup _ _ (Locking.mkThread e (h1 ++ k :: h2) []) _ _ _ Hi) as [[-> ->]|[_ H]]; [|exists t; cbn; eauto 6].
      exists (Locking.mkThread e (h1 ++ k :: h2) []). cbn. split_and!; [by rewrite lookup_app_r, Nat.sub_diag by done|done|done|]. by left.
  - by apply (read_step_ok _ i r t view k Hok).
  - rewrite Forall_lookup in Hreqs. apply (commit_step_ok _ i r t view v' (Hreqs i r Hr) Hok); done.
  - destruct (Hreq i _ Hp) as [r Hr]. by apply (write_step_ok _ i r k rest target Hok).
  - destruct (Hreq i _ Hp) as [r Hr]. by apply (finish_step_ok _ i r target Hok).
Qed.

Lemma initial_ok v : serial_ok (initial v).
Proof.
  assert (forall i p, phases (initial v) !! i = Some p -> p = Reading ∅) as Hph by (intros i p H; by apply lookup_replicate in H as [-> _]).
  assert (forall i t r, (locks (initial v)).2 !! i = Some t -> reqs !! i = Some r ->
    t = Locking.mkThread (exclusive r) [] (ws_segments (ws2Keys (keys_of r)))) as Hth.
  { intros i t r Ht Hr. cbn in Ht. rewrite !list_lookup_fmap, Hr in Ht. by injection Ht as <-. }
  split; cbn [initial mem next order].
  - apply inv_start.
  - cbn. by rewrite !length_fmap.
  - cbn. by rewrite length_replicate.
  - intros i t r Ht Hr. by rewrite (Hth i t r Ht Hr).
  - intros i t r p k Ht Hr Hp _ Hk. rewrite (Hth i t r Ht Hr). cbn. right. by apply mutex_of_footprint.
  - intros i t p Ht Hp Hne. by rewrite (Hph i p Hp) in Hne.
  - intros i r rest target _ Hp. by apply Hph in Hp.
  - done.
  - intros i r view k x Hr Hp Hx. apply Hph in Hp as [= ->]. by rewrite lookup_empty in Hx.
  - done.
  - constructor.
  - intros i p Hp. rewrite (Hph i p Hp). split; [intros _; by apply not_elem_of_nil|eauto].
  - split; constructor.
  - done.
Qed.

Lemma reached_serial_ok v s : Forall request_ok reqs -> rtc step (initial v) s -> serial_ok s.
Proof.
  intros Hreqs Hsteps. remember (initial v) as s0 eqn:E. assert (serial_ok s0) as H0 by (subst; apply initial_ok). clear E.
  induction Hsteps as [|? ? ? Hst _ IH]; [done|]. apply IH. by eapply serial_step_ok.
Qed.

Lemma order_grows s s' : rtc step s s' -> order s `prefix_of` order s'.
Proof. induction 1 as [|s s1 s' Hst _ IH]; [done|]. etrans; [|exact IH]. destruct Hst; cbn; try done. by eexists. Qed.

(** ** Every command can finish *)

Definition is_finished (p : Phase) : bool := match p with Finished => true | _ => false end.

(** A command with all its locks is not kept from its end by the others. *)
Lemma writes_all i cfg target v o : forall rest ph m, ph !! i = Some (Writing rest target) ->
  exists m', rtc step (mkState cfg ph m v o) (mkState cfg (<[i := Finished]> ph) m' v o).
Proof.
  induction rest as [|k rest IH]; intros ph m Hp; [exists m; apply rtc_once; by eapply s_finish|].
  destruct (IH (<[i := Writing rest target]> ph) (set_key k (target !! k) m)) as [m' Hrun]; [apply list_lookup_insert_eq; by eapply lookup_lt_Some|].
  exists m'. eapply rtc_l; [by eapply s_write|]. by rewrite list_insert_insert_eq in Hrun.
Qed.

Lemma reads_all i r t cfg m v o (ks : list KeyType) : reqs !! i = Some r -> cfg.2 !! i = Some t -> todo t = [] -> (forall k, k ∈ ks -> k ∈ keys_of r) ->
  forall ph view, ph !! i = Some (Reading view) -> exists view', rtc step (mkState cfg ph m v o) (mkState cfg (<[i := Reading view']> ph) m v o) /\
    forall k, k ∈ ks \/ is_Some (view !! k) -> is_Some (view' !! k).
Proof.
  intros Hr Ht Htodo. induction ks as [|k ks IH]; intros Hks ph view Hp.
  { exists view. split; [rewrite list_insert_id by done; apply rtc_refl|]. intros x [Hx%elem_of_nil|Hx]; done. }
  destruct (IH (fun x Hx => Hks x ltac:(by right)) (<[i := Reading (<[k := m !! k]> view)]> ph) (<[k := m !! k]> view)) as (view' & Hrun & Hv);
    [apply list_lookup_insert_eq; by eapply lookup_lt_Some|].
  exists view'. split; [eapply rtc_l; [eapply (s_read i r t view k); [done..|apply Hks; left]|]; by rewrite list_insert_insert_eq in Hrun|].
  intros x Hx. apply Hv. rewrite elem_of_cons in Hx. destruct (decide (x = k)) as [->|Hne]; [right; by rewrite lookup_insert_eq|].
  rewrite lookup_insert_ne by done. tauto.
Qed.

Lemma inside_finishes s i : serial_ok s -> inside s i ->
  exists s', rtc step s s' /\ locks s' = locks s /\ phases s' = <[i := Finished]> (phases s).
Proof.
  intros Hok (t & p & Ht & Htodo & Hp & Hnf). destruct s as [cfg ph m v o]. cbn in *.
  destruct (lookup_lt_is_Some_2 reqs i) as [r Hr]; [rewrite <- (so_phases _ Hok); by eapply lookup_lt_Some|].
  destruct p as [view|rest target|]; [| |done].
  - destruct (reads_all i r t cfg m v o (keys_of r) Hr Ht Htodo (fun k Hk => Hk) ph view Hp) as (view' & Hrun & Hv).
    assert (<[i := Reading view']> ph !! i = Some (Reading view')) as Hp' by (apply list_lookup_insert_eq; by eapply lookup_lt_Some).
    pose proof (s_commit i r t view' cfg _ m v (v + 1) o Hr Ht Htodo Hp' (fun k Hk => Hv k (or_introl Hk)) ltac:(lia) ltac:(lia)) as Hc.
    rewrite list_insert_insert_eq in Hc. destruct (exclusive r).
    + destruct (writes_all i cfg (run_on r v (seen view')).2 (v + 1) (o ++ [(i, v, (run_on r v (seen view')).1)]) (keys_of r)
        (<[i := Writing (keys_of r) (run_on r v (seen view')).2]> ph) m) as [m' Hw]; [apply list_lookup_insert_eq; by eapply lookup_lt_Some|].
      rewrite list_insert_insert_eq in Hw. eexists. split; [etrans; [exact Hrun|]; eapply rtc_l; [exact Hc|exact Hw]|done].
    + eexists. split; [eapply rtc_r; [exact Hrun|exact Hc]|done].
  - destruct (writes_all i cfg target v o rest ph m Hp) as [m' Hw]. by eexists.
Qed.

(** Without such a command, the mutexes are given back and taken as in Locking.v. *)
Lemma lock_progress s : serial_ok s -> (forall i, ~ inside s i) -> (exists t, t ∈ (locks s).2 /\ ~ finished t) ->
  exists s', step s s' /\ phases s' = phases s /\ Locking.step (locks s) (locks s').
Proof.
  intros Hok Hin Ht. destruct (progress ws_before (locks s) (so_locks _ Hok) Ht) as [cfg' Hst]. destruct s as [cfg ph m v o]. cbn in *.
  exists (mkState cfg' ph m v o). split; [|done]. pose proof (so_phases _ Hok) as Hlen. pose proof (so_threads _ Hok) as Hth.
  destruct Hst as [ms l1 l2 e h k td m' Ha|ms l1 l2 e h1 k h2 m' Hr]; [by apply s_acquire|]. apply s_release; [done|].
  destruct (lookup_lt_is_Some_2 ph (length l1)) as [p Hp]; [cbn in *; rewrite length_app in Hth; cbn in Hth; lia|].
  destruct p; [..|done]; (destruct (Hin (length l1)); eexists _, _; cbn; split_and!;
    [by rewrite lookup_app_r, Nat.sub_diag by done|done|exact Hp|done]).
Qed.

Definition unfinished (ph : list Phase) : nat := sum_list_with (fun p => if is_finished p then 0%nat else 1%nat) ph.

Lemma unfinished_insert i p ph : ph !! i = Some p -> p <> Finished -> (unfinished (<[i := Finished]> ph) < unfinished ph)%nat.
Proof.
  revert i. induction ph as [|q ph IH]; intros [|i] Hi Hp; [done..| |].
  - injection Hi as ->. cbn. destruct p; cbn; done || lia.
  - specialize (IH i Hi Hp). change (unfinished (<[S i := Finished]> (q :: ph))) with ((if is_finished q then 0 else 1) + unfinished (<[i := Finished]> ph))%nat.
    change (unfinished (q :: ph)) with ((if is_finished q then 0 else 1) + unfinished ph)%nat. lia.
Qed.

Definition inside_b (s : State) (i : nat) : bool :=
  match (locks s).2 !! i, phases s !! i with
  | Some t, Some p => bool_decide (todo t = []) && negb (is_finished p)
  | _, _ => false
  end.

Lemma inside_b_spec s i : inside_b s i = true <-> inside s i.
Proof.
  unfold inside_b, inside. destruct ((locks s).2 !! i) as [t|]; [|split; [done|by intros (? & ? & ? & _)]].
  destruct (phases s !! i) as [p|]; [|split; [done|by intros (? & ? & _ & _ & ? & _)]]. rewrite andb_true_iff, bool_decide_eq_true, negb_true_iff. split.
  - intros [H1 H2]. exists t, p. split_and!; try done. by intros ->.
  - intros (t' & p' & [= <-] & H1 & [= <-] & H2). split; [done|]. by destruct p.
Qed.

Lemma all_can_finish s : Forall request_ok reqs -> serial_ok s ->
  exists s', rtc step s s' /\ Forall (eq Finished) (phases s') /\ forall k, (locks s').1 k = Free.
Proof.
  intros Hreqs. remember (Locking.work (locks s).2 + unfinished (phases s))%nat as n eqn:Hn. revert s Hn.
  induction n as [n IH] using lt_wf_ind. intros s -> Hok.
  assert (forall s1, rtc step s s1 -> (Locking.work (locks s1).2 + unfinished (phases s1) < Locking.work (locks s).2 + unfinished (phases s))%nat ->
    exists s', rtc step s s' /\ Forall (eq Finished) (phases s') /\ forall k, (locks s').1 k = Free) as Hgo.
  { intros s1 Hrun Hlt. assert (serial_ok s1) as Hok1 by (clear Hlt IH; induction Hrun; eauto using serial_step_ok).
    destruct (IH _ Hlt s1 eq_refl Hok1) as (s' & Hs' & H). exists s'. split; [by etrans|done]. }
  destruct (decide (Exists (fun i => inside_b s i = true) (seq 0 (length reqs)))) as [He|He].
  - apply Exists_exists in He as (i & _ & Hi%inside_b_spec). destruct (inside_finishes s i Hok Hi) as (s1 & Hrun & Hl & Hp). apply (Hgo s1 Hrun).
    destruct Hi as (t & p & _ & _ & Hpi & Hnf). rewrite Hl, Hp. pose proof (unfinished_insert i p _ Hpi Hnf). lia.
  - assert (forall i, ~ inside s i) as Hin.
    { intros i Hi. apply He, Exists_exists. exists i. split; [|by apply inside_b_spec]. destruct Hi as (t & p & Ht & _). apply elem_of_seq.
      rewrite <- (so_threads _ Hok). apply lookup_lt_Some in Ht. lia. }
    destruct (decide (Exists (fun t => ~ finished t) (locks s).2)) as [Hu|Hu].
    + apply Exists_exists in Hu. destruct (lock_progress s Hok Hin Hu) as (s1 & Hst & Hp & Hl). apply (Hgo s1); [by apply rtc_once|].
      rewrite Hp. pose proof (step_work _ _ Hl). lia.
    + assert (Forall finished (locks s).2) as Hf.
      { apply Forall_forall. intros t Ht. destruct (decide (finished t)); [done|]. destruct Hu. apply Exists_exists. by exists t. }
      exists s. split; [apply rtc_refl|]. split; [|by apply (finished_free ws_before (locks s)), Hf; [apply Hok|..]].
      apply Forall_lookup. intros i p Hp. destruct (lookup_lt_is_Some_2 (locks s).2 i) as [t Ht]; [rewrite (so_threads _ Hok), <- (so_phases _ Hok); by eapply lookup_lt_Some|].
      rewrite Forall_lookup in Hf. destruct (Hf i t Ht) as [_ Htd]. destruct p; [..|done]; (destruct (Hin i); eexists _, _; split_and!; [done..|exact Hp|done]).
Qed.


End Serial.

(** ** Reads that write

    Keys with a ttl are left out above, and not by chance: a read of an expired key erases its entry from the map of the segment,
    while its command, a get, and another one have the mutex of the segment shared. *)
Theorem expired_read_erases_under_shared_lock {D} `{!KVStore D} {HASH : StdHash} key out c (s : ConcurInMemoryKVStore D) seg e :
  mSegments (concur s) !! calculateSegmentIndex key = Some seg -> mMutex seg = Shared 2 ->
  mData (mBucketKVStore seg) !! key = Some e -> e_ttl e <> INFINITE_TTL -> e_deadline e <= u32 (c O) ->
  exists r c' s' seg', ConcurInMemoryKVStore.readKV key out c s = Done r c' s' /\
    mSegments (concur s') !! calculateSegmentIndex key = Some seg' /\ mMutex seg' = Shared 2 /\
    mData (mBucketKVStore seg') = delete key (mData (mBucketKVStore seg)).
Proof.
  intros Hseg Hm He Httl Hd. unfold ConcurInMemoryKVStore.readKV. rewrite (bind_Done _ _ _ _ _ _ _ (segment_of_run key c s)).
  unfold in_bucket. rewrite Hseg. unfold InMemoryKVStore.readKV, isTimeOut. run. cbn [bucket]. rewrite He.
  rewrite bool_decide_eq_false_2 by done. run. rewrite bool_decide_eq_true_2 by done. run.
  eexists _, _, _, _. split; [reflexivity|]. cbn. split; [by rewrite list_lookup_insert_eq by (by eapply lookup_lt_Some)|done].
Qed.

(** ** Two commands that overlap *)

#[local] Existing Instance concrete_hash.
#[local] Existing Instance concrete_lookup.

Definition put1 : Request := PutReq (mkPutRequest (mkReqHeader 0 0) (mkWriteEntry "k" "new" false 0 0 0 DEFAULT_UDFMETA)).
Definition get2 : Request := GetReq (mkGetRequest (mkReqHeader 0 0) (mkReadEntry "kk" 0) false false).
Definition map0 : AMap := {["k" := ("old", 1); "kk" := ("other", 2)]}.

(** The get runs while the put is between its commit and its write. *)
Lemma overlap : exists s, rtc (step [put1; get2]) (initial [put1; get2] map0 3) s /\ order s = [(0%nat, 3, PutAns 3); (1%nat, 4, GetAns (mkReadResult RC_OK 2 "other" 0 None))] /\
  phases s = [Finished; Finished].
Proof.
  assert (initial [put1; get2] map0 3 = mkState (fun _ => Free, [Locking.mkThread true [] [("ws", 1%nat)]; Locking.mkThread false [] [("ws", 2%nat)]])
    [Reading ∅; Reading ∅] map0 3 []) as ->.
  { unfold initial, start. cbn [fmap list_fmap keys_of exclusive put1 get2 length replicate].
    replace (ws_segments (ws2Keys [we_key (pq_entry _)])) with [("ws", 1%nat)] by (vm_compute; reflexivity).
    by replace (ws_segments (ws2Keys [re_key (gq_entry _)])) with [("ws", 2%nat)] by (vm_compute; reflexivity). }
  eexists. split.
  - eapply rtc_l; [by apply (s_acquire _ _ [] [_])|]. eapply rtc_l; [by apply (s_acquire _ _ [_] [])|].
    eapply rtc_l; [by eapply (s_read _ 0 put1 _ _ "k"); [reflexivity..|left]|].
    eapply rtc_l; [eapply (s_commit _ 0 put1 _ _ _ _ _ 3 4); [reflexivity..| |lia|lia]|].
    { intros k ->%list_elem_of_singleton. by eexists. }
    eapply rtc_l; [by eapply (s_read _ 1 get2 _ _ "kk"); [reflexivity..|left]|].
    eapply rtc_l; [eapply (s_commit _ 1 get2 _ _ _ _ _ 4 4); [reflexivity..| |lia|done]|].
    { intros k ->%list_elem_of_singleton. by eexists. }
    eapply rtc_l; [by eapply (s_write _ 0 "k" [])|]. eapply rtc_l; [by eapply (s_finish _ 0)|]. apply rtc_refl.
  - split; vm_compute; reflexivity.
Qed.

