(* ===== verification/ControlProto.v ===== *)
(** * Messages of the control plane

    The messages of common.proto and control.proto that the object manager and the
    object store exchange and keep: clusters, shards, routes, migrations; the
    functions the protobuf compiler generates for those that are stored are a
    parameter. *)

From S2P Require Import Prelude Proto.

(** ** Clusters *)

Inductive ClusterStatus := INIT | IN_SERVICE | EXPORTING | IMPORTING | OUT_OF_SERVICE.

#[global] Instance ClusterStatus_eq_dec : EqDecision ClusterStatus.
Proof. solve_decision. Defined.

(** [Cluster.ClusterAddress]: the host names of its servers. *)
Abbreviation ClusterAddress := (list string) (only parsing).

Record ClusterInfo := mkClusterInfo { ci_addr : ClusterAddress; ci_status : ClusterStatus }.

Record ClusterSetGlobalInfo := mkGlobalInfo {
  g_routeVersion : Z;
  g_clusterIds : list Z;
  g_currentMaxMigrationTaskId : Z;
  g_migrationTaskIds : list Z;
}.

Definition empty_global : ClusterSetGlobalInfo := mkGlobalInfo 0 [] 0 [].

(** ** Migrations *)

Inductive MigrationStatus := NOT_START | PREPARED | RUNNING | SUCCEEDED | FAILED.
Inductive MigrationShardStatus := INITED | SCANNING | SHARD_EXPORTING | MIGRATED | STOPPED.

#[global] Instance MigrationStatus_eq_dec : EqDecision MigrationStatus.
Proof. solve_decision. Defined.

(** The numbers of the enumeration, as [%d] prints them. *)
Definition MigrationStatus_number (s : MigrationStatus) : Z :=
  match s with NOT_START => 0 | PREPARED => 1 | RUNNING => 2 | SUCCEEDED => 3 | FAILED => 4 end.

Record MigrationTask := mkMigrationTask {
  mt_taskId : Z;
  mt_sourceCluster : ClusterAddress;
  mt_targetCluster : ClusterAddress;
  mt_migrateShards : list (Z * MigrationShardStatus);
  mt_overallStatus : MigrationStatus;
}.

Definition empty_task : MigrationTask := mkMigrationTask 0 [] [] [] NOT_START.

Record MigrationProgress := mkMigrationProgress { mp_taskId : Z; mp_overallStatus : MigrationStatus }.

(** ** Routes *)

(** [RouteInfo]: the strategies have one value each and are left out. *)
Record RouteInfo := mkRouteInfo {
  ri_version : Z;
  ri_allShards : list Z;
  ri_placementMap : list (list Z * ClusterAddress);
  ri_allClusters : list ClusterAddress;
}.

Definition empty_route : RouteInfo := mkRouteInfo 0 [] [] [].

(** ** Stored messages *)

(** [SerializeAsString] and [ParseFromString]. *)
Class ControlCodec := {
  serializeGlobal : ClusterSetGlobalInfo -> string;
  parseGlobal : string -> option ClusterSetGlobalInfo;
  serializeCluster : ClusterInfo -> string;
  parseCluster : string -> option ClusterInfo;
  serializeTask : MigrationTask -> string;
  parseTask : string -> option MigrationTask;
}.

(** A message is parsed back from what it is serialized to. *)
Class ControlCodecLaws (C : ControlCodec) : Prop := {
  parse_global g : parseGlobal (serializeGlobal g) = Some g;
  parse_cluster i : parseCluster (serializeCluster i) = Some i;
  parse_task t : parseTask (serializeTask t) = Some t;
}.
