(* ===== verification/Shards.v ===== *)
(** * Shards, clusters and their text

    The static functions of [ObjectStore] (object-store/ObjectStore.h) that place a key: the
    shard of a key, the working set of a shard, the text of a cluster's address; and
    [StrUtil::simpleHash] (kv-engine/utils/StrUtil.h). *)

From Stdlib Require Import Ascii.
From S2P Require Import Prelude Utils Status Proto KVStore InMemoryKVStore Sharding ConcurInMemoryKVStore WSConcurInMemoryKVStore.
From S2P Require Import Command KVGenerateCommand ControlProto.

(** [id1@ip1:port1,id2@ip2:port2,id3@ip3:port3] *)
Abbreviation ClusterAddressFormat := string (only parsing).

Definition TRX_KEY_PREFIX : string := "/RMSTRX".
Definition RMSTRX_SHARD_IDX : Z := 1.

(** ** Keys to shards *)

(** [simpleHash]: up to the first NUL, [hash * 33 + c] in 64 bits with [c] sign-extended. *)
Fixpoint hash_from (hash : Z) (str : string) : Z :=
  match str with
  | EmptyString => hash
  | String a str =>
      let c := s8 (Z.of_N (N_of_ascii a)) in
      if bool_decide (c = 0) then hash else hash_from (u64 (u64 (u64 (Z.shiftl hash 5) + hash) + c)) str
  end.

Definition simpleHash (str : string) : Z := hash_from 5381 str.

(** [proto::Shard::DEFAULT] *)
Definition Shard_DEFAULT : Z := 12.

Definition keyToShardId (key : KeyType) : Z := Z.land (simpleHash key) (Z.shiftl 1 Shard_DEFAULT - 1).

(** ** Shards to working sets *)

Definition kWorkingSetFactor : Z := 4.
Definition kWorkingSetNamePrefix : string := "cf_for_app".

Definition shardIdToColumnFamily (prefixCFName : string) (shardId factor : Z) : WSName :=
  prefixCFName +:+ to_string (Z.land shardId (Z.shiftl 1 factor - 1)).

(** The names the engine is opened with and the lookup it is given, in the constructor. *)
Definition allWS : list WSName :=
  (fun i => kWorkingSetNamePrefix +:+ to_string i) <$> seqZ 0 (Z.shiftl 1 kWorkingSetFactor).

Definition wsLookupFunc : WSLookup :=
  fun key => shardIdToColumnFamily kWorkingSetNamePrefix (keyToShardId key) kWorkingSetFactor.

(** ** Addresses *)

Definition clusterToAddressFormat (addr : ClusterAddress) : ClusterAddressFormat := String.concat "," addr.

Definition addressFormatToCluster (addrFormat : ClusterAddressFormat) : ClusterAddress := tokenize addrFormat ","%char.

(** The loop of [raftMembersToClusterAddress] over the members, each [ip:port]. *)
Fixpoint parseMembers {S} (members : list string) : M S (list (string * Z)) :=
  match members with
  | [] => ret []
  | m :: members =>
      match tokenize m ":"%char with
      | [ip; port] =>
          match stoi port with
          | Some p => let* rest := parseMembers members in ret ((ip, u64 p) :: rest)
          | None => stop Uncaught
          end
      | _ => stop AssertFail
      end
  end.

Definition raftMembersToClusterAddress {S} (appPort selfId : Z) (raftMemberInfo : list string) : M S ClusterAddress :=
  assert_ (bool_decide (selfId <= Z.of_nat (length raftMemberInfo))) ;;;
  let* ipPorts := parseMembers raftMemberInfo in
  match (if bool_decide (1 <= selfId) then ipPorts !! Z.to_nat (selfId - 1) else None) with
  | None => stop Undefined
  | Some (_, basePort) =>
      ret (imap (fun i x => to_string (Z.of_nat i + 1) +:+ "@" +:+ fst x +:+ ":" +:+
                            to_string (u64 (appPort + snd x - basePort))) ipPorts)
  end.

(** ** Every key has a working set *)

Lemma land_mask z n : 0 <= n -> Z.land z (Z.shiftl 1 n - 1) = z mod 2 ^ n.
Proof. intros Hn. rewrite Z.shiftl_1_l, Z.sub_1_r, <- Z.ones_equiv. by apply Z.land_ones. Qed.

Lemma keyToShardId_range key : 0 <= keyToShardId key < 4096.
Proof. unfold keyToShardId. rewrite land_mask by done. apply Z.mod_pos_bound. done. Qed.

Lemma shard_working_set shardId : shardIdToColumnFamily kWorkingSetNamePrefix shardId kWorkingSetFactor ∈ allWS.
Proof.
  unfold shardIdToColumnFamily, allWS. rewrite land_mask by done.
  apply (list_elem_of_fmap_2 (fun i => kWorkingSetNamePrefix +:+ to_string i)), elem_of_seqZ.
  apply (Z.mod_pos_bound shardId (2 ^ kWorkingSetFactor)). done.
Qed.

(** The constructor of the store with distinct names makes exactly those working sets. *)
Lemma new_WSConcur_names names : NoDup names ->
  exists s, new_WSConcur names = Some s /\ forall n, is_Some (mWS2Wrapper s !! n) <-> n ∈ names.
Proof.
  unfold new_WSConcur. intros Hnd.
  assert (forall s0, (forall n, n ∈ names -> mWS2Wrapper s0 !! n = None) ->
    exists s, fold_left (fun acc name => s ← acc;
        match mWS2Wrapper s !! name with
        | Some _ => None
        | None => Some (mkWSConcur (<[name := mkWrapper new_Concur SharedMutex.Free]> (mWS2Wrapper s)) (mWSObserved s))
        end) names (Some s0) = Some s /\
      forall n, is_Some (mWS2Wrapper s !! n) <-> n ∈ names \/ is_Some (mWS2Wrapper s0 !! n)) as H.
  { induction Hnd as [|name names Hnot Hnd IH]; intros s0 Hs0; cbn [fold_left]; [exists s0; set_solver|].
    cbn [mbind option_bind]. rewrite (Hs0 name) by (by left).
    destruct (IH (mkWSConcur (<[name := mkWrapper new_Concur SharedMutex.Free]> (mWS2Wrapper s0)) (mWSObserved s0))) as (s & Hs & Hdom).
    - intros n Hn. cbn. rewrite lookup_insert_ne by (intros ->; done). apply Hs0. by right.
    - exists s. split; [exact Hs|]. intros n. rewrite Hdom. cbn [mWS2Wrapper]. destruct (decide (n = name)) as [->|Hne].
      + rewrite lookup_insert_eq. split; [left; by left|eauto].
      + rewrite lookup_insert_ne by done. set_solver. }
  destruct (H (mkWSConcur ∅ KVStore.no_observers)) as (s & Hs & Hdom); [done|]. exists s. split; [done|]. intros n. rewrite Hdom. cbn.
  rewrite lookup_empty. split; [|by left]. intros [|[x Hx]]; done.
Qed.

Lemma allWS_NoDup : NoDup allWS.
Proof. apply (bool_decide_unpack _). vm_compute. exact I. Qed.

#[local] Existing Instance wsLookupFunc.

(** Every key has its working set. The object store opens its engine with sixteen working
    sets and a lookup that maps each of the 4096 shards to one of them: the store the commands
    run on is built, serves every key, and answers any calls as one in-memory store would. *)
Theorem every_key_has_a_working_set {D} `{!KVStore D} {HASH : StdHash} :
  exists s, new_WSConcur allWS = Some s /\
    (forall key, 0 <= keyToShardId key < 4096 /\ wsLookupFunc key ∈ allWS /\ is_Some (mWS2Wrapper s !! wsLookupFunc key)) /\
    forall ops c (d : D), sim_at (merged WSConcurInMemoryKVStore.wf WSConcurInMemoryKVStore.shard mWSDelegate)
      (calls ops c (mkWSStore s d)) (calls ops c (mkInMemory empty_bucket d)).
Proof.
  destruct (new_WSConcur_names allWS allWS_NoDup) as (s & Hs & Hdom). exists s.
  assert (forall key, is_Some (mWS2Wrapper s !! wsLookupFunc key)) as Hex by (intros key; apply Hdom, shard_working_set).
  split_and!; [done| |].
  - intros key. split_and!; [apply keyToShardId_range|apply keyToShardId_range|apply shard_working_set|apply Hex].
  - intros ops c d. apply (sim_calls WSConcurInMemoryKVStore.wf WSConcurInMemoryKVStore.shard mWSDelegate). by eapply merged_new_ws.
Qed.

(** ** Address text *)

Lemma address_tokens addr :
  Forall (token ",") addr -> addressFormatToCluster (clusterToAddressFormat addr) = addr.
Proof. apply tokenize_concat. Qed.
