(* ===== verification/Lifecycle.v ===== *)
(** * An engine from its settings

    [KVEngineImpl::Init], [KVEngineImpl::startProcessCommandLoop] and [KVEngineImpl::initMonitor] (kv-engine/KVEngineImpl.cpp): the parts of an
    engine, as its settings have them, and the observers its stores are given. The threads are in Loops.v, the servers that own an engine in Servers.v. *)

From S2P Require Import Prelude OrderedMap Utils Files ClusterInfo Config Status Proto KVStore ProxyKVStore InMemoryKVStore Sharding ConcurInMemoryKVStore WSConcurInMemoryKVStore.
From S2P Require Import CacheEviction VersionStore RocksDBKVStore RocksDBSpec Event Command KVEngineImpl Loops Shards.

(** ** Observers are registered *)

Section Register.
Context {D : Type} `{!KVStore D} {HASH : StdHash} {LOOKUP : WSLookup}.

(** Segments with the same mutex and keys. *)
Definition same_segment (a b : Segment) : Prop :=
  mMutex b = mMutex a /\ forall k, same_at k (mBucketKVStore b) (mBucketKVStore a).

#[local] Instance same_segment_refl : Reflexive same_segment.
Proof. split; [done|]. intros k. reflexivity. Qed.

#[local] Instance same_segment_trans : Transitive same_segment.
Proof. intros a b d [H1 H2] [H3 H4]. split; [congruence|]. intros k. by rewrite H4, H2. Qed.

Definition same_concur (a b : ConcurInMemoryKVStore D) : Prop :=
  Forall2 same_segment (mSegments (concur a)) (mSegments (concur b)) /\ mConcurDelegate b = mConcurDelegate a.

Lemma same_concur_shard a b k : same_concur a b -> ConcurInMemoryKVStore.wf a ->
  ConcurInMemoryKVStore.wf b /\ same_at k (ConcurInMemoryKVStore.shard b k) (ConcurInMemoryKVStore.shard a k).
Proof.
  intros [Hf _] Hwf. unfold ConcurInMemoryKVStore.wf, ConcurInMemoryKVStore.shard in *. split; [rewrite <- Hwf; symmetry; by eapply Forall2_length|].
  destruct (mSegments (concur a) !! calculateSegmentIndex k) as [x|] eqn:E.
  - destruct (Forall2_lookup_l _ _ _ _ _ Hf E) as (y & -> & Hy & Hs). apply Hs.
  - apply lookup_ge_None in E. by rewrite (proj2 (lookup_ge_None (mSegments (concur b)) _)) by (by rewrite <- (Forall2_length _ _ _ Hf)).
Qed.

Lemma register_segments id l : forall c (s : ConcurInMemoryKVStore D),
  Forall (fun i => (i < length (mSegments (concur s)))%nat) l ->
  exists s', forM l (fun i => in_bucket i (on_bucket (fun b =>
      mkBucket (mData b) (mUdfMetaMap b) (mDeletedData b) (KVStore.registerObserver id (mObserved b))))) c s = Done tt c s' /\ same_concur s s'.
Proof.
  induction l as [|i l IH]; intros c s Hl; [exists s; split; [done|split; reflexivity]|]. apply Forall_cons in Hl as [Hi Hl].
  destruct (lookup_lt_is_Some_2 _ _ Hi) as [seg Hseg]. cbn [forM].
  set (s1 := mkConcurStore (set_mSegments (<[i := mkSegment (mMutex seg) (mkBucket (mData (mBucketKVStore seg)) (mUdfMetaMap (mBucketKVStore seg))
    (mDeletedData (mBucketKVStore seg)) (KVStore.registerObserver id (mObserved (mBucketKVStore seg))))]> (mSegments (concur s))) (concur s)) (mConcurDelegate s)).
  destruct (IH c s1) as (s' & Hrun & Hf & Hd); [cbn; by rewrite length_insert|]. exists s'. split.
  - rewrite (bind_Done _ _ _ _ tt c s1); [done|]. unfold in_bucket. by rewrite Hseg.
  - split; [|done]. transitivity (mSegments (concur s1)); [|done]. cbn. rewrite <- (list_insert_id _ _ _ Hseg) at 1. apply Forall2_insert; [reflexivity|].
    split; [done|]. intros k. by split_and!.
Qed.

Lemma concur_register_run id c (s : ConcurInMemoryKVStore D) : ConcurInMemoryKVStore.wf s ->
  exists s', ConcurInMemoryKVStore.registerObserver id c s = Done Status.ok c s' /\ same_concur s s'.
Proof.
  intros Hwf. destruct (register_segments id all_segments c s) as (s1 & Hrun & Hs).
  { apply Forall_forall. intros i Hi%elem_of_seq. rewrite Hwf. lia. }
  eexists. split; [unfold ConcurInMemoryKVStore.registerObserver; rewrite (bind_Done _ _ _ _ _ _ _ Hrun); reflexivity|]. exact Hs.
Qed.

#[local] Abbreviation merged := (merged WSConcurInMemoryKVStore.wf WSConcurInMemoryKVStore.shard mWSDelegate).

Lemma register_ws id n c (s : WSConcurInMemoryKVStore D) im : merged s im -> is_Some (mWS2Wrapper (wsconcur s) !! n) ->
  exists s', in_ws n (ConcurInMemoryKVStore.registerObserver id) c s = Done Status.ok c s' /\ merged s' im /\
    forall n', is_Some (mWS2Wrapper (wsconcur s) !! n') -> is_Some (mWS2Wrapper (wsconcur s') !! n').
Proof.
  intros ([Hex Hwf] & Hd & Hk) [w Hw]. destruct (concur_register_run id c _ (Hwf n w Hw)) as (cs & Hrun & Hs).
  eexists. split; [unfold in_ws; rewrite Hw, Hrun; reflexivity|]. pose proof (proj2 Hs) as Hdel. cbn in Hdel. split; [split_and!|].
  - split; cbn.
    + intros key. apply lookup_insert_is_Some'. right. apply Hex.
    + intros n' w' [[<- <-]|[_ Hw']]%lookup_insert_Some; [|by eapply Hwf]. cbn. apply (same_concur_shard _ _ "" Hs (Hwf n w Hw)).
  - cbn. congruence.
  - intros k. rewrite <- (Hk k). unfold WSConcurInMemoryKVStore.shard. cbn. destruct (decide (n = mDefaultWSLookupFunc k)) as [<-|Hne].
    + rewrite lookup_insert_eq, Hw. cbn. apply (same_concur_shard _ _ k Hs (Hwf n w Hw)).
    + by rewrite lookup_insert_ne.
  - intros n' Hn'. cbn. apply lookup_insert_is_Some'. by right.
Qed.

(** Registering an observer changes nothing but who is told. *)
Lemma register_run id c (s : WSConcurInMemoryKVStore D) im : merged s im ->
  exists s', WSConcurInMemoryKVStore.registerObserver id c s = Done Status.ok c s' /\ merged s' im.
Proof.
  intros Hm. unfold WSConcurInMemoryKVStore.registerObserver, all_ws.
  assert (forall l c (s : WSConcurInMemoryKVStore D), merged s im -> Forall (fun n => is_Some (mWS2Wrapper (wsconcur s) !! n)) l ->
    exists s', forM l (fun n => in_ws n (ConcurInMemoryKVStore.registerObserver id) ;;; ret tt) c s = Done tt c s' /\ merged s' im) as Hloop.
  { clear. induction l as [|n l IH]; intros c s Hm Hl; [by exists s|]. apply Forall_cons in Hl as [Hn Hl].
    destruct (register_ws id n c s im Hm Hn) as (s1 & Hrun & Hm1 & Hn1). destruct (IH c s1 Hm1) as (s' & Hrun' & Hm'); [by eapply Forall_impl|].
    exists s'. split; [|done]. cbn [forM]. rewrite (bind_Done _ _ _ _ tt c s1); [done|]. by rewrite (bind_Done _ _ _ _ _ _ _ Hrun). }
  destruct (Hloop (ws_names (wsconcur s)) c s Hm) as (s' & Hrun & Hm'); [apply Forall_forall; intros n; apply elem_of_ws_names|].
  exists s'. split; [|done]. rewrite (bind_Done _ _ _ _ tt c s'); [done|]. by rewrite (bind_Done _ _ _ _ s c s).
Qed.

End Register.

(** ** The parts of an engine *)

Section Init.
Context {P : ProtoCodec} {R : RocksDB} {LOOKUP : WSLookup} {HASH : StdHash} {T : NodeTable} {K : Tokenizer}.
Context {F Q : Type} `{!FileSystem F}.

(** What [INIReader] finds in a file, the environment, [std::stod], and an empty queue. *)
Context (open_ini : string -> INIReader) (self_udns : option string) (hostname : string).
Context {Date : Type} (no_date : Date) (stod : string -> option Date) (empty_queue : Q).

Definition s32 (z : Z) : Z := (z + 2 ^ 31) mod 2 ^ 32 - 2 ^ 31.

(** [memoryStore] *)
Inductive MemoryStore :=
| Striped (s : WSConcurInMemoryKVStore (ReadOnlyKVStore RocksDBKVStore))
| Single (s : InMemoryKVStore (ReadOnlyKVStore RocksDBKVStore)).

(** The version store is that of the processor and of the reply loop, the database that of the apply loop and below the memory store. *)
Record Parts := mkParts {
  mAppInfo : AppInfo;
  mVersionStore : VersionStore;
  mRocksDBKVStore : RocksDBKVStore;
  writeReplyWorkers : nat;
  readReplyWorkers : nat;
  reportMetricWorkers : nat;
  snapshotDir : string;
  memoryStore : MemoryStore;
  executionService : ExecutionServiceImpl Q;
  mCacheEviction : LRUEviction;
}.

Definition World : Type := OMap Z string * F.

(** [mWorkers.reserve(size)] of the constructor of [ExecutionServiceImpl] throws on a negative size. *)
Definition new_workers (size : Z) : M World nat :=
  if bool_decide (size < 0) then stop Uncaught else ret (Z.to_nat size).

Definition new_Service (size : Z) : M World (ExecutionServiceImpl Q) :=
  let* n := new_workers size in ret (mkService (replicate n (mkWorker empty_queue 0)) 0).

(** [memoryStore->registerObserver] *)
Definition observe_memory (id : nat) (m : MemoryStore) : M World MemoryStore :=
  fun c w =>
    match m with
    | Striped s => match WSConcurInMemoryKVStore.registerObserver id c s with
                   | Done _ c' s => Done (Striped s) c' w
                   | Stop f => Stop f
                   end
    | Single s =>
        let b := bucket s in
        Done (Single (mkInMemory (mkBucket (mData b) (mUdfMetaMap b) (mDeletedData b) (KVStore.registerObserver id (mObserved b))) (mDelegate s))) c w
    end.

(** The cache eviction is observer 0. *)
Definition startProcessCommandLoop (reader : INIReader) (initWSNames : list WSName) (rocks : RocksDBKVStore)
    : M World (MemoryStore * ExecutionServiceImpl Q * LRUEviction) :=
  let concurLevel := u32 (GetInteger reader "concurrency" "execute.concurrency" 16) in
  let readOnlyStore := wrap rocks in
  let* memory :=
    (if bool_decide (1 < concurLevel) then
       match new_WSConcur initWSNames with Some s => ret (Striped (mkWSStore s readOnlyStore)) | None => stop AssertFail end
     else ret (Single (mkInMemory empty_bucket readOnlyStore))) in
  let* service := new_Service (s32 concurLevel) in
  let capacity := GetInteger reader "app" "cache.capacity" kDefaultCapacity in
  let optimal := GetInteger reader "app" "cache.optimal" kDefaultOptimal in
  assert_ (bool_decide (0 < capacity /\ 0 < optimal)) ;;;
  match new_LRU capacity optimal kDefaultMinBatchToEvict kDefaultMaxBatchToEvict with
  | None => stop AssertFail
  | Some cacheProxy =>
      let* memory := observe_memory 0 memory in
      ret (memory, service, cacheProxy)
  end.

(** [initMonitor]; registering with the monitor is left out. *)
Definition initMonitor (reader : INIReader) : M F unit :=
  let monitorPort := s32 (GetInteger reader "monitor" "port" (-1)) in
  if bool_decide (monitorPort < 0) then ret tt
  else
    assert_ (bool_decide (0 < monitorPort)) ;;;
    getDateTimeStamp no_date stod "conf/notBefore.date" ;;;
    getDateTimeStamp no_date stod "conf/notAfter.date" ;;;
    ret tt.

Definition observe_rocks (observer : option nat) (r : RocksDBKVStore) : RocksDBKVStore :=
  match observer with
  | Some id => mkRocks _ (mRocksDB r) (mWalDir r) (mDBDir r) (mColumnFamilyNames r) (mColumnFamilyHandles r) (mWriteBatch r)
                       (KVStore.registerObserver id (mRocksObserved r))
  | None => r
  end.

(** [Init]; raft, the keys and the metrics are the libraries', and the threads of the loops are in Loops.v. *)
Definition Init (reader : INIReader) (initWSNames : list WSName) (observer : option nat) : M World Parts :=
  if bool_decide (ParseError reader < 0) then stop Uncaught
  else
    let* app := new_AppInfo open_ini self_udns hostname reader in
    let raftConfigPath := Get reader "store" "raft.config.path" "UNKNOWN" in
    assert_ (bool_decide (raftConfigPath <> "UNKNOWN")) ;;;
    assert_ (bool_decide (Get (open_ini raftConfigPath) "raft.default" "cluster.conf" "UNKNOWN" <> "UNKNOWN")) ;;;
    zoom snd (fun f s => (s.1, f)) (initMonitor reader) ;;;
    let* rocks := new_RocksDBKVStore (Get reader "rocksdb" "wal.dir" "") (Get reader "rocksdb" "db.dir" "") initWSNames in
    let rocks := observe_rocks observer rocks in
    let dir := Get reader "snapshot" "dir" "UNKNOWN" in
    assert_ (bool_decide (dir <> "UNKNOWN")) ;;;
    let* writeReply := new_workers (s32 (GetInteger reader "concurrency" "writereply.concurrency" 5)) in
    let* readReply := new_workers (s32 (GetInteger reader "concurrency" "readreply.concurrency" 5)) in
    let* reportMetric := new_workers (s32 (GetInteger reader "concurrency" "reportmetric.concurrency" 10)) in
    let* (memory, service, cache) := startProcessCommandLoop reader initWSNames rocks in
    ret (mkParts app new_VersionStore rocks writeReply readReply reportMetric dir memory service cache).

(** ** An engine that starts is sound *)

Lemma s32_small z : - 2 ^ 31 <= z < 2 ^ 31 -> s32 z = z.
Proof. intros H. unfold s32. rewrite Z.mod_small by lia. lia. Qed.

(** Settings a server is run with: every file and directory is named, no monitor, and numbers in their range. *)
Record settings_ok (reader : INIReader) : Prop := {
  so_parsed : 0 <= ParseError reader;
  so_raft : exists path conf, text reader "store" "raft.config.path" = Some path /\ path <> "UNKNOWN" /\
    text (open_ini path) "raft.default" "cluster.conf" = Some conf /\ conf <> "UNKNOWN";
  so_monitor : number reader "monitor" "port" = None;
  so_snapshot : exists dir, text reader "snapshot" "dir" = Some dir /\ dir <> "UNKNOWN";
  so_execute : 1 < GetInteger reader "concurrency" "execute.concurrency" 16 < 2 ^ 31;
  so_write : 0 < GetInteger reader "concurrency" "writereply.concurrency" 5 < 2 ^ 31;
  so_read : 0 < GetInteger reader "concurrency" "readreply.concurrency" 5 < 2 ^ 31;
  so_metric : 0 < GetInteger reader "concurrency" "reportmetric.concurrency" 10 < 2 ^ 31;
  so_cache : 0 < GetInteger reader "app" "cache.optimal" kDefaultOptimal <= GetInteger reader "app" "cache.capacity" kDefaultCapacity;
}.

Lemma start_run reader names rocks c w : NoDup names -> (forall key, mDefaultWSLookupFunc key ∈ names) -> settings_ok reader ->
  exists s lru, startProcessCommandLoop reader names rocks c w =
      Done (Striped s, mkService (replicate (Z.to_nat (GetInteger reader "concurrency" "execute.concurrency" 16)) (mkWorker empty_queue 0)) 0, lru) c w /\
    merged WSConcurInMemoryKVStore.wf WSConcurInMemoryKVStore.shard mWSDelegate s (mkInMemory empty_bucket (wrap rocks)) /\
    0 < mOptimal lru <= mCapacity lru /\ mUsed lru = [].
Proof.
  intros Hnd Hcov [_ _ _ _ He _ _ _ Hc]. unfold startProcessCommandLoop.
  set (n := GetInteger reader "concurrency" "execute.concurrency" 16) in *. rewrite (u32_small n) by (unfold is_u32; lia). rewrite s32_small by lia.
  rewrite bool_decide_eq_true_2 by lia. destruct (new_WSConcur_names names Hnd) as (s & Hs & Hdom). rewrite Hs. unfold new_Service, new_workers.
  rewrite bool_decide_eq_false_2 by lia. unfold new_LRU. rewrite (bool_decide_eq_true_2 (_ /\ _)) by lia. rewrite (bool_decide_eq_true_2 (_ <= _)) by lia. run.
  destruct (register_run 0 c (mkWSStore s (wrap rocks)) (mkInMemory empty_bucket (wrap rocks))) as (s' & Hrun & Hm).
  { eapply merged_new_ws; [done|]. intros key. by apply Hdom. }
  unfold observe_memory. rewrite Hrun. eexists s', _. split; [reflexivity|]. cbn. done.
Qed.

Lemma monitor_off reader c (f : F) : number reader "monitor" "port" = None -> initMonitor reader c f = Done tt c f.
Proof. intros H. unfold initMonitor, GetInteger. by rewrite H. Qed.

Lemma new_rocks_run {S} wal dir names db c (s : S) : names <> [] -> dbOpen wal dir (kCFMetaDefault :: names) = Some db ->
  new_RocksDBKVStore wal dir names c s = Done (mkRocks _ (Some db) wal dir names (kCFMetaDefault :: names) [] no_observers) c s.
Proof.
  intros Hne Hdb. unfold new_RocksDBKVStore. rewrite bool_decide_eq_false_2 by done. run. unfold RocksDBKVStore.open. run. cbn [mColumnFamilyNames mWalDir mDBDir].
  by rewrite Hdb.
Qed.

Lemma new_workers_run n c (w : World) : 0 < n < 2 ^ 31 -> new_workers (s32 n) c w = Done (Z.to_nat n) c w.
Proof. intros H. unfold new_workers. rewrite s32_small by lia. by rewrite bool_decide_eq_false_2 by lia. Qed.

(** The database as [Init] opens it. *)
Definition opened (reader : INIReader) (names : list WSName) (observer : option nat) (db : DB) : RocksDBKVStore :=
  observe_rocks observer (mkRocks _ (Some db) (Get reader "rocksdb" "wal.dir" "") (Get reader "rocksdb" "db.dir" "") names (kCFMetaDefault :: names) [] no_observers).

Lemma engine_init_run reader names observer c w app w' db memory service lru :
  settings_ok reader -> new_AppInfo open_ini self_udns hostname reader c w = Done app c w' -> names <> [] ->
  dbOpen (Get reader "rocksdb" "wal.dir" "") (Get reader "rocksdb" "db.dir" "") (kCFMetaDefault :: names) = Some db ->
  startProcessCommandLoop reader names (opened reader names observer db) c w' = Done (memory, service, lru) c w' ->
  exists nw nr nm dir, Init reader names observer c w =
    Done (mkParts app new_VersionStore (opened reader names observer db) nw nr nm dir memory service lru) c w'.
Proof.
  intros [Hp (path & conf & Hpath & Hpne & Hconf & Hcne) Hmon (dir & Hdir & Hdne) He Hw Hr Hm Hc] Happ Hne Hdb Hstart.
  eexists _, _, _, dir. unfold Init. rewrite bool_decide_eq_false_2 by lia. rewrite (bind_Done _ _ _ _ _ _ _ Happ).
  assert (Get reader "store" "raft.config.path" "UNKNOWN" = path) as -> by (unfold Get; by rewrite Hpath).
  assert (Get (open_ini path) "raft.default" "cluster.conf" "UNKNOWN" = conf) as -> by (unfold Get; by rewrite Hconf).
  assert (Get reader "snapshot" "dir" "UNKNOWN" = dir) as -> by (unfold Get; by rewrite Hdir).
  rewrite !bool_decide_eq_true_2 by done. rewrite (bind_Done _ _ _ _ tt c w') by done. rewrite (bind_Done _ _ _ _ tt c w') by done.
  rewrite (bind_Done _ _ _ _ tt c w') by (unfold zoom; rewrite (monitor_off _ _ _ Hmon); by destruct w').
  rewrite (bind_Done _ _ _ _ _ _ _ (new_rocks_run _ _ _ _ c w' Hne Hdb)). rewrite (bind_Done _ _ _ _ tt c w') by done.
  rewrite (bind_Done _ _ _ _ _ _ _ (new_workers_run _ c w' Hw)), (bind_Done _ _ _ _ _ _ _ (new_workers_run _ c w' Hr)), (bind_Done _ _ _ _ _ _ _ (new_workers_run _ c w' Hm)).
  rewrite (bind_Done _ _ _ _ _ _ _ Hstart). reflexivity.
Qed.

Context `{!MpscQueue (nat * Command (WSConcurInMemoryKVStore (ReadOnlyKVStore RocksDBKVStore))) Q}.
Context `{!MpscQueueLaws (nat * Command (WSConcurInMemoryKVStore (ReadOnlyKVStore RocksDBKVStore))) Q}.

(** An engine ready for commands: the database is open on every working set and nothing is pending on it; the store in memory answers any
    calls as one empty store over that database does; the workers of the commands are as many as set, at least two, take commands, and their
    threads start; and the cache has room. *)
Record engine_ready (reader : INIReader) (db : DB) (parts : Parts) : Prop := {
  er_database : RocksDBSpec.wf (mRocksDBKVStore parts) /\ mRocksDB (mRocksDBKVStore parts) = Some db /\ mWriteBatch (mRocksDBKVStore parts) = [];
  er_memory : exists s, memoryStore parts = Striped s /\
    forall ops c, sim_at (merged WSConcurInMemoryKVStore.wf WSConcurInMemoryKVStore.shard mWSDelegate)
      (calls ops c s) (calls ops c (mkInMemory empty_bucket (wrap (mRocksDBKVStore parts))));
  er_workers : accepting (executionService parts) /\ (2 <= length (mWorkers (executionService parts)))%nat /\
    Z.of_nat (length (mWorkers (executionService parts))) = GetInteger reader "concurrency" "execute.concurrency" 16;
  er_threads : exists threads, started (T := nat * Command (WSConcurInMemoryKVStore (ReadOnlyKVStore RocksDBKVStore))) (mQueue <$> mWorkers (executionService parts)) = Some threads /\
    length (workers threads) = length (mWorkers (executionService parts));
  er_cache : 0 < mOptimal (mCacheEviction parts) <= mCapacity (mCacheEviction parts);
}.

Lemma started_run {A B} `{!MpscQueue A B} (qs : list B) : exists threads, started (T := A) qs = Some threads /\ length (workers threads) = length qs.
Proof.
  unfold started, start_workers. induction qs as [|q qs (t & IH & Hl)]; [by eexists|]. cbn in *. destruct (mapM _ qs) as [ws|]; [|done].
  cbn in *. injection IH as <-. eexists. split; [reflexivity|]. cbn in *. by rewrite Hl.
Qed.

(** With settings in their ranges and working sets that cover the keys, [Init] returns an engine that is ready. *)
Lemma init_ready reader names observer c w app w' db :
  settings_ok reader -> new_AppInfo open_ini self_udns hostname reader c w = Done app c w' ->
  NoDup names -> (forall key, mDefaultWSLookupFunc key ∈ names) -> kCFMetaDefault ∉ names ->
  dbOpen (Get reader "rocksdb" "wal.dir" "") (Get reader "rocksdb" "db.dir" "") (kCFMetaDefault :: names) = Some db ->
  running empty_queue = true ->
  exists parts, Init reader names observer c w = Done parts c w' /\ mAppInfo parts = app /\ engine_ready reader db parts.
Proof.
  intros Hok Happ Hnd Hcov Hdef Hdb Hq. assert (names <> []) as Hne by (intros ->; exact (not_elem_of_nil _ (Hcov ""))).
  destruct (start_run reader names (opened reader names observer db) c w' Hnd Hcov Hok) as (s & lru & Hstart & Hmerged & Hlru & _).
  destruct (engine_init_run _ _ _ _ _ _ _ _ _ _ _ Hok Happ Hne Hdb Hstart) as (nw & nr & nm & dir & Hinit). pose proof (so_execute _ Hok) as He.
  eexists. split; [exact Hinit|]. split; [done|]. split; cbn [memoryStore mRocksDBKVStore executionService mCacheEviction mWorkers]; [| | | |lia].
  - by destruct observer.
  - exists s. split; [done|]. intros ops c0. by apply (sim_calls WSConcurInMemoryKVStore.wf WSConcurInMemoryKVStore.shard mWSDelegate).
  - rewrite length_replicate. split; [|split; lia]. split_and!; cbn; [|by apply Forall_replicate|done]. destruct (Z.to_nat _) eqn:E; [lia|done].
  - destruct (started_run (A := nat * Command (WSConcurInMemoryKVStore (ReadOnlyKVStore RocksDBKVStore)))
      (mQueue <$> replicate (Z.to_nat (GetInteger reader "concurrency" "execute.concurrency" 16)) (mkWorker empty_queue 0))) as (t & Ht & Hl).
    exists t. split; [done|]. by rewrite Hl, length_fmap.
Qed.

(** Without workers there is an engine, and the first command is a division by zero; a negative number of workers is an exception. *)
Theorem no_workers_no_commands reader names rocks c w :
  number reader "concurrency" "execute.concurrency" = Some 0 -> number reader "app" "cache.capacity" = None -> number reader "app" "cache.optimal" = None ->
  exists memory service lru, startProcessCommandLoop reader names rocks c w = Done (memory, service, lru) c w /\
    forall n (cmd : Command (WSConcurInMemoryKVStore (ReadOnlyKVStore RocksDBKVStore))), submit (n, cmd) service = None.
Proof.
  intros He Hc Ho. unfold startProcessCommandLoop, GetInteger. rewrite He, Hc, Ho. run. eexists _, _, _. split; [reflexivity|]. done.
Qed.

Theorem negative_workers_throw reader names rocks c w n :
  number reader "concurrency" "execute.concurrency" = Some n -> - 2 ^ 31 <= n < 0 -> NoDup names ->
  startProcessCommandLoop reader names rocks c w = Stop Uncaught.
Proof.
  intros He Hn Hnd. unfold startProcessCommandLoop, GetInteger. rewrite He. change (default 16 (Some n)) with n.
  assert (u32 n = n + 2 ^ 32) as -> by (unfold u32; rewrite <- (Z.mod_add n 1) by lia; apply Z.mod_small; lia).
  rewrite bool_decide_eq_true_2 by lia. destruct (new_WSConcur_names names Hnd) as (s & -> & _). unfold new_Service, new_workers. run.
  assert (s32 (n + 2 ^ 32) = n) as -> by (unfold s32; replace (n + 2 ^ 32 + 2 ^ 31) with (n + 2 ^ 31 + 1 * 2 ^ 32) by lia; rewrite Z.mod_add, Z.mod_small by lia; lia).
  by rewrite bool_decide_eq_true_2 by lia.
Qed.

End Init.
