(* ===== verification/ScanCommand.v ===== *)
(** * Scans

    [KVIterator] over a snapshot of the database ([RocksDBSnapshottedKVStore],
    kv-engine/store/RocksDBKVStore.h), and [model::ScanCommand]
    (object-store/model/ScanCommand.h/.cpp), which a migration reads the keys of a working
    set with; [model::StartupCommand] (object-store/model/StartupCommand.h). *)

From S2P Require Import Prelude Status Proto KVStore SharedMutex ProxyKVStore WSConcurInMemoryKVStore RocksDBKVStore Event Command.
From S2P Require Import KVGenerateCommand.

(** ** Iterators *)

Definition seekToBegin (it : KVIterator) : KVIterator := mkIterator (it_entries it) 0.
Definition next (it : KVIterator) : KVIterator := mkIterator (it_entries it) (it_pos it + 1).

(** Before the first entry the iterator is not valid either. *)
Definition prev (it : KVIterator) : KVIterator :=
  mkIterator (it_entries it) (match it_pos it with O => length (it_entries it) | S n => n end).

(** The first key that is not smaller. *)
Definition seekTo (key : KeyType) (it : KVIterator) : KVIterator :=
  mkIterator (it_entries it)
    (match list_find (fun e : string * string => ~ string_lt (fst e) key) (it_entries it) with
     | Some (i, _) => i
     | None => length (it_entries it)
     end).

Definition hasValue (it : KVIterator) : bool := bool_decide (it_pos it < length (it_entries it))%nat.

(** What an iterator yields: key, value, ttl and version. *)
Definition Scanned : Type := KeyType * ValueType * TTLType * VersionType.

Section Get.
Context {P : ProtoCodec}.

(** [get]; the tuple is not read when the status is not OK. *)
Definition iterator_get {S} (it : KVIterator) : M S (sum Status.t Scanned) :=
  match it_entries it !! it_pos it with
  | None => ret (inl (Status.error "OK"))
  | Some (key, raw) =>
      let* (s, payload) := fromRawValue raw in
      if Status.isOK s then
        match p_data payload with
        | SingleValue value => ret (inr (key, value, m_ttl (p_meta payload), m_version (p_meta payload)))
        | _ => stop AssertFail
        end
      else ret (inl s)
  end.

End Get.

(** ** The stores that are scanned *)

(** [lockWS], [unlockWS], and [takeSnapshot()->newIterator(...)]. *)
Class ScanStore (S : Type) := {
  ssLockWS : WSName -> bool -> M S Status.t;
  ssUnlockWS : WSName -> bool -> M S Status.t;
  newIterator : WSName -> M S KVIterator;
}.
#[global] Hint Mode ScanStore ! : typeclass_instances.

(** The entries of a column family in a snapshot of the database, in the order of the keys. *)
Class RocksDBScan (R : RocksDB) := dbEntries : DB -> string -> list (string * string).

(** Exactly what [Get] finds, each key once, in increasing order. *)
Class RocksDBScanLaws (R : RocksDB) `{!RocksDBScan R} := {
  dbEntries_get db cf key raw : (key, raw) ∈ dbEntries db cf <-> dbGet db cf key = Found raw;
  dbEntries_sorted db cf : StronglySorted string_lt (dbEntries db cf).*1;
}.

#[global] Instance RocksDB_ScanStore {P : ProtoCodec} {R : RocksDB} {SC : RocksDBScan R} : ScanStore RocksDBKVStore := {
  ssLockWS _ _ := ret Status.ok;
  ssUnlockWS _ _ := ret Status.ok;
  newIterator ws :=
    let* db := the_db in
    let* handle := findCFHandleOfWS ws in
    ret (mkIterator (dbEntries db handle) 0);
}.

#[global] Instance Proxy_ScanStore {D} `{!ScanStore D} : ScanStore (ProxyKVStore D) := {
  ssLockWS _ _ := ret Status.ok;
  ssUnlockWS _ _ := ret Status.ok;
  newIterator ws := delegate (newIterator ws);
}.

#[global] Instance ReadOnly_ScanStore {D} `{!ScanStore D} : ScanStore (ReadOnlyKVStore D) := {
  ssLockWS _ _ := ret Status.ok;
  ssUnlockWS _ _ := ret Status.ok;
  newIterator ws := ro (newIterator ws);
}.

#[global] Instance WSConcur_ScanStore {D} `{!ScanStore D} : ScanStore (WSConcurInMemoryKVStore D) := {
  ssLockWS := WSConcurInMemoryKVStore.lockWS;
  ssUnlockWS := WSConcurInMemoryKVStore.unlockWS;
  newIterator ws := zoom mWSDelegate (fun d s => mkWSStore (wsconcur s) d) (newIterator ws);
}.

(** ** The command *)

(** [ScanRequest]; neither its shards nor its iterator are read. *)
Record ScanRequest := mkScanRequest {
  sq_wsName : WSName;
  sq_shardIds : list Z;
  sq_iterator : option KVIterator;
  sq_maxScanBatch : Z;
  sq_specificKeys : list KeyType;
}.

(** [respData.push_back(std::move(tuple))]: the elements are converted by position. *)
Definition push_scanned (t : Scanned) (r : ScanResponse) : ScanResponse :=
  let '(key, value, ttl, version) := t in
  mkScanResponse (sr_data r ++ [(key, value, u64 ttl, u32 version)]) (sr_iterator r) (sr_code r) (sr_message r).

Definition set_iterator (it : KVIterator) (r : ScanResponse) : ScanResponse :=
  mkScanResponse (sr_data r) (Some it) (sr_code r) (sr_message r).

(** The entry of the largest version read: key, value, ttl, version. *)
Definition note_max (key : KeyType) (value : ValueType) (ttl : TTLType) (version : VersionType)
    (m : Scanned) : Scanned :=
  let '(_, _, _, maxReadVersion) := m in
  if bool_decide (maxReadVersion < version) then (key, value, ttl, version) else m.

Section ScanCommand.
Context {S : Type} `{!KVStore S} `{!ScanStore S} {P : ProtoCodec} {UNINIT : Uninitialised}.

Definition no_max : Scanned := ("", "", fst uninitialised, kInvalidVersion).

(** The loop of [iterateAll]; what is left of [key] and [value] once the tuple is moved from is empty.
    [n] bounds the iterations: what is left of the batch. *)
Fixpoint scan_loop (n : nat) (it : KVIterator) (m : Scanned) (count : nat) (r : ScanResponse)
    : M S (Status.t * KVIterator * Scanned * nat * ScanResponse) :=
  match n with
  | O => ret (Status.ok, it, m, count, r)
  | Datatypes.S n =>
      if hasValue it then
        let* x := iterator_get it in
        match x with
        | inl s => ret (s, it, m, count, r)
        | inr (key, value, ttl, version) =>
            scan_loop n (next it) (note_max "" "" ttl version m) (Datatypes.S count)
              (push_scanned (key, value, ttl, version) r)
        end
      else ret (Status.ok, it, m, count, r)
  end.

Definition read_max (m : Scanned) (isNotFound : bool) : Event :=
  let '(key, value, ttl, version) := m in newReadEvent key value ttl version isNotFound.

Definition iterateAll (req : ScanRequest) (r : ScanResponse) : M S (Status.t * EventList * ScanResponse) :=
  let* iterator := match sr_iterator r with
                   | Some it => ret it
                   | None => newIterator (sq_wsName req)
                   end in
  let* (s, it, m, count, r) :=
    scan_loop (Z.to_nat (sq_maxScanBatch req)) (seekToBegin iterator) no_max O r in
  assert_ (negb (Status.isNotFound s)) ;;;
  ret (s, if (Status.isOK s && negb (bool_decide (count = O)))%bool then [read_max m false] else [], set_iterator it r).

(** The loop of [iterateSpecificKeys]: the status, the largest version and whether a key was missing. *)
Fixpoint specific_loop (keys : list KeyType) (m : Scanned) (hasSomeNotFound : bool) (r : ScanResponse)
    : M S (Status.t * Scanned * bool * ScanResponse) :=
  match keys with
  | [] => ret (Status.ok, m, hasSomeNotFound, r)
  | key :: keys =>
      let* (s, out) := kvReadKV key (mkOut "" 0 0) in
      let missing := Status.isNotFound s in
      if (missing || Status.isOK s)%bool then
        specific_loop keys (note_max key "" (outTTL out) (outVersion out) m) (hasSomeNotFound || missing)
          (push_scanned (key, outValue out, outTTL out, outVersion out) r)
      else ret (s, m, hasSomeNotFound, r)
  end.

(** [count] stays 0. *)
Definition iterateSpecificKeys (req : ScanRequest) (r : ScanResponse) : M S (Status.t * EventList * ScanResponse) :=
  let count := O in
  let* (s, m, hasSomeNotFound, r) := specific_loop (sq_specificKeys req) no_max false r in
  ret (s, if (Status.isOK s && negb (bool_decide (count = O)))%bool then [read_max m hasSomeNotFound] else [], r).

Definition execute (req : ScanRequest) (r : ScanResponse) : M S (Status.t * EventList * ScanResponse) :=
  match sq_specificKeys req with
  | [] => iterateAll req r
  | _ => iterateSpecificKeys req r
  end.

Definition finish (req : ScanRequest) (events : EventList) : M S Status.t :=
  let* s := until_error events apply Status.ok in
  let* u := ssUnlockWS (sq_wsName req) false in
  assert_ (Status.isOK u) ;;;
  ret s.

Definition initSuccessResponse (r : ScanResponse) : ScanResponse :=
  mkScanResponse (sr_data r) (sr_iterator r) RC_OK "succeed".

Definition fillResponseAndReply (code : ResponseCode) (message : string) (r : ScanResponse) : ScanResponse :=
  mkScanResponse (sr_data r) (sr_iterator r) (if bool_decide (code <> RC_OK) then code else sr_code r) message.

Definition command (req : ScanRequest) : Command S :=
  mkCommand [] (mkReqHeader 0 0) true false
    (prepared (ssLockWS (sq_wsName req) false))
    (fun r => match r with
              | ScanResp r => let* (s, es, r) := execute req r in ret (s, es, ScanResp r)
              | _ => stop Undefined
              end)
    (finish req)
    (ScanResp (mkScanResponse [] None RC_UNKNOWN ""))
    (fun _ _ r => match r with ScanResp r => Some (ScanResp (initSuccessResponse r)) | _ => None end)
    (fun c m _ r => match r with ScanResp r => Some (ScanResp (fillResponseAndReply c m r)) | _ => None end).

End ScanCommand.

(** ** What a scan returns *)

Section Spec.
Context {S : Type} `{!KVStore S} `{!ScanStore S} {P : ProtoCodec} {UNINIT : Uninitialised}.

(** What is stored for a key can be read. *)
Definition readable (e : string * string) (t : Scanned) : Prop :=
  let '(key, value, ttl, version) := t in
  e.1 = key /\ forall c (s : S), exists payload, fromRawValue e.2 c s = Done (Status.ok, payload) c s /\
    p_data payload = SingleValue value /\ m_ttl (p_meta payload) = ttl /\ m_version (p_meta payload) = version.

(** The elements of the response, with the version cut to 32 bits. *)
Definition returned (t : Scanned) : KeyType * ValueType * Z * Z :=
  let '(key, value, ttl, version) := t in (key, value, u64 ttl, u32 version).

Lemma iterator_get_readable it t e c (s : S) :
  it_entries it !! it_pos it = Some e -> readable e t -> iterator_get it c s = Done (inr t) c s.
Proof.
  destruct t as [[[key value] ttl] version], e as [key' raw]. intros He [Hk Hr]. cbn in Hk, Hr. subst key'.
  unfold iterator_get. rewrite He. destruct (Hr c s) as (payload & Hraw & Hd & Ht & Hv).
  unfold bind. rewrite Hraw. change (Status.isOK Status.ok) with true. cbn beta iota. rewrite Hd, Ht, Hv. done.
Qed.

Lemma scan_loop_run ts : forall n it m count r c (s : S) before,
  Forall2 readable (drop (it_pos it) (it_entries it)) ts -> sr_data r = before ->
  exists m', scan_loop n it m count r c s =
    Done (Status.ok, mkIterator (it_entries it) (it_pos it + Nat.min n (length ts)), m', (count + Nat.min n (length ts))%nat,
          mkScanResponse (before ++ (returned <$> take n ts)) (sr_iterator r) (sr_code r) (sr_message r)) c s.
Proof.
  induction ts as [|t ts IH]; intros n it m count r c s before Hall <-.
  - apply Forall2_nil_inv_r in Hall.
    assert (hasValue it = false) as Hv.
    { apply bool_decide_eq_false. intros Hlt. apply (f_equal length) in Hall. rewrite length_drop in Hall. cbn in Hall. lia. }
    exists m. destruct n as [|n]; cbn [scan_loop]; [|rewrite Hv]; cbn [length]; rewrite ?Nat.min_0_r, !Nat.add_0_r, take_nil, app_nil_r;
      by destruct it, r.
  - destruct n as [|n]; [exists m; cbn; rewrite !Nat.add_0_r, app_nil_r; by destruct it, r|].
    apply Forall2_cons_inv_r in Hall as (e & rest & He & Hall & Hdrop).
    assert (it_entries it !! it_pos it = Some e) as Hlook.
    { rewrite <- (Nat.add_0_r (it_pos it)), <- lookup_drop, Hdrop. done. }
    assert (hasValue it = true) as Hv by (apply bool_decide_eq_true; by eapply lookup_lt_Some).
    cbn [scan_loop]. rewrite Hv, (bind_Done _ _ _ _ _ _ _ (iterator_get_readable it t e c s Hlook He)).
    destruct t as [[[key value] ttl] version].
    destruct (IH n (next it) (note_max "" "" ttl version m) (Datatypes.S count) (push_scanned (key, value, ttl, version) r) c s
      (sr_data r ++ [returned (key, value, ttl, version)])) as [m' Hm'].
    { cbn [next it_entries it_pos]. rewrite <- drop_drop, Hdrop. done. }
    { done. }
    exists m'. rewrite Hm'. cbn [next it_entries it_pos push_scanned sr_iterator sr_code sr_message length Nat.min take].
    rewrite fmap_cons, <- app_assoc. cbn [app]. do 3 f_equal; [|lia]. do 2 f_equal. f_equal. lia.
Qed.

(** C23: a scan reads a snapshot. When every value of the working set can be read, a scan
    without keys answers the first keys in order, at most as many as the batch allows, with
    their values and ttls and with their versions modulo [2^32], and leaves its iterator behind
    the last of them. *)
Theorem scan_reads_snapshot req c (s s' : S) it ts :
  newIterator (sq_wsName req) c s = Done it c s' -> Forall2 readable (it_entries it) ts ->
  sq_specificKeys req = [] ->
  let n := Z.to_nat (sq_maxScanBatch req) in
  exists events, execute req (mkScanResponse [] None RC_UNKNOWN "") c s =
    Done (Status.ok, events,
          mkScanResponse (returned <$> take n ts) (Some (mkIterator (it_entries it) (Nat.min n (length ts)))) RC_UNKNOWN "") c s'.
Proof.
  intros Hit Hall Hkeys n. unfold execute. rewrite Hkeys. unfold iterateAll. cbn [sr_iterator].
  rewrite (bind_Done _ _ _ _ _ _ _ Hit).
  destruct (scan_loop_run ts n (seekToBegin it) no_max O (mkScanResponse [] None RC_UNKNOWN "") c s' []) as [m' Hm']; [done..|].
  rewrite (bind_Done _ _ _ _ _ _ _ Hm'). eexists. reflexivity.
Qed.

End Spec.

(** [StartupCommand]: does nothing; its context is the default one. *)
Definition startup_command {S} : Command S :=
  mkCommand [] (mkReqHeader 0 0) true false
    (prepared (ret Status.ok)) (plain (ret (Status.ok, []))) (fun _ => ret Status.ok)
    NoResp (fun _ _ r => Some r) (fun _ _ _ r => Some r).
