(* ===== verification/OldRocksDBKVStore.v ===== *)
(** * The store of earlier releases

    [store::OldRocksDBKVStore] (admin/OldRocksDBKVStore.h/.cpp), which the administration tool reads: a
    value is stored as a two-byte header, a serialized [proto::old::Meta] and the bytes of the value. Its
    members are those of [RocksDBKVStore]; a working set is found one handle earlier. *)

From Stdlib Require Import Ascii.
From S2P Require Import Prelude Status Proto KVStore RocksDBKVStore ScanCommand.

(** [proto::old::Meta] (protocols/oldstorage.proto) *)
Record OldMeta := mkOldMeta { om_version : Z; om_ttl : Z; om_deadline : Z }.

Definition empty_old_meta : OldMeta := mkOldMeta 0 0 0.

(** [SerializeAsString], of the length [ByteSizeLong], and the message [ParseFromArray] leaves. *)
Class OldCodec := {
  serOldMeta : OldMeta -> string;
  parOldMeta : string -> OldMeta;
}.

Class OldCodecLaws (OC : OldCodec) := {
  old_meta_roundtrip m : parOldMeta (serOldMeta m) = m;
}.

(** [DataType] *)
Definition OLD_NORMAL : Z := 100.
Definition OLD_NORMAL_WITH_TTL : Z := 101.

Section Codec.
Context {OC : OldCodec}.

Definition old_raw (type : Z) (meta : OldMeta) (value : ValueType) : string :=
  byte type +:+ byte (RocksDBKVStore.size (serOldMeta meta)) +:+ serOldMeta meta +:+ value.

Definition toRawValue (value : ValueType) (version : VersionType) : string :=
  old_raw OLD_NORMAL (mkOldMeta version 0 0) value.

Definition toRawValueTTL (value : ValueType) (version : VersionType) (ttl : TTLType) (deadline : TimeType) : string :=
  old_raw OLD_NORMAL_WITH_TTL (mkOldMeta version ttl deadline) value.

(** [parseMeta]: whether the meta parses is not looked at. A length that is negative, or beyond the buffer,
    makes [ParseFromArray] read outside of it. *)
Definition parseMeta {S} (raw : string) (meta : OldMeta) : M S (Status.t * OldMeta) :=
  if bool_decide (RocksDBKVStore.size raw <= headerLen) then ret (Status.error "corrupted header size", meta)
  else
    match char_at 0 raw, char_at 1 raw with
    | Some mType, Some mMetaLen =>
        if bool_decide (mType <> OLD_NORMAL /\ mType <> OLD_NORMAL_WITH_TTL)
        then ret (Status.error "invalid type in header", meta)
        else if bool_decide (mMetaLen < 0 \/ RocksDBKVStore.size raw < headerLen + mMetaLen) then stop Undefined
        else ret (Status.ok, parOldMeta (String.substring (Z.to_nat headerLen) (Z.to_nat mMetaLen) raw))
    | _, _ => stop Undefined
    end.

(** [fromRawValue]: the output arguments are only assigned on success. The value starts behind the meta as it
    would be serialized again. *)
Definition fromRawValue {S} (raw : string) (out : ReadOut) : M S (Status.t * ReadOut) :=
  let* (s, meta) := parseMeta raw empty_old_meta in
  if Status.isOK s then
    let* timeout := isTimeOut (om_deadline meta) (om_ttl meta) in
    if (timeout : bool) then ret (Status.expired "ttl expired", out)
    else
      let pos := headerLen + RocksDBKVStore.size (serOldMeta meta) in
      if bool_decide (RocksDBKVStore.size raw < pos) then stop Uncaught
      else ret (Status.ok, mkOut (String.substring (Z.to_nat pos) (String.length raw - Z.to_nat pos) raw) (om_ttl meta) (om_version meta))
  else ret (s, out).

End Codec.

(** ** The store *)

Section Store.
Context {OC : OldCodec} {R : RocksDB} {LOOKUP : WSLookup}.

Definition findCFHandleOfWS (wsName : WSName) : M RocksDBKVStore string :=
  if bool_decide (wsName = kCFMetaDefault) then handle_at 0
  else
    let* s := get in
    match cf_index wsName (mColumnFamilyNames s) with
    | None => stop AssertFail
    | Some index => handle_at index
    end.

Definition findCFHandle (key : KeyType) (wsLookup : WSLookupFunc) : M RocksDBKVStore string :=
  if bool_decide (key = kCFMetaDefault) then handle_at 0
  else
    let wsName := match wsLookup with Some f => f key | None => mDefaultWSLookupFunc key end in
    let* s := get in
    match cf_index wsName (mColumnFamilyNames s) with
    | None => stop AssertFail
    | Some index => handle_at index
    end.

Definition writeKV (wsLookup : WSLookupFunc) (key : KeyType) (value : ValueType) (version : VersionType) : M RocksDBKVStore Status.t :=
  let* cfHandle := findCFHandle key wsLookup in
  batch (BPut cfHandle key (toRawValue value version)) ;;;
  ret Status.ok.

Definition writeTTLKV (wsLookup : WSLookupFunc) (key : KeyType) (value : ValueType) (version : VersionType) (ttl : TTLType)
    (deadline : TimeType) : M RocksDBKVStore Status.t :=
  let* cfHandle := findCFHandle key wsLookup in
  batch (BPut cfHandle key (toRawValueTTL value version ttl deadline)) ;;;
  ret Status.ok.

Definition deleteKV (wsLookup : WSLookupFunc) (key : KeyType) : M RocksDBKVStore Status.t :=
  let* cfHandle := findCFHandle key wsLookup in
  batch (BDelete cfHandle key) ;;;
  ret Status.ok.

(** [readKV]: a value that cannot be read counts as read. *)
Definition readKV (wsLookup : WSLookupFunc) (key : KeyType) (out : ReadOut) : M RocksDBKVStore (Status.t * ReadOut) :=
  let* cfHandle := findCFHandle key wsLookup in
  let* db := the_db in
  match dbGet db cfHandle key with
  | Found raw =>
      let* (s, out) := fromRawValue raw out in
      if Status.isExpired s then deleteKV None key ;;; ret (Status.notFound "", out)
      else ret (Status.ok, out)
  | NotFound text => ret (Status.notFound text, out)
  | Failed text => ret (Status.error text, out)
  end.

Definition readMeta (wsLookup : WSLookupFunc) (key : KeyType) (meta : OldMeta) : M RocksDBKVStore (Status.t * OldMeta) :=
  let* cfHandle := findCFHandle key wsLookup in
  let* db := the_db in
  match dbGet db cfHandle key with
  | Found raw => parseMeta raw meta
  | NotFound text => ret (Status.notFound text, meta)
  | Failed text => ret (Status.error text, meta)
  end.

Definition commit (wsLookup : WSLookupFunc) (milestone : Z) : M RocksDBKVStore Status.t :=
  let* cfHandle := findCFHandle kCFMetaDefault wsLookup in
  batch (BPut cfHandle kPersistedMilestone (to_string milestone)) ;;;
  flushToRocksDB.

Definition loadMilestone (wsLookup : WSLookupFunc) (milestone : Z) : M RocksDBKVStore (Status.t * Z) :=
  let* cfHandle := findCFHandle kCFMetaDefault wsLookup in
  let* db := the_db in
  match dbGet db cfHandle kPersistedMilestone with
  | Found raw => match stoull raw with
                 | Some n => ret (Status.ok, n)
                 | None => stop Uncaught
                 end
  | NotFound text => ret (Status.notFound text, milestone)
  | Failed text => ret (Status.error text, milestone)
  end.

(** [TTLCompactionFilter::Filter]: whether a compaction drops the value. *)
Definition Filter {S} (value : string) : M S bool :=
  match char_at 0 value with
  | None => stop Undefined
  | Some mType =>
      if bool_decide (mType <> OLD_NORMAL_WITH_TTL) then ret false
      else
        let* (s, meta) := parseMeta value empty_old_meta in
        if Status.isOK s then isTimeOut (om_deadline meta) (om_ttl meta) else ret false
  end.

(** ** Iterators *)

(** [takeSnapshot()->newIterator(wsName)]; moving one is as for [RocksDBKVStore]. *)
Definition newIterator {SC : RocksDBScan R} (wsName : WSName) : M RocksDBKVStore KVIterator :=
  let* db := the_db in
  let* handle := findCFHandleOfWS wsName in
  ret (mkIterator (dbEntries db handle) 0).

(** [get] of the iterator: the status of [fromRawValue] is not looked at, so that a value that cannot be read,
    or has expired, leaves the elements of the tuple at their initial values. *)
Definition old_iterator_get {S} (it : KVIterator) : M S (sum Status.t Scanned) :=
  match it_entries it !! it_pos it with
  | None => ret (inl (Status.error "OK"))
  | Some (key, raw) =>
      let* (_, out) := fromRawValue raw (mkOut "" 0 0) in
      ret (inr (key, outValue out, outTTL out, outVersion out))
  end.

End Store.

(** ** What is written is read *)

Section Roundtrip.
Context {OC : OldCodec} {OL : OldCodecLaws OC}.

(** What the store writes and can read back: a known type, a meta whose size fits a [char] (as a protocol buffer
    it has at most 23 bytes), and a byte behind the header. *)
Definition old_readable (type : Z) (meta : OldMeta) (value : ValueType) : Prop :=
  (type = OLD_NORMAL \/ type = OLD_NORMAL_WITH_TTL) /\ RocksDBKVStore.size (serOldMeta meta) < 128 /\
  0 < RocksDBKVStore.size (serOldMeta meta) + RocksDBKVStore.size value.

Lemma size_old_raw type meta value :
  RocksDBKVStore.size (old_raw type meta value) = 2 + RocksDBKVStore.size (serOldMeta meta) + RocksDBKVStore.size value.
Proof. unfold old_raw, RocksDBKVStore.size. rewrite !length_string_app. unfold byte. cbn [String.length]. lia. Qed.

Lemma char_at_old type meta value :
  char_at 0 (old_raw type meta value) = Some (s8 (u8 type)) /\
  char_at 1 (old_raw type meta value) = Some (s8 (u8 (RocksDBKVStore.size (serOldMeta meta)))).
Proof. unfold old_raw, char_at, byte. cbv [String.get String.append mbind option_bind]. rewrite !N_of_byte. done. Qed.

Lemma parseMeta_old {S} type meta value m0 c (s : S) :
  old_readable type meta value -> parseMeta (old_raw type meta value) m0 c s = Done (Status.ok, meta) c s.
Proof.
  intros (Ht & Hlen & Hne). unfold parseMeta. destruct (char_at_old type meta value) as [-> ->].
  pose proof (size_nonneg (serOldMeta meta)). pose proof (size_nonneg value). rewrite size_old_raw. unfold headerLen.
  assert (s8 (u8 type) = type) as -> by (unfold OLD_NORMAL, OLD_NORMAL_WITH_TTL in Ht; apply s8_u8; lia).
  rewrite s8_u8 by lia. rewrite !bool_decide_eq_false_2 by (unfold OLD_NORMAL, OLD_NORMAL_WITH_TTL in *; lia).
  unfold RocksDBKVStore.size. rewrite Nat2Z.id. change (Z.to_nat 2) with 2%nat.
  assert (String.substring 2 (String.length (serOldMeta meta)) (old_raw type meta value) = serOldMeta meta) as ->
    by exact (substring_prefix (serOldMeta meta) value).
  by rewrite old_meta_roundtrip.
Qed.

(** A value that has not expired is read back. *)
Lemma fromRawValue_old {S} type meta value out c (s : S) :
  old_readable type meta value -> om_ttl meta = INFINITE_TTL \/ u32 (c O) < om_deadline meta ->
  fromRawValue (old_raw type meta value) out c s =
  Done (Status.ok, mkOut value (om_ttl meta) (om_version meta)) (if bool_decide (om_ttl meta = INFINITE_TTL) then c else later c) s.
Proof.
  intros Hok Hlive. unfold fromRawValue. rewrite (bind_Done _ _ _ _ _ _ _ (parseMeta_old type meta value empty_old_meta c s Hok)).
  change (Status.isOK Status.ok) with true. cbn iota.
  assert (isTimeOut (om_deadline meta) (om_ttl meta) c s = Done false (if bool_decide (om_ttl meta = INFINITE_TTL) then c else later c) s) as Ht.
  { unfold isTimeOut. case_bool_decide as Hinf; [done|]. run. rewrite bool_decide_eq_false_2; [done|]. destruct Hlive; [done|lia]. }
  rewrite (bind_Done _ _ _ _ _ _ _ Ht). pose proof (size_nonneg (serOldMeta meta)). pose proof (size_nonneg value).
  rewrite size_old_raw. unfold headerLen. rewrite bool_decide_eq_false_2 by lia.
  assert (Z.to_nat (2 + RocksDBKVStore.size (serOldMeta meta)) = (2 + String.length (serOldMeta meta))%nat) as -> by (unfold RocksDBKVStore.size; lia).
  assert (String.length (old_raw type meta value) = (2 + String.length (serOldMeta meta) + String.length value)%nat) as ->
    by (unfold old_raw, byte; rewrite !length_string_app; cbn [String.length]; lia).
  replace (2 + String.length (serOldMeta meta) + String.length value - (2 + String.length (serOldMeta meta)))%nat with (String.length value) by lia.
  assert (String.substring (2 + String.length (serOldMeta meta)) (String.length value) (old_raw type meta value) = value) as ->; [|done].
  etransitivity; [exact (substring_skip (serOldMeta meta) _ value)|apply substring_all].
Qed.

(** A value that has expired is as good as never written to the iterator. *)
Lemma expired_reads_empty {S} meta value c (s : S) :
  old_readable OLD_NORMAL_WITH_TTL meta value -> om_ttl meta <> INFINITE_TTL -> om_deadline meta <= u32 (c O) -> forall key,
  old_iterator_get (mkIterator [(key, old_raw OLD_NORMAL_WITH_TTL meta value)] 0) c s = Done (inr (key, "", 0, 0)) (later c) s.
Proof.
  intros Hok Httl Hdead key. unfold old_iterator_get, fromRawValue. cbn [it_entries it_pos lookup list_lookup].
  unfold bind at 1. rewrite (bind_Done _ _ _ _ _ _ _ (parseMeta_old _ meta value empty_old_meta c s Hok)). change (Status.isOK Status.ok) with true.
  cbn iota. unfold isTimeOut. rewrite bool_decide_eq_false_2 by done. run. rewrite bool_decide_eq_true_2 by done. done.
Qed.

End Roundtrip.
