(* ===== verification/ThreadPool.v ===== *)
(** * The thread pool

    [utils::ThreadPoolService] (object-store/utils/ThreadPoolService.h/.cpp), on which migrations run: a list of
    tasks under a shared mutex, threads that look through it for a task no other has claimed, and one thread
    that removes finished tasks from its front. Every atomic action of every thread is a step; the theorems hold
    for every interleaving. *)

From S2P Require Import Prelude.

(** A task is the pointer to it. *)
Abbreviation TaskPtr := nat (only parsing).

(** Where a thread of [executeThreadMain] stands: at the head of its loop, in the [for] loop with [rest] still
    to be looked at and the mutex held shared, running a task, or returned. *)
Inductive Executor :=
| EIdle
| EScan (rest : list TaskPtr)
| ERun (t : TaskPtr)
| EExit.

(** Where [popThreadMain] stands: at the head of its loop, before the write lock, or returned. *)
Inductive Popper := PIdle | PBusy | PExit.

#[global] Instance Executor_eq_dec : EqDecision Executor.
Proof. solve_decision. Defined.

(** The object and its threads. [submitted], [claimed], [ran] and [popped] record, in order, the tasks that were
    submitted, claimed by a thread, run to the end, and removed. *)
Record Pool := mkPool {
  mTaskQueue : list TaskPtr;
  flags : gmap TaskPtr Z;
  mPendingReplyQueueSize : Z;
  mRunning : bool;
  mExecuteThreads : list Executor;
  mPopThread : Popper;
  submitted : list TaskPtr;
  claimed : list TaskPtr;
  ran : list TaskPtr;
  popped : list TaskPtr;
}.

(** The constructor. *)
Definition new_Pool (maxThreadNum : nat) : Pool := mkPool [] ∅ 0 true (replicate maxThreadNum EIdle) PIdle [] [] [] [].

(** [flag] of a task: 0 initial, 1 doing, 2 done. *)
Definition flag (p : Pool) (t : TaskPtr) : Z := default 0 (flags p !! t).

(** Whether a thread holds the mutex shared; no one takes it exclusively meanwhile. *)
Definition is_scanning (e : Executor) : bool := match e with EScan _ => true | _ => false end.
Definition shared_held (p : Pool) : bool := existsb is_scanning (mExecuteThreads p).

Definition submit (task : TaskPtr) (p : Pool) : option Pool :=
  if shared_held p then None
  else Some (mkPool (mTaskQueue p ++ [task]) (flags p) (u64 (mPendingReplyQueueSize p + 1)) (mRunning p) (mExecuteThreads p)
                    (mPopThread p) (submitted p ++ [task]) (claimed p) (ran p) (popped p)).

Definition getQueueSize (p : Pool) : Z := mPendingReplyQueueSize p.

(** The next action of [popThreadMain]. *)
Definition popThread (p : Pool) : option Pool :=
  let at_ s := mkPool (mTaskQueue p) (flags p) (mPendingReplyQueueSize p) (mRunning p) (mExecuteThreads p) s
                      (submitted p) (claimed p) (ran p) (popped p) in
  match mPopThread p with
  | PIdle =>
      if mRunning p then
        match mTaskQueue p with
        | t :: _ => Some (at_ (if bool_decide (flag p t = 2) then PBusy else PIdle))
        | [] => Some (at_ PIdle)
        end
      else Some (at_ PExit)
  | PBusy =>
      if shared_held p then None
      else match mTaskQueue p with
           | t :: queue => Some (mkPool queue (flags p) (u64 (mPendingReplyQueueSize p - 1)) (mRunning p) (mExecuteThreads p) PIdle
                                        (submitted p) (claimed p) (ran p) (popped p ++ [t]))
           | [] => None
           end
  | PExit => None
  end.

(** The next action of the [i]-th thread in [executeThreadMain]. *)
Definition executeThread (i : nat) (p : Pool) : option Pool :=
  let at_ e fs cl rn := mkPool (mTaskQueue p) fs (mPendingReplyQueueSize p) (mRunning p) (<[i := e]> (mExecuteThreads p))
                               (mPopThread p) (submitted p) cl rn (popped p) in
  match mExecuteThreads p !! i with
  | Some EIdle => Some (at_ (if mRunning p then EScan (mTaskQueue p) else EExit) (flags p) (claimed p) (ran p))
  | Some (EScan []) => Some (at_ EIdle (flags p) (claimed p) (ran p))
  | Some (EScan (t :: rest)) =>
      if bool_decide (flag p t = 0) then Some (at_ (ERun t) (<[t := 1]> (flags p)) (claimed p ++ [t]) (ran p))
      else Some (at_ (EScan rest) (flags p) (claimed p) (ran p))
  | Some (ERun t) => Some (at_ EIdle (<[t := 2]> (flags p)) (claimed p) (ran p ++ [t]))
  | Some EExit | None => None
  end.

(** The destructor, before it joins the threads. *)
Definition stopPool (p : Pool) : Pool :=
  mkPool (mTaskQueue p) (flags p) (mPendingReplyQueueSize p) false (mExecuteThreads p) (mPopThread p)
         (submitted p) (claimed p) (ran p) (popped p).

(** A task is new when it is submitted. *)
Inductive step : Pool -> Pool -> Prop :=
| step_submit t p p' : t ∉ submitted p -> submit t p = Some p' -> step p p'
| step_pop p p' : popThread p = Some p' -> step p p'
| step_execute i p p' : executeThread i p = Some p' -> step p p'
| step_stop p : step p (stopPool p).

(** ** Invariant *)

Definition running (es : list Executor) : list TaskPtr := omap (fun e => match e with ERun t => Some t | _ => None end) es.

Record pool_ok (p : Pool) : Prop := {
  ok_nodup : NoDup (submitted p);
  ok_queue : submitted p = popped p ++ mTaskQueue p;
  ok_claimed : claimed p `prefix_of` submitted p;
  ok_running : claimed p ≡ₚ ran p ++ running (mExecuteThreads p);
  ok_flag t : flag p t = if bool_decide (t ∈ ran p) then 2 else if bool_decide (t ∈ claimed p) then 1 else 0;
  ok_popped t : t ∈ popped p -> t ∈ ran p;
  ok_scan i rest : mExecuteThreads p !! i = Some (EScan rest) -> exists seen, mTaskQueue p = seen ++ rest /\ forall t, t ∈ seen -> t ∈ claimed p;
  ok_busy : mPopThread p = PBusy -> exists t queue, mTaskQueue p = t :: queue /\ t ∈ ran p;
  ok_size : mPendingReplyQueueSize p = u64 (Z.of_nat (length (mTaskQueue p)));
}.

Lemma shared_free p : shared_held p = false -> forall i rest, mExecuteThreads p !! i <> Some (EScan rest).
Proof.
  intros H i rest Hi. apply list_elem_of_lookup_2 in Hi. assert (shared_held p = true) as Ht; [|congruence].
  apply existsb_exists. exists (EScan rest). split; [by apply list_elem_of_In|done].
Qed.

Lemma running_insert es i e e' : es !! i = Some e ->
  exists rest, running es ≡ₚ running [e] ++ rest /\ running (<[i := e']> es) ≡ₚ running [e'] ++ rest.
Proof.
  intros Hi. exists (running (take i es ++ drop (S i) es)). unfold running.
  rewrite <- (take_drop_middle _ _ _ Hi) at 1. rewrite insert_take_drop by (by eapply lookup_lt_Some).
  change (e :: drop (S i) es) with ([e] ++ drop (S i) es). change (e' :: drop (S i) es) with ([e'] ++ drop (S i) es).
  rewrite !omap_app. split; solve_Permutation.
Qed.

(** A prefix that has all of [l1] and not the element behind it. *)
Lemma prefix_exact {A} (k l1 l2 : list A) t :
  NoDup (l1 ++ t :: l2) -> k `prefix_of` l1 ++ t :: l2 -> (forall x, x ∈ l1 -> x ∈ k) -> t ∉ k -> k = l1.
Proof.
  intros Hnd [l Hl] Hin Ht. apply app_eq_inv in Hl as [(x & -> & Hx)|(x & -> & Hx)].
  - destruct x as [|y x]; [by rewrite app_nil_r|]. exfalso. rewrite <- app_assoc in Hnd. apply NoDup_app in Hnd as (_ & Hd & _).
    apply (Hd y); [apply Hin; set_solver|set_solver].
  - destruct x as [|y x]; [by rewrite app_nil_r|]. cbn in Hx. injection Hx as <- _. set_solver.
Qed.

Lemma new_pool_ok n : pool_ok (new_Pool n).
Proof.
  assert (running (replicate n EIdle) = []) as Hr by (by induction n).
  constructor; cbn; try done; [by apply NoDup_nil|by unfold running in Hr; rewrite Hr|].
  intros i rest [H _]%lookup_replicate. discriminate.
Qed.

Lemma submit_ok t p p' : pool_ok p -> t ∉ submitted p -> submit t p = Some p' -> pool_ok p'.
Proof.
  intros [Hnd Hq Hc Hr Hf Hp Hs Hb Hz] Ht H. unfold submit in H. destruct (shared_held p) eqn:Hsh; [done|]. injection H as <-.
  constructor; cbn; try done.
  - apply NoDup_app. split; [done|]. split; [set_solver|apply NoDup_singleton].
  - by rewrite Hq, app_assoc.
  - by apply prefix_app_r.
  - intros i rest Hi. by destruct (shared_free p Hsh i rest).
  - intros Hpb. destruct (Hb Hpb) as (t' & q & -> & Hin). by exists t', (q ++ [t]).
  - rewrite Hz, length_app. cbn. unfold u64. rewrite Zplus_mod_idemp_l. f_equal. lia.
Qed.

Lemma pop_ok p p' : pool_ok p -> popThread p = Some p' -> pool_ok p'.
Proof.
  intros Hok H. pose proof Hok as [Hnd Hq Hc Hr Hf Hp Hs Hb Hz]. unfold popThread in H.
  destruct (mPopThread p) eqn:Hpt; [| |done].
  - destruct (mRunning p); [|injection H as <-; by constructor].
    destruct (mTaskQueue p) as [|t q] eqn:Eq; injection H as <-; constructor; cbn; rewrite ?Eq in *; try done.
    case_bool_decide as Hft; [|done]. intros _. exists t, q. split; [done|]. rewrite Hf in Hft. by repeat case_bool_decide.
  - destruct (shared_held p) eqn:Hsh; [done|]. destruct (mTaskQueue p) as [|t q] eqn:Eq; [done|]. injection H as <-.
    destruct (Hb eq_refl) as (t' & q' & [= <- <-] & Hin). constructor; cbn; try done.
    + by rewrite Hq, <- app_assoc.
    + intros x [Hx|Hx]%elem_of_app; [by apply Hp|]. set_solver.
    + intros i rest Hi. by destruct (shared_free p Hsh i rest).
    + rewrite Hz. cbn [length]. unfold u64. rewrite Zminus_mod_idemp_l. f_equal. lia.
Qed.

(** Looking up another thread after a change of thread [i]. *)
Lemma scan_insert (es : list Executor) i e j rest : <[i := e]> es !! j = Some (EScan rest) -> e = EScan rest \/ es !! j = Some (EScan rest).
Proof. intros [(_ & -> & _)|[_ ?]]%list_lookup_insert_Some; [by left|by right]. Qed.

Lemma running_keep es i e e' : es !! i = Some e -> running [e] = running [e'] -> running (<[i := e']> es) ≡ₚ running es.
Proof. intros Hi He. destruct (running_insert es i e e' Hi) as (rest & -> & ->). by rewrite He. Qed.

Lemma claim_ok i t rest p : pool_ok p -> mExecuteThreads p !! i = Some (EScan (t :: rest)) -> flag p t = 0 ->
  pool_ok (mkPool (mTaskQueue p) (<[t := 1]> (flags p)) (mPendingReplyQueueSize p) (mRunning p) (<[i := ERun t]> (mExecuteThreads p))
                  (mPopThread p) (submitted p) (claimed p ++ [t]) (ran p) (popped p)).
Proof.
  intros [Hnd Hq Hc Hr Hf Hp Hs Hb Hz] Hi Ht. destruct (Hs _ _ Hi) as (seen & Hseen & Hall).
  assert ((t ∉ ran p) /\ (t ∉ claimed p)) as [Hnr Hnc] by (rewrite Hf in Ht; repeat case_bool_decide; done).
  assert (submitted p = ((popped p ++ seen) ++ t :: rest)) as Hsub by (by rewrite Hq, Hseen, app_assoc).
  assert (claimed p = popped p ++ seen) as Hcl.
  { rewrite Hsub in Hnd, Hc. eapply prefix_exact; [exact Hnd|done| |done].
    intros x [Hx|Hx]%elem_of_app; [|by apply Hall]. apply Hp in Hx. rewrite Hr. set_solver. }
  constructor; cbn; try done.
  - rewrite Hcl, Hsub. exists rest. by rewrite <- !app_assoc.
  - destruct (running_insert _ i _ (ERun t) Hi) as (rs & H1 & ->). rewrite Hr, H1. cbn. by rewrite <- app_assoc, (Permutation_app_comm rs [t]).
  - intros x. unfold flag in *. cbn. destruct (decide (x = t)) as [->|Hne].
    + rewrite lookup_insert_eq, bool_decide_eq_false_2, bool_decide_eq_true_2 by set_solver. done.
    + rewrite lookup_insert_ne, Hf by done. by rewrite (bool_decide_ext (x ∈ claimed p ++ [t]) (x ∈ claimed p)) by set_solver.
  - intros j rest' [|Hj]%scan_insert; [done|]. destruct (Hs _ _ Hj) as (s' & ? & Hs'). exists s'. split; [done|]. set_solver.
Qed.

Lemma finish_ok i t p : pool_ok p -> mExecuteThreads p !! i = Some (ERun t) ->
  pool_ok (mkPool (mTaskQueue p) (<[t := 2]> (flags p)) (mPendingReplyQueueSize p) (mRunning p) (<[i := EIdle]> (mExecuteThreads p))
                  (mPopThread p) (submitted p) (claimed p) (ran p ++ [t]) (popped p)).
Proof.
  intros [Hnd Hq Hc Hr Hf Hp Hs Hb Hz] Hi. destruct (running_insert _ i _ EIdle Hi) as (rs & H1 & H2).
  constructor; cbn; try done.
  - rewrite H2, Hr, H1. cbn. by rewrite <- app_assoc.
  - intros x. unfold flag in *. cbn. destruct (decide (x = t)) as [->|Hne].
    + rewrite lookup_insert_eq, bool_decide_eq_true_2 by set_solver. done.
    + rewrite lookup_insert_ne, Hf by done. by rewrite (bool_decide_ext (x ∈ ran p ++ [t]) (x ∈ ran p)) by set_solver.
  - set_solver.
  - intros j rest' [|Hj]%scan_insert; [done|]. by apply (Hs j).
  - intros Hpb. destruct (Hb Hpb) as (t' & q & ? & ?). exists t', q. set_solver.
Qed.

Lemma execute_ok i p p' : pool_ok p -> executeThread i p = Some p' -> pool_ok p'.
Proof.
  intros Hok H. unfold executeThread in H. pose proof Hok as [Hnd Hq Hc Hr Hf Hp Hs Hb Hz].
  destruct (mExecuteThreads p !! i) as [[|[|t rest]|t|]|] eqn:Hi; try done.
  - injection H as <-. constructor; cbn; try done.
    + rewrite (running_keep _ _ _ _ Hi); [done|by destruct (mRunning p)].
    + intros j rest [Hj|Hj]%scan_insert; [|by apply (Hs j)]. destruct (mRunning p); [|done]. injection Hj as <-. exists []. split; [done|set_solver].
  - injection H as <-. constructor; cbn; try done; [by rewrite (running_keep _ _ _ EIdle Hi eq_refl)|].
    intros j rest [|Hj]%scan_insert; [done|by apply (Hs j)].
  - case_bool_decide as Ht; injection H as <-; [by eapply claim_ok|]. constructor; cbn; try done; [by rewrite (running_keep _ _ _ (EScan rest) Hi eq_refl)|].
    intros j rest' [[= <-]|Hj]%scan_insert; [|by apply (Hs j)]. destruct (Hs _ _ Hi) as (seen & -> & Hall).
    exists (seen ++ [t]). split; [by rewrite <- app_assoc|]. intros x [Hx|Hx%list_elem_of_singleton]%elem_of_app; [by apply Hall|subst x].
    rewrite Hf in Ht. repeat case_bool_decide; try done. rewrite Hr. set_solver.
  - injection H as <-. by apply finish_ok.
Qed.

Lemma pool_step_ok p p' : step p p' -> pool_ok p -> pool_ok p'.
Proof.
  intros Hst Hok. destruct Hst; [by eapply submit_ok|by eapply pop_ok|by eapply execute_ok|].
  destruct Hok. by constructor.
Qed.

Lemma pool_steps_ok p p' : rtc step p p' -> pool_ok p -> pool_ok p'.
Proof. induction 1; eauto using pool_step_ok. Qed.

(** ** Progress *)

(** The steps of the threads of the pool. *)
Inductive work : Pool -> Pool -> Prop :=
| work_pop p p' : popThread p = Some p' -> work p p'
| work_execute i p p' : executeThread i p = Some p' -> work p p'.

Lemma work_step p p' : work p p' -> step p p'.
Proof. destruct 1; [by apply step_pop|by eapply step_execute]. Qed.

Lemma works_ok p p' : rtc work p p' -> pool_ok p -> pool_ok p'.
Proof. induction 1; eauto using pool_step_ok, work_step. Qed.

Definition weight (e : Executor) : nat := match e with EScan rest => 2 + length rest | ERun _ => 1 | _ => 0 end.
Definition weights (es : list Executor) : nat := sum_list (weight <$> es).

Lemma weights_insert es i e e' : es !! i = Some e -> (weights (<[i := e']> es) + weight e = weights es + weight e')%nat.
Proof.
  revert i. induction es as [|x es IH]; intros [|i] Hi; cbn in Hi; [done|done|injection Hi as ->; unfold weights; cbn; lia|].
  specialize (IH i Hi). unfold weights in *. cbn. rewrite <- !Nat.add_assoc. f_equal. exact IH.
Qed.

#[local] Arguments weights : simpl never.

(** What the threads of the pool leave alone, and that they claim no less. *)
Definition same_tasks (p p' : Pool) : Prop :=
  submitted p' = submitted p /\ mTaskQueue p' = mTaskQueue p /\ mRunning p' = mRunning p /\ mPopThread p' = mPopThread p /\
  length (mExecuteThreads p') = length (mExecuteThreads p) /\ (length (claimed p) <= length (claimed p'))%nat.

Lemma same_tasks_trans p1 p2 p3 : same_tasks p1 p2 -> same_tasks p2 p3 -> same_tasks p1 p3.
Proof. intros (? & ? & ? & ? & ? & ?) (? & ? & ? & ? & ? & ?). unfold same_tasks. split_and!; try congruence; lia. Qed.

Definition idle (e : Executor) : Prop := e = EIdle \/ e = EExit.

Lemma execute_busy i p e : mExecuteThreads p !! i = Some e -> ~ idle e ->
  exists p', executeThread i p = Some p' /\ same_tasks p p' /\ (weights (mExecuteThreads p') < weights (mExecuteThreads p))%nat.
Proof.
  intros Hi He. unfold executeThread, same_tasks. rewrite Hi.
  destruct e as [|[|t rest]|t|]; [by destruct He; left| | | |by destruct He; right].
  2: case_bool_decide.
  all: eexists; (split; [reflexivity|]); cbn; rewrite ?length_insert, ?length_app; split_and!; try done; try lia.
  all: match goal with |- (weights (<[_ := ?e']> _) < _)%nat => pose proof (weights_insert _ _ _ e' Hi); cbn in *; lia end.
Qed.

(** Threads that are at work come to the head of their loops. *)
Lemma settle k : forall p, weights (mExecuteThreads p) = k ->
  exists p', rtc work p p' /\ same_tasks p p' /\ Forall idle (mExecuteThreads p').
Proof.
  induction k as [k IH] using lt_wf_ind. intros p Hk.
  destruct (decide (Exists (fun e => weight e <> 0%nat) (mExecuteThreads p))) as [He|He].
  - apply Exists_exists in He as (e & [i Hi]%list_elem_of_lookup & Hw).
    destruct (execute_busy i p e Hi) as (p1 & H1 & Hs1 & Hlt); [by intros [-> | ->]|].
    destruct (IH (weights (mExecuteThreads p1)) ltac:(lia) p1 eq_refl) as (p' & Hr & Hs & Hall). exists p'. split_and!; [|by eapply same_tasks_trans|done].
    eapply rtc_l; [by eapply work_execute|done].
  - exists p. split_and!; [done|by unfold same_tasks; split_and!; try lia|]. apply Forall_forall. intros e Hin. unfold idle.
    destruct e as [|rest|t|]; [by left| | |by right]; destruct He; apply Exists_exists; eexists; (split; [exact Hin|done]).
Qed.

(** A thread that looks through a list with an unclaimed task claims one. *)
Lemma scan_claims i rest : forall p, mExecuteThreads p !! i = Some (EScan rest) -> Exists (fun t => flag p t = 0) rest ->
  exists p', rtc work p p' /\ same_tasks p p' /\ length (claimed p') = S (length (claimed p)).
Proof.
  induction rest as [|t rest IH]; intros p Hi Hex; [by apply Exists_nil in Hex|].
  destruct (decide (flag p t = 0)) as [Ht|Ht].
  - eexists. split; [apply rtc_once, (work_execute i); unfold executeThread; rewrite Hi, bool_decide_eq_true_2 by done; reflexivity|].
    unfold same_tasks. cbn. rewrite length_insert, length_app. cbn. split_and!; try done; lia.
  - apply Exists_cons in Hex as [|Hex]; [done|]. eassert (executeThread i p = Some _) as Hx.
    { unfold executeThread. rewrite Hi, bool_decide_eq_false_2 by done. reflexivity. }
    match type of Hx with _ = Some ?p1 => destruct (IH p1) as (p' & Hr & Hs & Hc) end;
      [cbn; apply list_lookup_insert_eq; by eapply lookup_lt_Some|exact Hex|].
    exists p'. split_and!; [eapply rtc_l; [by eapply work_execute|done]| |done]. eapply same_tasks_trans; [|exact Hs].
    unfold same_tasks. cbn. rewrite length_insert. by split_and!.
Qed.

(** Threads return only once the pool is stopped. *)
Definition lively (n : nat) (p : Pool) : Prop :=
  length (mExecuteThreads p) = n /\ (mRunning p = true -> (EExit ∉ mExecuteThreads p) /\ mPopThread p <> PExit).

Lemma insert_not_exit (es : list Executor) i e : e <> EExit -> EExit ∉ es -> EExit ∉ <[i := e]> es.
Proof. intros He Hes [j [(_ & -> & _)|[_ Hj]]%list_lookup_insert_Some]%list_elem_of_lookup; [done|]. apply Hes. by eapply list_elem_of_lookup_2. Qed.

Lemma step_lively n p p' : step p p' -> lively n p -> lively n p'.
Proof.
  intros Hst [Hn Hl]. destruct Hst as [t p p' _ H|p p' H|i p p' H|p].
  - unfold submit in H. destruct (shared_held p); [done|]. by injection H as <-.
  - unfold popThread in H. destruct (mPopThread p) eqn:Hp; [| |done].
    + destruct (mRunning p) eqn:Hr; [|injection H as <-; split; cbn; [done|congruence]].
      destruct (mTaskQueue p); injection H as <-; (split; [done|]); cbn; intros _; (split; [by apply Hl|]); [done|by case_bool_decide].
    + destruct (shared_held p); [done|]. destruct (mTaskQueue p); [done|]. injection H as <-. split; [done|]. cbn. intros Hr. by destruct (Hl Hr).
  - unfold executeThread in H. destruct (mExecuteThreads p !! i) as [[|[|t rest]|t|]|]; try done.
    3: case_bool_decide.
    all: injection H as <-; split; cbn; [by rewrite length_insert|]; intros Hr; destruct (Hl Hr); (split; [|done]); apply insert_not_exit; try done.
    by rewrite Hr.
  - by split.
Qed.

Lemma works_lively n p p' : rtc work p p' -> lively n p -> lively n p'.
Proof. induction 1; eauto using step_lively, work_step. Qed.

(** The first thread starts to look through the queue and claims a task. *)
Lemma claims_next n p : pool_ok p -> lively (S n) p -> mRunning p = true -> Forall idle (mExecuteThreads p) ->
  claimed p <> submitted p ->
  exists p', rtc work p p' /\ same_tasks p p' /\ length (claimed p') = S (length (claimed p)).
Proof.
  intros Hok [Hn Hl] Hr Hidle Hne. pose proof Hok as [Hnd Hq [k Hk] Hperm Hf Hp _ _ _].
  destruct k as [|t k]; [by rewrite app_nil_r in Hk|].
  assert (t ∉ claimed p) as Ht by (rewrite Hk in Hnd; apply NoDup_app in Hnd as (_ & Hd & _); intros Hin; apply (Hd t Hin); set_solver).
  assert (t ∉ ran p) as Htr by (intros Hin; apply Ht; rewrite Hperm; set_solver).
  assert (t ∈ mTaskQueue p) as Hin.
  { assert (t ∈ popped p ++ mTaskQueue p) as [Hin|]%elem_of_app by (rewrite <- Hq, Hk; set_solver); [by apply Hp in Hin|done]. }
  destruct (lookup_lt_is_Some_2 (mExecuteThreads p) 0) as [e He]; [lia|].
  assert (e = EIdle) as ->.
  { rewrite Forall_lookup in Hidle. destruct (Hidle _ _ He) as [|Hx]; [done|]. destruct (Hl Hr) as [Hx' _]. subst e. destruct Hx'. by eapply list_elem_of_lookup_2. }
  eassert (executeThread 0 p = Some _) as Hx by (unfold executeThread; rewrite He, Hr; reflexivity).
  match type of Hx with _ = Some ?p1 => destruct (scan_claims 0 (mTaskQueue p) p1) as (p' & Hrun & Hs & Hc) end.
  - cbn. apply list_lookup_insert_eq. lia.
  - apply Exists_exists. exists t. split; [done|]. change (flag p t = 0). by rewrite Hf, !bool_decide_eq_false_2.
  - exists p'. split_and!; [eapply rtc_l; [by eapply work_execute|done]| |done]. eapply same_tasks_trans; [|exact Hs].
    unfold same_tasks. cbn. rewrite length_insert, Hr. by split_and!.
Qed.

Lemma all_claimed n k : forall p, pool_ok p -> lively (S n) p -> mRunning p = true -> (length (submitted p) - length (claimed p) = k)%nat ->
  exists p', rtc work p p' /\ same_tasks p p' /\ Forall idle (mExecuteThreads p') /\ claimed p' = submitted p'.
Proof.
  induction k as [k IH] using lt_wf_ind. intros p Hok Hl Hr Hk.
  destruct (settle _ p eq_refl) as (p1 & H1 & Hs1 & Hi1). pose proof (works_ok _ _ H1 Hok) as Hok1. pose proof (works_lively _ _ _ H1 Hl) as Hl1.
  destruct (decide (claimed p1 = submitted p1)) as [Hc|Hc]; [by exists p1|].
  pose proof Hs1 as (Esub & _ & Erun & _ & _ & Hle). destruct (claims_next n p1 Hok1 Hl1 ltac:(congruence) Hi1 Hc) as (p2 & H2 & Hs2 & Hlen).
  pose proof Hs2 as (Esub2 & _ & Erun2 & _). pose proof (prefix_length _ _ (ok_claimed _ (works_ok _ _ H2 Hok1))) as Hb.
  destruct (IH (length (submitted p2) - length (claimed p2))%nat ltac:(rewrite Esub2, Esub in *; lia) p2) as (p' & H3 & Hs3 & Hrest);
    [by eapply works_ok|by eapply works_lively|congruence|done|].
  exists p'. split_and!; [by etrans; [exact H1|etrans]|by eapply same_tasks_trans; [|eapply same_tasks_trans]|apply Hrest..].
Qed.

(** Finished tasks leave the queue. *)
Lemma all_popped q : forall p, pool_ok p -> Forall idle (mExecuteThreads p) -> mRunning p = true -> mPopThread p <> PExit ->
  mTaskQueue p = q -> (forall t, t ∈ q -> t ∈ ran p) ->
  exists p', rtc work p p' /\ mTaskQueue p' = [] /\ ran p' = ran p /\ submitted p' = submitted p.
Proof.
  induction q as [|t q IH]; intros p Hok Hi Hr Hp Hq Hran; [by exists p|].
  assert (exists p1, rtc work p p1 /\ pool_ok p1 /\ mExecuteThreads p1 = mExecuteThreads p /\ mRunning p1 = true /\ mPopThread p1 = PBusy /\
    mTaskQueue p1 = t :: q /\ ran p1 = ran p /\ submitted p1 = submitted p) as (p1 & H1 & Hok1 & Ee & Er & Ep & Eq & Ern & Es).
  { destruct (mPopThread p) eqn:Hpt; [|by exists p|done].
    eassert (popThread p = Some _) as Hx.
    { unfold popThread. rewrite Hpt, Hr, Hq. rewrite bool_decide_eq_true_2; [reflexivity|]. rewrite (ok_flag _ Hok), bool_decide_eq_true_2; [done|]. apply Hran. by left. }
    eexists. split; [apply rtc_once, work_pop, Hx|]. split; [by eapply pop_ok|]. cbn. by split_and!. }
  assert (shared_held p1 = false) as Hsh.
  { unfold shared_held. rewrite Ee. apply not_true_iff_false. intros (e & Hin%list_elem_of_In & He)%existsb_exists.
    rewrite Forall_forall in Hi. by destruct (Hi e Hin) as [-> | ->]. }
  eassert (popThread p1 = Some _) as Hx by (unfold popThread; rewrite Ep, Hsh, Eq; reflexivity).
  match type of Hx with _ = Some ?p2 => destruct (IH p2) as (p' & H2 & Hrest) end;
    [by eapply pop_ok|by cbn; rewrite Ee|done|done|done|cbn; rewrite Ern; set_solver|].
  exists p'. cbn in Hrest. rewrite Ern, Es in Hrest. split; [|done]. etrans; [exact H1|]. eapply rtc_l; [by apply work_pop|done].
Qed.

(** In any state a pool with threads can reach before its shutdown, its threads can go on until every
    submitted task has run and the queue is empty. *)
Lemma pool_can_finish n p :
  rtc step (new_Pool (S n)) p -> mRunning p = true ->
  exists p', rtc work p p' /\ mTaskQueue p' = [] /\ submitted p' = submitted p /\ ran p' ≡ₚ submitted p.
Proof.
  intros Hsteps Hr. pose proof (pool_steps_ok _ _ Hsteps (new_pool_ok (S n))) as Hok.
  assert (lively (S n) p) as Hl.
  { assert (lively (S n) (new_Pool (S n))) as H0.
    { split; [apply length_replicate|]. intros _. split; [|done]. intros [j [H _]%lookup_replicate]%list_elem_of_lookup. discriminate. }
    revert H0. clear Hr Hok. induction Hsteps; eauto using step_lively. }
  destruct (all_claimed n _ p Hok Hl Hr eq_refl) as (p1 & H1 & (Es & _ & Er & _) & Hi & Hc).
  pose proof (works_ok _ _ H1 Hok) as Hok1. assert (ran p1 ≡ₚ submitted p1) as Hran.
  { rewrite <- Hc, (ok_running _ Hok1). assert (running (mExecuteThreads p1) = []) as ->; [|by rewrite app_nil_r].
    clear -Hi. induction Hi as [|e es [-> | ->] _ IH]; [done|exact IH|exact IH]. }
  destruct (works_lively _ _ _ H1 Hl) as [_ Hl1]. destruct (Hl1 ltac:(congruence)) as [_ Hp1].
  destruct (all_popped (mTaskQueue p1) p1 Hok1 Hi ltac:(congruence) Hp1 eq_refl) as (p' & H2 & Hq & Hr' & Hs').
  - intros t Ht. rewrite Hran, (ok_queue _ Hok1). set_solver.
  - exists p'. split_and!; [by etrans|done|congruence|]. by rewrite Hr', Hran, Es.
Qed.

(** C18: every task is run once. However submissions, the threads of the pool and its shutdown interleave, tasks
    are claimed in the order of their submission, none twice and none left out; what was claimed has run
    or is being run by one thread; a task leaves the queue only after it has run; and the counter is the
    length of the queue. From any such state the threads can go on, unless the pool is being shut
    down, until every submitted task has run and the queue is empty. *)
Theorem tasks_run_once_in_order n p :
  rtc step (new_Pool (S n)) p ->
  NoDup (submitted p) /\ claimed p `prefix_of` submitted p /\
  claimed p ≡ₚ ran p ++ running (mExecuteThreads p) /\
  submitted p = popped p ++ mTaskQueue p /\ (forall t, t ∈ popped p -> t ∈ ran p) /\
  getQueueSize p = u64 (Z.of_nat (length (mTaskQueue p))) /\
  (mRunning p = true -> exists p', rtc work p p' /\ mTaskQueue p' = [] /\ submitted p' = submitted p /\ ran p' ≡ₚ submitted p).
Proof.
  intros H. pose proof (pool_steps_ok _ _ H (new_pool_ok (S n))) as []. do 6 (split; [done|]).
  intros Hr. by apply (pool_can_finish n).
Qed.

(** Two threads; the second task is claimed while the first one runs. *)
Definition pool0 (fs : gmap TaskPtr Z) (e1 e2 : Executor) (cl : list TaskPtr) : Pool :=
  mkPool [10; 20]%nat fs 2 true [e1; e2] PIdle [10; 20]%nat cl [] [].

Lemma pool0_reached :
  rtc step (new_Pool 2) (pool0 (<[20%nat := 1]> (<[10%nat := 1]> ∅)) (ERun 10) (ERun 20) [10; 20]%nat).
Proof.
  eapply (rtc_l _ _ (mkPool [10%nat] ∅ 1 true [EIdle; EIdle] PIdle [10%nat] [] [] []));
    [apply (step_submit 10); [apply not_elem_of_nil|reflexivity]|].
  eapply (rtc_l _ _ (pool0 ∅ EIdle EIdle [])); [apply (step_submit 20); [by intros H%list_elem_of_singleton|reflexivity]|].
  eapply (rtc_l _ _ (pool0 ∅ (EScan [10; 20]%nat) EIdle [])); [apply (step_execute 0); reflexivity|].
  eapply (rtc_l _ _ (pool0 (<[10%nat := 1]> ∅) (ERun 10) EIdle [10%nat])); [apply (step_execute 0); reflexivity|].
  eapply (rtc_l _ _ (pool0 (<[10%nat := 1]> ∅) (ERun 10) (EScan [10; 20]%nat) [10%nat])); [apply (step_execute 1); reflexivity|].
  eapply (rtc_l _ _ (pool0 (<[10%nat := 1]> ∅) (ERun 10) (EScan [20%nat]) [10%nat])); [apply (step_execute 1); reflexivity|].
  apply rtc_once, (step_execute 1). reflexivity.
Qed.

Lemma tasks_run_once_in_order_witness :
  exists p, rtc step (new_Pool 2) p /\ submitted p = [10; 20]%nat /\ running (mExecuteThreads p) = [10; 20]%nat /\
  exists p', rtc work p p' /\ mTaskQueue p' = [] /\ submitted p' = [10; 20]%nat /\ ran p' ≡ₚ [10; 20]%nat.
Proof.
  eexists. split; [exact pool0_reached|]. split; [reflexivity|]. split; [reflexivity|].
  destruct (tasks_run_once_in_order 1 _ pool0_reached) as (_ & _ & _ & _ & _ & _ & Hlive). exact (Hlive eq_refl).
Defined.
