(* ===== verification/CallData.v ===== *)
(** * Serving calls

    The receivers of the object store and of the object manager (network/RequestReceiver.cpp, RequestCallData.h
    and rpc/*CallData.cpp of each) serve calls with objects that go from [CREATE] over [PROCESS] to [FINISH] and
    delete themselves. gRPC knows an object by its address, the tag: it fills its request, puts tags into
    the completion queue, and hands answers out; the engine keeps the callbacks of the calls it works on. What an
    object does when it processes its request is a [Service]; everything else is here once. *)

From S2P Require Import Prelude.

(** [CallStatus] *)
Inductive CallStatus := CREATE | PROCESS | FINISH.

#[global] Instance CallStatus_eq_dec : EqDecision CallStatus.
Proof. solve_decision. Defined.

(** What processing a request comes to: an answer at once, or a call of the engine, of which the number is known. *)
Inductive Served (Resp : Type) := Answer (resp : Resp) | Deferred (call : nat).
Arguments Answer {Resp} _.
Arguments Deferred {Resp} _.

(** The calls a receiver serves: the kinds of calls, the kind of a request, an empty request, and the middle part
    of [proceed]. *)
Class Service (Rpc Req Resp App : Type) := {
  rpc_of : Req -> Rpc;
  empty_request : Rpc -> Req;
  serve : Req -> M App (Served Resp);
}.

Section CallData.
Context {Rpc Req Resp App : Type} `{!EqDecision Rpc} `{!Service Rpc Req Resp App}.

Record CallData := mkCall { cd_rpc : Rpc; mStatus : CallStatus; mRequest : Req }.

(** Who has the tag of an object: the service, which waits for a call; the completion queue, with the flag of
    the event; the engine; or the responder, which sends the answer. *)
Inductive Place := WithService | InQueue (ok : bool) | WithEngine (call : nat) | Finishing.

(** [heap] are the objects that have not been deleted; [accepted] and [answered] record calls and answers. *)
Record Receiver := mkReceiver {
  mIsShutdown : bool;
  heap : gmap nat CallData;
  next_tag : nat;
  pending : list (nat * Place);
  accepted : list (nat * Req);
  answered : list (nat * Resp);
  mApp : App;
}.

Definition new_Receiver (a : App) : Receiver := mkReceiver false ∅ O [] [] [] a.

Definition set_heap (h : gmap nat CallData) (r : Receiver) : Receiver :=
  mkReceiver (mIsShutdown r) h (next_tag r) (pending r) (accepted r) (answered r) (mApp r).
Definition set_pending (p : list (nat * Place)) (r : Receiver) : Receiver :=
  mkReceiver (mIsShutdown r) (heap r) (next_tag r) p (accepted r) (answered r) (mApp r).
Definition set_app (a : App) (r : Receiver) : Receiver :=
  mkReceiver (mIsShutdown r) (heap r) (next_tag r) (pending r) (accepted r) (answered r) a.
Definition in_app {A} (m : M App A) : M Receiver A := zoom mApp set_app m.

(** A member of an object that is not there any more. *)
Definition the_call (tag : nat) : M Receiver CallData :=
  let* r := get in
  match heap r !! tag with Some cd => ret cd | None => stop Undefined end.

Definition set_status (tag : nat) (s : CallStatus) : M Receiver unit :=
  let* cd := the_call tag in
  modify (fun r => set_heap (<[tag := mkCall (cd_rpc cd) s (mRequest cd)]> (heap r)) r).

Definition give_tag (tag : nat) (p : Place) : M Receiver unit :=
  modify (fun r => set_pending (pending r ++ [(tag, p)]) r).

(** [mResponder.Finish(resp, status, this)] *)
Definition finish_call (tag : nat) (resp : Resp) : M Receiver unit :=
  modify (fun r => mkReceiver (mIsShutdown r) (heap r) (next_tag r) (pending r) (accepted r) (answered r ++ [(tag, resp)]) (mApp r)) ;;;
  give_tag tag Finishing.

(** The [CREATE] branch of [proceed]: [mService->RequestX(..., this)]. *)
Definition create_branch (tag : nat) : M Receiver unit :=
  set_status tag PROCESS ;;;
  give_tag tag WithService.

(** The constructor. *)
Definition new_CallData (rpc : Rpc) : M Receiver unit :=
  let* r := get in
  let tag := next_tag r in
  put (mkReceiver (mIsShutdown r) (<[tag := mkCall rpc CREATE (empty_request rpc)]> (heap r)) (S tag) (pending r)
                  (accepted r) (answered r) (mApp r)) ;;;
  create_branch tag.

(** [delete this] *)
Definition delete_call (tag : nat) : M Receiver unit :=
  the_call tag ;;;
  modify (fun r => set_heap (delete tag (heap r)) r).

(** [proceed]. Nothing of the object is used after the engine was given its callback or the responder its
    answer, so what other threads do to the object from then on comes after this. *)
Definition proceed (tag : nat) : M Receiver unit :=
  let* cd := the_call tag in
  match mStatus cd with
  | CREATE => create_branch tag
  | PROCESS =>
      new_CallData (cd_rpc cd) ;;;
      let* s := in_app (serve (mRequest cd)) in
      match s with
      | Answer resp => set_status tag FINISH ;;; finish_call tag resp
      | Deferred call => give_tag tag (WithEngine call)
      end
  | FINISH => delete_call tag
  end.

(** The callback that was given to the engine. *)
Definition callback (tag : nat) (resp : Resp) : M Receiver unit :=
  set_status tag FINISH ;;;
  finish_call tag resp.

(** [RequestCallData::failOver] *)
Definition failOver (tag : nat) : M Receiver unit := delete_call tag.

(** One round of [handleRpcs]. *)
Definition handleRpc (tag : nat) (ok : bool) : M Receiver unit := if ok then proceed tag else failOver tag.

(** [run]: [count] objects of every kind. *)
Definition run_receiver (count : nat) (rpcs : list Rpc) : M Receiver unit :=
  let* r := get in
  if mIsShutdown r then ret tt
  else forM (seq 0 count) (fun _ => forM rpcs new_CallData).

Definition shutdown_receiver (r : Receiver) : Receiver :=
  mkReceiver true (heap r) (next_tag r) (pending r) (accepted r) (answered r) (mApp r).

(** What gRPC, the engine and the threads of the receiver do, in any order. A tag comes out of the completion
    queue once for every time it was handed over; a call fills the request of an object that waits for its kind. *)
Inductive step : Receiver -> Receiver -> Prop :=
| step_call r l1 tag l2 cd req :
    pending r = l1 ++ (tag, WithService) :: l2 -> heap r !! tag = Some cd -> rpc_of req = cd_rpc cd ->
    step r (mkReceiver (mIsShutdown r) (<[tag := mkCall (cd_rpc cd) (mStatus cd) req]> (heap r)) (next_tag r)
                       (l1 ++ (tag, InQueue true) :: l2) (accepted r ++ [(tag, req)]) (answered r) (mApp r))
| step_cancel r l1 tag l2 :
    pending r = l1 ++ (tag, WithService) :: l2 -> mIsShutdown r = true ->
    step r (set_pending (l1 ++ (tag, InQueue false) :: l2) r)
| step_sent r l1 tag l2 ok :
    pending r = l1 ++ (tag, Finishing) :: l2 -> step r (set_pending (l1 ++ (tag, InQueue ok) :: l2) r)
| step_event r l1 tag l2 ok c c' r' :
    pending r = l1 ++ (tag, InQueue ok) :: l2 -> handleRpc tag ok c (set_pending (l1 ++ l2) r) = Done tt c' r' -> step r r'
| step_callback r l1 tag call l2 resp c c' r' :
    pending r = l1 ++ (tag, WithEngine call) :: l2 -> callback tag resp c (set_pending (l1 ++ l2) r) = Done tt c' r' -> step r r'
| step_shutdown r : step r (shutdown_receiver r).

(** ** Invariant *)

(** An object, by the place of its tag. *)
Definition placed (r : Receiver) (tag : nat) (cd : CallData) (p : Place) : Prop :=
  match p with
  | WithService => mStatus cd = PROCESS /\ tag ∉ (accepted r).*1
  | InQueue ok =>
      mStatus cd = PROCESS /\ (if ok then (tag, mRequest cd) ∈ accepted r /\ tag ∉ (answered r).*1 else mIsShutdown r = true /\ tag ∉ (accepted r).*1) \/
      mStatus cd = FINISH /\ tag ∈ (answered r).*1
  | WithEngine _ => mStatus cd = PROCESS /\ (tag, mRequest cd) ∈ accepted r /\ tag ∉ (answered r).*1
  | Finishing => mStatus cd = FINISH /\ tag ∈ (answered r).*1
  end.

(** Whether the object waits for a call of a kind, or has one it has not looked at. *)
Definition ready (h : gmap nat CallData) (rpc : Rpc) (x : nat * Place) : bool :=
  match h !! x.1, x.2 with
  | Some cd, WithService | Some cd, InQueue _ => bool_decide (cd_rpc cd = rpc /\ mStatus cd = PROCESS)
  | _, _ => false
  end.

Definition readies (h : gmap nat CallData) (rpc : Rpc) (l : list (nat * Place)) : nat := length (filter (fun x => ready h rpc x = true) l).

Record receiver_ok (r : Receiver) : Prop := {
  ok_tags : NoDup (pending r).*1;
  ok_heap tag : is_Some (heap r !! tag) -> tag ∈ (pending r).*1;
  ok_fresh tag : (next_tag r <= tag)%nat -> heap r !! tag = None /\ tag ∉ (accepted r).*1;
  ok_placed tag p : (tag, p) ∈ pending r -> exists cd, heap r !! tag = Some cd /\ placed r tag cd p;
  ok_accepted : NoDup (accepted r).*1;
  ok_answered : NoDup (answered r).*1;
  ok_known tag : tag ∈ (answered r).*1 -> tag ∈ (accepted r).*1;
  ok_open tag : tag ∈ (accepted r).*1 -> tag ∈ (answered r).*1 \/ (tag, InQueue true) ∈ pending r \/ exists call, (tag, WithEngine call) ∈ pending r;
}.

(** As many objects as at the start are ready for a call of each kind, until the shutdown. *)
Definition all_ready (n : Rpc -> nat) (r : Receiver) : Prop :=
  mIsShutdown r = false -> forall rpc, readies (heap r) rpc (pending r) = n rpc.

Lemma elem_of_firsts {A B} (l : list (A * B)) x : x ∈ l.*1 <-> exists y, (x, y) ∈ l.
Proof. rewrite list_elem_of_fmap. split; [intros ([? y] & -> & ?); by exists y|intros [y ?]; by exists (x, y)]. Qed.

(** Another object does not see what is recorded for [tag]. *)
Lemma placed_other r r' tag' cd p :
  (mIsShutdown r = true -> mIsShutdown r' = true) ->
  (forall req, (tag', req) ∈ accepted r' <-> (tag', req) ∈ accepted r) -> (tag' ∈ (answered r').*1 <-> tag' ∈ (answered r).*1) ->
  placed r tag' cd p -> placed r' tag' cd p.
Proof.
  intros Hs Ha Hb. assert (tag' ∈ (accepted r').*1 <-> tag' ∈ (accepted r).*1) as Ha' by (rewrite !elem_of_firsts; by setoid_rewrite Ha).
  destruct p as [|[]|call|]; cbn; rewrite ?Ha, ?Ha', ?Hb; naive_solver.
Qed.

(** What is recorded grows by an entry for [tag] at most. *)
Definition grows {A} (tag : nat) (l l' : list (nat * A)) : Prop := l' = l \/ (tag ∉ l.*1) /\ exists x, l' = l ++ [(tag, x)].

Lemma grows_other {A} tag (l l' : list (nat * A)) tag' x : grows tag l l' -> tag' <> tag -> (tag', x) ∈ l' <-> (tag', x) ∈ l.
Proof. intros [-> |(_ & y & ->)] Hne; [done|]. set_solver. Qed.

Lemma grows_firsts {A} tag (l l' : list (nat * A)) tag' : grows tag l l' -> tag' <> tag -> tag' ∈ l'.*1 <-> tag' ∈ l.*1.
Proof. intros Hg Hne. rewrite !elem_of_firsts. split; intros [y Hy]; exists y; by apply (grows_other tag l l'). Qed.

Lemma grows_nodup {A} tag (l l' : list (nat * A)) : grows tag l l' -> NoDup l.*1 -> NoDup l'.*1.
Proof.
  intros [-> |(Hn & y & ->)] Hd; [done|]. rewrite fmap_app. apply NoDup_app. split; [done|].
  split; [|apply NoDup_singleton]. intros x Hx ->%list_elem_of_singleton. done.
Qed.

(** The tag of an object changes its place. *)
Lemma retag_ok r r' tag cd p cd' p' l :
  receiver_ok r -> pending r ≡ₚ (tag, p) :: l -> heap r !! tag = Some cd ->
  pending r' ≡ₚ (tag, p') :: l -> heap r' = <[tag := cd']> (heap r) -> next_tag r' = next_tag r -> mIsShutdown r' = mIsShutdown r ->
  grows tag (accepted r) (accepted r') -> grows tag (answered r) (answered r') ->
  placed r' tag cd' p' -> (tag ∈ (answered r').*1 -> tag ∈ (accepted r').*1) ->
  (tag ∈ (accepted r').*1 -> tag ∈ (answered r').*1 \/ p' = InQueue true \/ exists call, p' = WithEngine call) ->
  receiver_ok r'.
Proof.
  intros [Ht Hh Hf Hp Ha Hb Hk Ho] Hl Hcd Hl' Hheap Hn Hs Hga Hgb Hpl Hkn Hop.
  assert (forall tag' q, (tag', q) ∈ l -> tag' <> tag) as Hne.
  { rewrite Hl in Ht. cbn in Ht. apply NoDup_cons in Ht as [Hni _]. intros tag' q Hin ->. apply Hni, elem_of_firsts. by exists q. }
  constructor.
  - rewrite Hl'. by rewrite Hl in Ht.
  - intros tag' His. rewrite Hl'. destruct (decide (tag' = tag)) as [-> |Hd]; [cbn; by left|].
    rewrite Hheap, lookup_insert_ne in His by done. apply Hh in His. by rewrite Hl in His.
  - intros tag' Hle. rewrite Hn in Hle. destruct (Hf tag' Hle) as [Hnone Hna]. assert (tag' <> tag) as Hd by congruence.
    rewrite Hheap, lookup_insert_ne by done. split; [done|]. by rewrite (grows_firsts tag _ _ _ Hga Hd).
  - intros tag' q Hin. rewrite Hl' in Hin. apply elem_of_cons in Hin as [[= -> ->]|Hin].
    + exists cd'. rewrite Hheap, lookup_insert_eq. done.
    + pose proof (Hne _ _ Hin) as Hd. destruct (Hp tag' q) as (cd1 & H1 & H2); [rewrite Hl; by right|]. exists cd1.
      rewrite Hheap, lookup_insert_ne by done. split; [done|]. eapply placed_other; [| | |exact H2]; [congruence| |by apply (grows_firsts tag)].
      intros req. by apply (grows_other tag).
  - by eapply grows_nodup.
  - by eapply grows_nodup.
  - intros tag'. destruct (decide (tag' = tag)) as [-> |Hd]; [done|]. rewrite (grows_firsts tag _ _ _ Hga Hd), (grows_firsts tag _ _ _ Hgb Hd). apply Hk.
  - intros tag' Hin. destruct (decide (tag' = tag)) as [-> |Hd].
    + destruct (Hop Hin) as [|[-> |[call ->]]]; [by left|right; left|right; right; exists call]; rewrite Hl'; by left.
    + rewrite (grows_firsts tag _ _ _ Hga Hd) in Hin. rewrite (grows_firsts tag _ _ _ Hgb Hd).
      assert (forall q, (tag', q) ∈ pending r -> (tag', q) ∈ pending r') as Hmv by (intros q; rewrite Hl, Hl'; set_solver).
      destruct (Ho tag' Hin) as [|[H|[call H]]]; [by left|right; left; by apply Hmv|right; right; exists call; by apply Hmv].
Qed.

(** An object is deleted. *)
Lemma remove_ok r r' tag l p :
  receiver_ok r -> pending r ≡ₚ (tag, p) :: l -> pending r' ≡ₚ l -> heap r' = delete tag (heap r) -> next_tag r' = next_tag r ->
  mIsShutdown r' = mIsShutdown r -> accepted r' = accepted r -> answered r' = answered r ->
  (tag ∈ (accepted r).*1 -> tag ∈ (answered r).*1) -> receiver_ok r'.
Proof.
  intros [Ht Hh Hf Hp Ha Hb Hk Ho] Hl Hl' Hheap Hn Hs Hac Han Hdone. rewrite Hl in Ht. cbn in Ht. apply NoDup_cons in Ht as [Hni Ht].
  constructor; rewrite ?Hac, ?Han; try done.
  - by rewrite Hl'.
  - intros tag' His. rewrite Hl'. rewrite Hheap in His. apply lookup_delete_is_Some in His as [Hd His]. apply Hh in His. rewrite Hl in His. set_solver.
  - intros tag' Hle. rewrite Hn in Hle. destruct (Hf tag' Hle). split; [|done]. rewrite Hheap. apply lookup_delete_None. by right.
  - intros tag' q Hin. rewrite Hl' in Hin. destruct (Hp tag' q) as (cd1 & H1 & H2); [rewrite Hl; by right|]. exists cd1.
    assert (tag' <> tag) by (intros ->; apply Hni, elem_of_firsts; by exists q). rewrite Hheap, lookup_delete_ne by done. split; [done|].
    eapply placed_other; [| | |exact H2]; [congruence|by rewrite Hac|by rewrite Han].
  - intros tag' Hin. destruct (Ho tag' Hin) as [|H]; [by left|]. destruct (decide (tag' = tag)) as [-> |Hd]; [left; by apply Hdone|right].
    assert (forall q, (tag', q) ∈ pending r -> (tag', q) ∈ pending r') as Hmv by (intros q; rewrite Hl, Hl'; set_solver).
    destruct H as [H|[call H]]; [left|right; exists call]; by apply Hmv.
Qed.

(** A new object waits for a call. *)
Lemma add_ok r r' cd :
  receiver_ok r -> mStatus cd = PROCESS -> pending r' ≡ₚ (next_tag r, WithService) :: pending r -> heap r' = <[next_tag r := cd]> (heap r) ->
  next_tag r' = S (next_tag r) -> mIsShutdown r' = mIsShutdown r -> accepted r' = accepted r -> answered r' = answered r -> receiver_ok r'.
Proof.
  intros [Ht Hh Hf Hp Ha Hb Hk Ho] Hcd Hl' Hheap Hn Hs Hac Han. destruct (Hf (next_tag r) ltac:(lia)) as [Hnone Hna].
  assert (next_tag r ∉ (pending r).*1) as Hni.
  { intros [p Hin]%elem_of_firsts. destruct (Hp _ _ Hin) as (cd1 & H1 & _). congruence. }
  constructor; rewrite ?Hac, ?Han; try done.
  - rewrite Hl'. cbn. by apply NoDup_cons.
  - intros tag' His. rewrite Hl', Hheap in *. cbn. destruct (decide (tag' = next_tag r)) as [-> |Hd]; [by left|right].
    rewrite lookup_insert_ne in His by done. by apply Hh.
  - intros tag' Hle. rewrite Hn in Hle. destruct (Hf tag' ltac:(lia)). rewrite Hheap, lookup_insert_ne by lia. done.
  - intros tag' q Hin. rewrite Hl' in Hin. rewrite Hheap. apply elem_of_cons in Hin as [[= -> ->]|Hin].
    + exists cd. rewrite lookup_insert_eq. split; [done|]. cbn. by rewrite Hac.
    + destruct (Hp tag' q Hin) as (cd1 & H1 & H2). exists cd1. rewrite lookup_insert_ne by congruence. split; [done|].
      eapply placed_other; [| | |exact H2]; [congruence|by rewrite Hac|by rewrite Han].
  - intros tag' Hin. destruct (Ho tag' Hin) as [|[H|[call H]]]; [by left|right; left|right; right; exists call]; rewrite Hl'; by right.
Qed.

(** *** Readiness *)

Lemma readies_perm h rpc l l' : l ≡ₚ l' -> readies h rpc l = readies h rpc l'.
Proof. intros Hl. unfold readies. by rewrite Hl. Qed.

Lemma readies_cons h rpc x l : readies h rpc (x :: l) = ((if ready h rpc x then 1 else 0) + readies h rpc l)%nat.
Proof. unfold readies. rewrite filter_cons. destruct (ready h rpc x); [rewrite decide_True by done|rewrite decide_False by done]; done. Qed.

Lemma readies_frame h h' rpc l : (forall x, x ∈ l -> h' !! x.1 = h !! x.1) -> readies h' rpc l = readies h rpc l.
Proof.
  induction l as [|x l IH]; intros Hl; [done|]. rewrite !readies_cons, IH by set_solver. unfold ready. rewrite (Hl x) by (by left). done.
Qed.

(** *** Runs *)

Definition spawned (rpc : Rpc) (r : Receiver) : Receiver :=
  mkReceiver (mIsShutdown r) (<[next_tag r := mkCall rpc PROCESS (empty_request rpc)]> (heap r)) (S (next_tag r))
             (pending r ++ [(next_tag r, WithService)]) (accepted r) (answered r) (mApp r).

Lemma new_CallData_run rpc c r : new_CallData rpc c r = Done tt c (spawned rpc r).
Proof.
  unfold new_CallData, create_branch, set_status, the_call, give_tag, spawned, set_pending, set_heap. run.
  cbn [heap]. rewrite lookup_insert_eq. cbn. by rewrite insert_insert_eq.
Qed.

Lemma set_status_run tag s c r cd : heap r !! tag = Some cd ->
  set_status tag s c r = Done tt c (set_heap (<[tag := mkCall (cd_rpc cd) s (mRequest cd)]> (heap r)) r).
Proof. intros H. unfold set_status, the_call. run. by rewrite H. Qed.

(** The receiver after the object got its answer. *)
Definition finished_call (tag : nat) (cd : CallData) (resp : Resp) (r : Receiver) : Receiver :=
  mkReceiver (mIsShutdown r) (<[tag := mkCall (cd_rpc cd) FINISH (mRequest cd)]> (heap r)) (next_tag r) (pending r ++ [(tag, Finishing)])
             (accepted r) (answered r ++ [(tag, resp)]) (mApp r).

Lemma callback_run tag resp c r cd : heap r !! tag = Some cd -> callback tag resp c r = Done tt c (finished_call tag cd resp r).
Proof. intros H. unfold callback. by rewrite (bind_Done _ _ _ _ _ _ _ (set_status_run tag FINISH c r cd H)). Qed.

Lemma delete_call_run tag c r cd : heap r !! tag = Some cd -> delete_call tag c r = Done tt c (set_heap (delete tag (heap r)) r).
Proof. intros H. unfold delete_call, the_call. run. by rewrite H. Qed.

(** An object with a call: a successor is created first. *)
Lemma proceed_process tag c r cd : heap r !! tag = Some cd -> mStatus cd = PROCESS -> next_tag r <> tag ->
  proceed tag c r =
  match serve (mRequest cd) c (mApp r) with
  | Done (Answer resp) c' a => Done tt c' (finished_call tag cd resp (set_app a (spawned (cd_rpc cd) r)))
  | Done (Deferred call) c' a => Done tt c' (set_pending (pending (spawned (cd_rpc cd) r) ++ [(tag, WithEngine call)]) (set_app a (spawned (cd_rpc cd) r)))
  | Stop f => Stop f
  end.
Proof.
  intros H Hs Hne. unfold proceed. rewrite (bind_Done _ _ c r cd c r) by (unfold the_call; run; by rewrite H). rewrite Hs.
  rewrite (bind_Done _ _ _ _ _ _ _ (new_CallData_run (cd_rpc cd) c r)). unfold in_app, zoom, bind at 1. cbn [mApp spawned].
  destruct (serve (mRequest cd) c (mApp r)) as [[resp|call] c' a|f]; [|reflexivity|reflexivity].
  erewrite bind_Done by (apply set_status_run; cbn; by rewrite lookup_insert_ne). reflexivity.
Qed.

(** *** Steps *)

Lemma perm_middle {A} (l1 l2 : list A) x : l1 ++ x :: l2 ≡ₚ x :: l1 ++ l2.
Proof. symmetry. apply Permutation_middle. Qed.

(** The object of a tag, and that the other tags are others. *)
Lemma at_place r l1 tag p l2 : receiver_ok r -> pending r = l1 ++ (tag, p) :: l2 ->
  pending r ≡ₚ (tag, p) :: l1 ++ l2 /\ (exists cd, heap r !! tag = Some cd /\ placed r tag cd p) /\
  (forall h rpc cd, readies (<[tag := cd]> h) rpc (l1 ++ l2) = readies h rpc (l1 ++ l2)) /\
  (forall h rpc, readies (delete tag h) rpc (l1 ++ l2) = readies h rpc (l1 ++ l2)).
Proof.
  intros Hok Hl. assert (pending r ≡ₚ (tag, p) :: l1 ++ l2) as Hperm by (by rewrite Hl, perm_middle). split; [done|].
  split; [apply (ok_placed r Hok); rewrite Hperm; by left|].
  pose proof (ok_tags r Hok) as Ht. rewrite Hperm in Ht. cbn in Ht. apply NoDup_cons in Ht as [Hni _].
  assert (forall x, x ∈ l1 ++ l2 -> x.1 <> tag) as Hne.
  { intros [t q] Hin Heq. cbn in Heq. subst t. apply Hni, elem_of_firsts. by exists q. }
  split; intros; apply readies_frame; intros x Hx; [apply lookup_insert_ne|apply lookup_delete_ne]; symmetry; by apply Hne.
Qed.

Ltac place Hok Hl := destruct (at_place _ _ _ _ _ Hok Hl) as (Hperm & (cd0 & Hcd & Hpl) & Hins & Hdel).

Lemma step_call_ok n r l1 tag l2 cd req : receiver_ok r -> all_ready n r ->
  pending r = l1 ++ (tag, WithService) :: l2 -> heap r !! tag = Some cd -> rpc_of req = cd_rpc cd ->
  let r' := mkReceiver (mIsShutdown r) (<[tag := mkCall (cd_rpc cd) (mStatus cd) req]> (heap r)) (next_tag r)
                       (l1 ++ (tag, InQueue true) :: l2) (accepted r ++ [(tag, req)]) (answered r) (mApp r) in
  receiver_ok r' /\ all_ready n r'.
Proof.
  intros Hok Hn Hl Hcd0 Hreq r'. place Hok Hl. assert (cd0 = cd) as -> by congruence. destruct Hpl as [Hs Hna].
  assert (tag ∉ (answered r).*1) as Hnb by (intros H; by apply Hna, (ok_known r Hok)).
  split.
  - eapply (retag_ok r r' tag cd); [done|exact Hperm|done|apply perm_middle|done..| |by left| | |].
    + right. split; [done|]. by exists req.
    + left. cbn. split; [done|]. split; [set_solver|done].
    + intros H. cbn. rewrite fmap_app. apply elem_of_app. right. by left.
    + intros _. right. by left.
  - intros Hsh rpc. rewrite <- (Hn Hsh rpc), (readies_perm _ _ _ _ Hperm), (readies_perm _ _ _ _ (perm_middle l1 l2 (tag, InQueue true))), !readies_cons.
    cbn [heap r']. rewrite Hins. f_equal. unfold ready. cbn. by rewrite lookup_insert_eq, Hcd.
Qed.

Lemma step_move_ok n r l1 tag p p' l2 : receiver_ok r -> all_ready n r -> pending r = l1 ++ (tag, p) :: l2 ->
  (p = WithService /\ p' = InQueue false /\ mIsShutdown r = true \/ p = Finishing /\ exists ok, p' = InQueue ok) ->
  let r' := set_pending (l1 ++ (tag, p') :: l2) r in receiver_ok r' /\ all_ready n r'.
Proof.
  intros Hok Hn Hl Hp r'. place Hok Hl. split.
  - eapply (retag_ok r r' tag cd0 p cd0 p'); [done|exact Hperm|done|apply perm_middle|cbn; by rewrite insert_id|done..|by left|by left| | |].
    + destruct Hp as [(-> & -> & Hsh)|(-> & ok & ->)]; cbn in *; [left; naive_solver|by right].
    + apply (ok_known r Hok).
    + intros H. left. destruct Hp as [(-> & -> & Hsh)|(-> & ok & ->)]; cbn in *; naive_solver.
  - intros Hsh rpc. rewrite <- (Hn Hsh rpc), (readies_perm _ _ _ _ Hperm), (readies_perm _ _ _ _ (perm_middle l1 l2 (tag, p'))), !readies_cons.
    cbn [heap r' set_pending]. f_equal. unfold ready. cbn. rewrite Hcd.
    destruct Hp as [(-> & -> & Hsh')|(-> & ok & ->)]; [cbn in Hsh; congruence|]. cbn in Hpl. rewrite bool_decide_eq_false_2; [done|]. intros [_ H]. destruct Hpl. congruence.
Qed.

Lemma step_callback_ok n r l1 tag call l2 resp cd : receiver_ok r -> all_ready n r ->
  pending r = l1 ++ (tag, WithEngine call) :: l2 -> heap r !! tag = Some cd ->
  let r' := finished_call tag cd resp (set_pending (l1 ++ l2) r) in receiver_ok r' /\ all_ready n r'.
Proof.
  intros Hok Hn Hl Hcd0 r'. place Hok Hl. assert (cd0 = cd) as -> by congruence. destruct Hpl as (Hs & Hac & Hna).
  assert (pending r' ≡ₚ (tag, Finishing) :: l1 ++ l2) as Hperm' by (cbn; by rewrite (Permutation_app_comm (l1 ++ l2))).
  split.
  - eapply (retag_ok r r' tag cd); [done|exact Hperm|done|exact Hperm'|done..|by left| | | |].
    + right. split; [done|]. by exists resp.
    + cbn. split; [done|]. rewrite fmap_app. apply elem_of_app. right. by left.
    + intros _. apply elem_of_firsts. by eexists.
    + intros _. left. cbn. rewrite fmap_app. apply elem_of_app. right. by left.
  - intros Hsh rpc. rewrite <- (Hn Hsh rpc), (readies_perm _ _ _ _ Hperm), (readies_perm _ _ _ _ Hperm'), !readies_cons.
    cbn [heap r' finished_call set_pending]. rewrite Hins. f_equal. unfold ready. cbn. by rewrite lookup_insert_eq, Hcd.
Qed.

Lemma step_delete_ok n r l1 tag ok l2 cd : receiver_ok r -> all_ready n r ->
  pending r = l1 ++ (tag, InQueue ok) :: l2 -> heap r !! tag = Some cd -> (mStatus cd = FINISH \/ ok = false) ->
  let r' := set_heap (delete tag (heap r)) (set_pending (l1 ++ l2) r) in receiver_ok r' /\ all_ready n r'.
Proof.
  intros Hok Hn Hl Hcd0 Hfin r'. place Hok Hl. assert (cd0 = cd) as -> by congruence. split.
  - eapply (remove_ok r r' tag); [done|exact Hperm|done..|]. intros Hin. destruct Hpl as [[Hs Hx]|[_ H]]; [|done]. destruct Hfin as [| ->]; [congruence|by destruct Hx].
  - intros Hsh rpc. rewrite <- (Hn Hsh rpc), (readies_perm _ _ _ _ Hperm), readies_cons. cbn [heap pending r' set_heap set_pending]. rewrite Hdel.
    unfold ready. cbn. rewrite Hcd, bool_decide_eq_false_2; [done|]. intros [_ H]. cbn in Hpl, Hsh. destruct Hfin as [| ->]; [congruence|].
    destruct Hpl as [(_ & H' & _)|[H' _]]; congruence.
Qed.
Lemma step_process_ok n r r' l1 tag l2 cd cd' p' : receiver_ok r -> all_ready n r ->
  pending r = l1 ++ (tag, InQueue true) :: l2 -> heap r !! tag = Some cd -> mStatus cd = PROCESS ->
  pending r' ≡ₚ (tag, p') :: (next_tag r, WithService) :: l1 ++ l2 ->
  heap r' = <[tag := cd']> (heap (spawned (cd_rpc cd) r)) -> next_tag r' = S (next_tag r) -> mIsShutdown r' = mIsShutdown r ->
  accepted r' = accepted r ->
  (p' = Finishing /\ cd' = mkCall (cd_rpc cd) FINISH (mRequest cd) /\ (exists resp, answered r' = answered r ++ [(tag, resp)]) \/
   (exists call, p' = WithEngine call) /\ cd' = cd /\ answered r' = answered r) ->
  receiver_ok r' /\ all_ready n r'.
Proof.
  intros Hok Hn Hl Hcd0 Hst Hperm' Hheap Hnext Hshut Hac Hcase. place Hok Hl. assert (cd0 = cd) as -> by congruence.
  destruct Hpl as [[_ [Hin Hnot]]|[]]; [|congruence].
  assert (next_tag r <> tag) as Hne by (intros <-; destruct (ok_fresh r Hok (next_tag r) ltac:(lia)); congruence).
  assert (forall h rpc c1 c2, readies (<[tag := c1]> (<[next_tag r := c2]> h)) rpc (l1 ++ l2) = readies h rpc (l1 ++ l2)) as Hfr.
  { intros. rewrite Hins. apply readies_frame. intros [t q] Hx. cbn. apply lookup_insert_ne. intros <-.
    destruct (ok_placed r Hok (next_tag r) q) as (? & ? & _); [rewrite Hperm; by right|]. destruct (ok_fresh r Hok (next_tag r) ltac:(lia)). congruence. }
  assert (receiver_ok (spawned (cd_rpc cd) r)) as Hok1.
  { eapply (add_ok r _ (mkCall (cd_rpc cd) PROCESS (empty_request (cd_rpc cd)))); [done|done| |done..]. cbn. by rewrite (Permutation_app_comm (pending r)). }
  split.
  - eapply (retag_ok (spawned (cd_rpc cd) r) r' tag cd (InQueue true) cd' p'); [done| | |exact Hperm'|done..| | | | |].
    + cbn. rewrite Hperm. rewrite (Permutation_app_comm _ [_]). cbn. apply perm_swap.
    + cbn. by rewrite lookup_insert_ne.
    + left. by rewrite Hac.
    + destruct Hcase as [(_ & _ & resp & ->)|(_ & _ & ->)]; [right|by left]. split; [done|]. by exists resp.
    + destruct Hcase as [(-> & -> & resp & Han)|((call & ->) & -> & Han)]; cbn; rewrite ?Hac, ?Han; [|done]. split; [done|]. rewrite fmap_app. apply elem_of_app. right. by left.
    + intros _. rewrite Hac. apply elem_of_firsts. by eexists.
    + intros _. destruct Hcase as [(_ & _ & resp & ->)|((call & ->) & _)]; [left; rewrite fmap_app; apply elem_of_app; right; by left|right; right; by exists call].
  - intros Hsh rpc. rewrite Hshut in Hsh. rewrite <- (Hn Hsh rpc), (readies_perm _ _ _ _ Hperm), (readies_perm _ _ _ _ Hperm'), !readies_cons, Hheap. cbn [heap spawned].
    rewrite Hfr. unfold ready. cbn [fst snd]. rewrite lookup_insert_eq, lookup_insert_ne, lookup_insert_eq, Hcd by done. cbn [cd_rpc mStatus].
    rewrite (bool_decide_ext (cd_rpc cd = rpc /\ mStatus cd = PROCESS) (cd_rpc cd = rpc /\ PROCESS = PROCESS)) by naive_solver.
    by destruct Hcase as [(-> & _)|((call & ->) & _)].
Qed.

Lemma step_event_ok n r l1 tag ok l2 c c' r' : receiver_ok r -> all_ready n r ->
  pending r = l1 ++ (tag, InQueue ok) :: l2 -> handleRpc tag ok c (set_pending (l1 ++ l2) r) = Done tt c' r' ->
  receiver_ok r' /\ all_ready n r'.
Proof.
  intros Hok Hn Hl H. place Hok Hl. set (r0 := set_pending (l1 ++ l2) r) in *. change (heap r) with (heap r0) in Hcd. unfold handleRpc, failOver in H.
  destruct ok; [|rewrite (delete_call_run tag c r0 cd0 Hcd) in H; injection H as _ <-; by eapply step_delete_ok; [..|right]].
  destruct Hpl as [[Hst _]|[Hst _]].
  - assert (next_tag r0 <> tag) as Hne by (intros <-; destruct (ok_fresh r Hok (next_tag r) ltac:(lia)) as [Hnone _]; change (heap r) with (heap r0) in Hnone; cbn in *; congruence).
    rewrite (proceed_process tag c r0 cd0 Hcd Hst Hne) in H. destruct (serve (mRequest cd0) c (mApp r0)) as [[resp|call] c1 a|f]; [| |done]; injection H as _ <-.
    + eapply (step_process_ok n r _ l1 tag l2 cd0); [done..| |reflexivity|done|done|done|left; split; [reflexivity|]; split; [done|]; by exists resp].
      cbn. rewrite (Permutation_app_comm _ [_]). cbn. by rewrite (Permutation_app_comm _ [_]).
    + eapply (step_process_ok n r _ l1 tag l2 cd0 cd0); [done..| | |done|done|done|right; split; [by exists call|done]].
      * cbn. rewrite (Permutation_app_comm _ [_]). cbn. by rewrite (Permutation_app_comm _ [_]).
      * cbn. symmetry. apply insert_id. by rewrite lookup_insert_ne.
  - unfold proceed in H. rewrite (bind_Done _ _ c r0 cd0 c r0) in H by (unfold the_call; run; by rewrite Hcd). rewrite Hst, (delete_call_run tag c r0 cd0 Hcd) in H.
    injection H as _ <-. by eapply step_delete_ok; [..|left].
Qed.

Lemma receiver_step_ok n r r' : step r r' -> receiver_ok r /\ all_ready n r -> receiver_ok r' /\ all_ready n r'.
Proof.
  intros Hst [Hok Hn]. destruct Hst as [r l1 tag l2 cd req Hl Hcd Hreq|r l1 tag l2 Hl Hs|r l1 tag l2 ok Hl|r l1 tag l2 ok c c' r' Hl H|r l1 tag call l2 resp c c' r' Hl H|r].
  - by eapply step_call_ok.
  - eapply step_move_ok; [done..|]. by left.
  - eapply step_move_ok; [done..|]. right. split; [done|]. by exists ok.
  - by eapply step_event_ok.
  - place Hok Hl. rewrite (callback_run tag resp c (set_pending (l1 ++ l2) r) cd0 Hcd) in H. injection H as _ <-. by eapply step_callback_ok.
  - split; [|done]. destruct Hok as [? ? ? Hp ? ? ? ?]. constructor; try done. intros tag p Hin. destruct (Hp tag p Hin) as (cd & ? & Hpl). exists cd. split; [done|].
    eapply placed_other; [| | |exact Hpl]; done.
Qed.

(** *** The start *)

Lemma spawned_ok n r rpc : receiver_ok r -> all_ready n r -> receiver_ok (spawned rpc r) /\ all_ready (fun x => (if bool_decide (rpc = x) then 1 else 0) + n x)%nat (spawned rpc r).
Proof.
  intros Hok Hn. split.
  - eapply (add_ok r _ (mkCall rpc PROCESS (empty_request rpc))); [done|done| |done..]. cbn. by rewrite (Permutation_app_comm (pending r)).
  - intros Hsh x. rewrite <- (Hn Hsh x). cbn [pending spawned]. rewrite (readies_perm _ _ _ _ (Permutation_app_comm _ _)). cbn [app]. rewrite readies_cons.
    f_equal.
    + unfold ready. cbn. rewrite lookup_insert_eq. cbn. rewrite (bool_decide_ext (rpc = x /\ PROCESS = PROCESS) (rpc = x)) by naive_solver. done.
    + apply readies_frame. intros [t q] Hx. cbn. apply lookup_insert_ne. intros <-.
      destruct (ok_placed r Hok _ _ Hx) as (? & ? & _). destruct (ok_fresh r Hok (next_tag r) ltac:(lia)). congruence.
Qed.

(** The objects of a kind among [count] of every kind in [rpcs]. *)
Definition capacity (count : nat) (rpcs : list Rpc) (rpc : Rpc) : nat := count * length (filter (fun x => x = rpc) rpcs).

Lemma spawn_each rpcs : forall n c r, receiver_ok r -> all_ready n r ->
  exists r', forM rpcs new_CallData c r = Done tt c r' /\ receiver_ok r' /\ mIsShutdown r' = mIsShutdown r /\
    all_ready (fun x => capacity 1 rpcs x + n x)%nat r'.
Proof.
  induction rpcs as [|rpc rpcs IH]; intros n c r Hok Hn; [by exists r|].
  destruct (spawned_ok n r rpc Hok Hn) as [Hok1 Hn1]. destruct (IH _ c _ Hok1 Hn1) as (r' & Hrun & Hok' & Hsh & Hn').
  exists r'. split; [cbn [forM]; by rewrite (bind_Done _ _ _ _ _ _ _ (new_CallData_run rpc c r))|]. split; [done|]. split; [done|].
  intros Hs x. rewrite (Hn' Hs x). unfold capacity. rewrite filter_cons.
  destruct (decide (rpc = x)); [rewrite bool_decide_eq_true_2 by done|rewrite bool_decide_eq_false_2 by done]; cbn; lia.
Qed.

Lemma run_receiver_ok count rpcs c a : exists r, run_receiver count rpcs c (new_Receiver a) = Done tt c r /\ receiver_ok r /\ all_ready (capacity count rpcs) r.
Proof.
  assert (forall k m n r, receiver_ok r -> all_ready n r -> exists r', forM (seq k m) (fun _ => forM rpcs new_CallData) c r = Done tt c r' /\
    receiver_ok r' /\ all_ready (fun x => capacity m rpcs x + n x)%nat r') as H.
  { intros k m. revert k. induction m as [|m IH]; intros k n r Hok Hn; [by exists r|].
    destruct (spawn_each rpcs n c r Hok Hn) as (r1 & H1 & Hok1 & _ & Hn1). destruct (IH (S k) _ r1 Hok1 Hn1) as (r2 & H2 & Hok2 & Hn2).
    exists r2. split; [cbn [seq forM]; by rewrite (bind_Done _ _ _ _ _ _ _ H1)|]. split; [done|]. intros Hs x. rewrite (Hn2 Hs x). unfold capacity. lia. }
  destruct (H O count (fun _ => O) (new_Receiver a)) as (r & Hrun & Hok & Hn).
  - constructor; cbn; try done; try (by apply NoDup_nil).
    + by intros tag [cd Hcd].
    + intros tag _. split; [done|apply not_elem_of_nil].
    + by intros tag p ?%elem_of_nil.
    + by intros tag ?%elem_of_nil.
  - by intros _ rpc.
  - exists r. split; [exact Hrun|]. split; [done|]. intros Hs x. rewrite (Hn Hs x). lia.
Qed.


(** *** Kinds *)

(** Objects and accepted calls are of the kinds the receiver was started with. *)
Definition of_kinds (rpcs : list Rpc) (r : Receiver) : Prop :=
  (forall tag cd, heap r !! tag = Some cd -> cd_rpc cd ∈ rpcs) /\ (forall tag req, (tag, req) ∈ accepted r -> rpc_of req ∈ rpcs).

Lemma insert_kinds (rpcs : list Rpc) (h : gmap nat CallData) tag cd : cd_rpc cd ∈ rpcs ->
  (forall t d, h !! t = Some d -> cd_rpc d ∈ rpcs) -> forall t d, <[tag := cd]> h !! t = Some d -> cd_rpc d ∈ rpcs.
Proof. intros Hcd Hh t d [[_ <-]|[_ H]]%lookup_insert_Some; [done|by apply (Hh t)]. Qed.

Lemma spawned_kinds rpcs rpc r : rpc ∈ rpcs -> of_kinds rpcs r -> of_kinds rpcs (spawned rpc r).
Proof. intros Hin [Hh Ha]. split; [|done]. by apply insert_kinds. Qed.

Lemma handle_kinds rpcs tag ok c c' r r' : of_kinds rpcs r -> heap r !! next_tag r = None -> handleRpc tag ok c r = Done tt c' r' -> of_kinds rpcs r'.
Proof.
  intros Hk Hfresh H. unfold handleRpc, failOver in H. pose proof Hk as [Hh Ha].
  destruct (heap r !! tag) as [cd|] eqn:Hcd.
  - assert (delete_call tag c r = Done tt c' r' -> of_kinds rpcs r') as Hdel.
    { rewrite (delete_call_run tag c r cd Hcd). intros [= _ <-]. split; [|done]. intros t d Hd. cbn in Hd. apply lookup_delete_Some in Hd as [_ Hd]. by apply (Hh t). }
    destruct ok; [|by apply Hdel]. destruct (mStatus cd) eqn:Hst.
    + unfold proceed in H. rewrite (bind_Done _ _ c r cd c r), Hst in H by (unfold the_call; run; by rewrite Hcd). unfold create_branch in H.
      rewrite (bind_Done _ _ _ _ _ _ _ (set_status_run tag PROCESS c r cd Hcd)) in H. run_in H. injection H as _ <-. split; [|done]. apply insert_kinds; [|done]. exact (Hh _ _ Hcd).
    + rewrite (proceed_process tag c r cd Hcd Hst) in H by congruence. pose proof (spawned_kinds rpcs (cd_rpc cd) r (Hh _ _ Hcd) Hk) as [Hh1 Ha1].
      destruct (serve (mRequest cd) c (mApp r)) as [[resp|call] c1 a|f]; [| |done]; injection H as _ <-; (split; [|done]); [|done].
      apply insert_kinds; [|done]. exact (Hh _ _ Hcd).
    + unfold proceed in H. rewrite (bind_Done _ _ c r cd c r), Hst in H by (unfold the_call; run; by rewrite Hcd). by apply Hdel.
  - exfalso. destruct ok; unfold proceed, delete_call, the_call in H; run_in H; by rewrite Hcd in H.
Qed.

Lemma step_kinds rpcs r r' : step r r' -> receiver_ok r -> of_kinds rpcs r -> of_kinds rpcs r'.
Proof.
  intros Hst Hok Hk. pose proof Hk as [Hh Ha]. destruct Hst as [r l1 tag l2 cd req Hl Hcd Hreq| | |r l1 tag l2 ok c c' r' Hl H|r l1 tag call l2 resp c c' r' Hl H|]; try done.
  - split; [apply insert_kinds; [|done]; exact (Hh _ _ Hcd)|]. intros t q [Hin|Hin]%elem_of_app; [by apply (Ha t)|].
    apply list_elem_of_singleton in Hin. injection Hin as -> ->. rewrite Hreq. exact (Hh _ _ Hcd).
  - eapply handle_kinds; [| |exact H]; [done|]. cbn. by destruct (ok_fresh r Hok (next_tag r) ltac:(lia)).
  - place Hok Hl. rewrite (callback_run tag resp c (set_pending (l1 ++ l2) r) cd0 Hcd) in H. injection H as _ <-.
    split; [|done]. apply insert_kinds; [|done]. exact (Hh _ _ Hcd).
Qed.

Lemma accepted_kinds count rpcs a c r0 r tag req : run_receiver count rpcs c (new_Receiver a) = Done tt c r0 -> rtc step r0 r ->
  (tag, req) ∈ accepted r -> rpc_of req ∈ rpcs.
Proof.
  intros Hrun Hsteps Hin. destruct (run_receiver_ok count rpcs c a) as (r1 & Hrun1 & Hok & Hn). rewrite Hrun in Hrun1. injection Hrun1 as <-.
  assert (of_kinds rpcs r0) as Hk.
  { assert (forall l r, l ⊆ rpcs -> of_kinds rpcs r -> exists r', forM l new_CallData c r = Done tt c r' /\ of_kinds rpcs r') as H1.
    { induction l as [|x l IH]; intros r1 Hl Hk; [by exists r1|]. destruct (IH (spawned x r1)) as (r' & H' & Hk'); [set_solver|apply spawned_kinds; [set_solver|done]|].
      exists r'. split; [|done]. cbn [forM]. by rewrite (bind_Done _ _ _ _ _ _ _ (new_CallData_run x c r1)). }
    assert (forall k m r, of_kinds rpcs r -> exists r', forM (seq k m) (fun _ => forM rpcs new_CallData) c r = Done tt c r' /\ of_kinds rpcs r') as H2.
    { intros k m. revert k. induction m as [|m IH]; intros k r1 Hk; [by exists r1|]. destruct (H1 rpcs r1 ltac:(done) Hk) as (r2 & Hr2 & Hk2).
      destruct (IH (S k) r2 Hk2) as (r3 & Hr3 & Hk3). exists r3. split; [|done]. cbn [seq forM]. by rewrite (bind_Done _ _ _ _ _ _ _ Hr2). }
    destruct (H2 O count (new_Receiver a)) as (r' & Hr' & Hk'); [by split; [|intros ? ? ?%elem_of_nil]|].
    change (forM (seq 0 count) (fun _ => forM rpcs new_CallData) c (new_Receiver a) = Done tt c r0) in Hrun. congruence. }
  assert (of_kinds rpcs r) as [_ Ha]; [|by apply (Ha tag)].
  clear Hrun Hin. revert Hok Hn Hk. induction Hsteps as [|x y z Hst _ IH]; intros Hok Hn Hk; [done|].
  destruct (receiver_step_ok (capacity count rpcs) x y Hst (conj Hok Hn)) as [Hok' Hn']. apply IH; [done|done|]. by eapply step_kinds.
Qed.

End CallData.
