(* ===== verification/MigrationManager.v ===== *)
(** * Migrations

    [migration::MigrationManager] (object-store/migration/MigrationManager.h/.cpp) moves the
    keys of some shards to another cluster: a scan task per working set reads keys in
    batches, an export task per batch writes them to the other cluster and deletes them
    here. The tasks run on a [ThreadPoolService] (object-store/utils): as many of them at a
    time as it has threads, in any order. *)

From S2P Require Import Prelude OrderedMap Status Proto KVStore Command ControlProto EngineContract Shards ScanCommand.

(** ** State *)

(** [MigratingShardInfo]: the tasks that a shard waits for. *)
Record MigratingShardInfo := mkShardInfo { mScanTasks : gset Z; mExportTasks : gset Z }.

Record ScanTask := mkScanTask {
  st_id : Z;
  st_wsName : WSName;
  st_shardIds : list Z;
  st_specificKeys : list KeyType;
}.

Record ExportTask := mkExportTask {
  et_id : Z;
  et_wsName : WSName;
  et_shardIds : list Z;
  et_data : list (KeyType * ValueType * Z * Z);
}.

Inductive Task := TScan (t : ScanTask) | TExport (t : ExportTask).

(** [MigrationEvent]: a shard, its status and a message. *)
Record MigrationEvent := mkMigrationEvent { me_shard : Z; me_status : MigrationShardStatus; me_message : string }.

(** [pool] are the tasks that no thread has taken yet, [scanning] the scan tasks whose command
    was given to the engine, [reports] what was given to the reporter. *)
Record MigrationManager := mkMigrationManager {
  mMigrationTaskID : Z;
  mMigratingInfo : gmap Z MigratingShardInfo;
  mMaxTaskID : Z;
  pool : list Task;
  scanning : list ScanTask;
  reports : list (MigrationProgress * MigrationEvent);
}.

Definition new_MigrationManager (maxTaskID : Z) : MigrationManager := mkMigrationManager 0 ∅ maxTaskID [] [] [].

Definition kScanMaxBatch : Z := 100.

Definition set_info (i : gmap Z MigratingShardInfo) (m : MigrationManager) : MigrationManager :=
  mkMigrationManager (mMigrationTaskID m) i (mMaxTaskID m) (pool m) (scanning m) (reports m).
Definition set_pool (p : list Task) (m : MigrationManager) : MigrationManager :=
  mkMigrationManager (mMigrationTaskID m) (mMigratingInfo m) (mMaxTaskID m) p (scanning m) (reports m).
Definition set_scanning (l : list ScanTask) (m : MigrationManager) : MigrationManager :=
  mkMigrationManager (mMigrationTaskID m) (mMigratingInfo m) (mMaxTaskID m) (pool m) l (reports m).

(** ** Tasks *)

(** [ThreadPoolService::allocateNewTaskID] *)
Definition allocateNewTaskID : M MigrationManager Z :=
  let* m := get in
  put (mkMigrationManager (mMigrationTaskID m) (mMigratingInfo m) (u64 (mMaxTaskID m + 1)) (pool m) (scanning m) (reports m)) ;;;
  ret (mMaxTaskID m).

(** [mThreadPoolService.submit(task)] *)
Definition submit (t : Task) : M MigrationManager unit := modify (fun m => set_pool (pool m ++ [t]) m).

(** [mMigratingInfo[shardId]->f()]: the entry of a shard that is not migrating is null. *)
Definition in_shard (shardId : Z) (f : MigratingShardInfo -> MigratingShardInfo) : M MigrationManager unit :=
  let* m := get in
  match mMigratingInfo m !! shardId with
  | Some i => put (set_info (<[shardId := f i]> (mMigratingInfo m)) m)
  | None => stop Undefined
  end.

Definition addScanTask (id shardId : Z) : M MigrationManager unit :=
  in_shard shardId (fun i => mkShardInfo ({[id]} ∪ mScanTasks i) (mExportTasks i)).
Definition addExportTask (id shardId : Z) : M MigrationManager unit :=
  in_shard shardId (fun i => mkShardInfo (mScanTasks i) ({[id]} ∪ mExportTasks i)).

Definition isDone (i : MigratingShardInfo) : bool := bool_decide (mScanTasks i = ∅ /\ mExportTasks i = ∅).

Definition getProgressEvent (shardId : Z) (i : MigratingShardInfo) : MigrationEvent :=
  let scans := Z.of_nat (base.size (mScanTasks i)) in
  let exports := Z.of_nat (base.size (mExportTasks i)) in
  mkMigrationEvent shardId
    (if bool_decide (exports <> 0) then SHARD_EXPORTING else if bool_decide (scans <> 0) then SCANNING else MIGRATED)
    ("remaining scan: " +:+ to_string scans +:+ ", remaining export: " +:+ to_string exports).

Definition markScanTaskDone (shardId taskID : Z) : M MigrationManager unit :=
  let* m := get in
  assert_ (bool_decide (is_Some (mMigratingInfo m !! shardId))) ;;;
  in_shard shardId (fun i => mkShardInfo (mScanTasks i ∖ {[taskID]}) (mExportTasks i)).

(** Every shard has waited for all of its tasks. *)
Definition allDone (m : MigrationManager) : bool :=
  bool_decide (map_Forall (fun _ i => isDone i = true) (mMigratingInfo m)).

Definition report (p : MigrationProgress) (e : MigrationEvent) : M MigrationManager unit :=
  modify (fun m => mkMigrationManager (mMigrationTaskID m) (mMigratingInfo m) (mMaxTaskID m) (pool m) (scanning m)
                                      (reports m ++ [(p, e)])).

Definition markExportTaskDone (shardId taskID : Z) : M MigrationManager unit :=
  let* m := get in
  assert_ (bool_decide (is_Some (mMigratingInfo m !! shardId))) ;;;
  in_shard shardId (fun i => mkShardInfo (mScanTasks i) (mExportTasks i ∖ {[taskID]})) ;;;
  let* m := get in
  match mMigratingInfo m !! shardId with
  | None => stop Undefined
  | Some i =>
      report (mkMigrationProgress (mMigrationTaskID m) (if allDone m then SUCCEEDED else RUNNING)) (getProgressEvent shardId i)
  end.

(** ** Starting *)

(** The body of the second loop of [startMigration]: a scan task for a working set. *)
Definition launch (group : WSName * list Z) : M MigrationManager unit :=
  let '(wsName, shardIds) := group in
  let* id := allocateNewTaskID in
  forM shardIds (addScanTask id) ;;;
  submit (TScan (mkScanTask id wsName shardIds [])).

(** The first loop: the shards by working set, in the order of the names. *)
Definition add_shard (shardId : Z) (m : OMap string (list Z)) : OMap string (list Z) :=
  let cf := shardIdToColumnFamily kWorkingSetNamePrefix shardId kWorkingSetFactor in
  omap_put cf (default [] (omap_find cf m) ++ [shardId]) m.

Definition shardsPerWS (shards : list Z) : OMap string (list Z) := fold_left (fun m s => add_shard s m) shards [].

Definition watch_shards (shards : list Z) (i : gmap Z MigratingShardInfo) : gmap Z MigratingShardInfo :=
  fold_left (fun i s => <[s := mkShardInfo ∅ ∅]> i) shards i.

(** Up to the second loop. *)
Definition beginMigration (task : MigrationTask) : M MigrationManager (list (WSName * list Z)) :=
  let shards := (mt_migrateShards task).*1 in
  modify (fun m => mkMigrationManager (mt_taskId task) (watch_shards shards (mMigratingInfo m)) (mMaxTaskID m) (pool m)
                                      (scanning m) (reports m)) ;;;
  ret (shardsPerWS shards).

Definition startMigration (task : MigrationTask) : M MigrationManager unit :=
  let* groups := beginMigration task in
  forM groups launch.

Definition endMigration : M MigrationManager unit := modify (set_info ∅).

(** ** Scanning *)

Definition scanRequest (t : ScanTask) (it : option KVIterator) : ScanRequest :=
  mkScanRequest (st_wsName t) (st_shardIds t) it kScanMaxBatch (st_specificKeys t).

(** [ScanTask::run]: the first command is given to the engine. *)
Definition runScan (t : ScanTask) : M MigrationManager unit := modify (fun m => set_scanning (scanning m ++ [t]) m).

(** The first half of [onCommandFinished]: an export task for the batch. *)
Definition exportBatch (t : ScanTask) (resp : ScanResponse) : M MigrationManager unit :=
  let* id := allocateNewTaskID in
  forM (st_shardIds t) (addExportTask id) ;;;
  submit (TExport (mkExportTask id (st_wsName t) (st_shardIds t) (sr_data resp))).

(** The second half: the next command, or the end of the task. *)
Definition endBatch (t : ScanTask) (resp : ScanResponse) : M MigrationManager unit :=
  match sr_iterator resp with
  | None => stop Undefined
  | Some it =>
      if hasValue it then modify (fun m => set_scanning (scanning m ++ [t]) m)
      else forM (st_shardIds t) (fun shardId => markScanTaskDone shardId (st_id t))
  end.

Definition onCommandFinished (t : ScanTask) (resp : option ScanResponse) : M MigrationManager unit :=
  match resp with
  | None => runScan t
  | Some resp => exportBatch t resp ;;; endBatch t resp
  end.

(** ** Exporting *)

Definition exportEntry (x : KeyType * ValueType * Z * Z) : WriteEntry :=
  let '(key, value, ttl, version) := x in
  mkWriteEntry key value (negb (bool_decide (ttl = INFINITE_TTL))) (u32 ttl) version 0 DEFAULT_UDFMETA.

Definition exportRequest (t : ExportTask) : MigrateBatchRequest :=
  mkMigrateBatchRequest (mkReqHeader 0 0) (exportEntry <$> et_data t).

Definition isAllSucceed (resp : MigrateBatchResponse) : bool :=
  forallb (fun r => bool_decide (wr_code r = RC_OK)) (mb_results resp).

Section Exporting.
Context {E : Type} `{!EngineOps E}.

(** What the other cluster answers to the batch, attempt by attempt. *)
Context (peer : MigrateBatchRequest -> nat -> MigrateBatchResponse).

(** [exportLocalKeys]; [fuel] bounds the attempts, running out of it is trying for ever. *)
Fixpoint retryExport {S} (fuel n : nat) (req : MigrateBatchRequest) : M S unit :=
  match fuel with
  | O => stop WouldBlock
  | Datatypes.S fuel => if isAllSucceed (peer req n) then ret tt else retryExport fuel (Datatypes.S n) req
  end.

Definition exportLocalKeys {S} (fuel : nat) (t : ExportTask) : M S unit := retryExport fuel O (exportRequest t).

Definition deleteRequest (t : ExportTask) : ExeBatchRequest :=
  mkExeBatchRequest (mkReqHeader 0 0)
    ((fun x : KeyType * ValueType * Z * Z => let '(key, _, _, version) := x in RWRemove (mkRemoveEntry key version)) <$> et_data t).

(** [result.removeresult().code()]: a result of another kind has the default code. *)
Definition remove_code (r : ReadWriteResult) : ResponseCode :=
  match r with RemoveRes r => dr_code r | _ => RC_UNKNOWN end.

Definition failedKeys (t : ExportTask) (results : list ReadWriteResult) : list KeyType :=
  fst <$> filter (fun x => remove_code (snd x) <> RC_OK) (zip ((fun x : KeyType * ValueType * Z * Z => x.1.1.1) <$> et_data t) results).

(** A new scan task for the keys that were not deleted. *)
Definition rescan (t : ExportTask) (failed : list KeyType) : M MigrationManager unit :=
  match failed with
  | [] => ret tt
  | _ =>
      let* id := allocateNewTaskID in
      forM (et_shardIds t) (addScanTask id) ;;;
      submit (TScan (mkScanTask id (et_wsName t) (et_shardIds t) failed))
  end.

Definition markExported (t : ExportTask) : M MigrationManager unit :=
  forM (et_shardIds t) (fun id => markExportTaskDone id (et_id t)).

Definition in_manager {A} (m : M MigrationManager A) : M (MigrationManager * E) A := zoom fst (fun x s => (x, s.2)) m.
Definition in_kvEngine {A} (m : M E A) : M (MigrationManager * E) A := zoom snd (fun e s => (s.1, e)) m.

Definition deleteLocalKeys (t : ExportTask) : M (MigrationManager * E) unit :=
  let* resp := in_kvEngine (engExeBatch (deleteRequest t)) in
  assert_ (bool_decide (length (bp_results resp) = length (et_data t))) ;;;
  in_manager (rescan t (failedKeys t (bp_results resp))) ;;;
  in_manager (markExported t).

(** [ExportTask::run] *)
Definition runExport (fuel : nat) (t : ExportTask) : M (MigrationManager * E) unit :=
  exportLocalKeys fuel t ;;;
  deleteLocalKeys t.

End Exporting.
