(* ===== verification/MigrationSpec.v ===== *)
(** * What a migration guarantees

    The threads of a migration as a transition system over the operations of
    MigrationManager.v, and what follows for the reports: once every working set has its scan
    task, success is reported only when no task is left. *)

From S2P Require Import Prelude OrderedMap Status Proto KVStore Command ControlProto EngineContract Shards ScanCommand MigrationManager.

(** ** Interleavings *)

(** A migration under way: the manager, the working sets [startMigration] has not come to yet,
    the callbacks between the two halves of [onCommandFinished], and the export tasks that
    are marking their shards. *)
Record Run := mkRun {
  manager : MigrationManager;
  launching : list (WSName * list Z);
  returning : list (ScanTask * ScanResponse);
  marking : list (Z * list Z);
}.

Definition still (id : Z) (rest : list Z) : list (Z * list Z) :=
  match rest with [] => [] | _ => [(id, rest)] end.

Inductive step : Run -> Run -> Prop :=
| Launches c c' m m' g gs rs ms :
    launch g c m = Done tt c' m' -> step (mkRun m (g :: gs) rs ms) (mkRun m' gs rs ms)
| Scans c c' m m' p1 t p2 gs rs ms :
    pool m = p1 ++ TScan t :: p2 -> runScan t c (set_pool (p1 ++ p2) m) = Done tt c' m' ->
    step (mkRun m gs rs ms) (mkRun m' gs rs ms)
| Answers c c' m m' l1 t l2 resp gs rs ms :
    scanning m = l1 ++ t :: l2 -> exportBatch t resp c (set_scanning (l1 ++ l2) m) = Done tt c' m' ->
    step (mkRun m gs rs ms) (mkRun m' gs (rs ++ [(t, resp)]) ms)
| Returns c c' m m' r1 t resp r2 gs ms :
    endBatch t resp c m = Done tt c' m' ->
    step (mkRun m gs (r1 ++ (t, resp) :: r2) ms) (mkRun m' gs (r1 ++ r2) ms)
| Exports c c' m m' p1 t p2 failed gs rs ms :
    pool m = p1 ++ TExport t :: p2 -> rescan t failed c (set_pool (p1 ++ p2) m) = Done tt c' m' ->
    step (mkRun m gs rs ms) (mkRun m' gs rs (ms ++ [(et_id t, et_shardIds t)]))
| Marks c c' m m' m1 id s rest m2 gs rs :
    markExportTaskDone s id c m = Done tt c' m' ->
    step (mkRun m gs rs (m1 ++ (id, s :: rest) :: m2)) (mkRun m' gs rs (m1 ++ still id rest ++ m2)).

Inductive steps : nat -> Run -> Run -> Prop :=
| steps_refl r : steps 0 r r
| steps_step n r1 r2 r3 : steps n r1 r2 -> step r2 r3 -> steps (S n) r1 r3.

(** Nothing left to do. *)
Definition finished (r : Run) : Prop :=
  pool (manager r) = [] /\ scanning (manager r) = [] /\ returning r = [] /\ marking r = [].

(** ** The tasks shards wait for *)

Definition scan_claim (t : ScanTask) : Z * list Z := (st_id t, st_shardIds t).
Definition pool_scans (p : list Task) : list (Z * list Z) :=
  omap (fun t => match t with TScan t => Some (scan_claim t) | _ => None end) p.
Definition pool_exports (p : list Task) : list (Z * list Z) :=
  omap (fun t => match t with TExport t => Some (et_id t, et_shardIds t) | _ => None end) p.

Definition scans (r : Run) : list (Z * list Z) :=
  pool_scans (pool (manager r)) ++ (scan_claim <$> scanning (manager r)) ++ ((fun x => scan_claim (fst x)) <$> returning r).
Definition exports (r : Run) : list (Z * list Z) := pool_exports (pool (manager r)) ++ marking r.

(** The shards of a task have it among the tasks they wait for. *)
Definition awaited (tasks : MigratingShardInfo -> gset Z) (info : gmap Z MigratingShardInfo) (x : Z * list Z) : Prop :=
  forall s, s ∈ x.2 -> exists i, info !! s = Some i /\ x.1 ∈ tasks i.

Definition claims_ok (tasks : MigratingShardInfo -> gset Z) (m : MigrationManager) (l : list (Z * list Z)) : Prop :=
  NoDup l.*1 /\
  Forall (fun x => x.2 <> [] /\ NoDup x.2 /\ 0 <= x.1 < mMaxTaskID m /\ awaited tasks (mMigratingInfo m) x) l.

Definition groups_ok (m : MigrationManager) (gs : list (WSName * list Z)) : Prop :=
  Forall (fun g => g.2 <> [] /\ NoDup g.2) gs.

Record run_ok (r : Run) : Prop := {
  ok_scans : claims_ok mScanTasks (manager r) (scans r);
  ok_exports : claims_ok mExportTasks (manager r) (exports r);
  ok_groups : groups_ok (manager r) (launching r);
  ok_max : 0 <= mMaxTaskID (manager r);
}.

(** ** What the operations do to the tasks *)

(** Tasks only leave [info] when they are among [gone]. *)
Definition keeps (gone : gset Z) (tasks : MigratingShardInfo -> gset Z) (info info' : gmap Z MigratingShardInfo) : Prop :=
  forall s i, info !! s = Some i -> exists i', info' !! s = Some i' /\ tasks i ∖ gone ⊆ tasks i'.

Lemma keeps_refl gone tasks info : keeps gone tasks info info.
Proof. intros s i H. exists i. split; [done|set_solver]. Qed.

Lemma keeps_trans gone tasks i1 i2 i3 : keeps gone tasks i1 i2 -> keeps gone tasks i2 i3 -> keeps gone tasks i1 i3.
Proof. intros H1 H2 s i Hi. destruct (H1 s i Hi) as (i' & Hi' & Hs). destruct (H2 s i' Hi') as (i'' & Hi'' & Hs'). exists i''. split; [done|set_solver]. Qed.

Lemma keeps_insert gone tasks info s i f :
  (forall j, tasks j ∖ gone ⊆ tasks (f j)) -> info !! s = Some i -> keeps gone tasks info (<[s := f i]> info).
Proof.
  intros Hf Hi s' j Hj. destruct (decide (s' = s)) as [->|Hne].
  - rewrite lookup_insert_eq. exists (f i). split; [done|]. rewrite Hi in Hj. injection Hj as <-. apply Hf.
  - rewrite lookup_insert_ne by done. exists j. split; [done|set_solver].
Qed.

Lemma awaited_keeps gone tasks info info' x :
  keeps gone tasks info info' -> x.1 ∉ gone -> awaited tasks info x -> awaited tasks info' x.
Proof. intros Hk Hx Ha s Hs. destruct (Ha s Hs) as (i & Hi & Hin). destruct (Hk s i Hi) as (i' & Hi' & Hsub). exists i'. split; [done|set_solver]. Qed.

(** A loop over shards: what [f] establishes holds for the shards of the loop, and stays where it held. *)
Lemma in_shards_run f ss : forall c m u c' m',
  forM ss (fun s => in_shard s f) c m = Done u c' m' ->
  c' = c /\ exists info', m' = set_info info' m /\
    (forall gone tasks, (forall j, tasks j ∖ gone ⊆ tasks (f j)) -> keeps gone tasks (mMigratingInfo m) info') /\
    (forall Q : MigratingShardInfo -> Prop, (forall j, Q (f j)) ->
     forall s, s ∈ ss \/ (exists i, mMigratingInfo m !! s = Some i /\ Q i) -> exists i, info' !! s = Some i /\ Q i).
Proof.
  induction ss as [|s ss IH]; intros c m u c' m' H; cbn [forM] in H.
  { run_in H. simplify_eq. split; [done|]. exists (mMigratingInfo m'). split_and!.
    - by destruct m'.
    - intros. apply keeps_refl.
    - intros Q _ s [Hs|Hs]; [by apply elem_of_nil in Hs|done]. }
  apply bind_inv in H as ([] & c1 & m1 & H1 & H). unfold in_shard in H1. run_in H1.
  destruct (mMigratingInfo m !! s) as [i|] eqn:Ei; [|done]. simplify_eq.
  apply IH in H as (-> & info' & -> & Hk & HQ). cbn [set_info mMigratingInfo] in *. split; [done|]. exists info'. split_and!.
  - done.
  - intros gone tasks Hf. eapply keeps_trans; [|by apply Hk]. by apply keeps_insert.
  - intros Q Hf s' Hs. apply HQ; [done|]. destruct (decide (s' = s)) as [->|Hne].
    + right. exists (f i). by rewrite lookup_insert_eq.
    + destruct Hs as [Hs|(j & Hj & Hq)]; [left; set_solver|]. right. exists j. by rewrite lookup_insert_ne.
Qed.

(** Marking is the same with a check. *)
Lemma marks_run f ss : forall c m u c' m',
  forM ss (fun s => let* m := get in assert_ (bool_decide (is_Some (mMigratingInfo m !! s))) ;;; in_shard s f) c m = Done u c' m' ->
  forM ss (fun s => in_shard s f) c m = Done u c' m'.
Proof.
  induction ss as [|s ss IH]; intros c m u c' m' H; [done|]. cbn [forM] in *.
  apply bind_inv in H as ([] & c1 & m1 & H1 & H). run_in H1. case_bool_decide; [|done].
  erewrite bind_Done; [by apply IH|]. exact H1.
Qed.

(** ** Claims *)

Lemma claims_perm tasks m l l' : l ≡ₚ l' -> claims_ok tasks m l -> claims_ok tasks m l'.
Proof. intros Hp [H1 H2]. split; [by rewrite <- Hp|by rewrite <- Hp]. Qed.

(** The claims survive changes that keep their tasks. *)
Lemma claims_keep gone tasks m m' l :
  (forall x, x ∈ l -> x.1 ∉ gone) -> mMaxTaskID m <= mMaxTaskID m' -> keeps gone tasks (mMigratingInfo m) (mMigratingInfo m') ->
  claims_ok tasks m l -> claims_ok tasks m' l.
Proof.
  intros Hg Hmax Hk [H1 H2]. split; [done|]. apply Forall_forall. intros x Hx. rewrite Forall_forall in H2.
  destruct (H2 x Hx) as (Hne & Hnd & Hid & Ha). split_and!; [done|done|lia|lia|]. eapply awaited_keeps; eauto.
Qed.

(** A task with a new number. *)
Lemma claims_add tasks m m' id ss l :
  id = mMaxTaskID m -> mMaxTaskID m' = id + 1 -> 0 <= id -> ss <> [] -> NoDup ss -> awaited tasks (mMigratingInfo m') (id, ss) ->
  keeps ∅ tasks (mMigratingInfo m) (mMigratingInfo m') -> claims_ok tasks m l -> claims_ok tasks m' ((id, ss) :: l).
Proof.
  intros Hid Hmax Hpos Hne Hnd Ha Hk Hl. destruct (claims_keep ∅ tasks m m' l) as [H1 H2]; [set_solver|lia|done|done|].
  split.
  - rewrite fmap_cons. apply NoDup_cons. split; [|done]. cbn [fst]. intros ((id' & ss') & Heq & Hin)%list_elem_of_fmap. cbn in Heq. destruct Hl as [_ Hl].
    rewrite Forall_forall in Hl. destruct (Hl _ Hin) as (_ & _ & Hlt & _). cbn in Hlt. lia.
  - constructor; [|done]. cbn. split_and!; [done|done|lia|lia|done].
Qed.

(** A task that ends. *)
Lemma claims_drop tasks m m' id ss l :
  mMaxTaskID m' = mMaxTaskID m -> keeps {[id]} tasks (mMigratingInfo m) (mMigratingInfo m') ->
  claims_ok tasks m ((id, ss) :: l) -> claims_ok tasks m' l.
Proof.
  intros Hmax Hk [Hnd Hall]. apply (claims_keep {[id]} tasks m m'); [|lia|done|].
  - intros x Hx Heq. apply elem_of_singleton in Heq. rewrite fmap_cons in Hnd. apply NoDup_cons in Hnd as [Hnot _]. cbn [fst] in Hnot. apply Hnot.
    rewrite <- Heq. by apply (list_elem_of_fmap_2 fst).
  - rewrite fmap_cons in Hnd. apply NoDup_cons in Hnd as [_ Hnd]. apply Forall_cons in Hall as [_ Hall]. by split.
Qed.

Lemma pool_scans_app p q : pool_scans (p ++ q) = pool_scans p ++ pool_scans q.
Proof. apply omap_app. Qed.
Lemma pool_exports_app p q : pool_exports (p ++ q) = pool_exports p ++ pool_exports q.
Proof. apply omap_app. Qed.

(** ** The operations *)

(** A new scan task. *)
Lemma newScan_run ws ss ks c m u c' m' :
  is_u64 (mMaxTaskID m + 1) ->
  (let* id := allocateNewTaskID in
   forM ss (addScanTask id) ;;; submit (TScan (mkScanTask id ws ss ks))) c m = Done u c' m' ->
  exists info', m' = mkMigrationManager (mMigrationTaskID m) info' (mMaxTaskID m + 1)
                       (pool m ++ [TScan (mkScanTask (mMaxTaskID m) ws ss ks)]) (scanning m) (reports m) /\
    keeps ∅ mScanTasks (mMigratingInfo m) info' /\ keeps ∅ mExportTasks (mMigratingInfo m) info' /\
    awaited mScanTasks info' (mMaxTaskID m, ss).
Proof.
  intros Hmax H. apply bind_inv in H as (id & c1 & m1 & H1 & H). unfold allocateNewTaskID in H1. run_in H1. simplify_eq.
  apply bind_inv in H as ([] & c2 & m2 & H2 & H). apply (in_shards_run _ ss) in H2 as (-> & info' & -> & Hk & HQ).
  unfold submit in H. run_in H. simplify_eq. cbn [set_info set_pool mMigrationTaskID mMigratingInfo mMaxTaskID pool scanning reports] in *.
  exists info'. split_and!; [by rewrite u64_small|apply Hk; cbn; set_solver|apply Hk; cbn; set_solver|].
  intros s Hs. apply HQ; [|by left]. cbn. set_solver.
Qed.

(** A new export task. *)
Lemma exportBatch_run t resp c m u c' m' :
  is_u64 (mMaxTaskID m + 1) -> exportBatch t resp c m = Done u c' m' ->
  exists info', m' = mkMigrationManager (mMigrationTaskID m) info' (mMaxTaskID m + 1)
      (pool m ++ [TExport (mkExportTask (mMaxTaskID m) (st_wsName t) (st_shardIds t) (sr_data resp))]) (scanning m) (reports m) /\
    keeps ∅ mScanTasks (mMigratingInfo m) info' /\ keeps ∅ mExportTasks (mMigratingInfo m) info' /\
    awaited mExportTasks info' (mMaxTaskID m, st_shardIds t).
Proof.
  intros Hmax H. apply bind_inv in H as (id & c1 & m1 & H1 & H). unfold allocateNewTaskID in H1. run_in H1. simplify_eq.
  apply bind_inv in H as ([] & c2 & m2 & H2 & H). apply (in_shards_run _ (st_shardIds t)) in H2 as (-> & info' & -> & Hk & HQ).
  unfold submit in H. run_in H. simplify_eq. cbn [set_info set_pool mMigrationTaskID mMigratingInfo mMaxTaskID pool scanning reports] in *.
  exists info'. split_and!; [by rewrite u64_small|apply Hk; cbn; set_solver|apply Hk; cbn; set_solver|].
  intros s Hs. apply HQ; [|by left]. cbn. set_solver.
Qed.

(** The end of a batch: the task goes on, or its shards stop waiting for it. *)
Lemma endBatch_run t resp c m u c' m' :
  endBatch t resp c m = Done u c' m' ->
  m' = set_scanning (scanning m ++ [t]) m \/
  exists info', m' = set_info info' m /\ keeps {[st_id t]} mScanTasks (mMigratingInfo m) info' /\
    keeps ∅ mExportTasks (mMigratingInfo m) info'.
Proof.
  unfold endBatch. intros H. destruct (sr_iterator resp) as [it|]; [|done]. destruct (hasValue it).
  - left. by run_in H; simplify_eq.
  - right. apply marks_run, in_shards_run in H as (-> & info' & -> & Hk & _).
    exists info'. split_and!; [done|apply Hk; cbn; set_solver|apply Hk; cbn; set_solver].
Qed.

(** A shard marked by an export task. *)
Lemma markExport_run s id c m u c' m' :
  markExportTaskDone s id c m = Done u c' m' ->
  exists info' e, m' = mkMigrationManager (mMigrationTaskID m) info' (mMaxTaskID m) (pool m) (scanning m)
      (reports m ++ [(mkMigrationProgress (mMigrationTaskID m)
         (if bool_decide (map_Forall (fun _ i => isDone i = true) info') then SUCCEEDED else RUNNING), e)]) /\
    keeps ∅ mScanTasks (mMigratingInfo m) info' /\ keeps {[id]} mExportTasks (mMigratingInfo m) info' /\
    forall s', s' <> s -> info' !! s' = mMigratingInfo m !! s'.
Proof.
  unfold markExportTaskDone, in_shard, report, allDone. intros H. run_in H. case_bool_decide; [|done]. cbn beta iota in H.
  destruct (mMigratingInfo m !! s) as [i|] eqn:Ei; [|done]. cbn [set_info mMigratingInfo] in H. rewrite lookup_insert_eq in H.
  simplify_eq. cbn [set_info mMigrationTaskID mMigratingInfo mMaxTaskID pool scanning reports].
  eexists _, _. split; [reflexivity|]. split_and!.
  - apply (keeps_insert _ _ _ _ _ (fun i => mkShardInfo (mScanTasks i) (mExportTasks i ∖ {[id]}))); [cbn; set_solver|done].
  - apply (keeps_insert _ _ _ _ _ (fun i => mkShardInfo (mScanTasks i) (mExportTasks i ∖ {[id]}))); [cbn; set_solver|done].
  - intros s' Hs. by rewrite lookup_insert_ne.
Qed.

(** ** Every step keeps the claims *)

Lemma claims_elem tasks m l x : claims_ok tasks m l -> x ∈ l -> x.2 <> [] /\ NoDup x.2 /\ awaited tasks (mMigratingInfo m) x.
Proof. intros [_ H] Hx. rewrite Forall_forall in H. destruct (H x Hx) as (? & ? & _ & ?). done. Qed.

Lemma claims_same tasks m m' l :
  mMaxTaskID m' = mMaxTaskID m -> mMigratingInfo m' = mMigratingInfo m -> claims_ok tasks m l -> claims_ok tasks m' l.
Proof. intros H1 H2 H. apply (claims_keep ∅ tasks m m'); [set_solver|lia| |done]. rewrite H2. apply keeps_refl. Qed.

Lemma claims_more tasks m m' l :
  mMaxTaskID m' = mMaxTaskID m + 1 -> keeps ∅ tasks (mMigratingInfo m) (mMigratingInfo m') -> claims_ok tasks m l -> claims_ok tasks m' l.
Proof. intros H1 H2 H. apply (claims_keep ∅ tasks m m'); [set_solver|lia|done|done]. Qed.

Lemma launches_ok c c' m m' g gs rs ms :
  launch g c m = Done tt c' m' -> is_u64 (mMaxTaskID m + 1) -> run_ok (mkRun m (g :: gs) rs ms) -> run_ok (mkRun m' gs rs ms).
Proof.
  intros H Hmax [Hs He Hg H0]. destruct g as [ws ss]. apply newScan_run in H as (info' & -> & Hk1 & Hk2 & Ha); [|done].
  cbn [manager launching] in *. apply Forall_cons in Hg as [[Hne Hnd] Hg]. cbn in Hne, Hnd.
  constructor; cbn [manager launching mMaxTaskID]; [| |done|lia].
  - apply (claims_perm _ _ ((mMaxTaskID m, ss) :: scans (mkRun m ((ws, ss) :: gs) rs ms))).
    { unfold scans. cbn [manager returning pool scanning]. rewrite pool_scans_app. cbn. solve_Permutation. }
    by apply (claims_add mScanTasks m).
  - unfold exports in *. cbn [manager marking pool] in *. rewrite pool_exports_app. cbn. rewrite app_nil_r. by apply (claims_more _ m).
Qed.

Lemma scans_ok c c' m m' p1 t p2 gs rs ms :
  pool m = p1 ++ TScan t :: p2 -> runScan t c (set_pool (p1 ++ p2) m) = Done tt c' m' ->
  run_ok (mkRun m gs rs ms) -> run_ok (mkRun m' gs rs ms).
Proof.
  intros Hp H [Hs He Hg H0]. unfold runScan in H. run_in H. simplify_eq. constructor; [| |done|done].
  - apply (claims_same _ m); [done..|]. eapply claims_perm; [|exact Hs]. unfold scans. cbn [manager returning pool scanning set_scanning set_pool].
    rewrite Hp, !pool_scans_app, fmap_app. cbn. solve_Permutation.
  - apply (claims_same _ m); [done..|]. unfold exports in *. cbn [manager marking pool set_scanning set_pool] in *.
    rewrite Hp, pool_exports_app in He. by rewrite pool_exports_app.
Qed.

Lemma answers_ok c c' m m' l1 t l2 resp gs rs ms :
  scanning m = l1 ++ t :: l2 -> exportBatch t resp c (set_scanning (l1 ++ l2) m) = Done tt c' m' -> is_u64 (mMaxTaskID m + 1) ->
  run_ok (mkRun m gs rs ms) -> run_ok (mkRun m' gs (rs ++ [(t, resp)]) ms).
Proof.
  intros Hsc H Hmax [Hs He Hg H0]. apply exportBatch_run in H as (info' & -> & Hk1 & Hk2 & Ha); [|done].
  cbn [manager launching set_scanning mMigrationTaskID mMigratingInfo mMaxTaskID pool scanning reports] in *.
  assert (scan_claim t ∈ scans (mkRun m gs rs ms)) as Hin.
  { unfold scans. cbn [manager]. rewrite Hsc, fmap_app. set_solver. }
  destruct (claims_elem _ _ _ _ Hs Hin) as (Hne & Hnd & _). cbn in Hne, Hnd.
  constructor; cbn [manager launching mMaxTaskID]; [| |done|lia].
  - apply (claims_more _ m); [done..|]. eapply claims_perm; [|exact Hs]. unfold scans. cbn [manager returning pool scanning].
    rewrite Hsc, pool_scans_app, !fmap_app. cbn. solve_Permutation.
  - apply (claims_perm _ _ ((mMaxTaskID m, st_shardIds t) :: exports (mkRun m gs rs ms))).
    { unfold exports. cbn [manager marking pool]. rewrite pool_exports_app. cbn. solve_Permutation. }
    by apply (claims_add mExportTasks m).
Qed.

Lemma returns_ok c c' m m' r1 t resp r2 gs ms :
  endBatch t resp c m = Done tt c' m' -> run_ok (mkRun m gs (r1 ++ (t, resp) :: r2) ms) -> run_ok (mkRun m' gs (r1 ++ r2) ms).
Proof.
  intros H [Hs He Hg H0]. assert (scans (mkRun m gs (r1 ++ (t, resp) :: r2) ms) ≡ₚ scan_claim t :: scans (mkRun m gs (r1 ++ r2) ms)) as Hp.
  { unfold scans. cbn [manager returning]. rewrite !fmap_app. cbn. solve_Permutation. }
  apply endBatch_run in H as [->|(info' & -> & Hk1 & Hk2)]; (constructor; [| |done|done]).
  - apply (claims_same _ m); [done..|]. eapply claims_perm; [|exact Hs]. rewrite Hp. unfold scans. cbn [manager returning pool scanning set_scanning].
    rewrite !fmap_app. cbn. solve_Permutation.
  - by apply (claims_same _ m).
  - eapply (claims_drop _ m); [done|exact Hk1|]. eapply claims_perm; [exact Hp|exact Hs].
  - by apply (claims_keep ∅ _ m); [set_solver|..].
Qed.

Lemma exports_ok c c' m m' p1 t p2 failed gs rs ms :
  pool m = p1 ++ TExport t :: p2 -> rescan t failed c (set_pool (p1 ++ p2) m) = Done tt c' m' -> is_u64 (mMaxTaskID m + 1) ->
  run_ok (mkRun m gs rs ms) -> run_ok (mkRun m' gs rs (ms ++ [(et_id t, et_shardIds t)])).
Proof.
  intros Hp H Hmax [Hs He Hg H0].
  assert (claims_ok mScanTasks m (scans (mkRun (set_pool (p1 ++ p2) m) gs rs ms))) as Hs'.
  { unfold scans in *. cbn [manager returning pool set_pool scanning] in *. rewrite Hp, pool_scans_app in Hs. by rewrite pool_scans_app. }
  assert (claims_ok mExportTasks m (pool_exports (p1 ++ p2) ++ ms ++ [(et_id t, et_shardIds t)])) as He'.
  { eapply claims_perm; [|exact He]. unfold exports. cbn [manager marking]. rewrite Hp, !pool_exports_app. cbn. solve_Permutation. }
  destruct failed as [|k ks].
  - cbn in H. run_in H. simplify_eq. by constructor.
  - apply newScan_run in H as (info' & -> & Hk1 & Hk2 & Ha); [|done].
    cbn [manager launching set_pool mMigrationTaskID mMigratingInfo mMaxTaskID pool scanning reports] in *.
    destruct (claims_elem _ _ _ (et_id t, et_shardIds t) He') as (Hne & Hnd & _); [set_solver|]. cbn in Hne, Hnd.
    constructor; cbn [manager launching mMaxTaskID]; [| |done|lia].
    + apply (claims_perm _ _ ((mMaxTaskID m, et_shardIds t) :: scans (mkRun (set_pool (p1 ++ p2) m) gs rs ms))).
      { unfold scans. cbn [manager returning pool scanning set_pool]. rewrite (pool_scans_app (p1 ++ p2)). cbn. solve_Permutation. }
      by apply (claims_add mScanTasks m).
    + unfold exports. cbn [manager marking pool]. rewrite (pool_exports_app (p1 ++ p2)). cbn. rewrite app_nil_r. by apply (claims_more _ m).
Qed.

Lemma marks_ok c c' m m' m1 id s rest m2 gs rs :
  markExportTaskDone s id c m = Done tt c' m' -> run_ok (mkRun m gs rs (m1 ++ (id, s :: rest) :: m2)) ->
  run_ok (mkRun m' gs rs (m1 ++ still id rest ++ m2)).
Proof.
  intros H [Hs He Hg H0]. apply markExport_run in H as (info' & e & -> & Hk1 & Hk2 & Hsame).
  cbn [manager launching] in *. constructor; cbn [manager launching mMaxTaskID]; [|clear Hs|done|done].
  { by apply (claims_keep ∅ _ m); [set_solver|..]. }
  set (l := pool_exports (pool m) ++ m1 ++ m2).
  assert (claims_ok mExportTasks m ((id, s :: rest) :: l)) as Hl.
  { eapply claims_perm; [|exact He]. unfold exports, l. cbn [manager marking]. solve_Permutation. }
  pose proof (claims_drop _ m (mkMigrationManager (mMigrationTaskID m) info' (mMaxTaskID m) (pool m) (scanning m)
    (reports m ++ [(mkMigrationProgress (mMigrationTaskID m)
       (if bool_decide (map_Forall (fun _ i => isDone i = true) info') then SUCCEEDED else RUNNING), e)])) id (s :: rest) l eq_refl Hk2 Hl) as Hl'.
  destruct rest as [|s2 rest]; cbn [still app]; [done|].
  apply (claims_perm _ _ ((id, s2 :: rest) :: l)); [unfold exports, l; cbn [manager marking pool]; solve_Permutation|].
  destruct Hl as [Hnd Hall]. apply Forall_cons in Hall as [(_ & Hss & Hid & Ha) _]. cbn [fst snd] in *. split; [by rewrite fmap_cons in *|].
  constructor; [|apply Hl']. cbn [fst snd mMaxTaskID mMigratingInfo]. split_and!; [done|by apply NoDup_cons in Hss as [_ ?]|lia|lia|].
  intros s' Hs'. cbn [fst snd] in *. rewrite Hsame; [apply Ha; by right|]. intros ->. by apply NoDup_cons in Hss as [? _].
Qed.

Lemma step_ok r r' : step r r' -> is_u64 (mMaxTaskID (manager r) + 1) -> run_ok r -> run_ok r'.
Proof.
  intros H Hmax. destruct H; intros Hok; eauto using launches_ok, scans_ok, answers_ok, returns_ok, exports_ok, marks_ok.
Qed.

Lemma step_max r r' :
  step r r' -> is_u64 (mMaxTaskID (manager r) + 1) -> mMaxTaskID (manager r) <= mMaxTaskID (manager r') <= mMaxTaskID (manager r) + 1.
Proof.
  intros H Hmax. destruct H as [c c' m m' [ws ss] gs rs ms H|c c' m m' p1 t p2 gs rs ms Hp H|c c' m m' l1 t l2 resp gs rs ms Hl H
    |c c' m m' r1 t resp r2 gs ms H|c c' m m' p1 t p2 failed gs rs ms Hp H|c c' m m' m1 id s rest m2 gs rs H]; cbn [manager] in *.
  - apply newScan_run in H as (info' & -> & _); [cbn; lia|done].
  - unfold runScan in H. run_in H. simplify_eq. cbn. lia.
  - apply exportBatch_run in H as (info' & -> & _); [cbn; lia|done].
  - apply endBatch_run in H as [->|(info' & -> & _)]; cbn; lia.
  - destruct failed as [|k ks]; [unfold rescan in H; run_in H; simplify_eq; cbn; lia|].
    apply newScan_run in H as (info' & -> & _); [cbn; lia|done].
  - apply markExport_run in H as (info' & e & -> & _). cbn. lia.
Qed.

Lemma steps_ok n r r' :
  steps n r r' -> run_ok r -> mMaxTaskID (manager r) + Z.of_nat n < 2 ^ 64 - 1 ->
  run_ok r' /\ mMaxTaskID (manager r') <= mMaxTaskID (manager r) + Z.of_nat n.
Proof.
  induction 1 as [r|n r1 r2 r3 H IH Hs]; intros Hok Hmax; [split; [done|lia]|].
  destruct (IH Hok ltac:(lia)) as [Hok2 Hle]. pose proof (ok_max _ Hok2).
  assert (is_u64 (mMaxTaskID (manager r2) + 1)) as Hu by (unfold is_u64; lia).
  split; [by eapply step_ok|]. pose proof (step_max _ _ Hs Hu). lia.
Qed.

(** ** The groups *)

Lemma shardsPerWS_from shards : forall m : OMap string (list Z),
  omap_sorted m -> NoDup shards -> Forall (fun g => g.2 <> [] /\ NoDup g.2 /\ forall s, s ∈ g.2 -> s ∉ shards) m ->
  Forall (fun g => g.2 <> [] /\ NoDup g.2) (fold_left (fun m s => add_shard s m) shards m).
Proof.
  induction shards as [|s shards IH]; intros m Hsort Hnd Hm; cbn [fold_left].
  { eapply Forall_impl; [exact Hm|]. naive_solver. }
  apply NoDup_cons in Hnd as [Hs Hnd]. apply IH; [by apply omap_put_sorted|done|]. apply Forall_forall. intros [ws ss] Hin.
  rewrite Forall_forall in Hm. unfold add_shard in Hin. apply elem_of_omap_put in Hin as [[-> ->]|[_ Hin]]; [| |done].
  - cbn [snd]. split; [by destruct (default _ _)|]. destruct (omap_find _ m) as [old|] eqn:Eo; cbn [default].
    + apply omap_find_Some in Eo. destruct (Hm _ Eo) as (_ & Hnd' & Hout). cbn [snd] in *. split.
      * apply NoDup_app. split_and!; [done| |apply NoDup_singleton]. intros x Hx ->%list_elem_of_singleton. apply (Hout s Hx). by left.
      * intros x [Hx|Hx%list_elem_of_singleton]%elem_of_app; [|by subst]. intros Hx'. apply (Hout x Hx). by right.
    + split; [apply NoDup_singleton|]. intros x ->%list_elem_of_singleton. done.
  - destruct (Hm _ Hin) as (Hne & Hnd' & Hout). cbn [snd] in *. split_and!; [done|done|]. intros x Hx Hx'. apply (Hout x Hx). by right.
Qed.

Lemma begin_ok task c m groups c' m' :
  beginMigration task c m = Done groups c' m' -> pool m = [] -> scanning m = [] -> 0 <= mMaxTaskID m -> NoDup (mt_migrateShards task).*1 ->
  run_ok (mkRun m' groups [] []) /\ mMaxTaskID m' = mMaxTaskID m.
Proof.
  unfold beginMigration. intros H Hp Hs Hmax Hnd. run_in H. simplify_eq. cbn. split; [|done]. constructor; cbn; [| | |done].
  - unfold scans. cbn. rewrite Hp, Hs. split; [apply NoDup_nil_2|apply Forall_nil_2].
  - unfold exports. cbn. rewrite Hp. split; [apply NoDup_nil_2|apply Forall_nil_2].
  - unfold groups_ok, shardsPerWS. apply shardsPerWS_from; [apply SSorted_nil|done|apply Forall_nil_2].
Qed.

(** ** Reports *)

Lemma omap_claims_nil p : pool_scans p = [] -> pool_exports p = [] -> p = [].
Proof. destruct p as [|[t|t] p]; [done|done|]. intros _ H. cbn in H. discriminate. Qed.

(** When no shard waits, there are no claims. *)
Lemma no_claims tasks m l :
  claims_ok tasks m l -> (forall s i, mMigratingInfo m !! s = Some i -> tasks i = ∅) -> l = [].
Proof.
  intros Hok Hdone. destruct l as [|x l]; [done|]. destruct (claims_elem _ _ _ x Hok) as (Hne & _ & Ha); [by left|].
  destruct x as [id [|s ss]]; [done|]. destruct (Ha s) as (i & Hi & Hin); [by left|]. rewrite (Hdone s i Hi) in Hin. set_solver.
Qed.

Lemma done_finished r : run_ok r -> allDone (manager r) = true -> finished r.
Proof.
  intros [Hs He _ _] Hd. unfold allDone in Hd. apply bool_decide_eq_true in Hd.
  assert (forall s i, mMigratingInfo (manager r) !! s = Some i -> mScanTasks i = ∅ /\ mExportTasks i = ∅) as Hdone.
  { intros s i Hi. apply Hd in Hi. by apply bool_decide_eq_true in Hi. }
  apply no_claims in Hs; [|intros; by eapply Hdone]. apply no_claims in He; [|intros; by eapply Hdone].
  unfold scans in Hs. apply app_eq_nil in Hs as [Hs1 [Hs2 Hs3]%app_eq_nil]. apply app_eq_nil in He as [He1 He2].
  split_and!; [by apply omap_claims_nil|by apply fmap_nil_inv in Hs2|by apply fmap_nil_inv in Hs3|done].
Qed.

(** A step that reports success leaves no shard waiting. *)
Lemma success_all_done r r' p e :
  step r r' -> is_u64 (mMaxTaskID (manager r) + 1) -> reports (manager r') = reports (manager r) ++ [(p, e)] ->
  mp_overallStatus p = SUCCEEDED -> allDone (manager r') = true.
Proof.
  intros H Hmax. assert (forall l, l = l ++ [(p, e)] -> False) as Hne.
  { intros l Hl. apply (f_equal length) in Hl. rewrite length_app in Hl. cbn in Hl. lia. }
  destruct H as [c c' m m' [ws ss] gs rs ms H|c c' m m' p1 t p2 gs rs ms Hp H|c c' m m' l1 t l2 resp gs rs ms Hl H
    |c c' m m' r1 t resp r2 gs ms H|c c' m m' p1 t p2 failed gs rs ms Hp H|c c' m m' m1 id s rest m2 gs rs H]; cbn [manager] in *; intros Hr Hst.
  - apply newScan_run in H as (info' & -> & _); [|done]. cbn in Hr. by apply Hne in Hr.
  - unfold runScan in H. run_in H. simplify_eq. cbn in Hr. by apply Hne in Hr.
  - apply exportBatch_run in H as (info' & -> & _); [|done]. cbn in Hr. by apply Hne in Hr.
  - apply endBatch_run in H as [->|(info' & -> & _)]; cbn in Hr; by apply Hne in Hr.
  - destruct failed as [|k ks]; [unfold rescan in H; run_in H; simplify_eq; cbn in Hr; by apply Hne in Hr|].
    apply newScan_run in H as (info' & -> & _); [|done]. cbn in Hr. by apply Hne in Hr.
  - apply markExport_run in H as (info' & e' & -> & _). cbn [reports] in Hr. apply app_inv_head in Hr. injection Hr as <- <-.
    cbn in Hst. unfold allDone. cbn [mMigratingInfo]. by destruct (bool_decide _).
Qed.

(** C20: success is not reported early. In any interleaving of the threads of a migration of
    distinct shards, a report of success made once [startMigration] has launched every working
    set leaves nothing behind: no task in the pool, no scan in the engine, no callback and
    no export task on its way. *)
Theorem success_means_finished task k c groups c' m n r r' p e :
  NoDup (mt_migrateShards task).*1 -> 0 <= k -> k + Z.of_nat n < 2 ^ 64 - 2 ->
  beginMigration task c (new_MigrationManager k) = Done groups c' m ->
  steps n (mkRun m groups [] []) r -> launching r = [] -> step r r' ->
  reports (manager r') = reports (manager r) ++ [(p, e)] -> mp_overallStatus p = SUCCEEDED ->
  finished r' /\ launching r' = [].
Proof.
  intros Hnd Hk Hn Hbegin Hsteps Hl Hstep Hr Hp.
  destruct (begin_ok _ _ _ _ _ _ Hbegin) as [Hok Hmax]; [done..|]. cbn in Hmax.
  destruct (steps_ok n _ _ Hsteps Hok) as [Hok2 Hle]; [cbn; lia|]. cbn [manager] in Hle. pose proof (ok_max _ Hok2).
  assert (is_u64 (mMaxTaskID (manager r) + 1)) as Hu by (unfold is_u64; lia).
  split; [apply done_finished; [by eapply step_ok|by eapply success_all_done]|]. by destruct Hstep.
Qed.

(** ** The operations are made of these steps *)

Lemma steps_app n1 n2 r1 r2 r3 : steps n1 r1 r2 -> steps n2 r2 r3 -> steps (n2 + n1) r1 r3.
Proof. intros H1 H2. induction H2; [done|]. cbn. econstructor; eauto. Qed.

(** A callback that is not interrupted. *)
Lemma callback_steps c c' m m' l1 t l2 resp gs rs ms :
  scanning m = l1 ++ t :: l2 -> onCommandFinished t (Some resp) c (set_scanning (l1 ++ l2) m) = Done tt c' m' ->
  steps 2 (mkRun m gs rs ms) (mkRun m' gs rs ms).
Proof.
  intros Hl H. cbn [onCommandFinished] in H. apply bind_inv in H as ([] & c1 & m1 & H1 & H2).
  eapply steps_step; [eapply (steps_step 0); [apply steps_refl|by eapply Answers]|]. rewrite <- (app_nil_r rs) at 2. by eapply Returns.
Qed.

(** An export task that is not interrupted marks its shards one after the other. *)
Lemma mark_steps id ss : forall c c' m m' gs rs,
  ss <> [] -> forM ss (fun s => markExportTaskDone s id) c m = Done tt c' m' ->
  exists n, steps n (mkRun m gs rs [(id, ss)]) (mkRun m' gs rs []).
Proof.
  induction ss as [|s ss IH]; intros c c' m m' gs rs Hne H; [done|]. cbn [forM] in H. apply bind_inv in H as ([] & c1 & m1 & H1 & H).
  assert (step (mkRun m gs rs [(id, s :: ss)]) (mkRun m1 gs rs (still id ss))) as Hstep.
  { pose proof (Marks c c1 m m1 [] id s ss [] gs rs H1) as Hs. cbn in Hs. by rewrite app_nil_r in Hs. }
  destruct ss as [|s2 ss]; cbn [still] in Hstep.
  - exists 1%nat. cbn [forM] in H. run_in H. simplify_eq. by apply (steps_step 0 _ _ _ (steps_refl _)).
  - destruct (IH c1 c' m1 m' gs rs ltac:(done) H) as [n Hn]. exists (n + 1)%nat. eapply steps_app; [|exact Hn]. by apply (steps_step 0 _ _ _ (steps_refl _)).
Qed.

Lemma export_steps {E} `{!EngineOps E} peer fuel t c c' m m' (e e' : E) p1 p2 gs rs :
  pool m = p1 ++ TExport t :: p2 -> et_shardIds t <> [] ->
  runExport peer fuel t c (set_pool (p1 ++ p2) m, e) = Done tt c' (m', e') ->
  exists n, steps n (mkRun m gs rs []) (mkRun m' gs rs []).
Proof.
  intros Hp Hne H. unfold runExport in H. apply bind_inv in H as ([] & c1 & [m1 e1] & H1 & H).
  assert (m1 = set_pool (p1 ++ p2) m /\ e1 = e) as [-> ->].
  { unfold exportLocalKeys in H1. revert H1. generalize O. induction fuel as [|fuel IH]; intros n H1; [done|]. cbn [retryExport] in H1.
    destruct (isAllSucceed _); [by run_in H1; simplify_eq|eauto]. }
  unfold deleteLocalKeys in H. apply bind_inv in H as (resp & c2 & [m2 e2] & H2 & H).
  unfold in_kvEngine, zoom in H2. destruct (engExeBatch _ _ _); [|done]. simplify_eq.
  apply bind_inv in H as ([] & c3 & [m3 e3] & H3 & H). unfold assert_ in H3. case_bool_decide; [|done]. run_in H3. simplify_eq.
  apply bind_inv in H as ([] & c4 & [m4 e4] & H4 & H). unfold in_manager, zoom in H4, H. cbn [fst] in H4.
  destruct (rescan _ _ _ _) as [[] c5 m5|] eqn:Hre; [|done]. simplify_eq. cbn [fst] in H.
  destruct (markExported _ _ _) as [[] c6 m6|] eqn:Hma; [|done]. simplify_eq.
  destruct (mark_steps _ _ _ _ _ _ gs rs Hne Hma) as [n Hn]. exists (n + 1)%nat. eapply steps_app; [|exact Hn].
  eapply (steps_step 0); [apply steps_refl|]. change [(et_id t, et_shardIds t)] with ([] ++ [(et_id t, et_shardIds t)]). by eapply Exports.
Qed.
