(* ===== verification/ObjectStore.v ===== *)
(** * The object store

    [ObjectStore] (object-store/ObjectStore.h/.cpp): the node's view of the route and of
    migrations ([GlobalInfo]), the check every command passes before it runs
    ([preExecuteCallBack]), and the calls of the object manager. *)

From Stdlib Require Import Ascii.
From S2P Require Import Prelude Utils OrderedMap Status Proto KVStore Command KVGenerateCommand CommandProcessor ControlProto.
From S2P Require Import EngineContract Shards ScanCommand MigrationManager.

(** ** GlobalInfo *)

(** [RouteInfoHelper]: the route and the shards of each cluster. *)
Record RouteInfoHelper := mkRouteHelper { mRouteInfo : RouteInfo; mCluster2ShardIds : OMap string (gset Z) }.

(** [MigrationInfoHelp] *)
Record MigrationInfoHelp := mkMigrationHelp { mMigrationTask : MigrationTask; mShard2Status : gmap Z MigrationShardStatus }.

Definition new_route : RouteInfoHelper := mkRouteHelper empty_route [].
Definition new_migration : MigrationInfoHelp := mkMigrationHelp empty_task ∅.

Definition getRouteVersion (h : RouteInfoHelper) : Z := ri_version (mRouteInfo h).

(** [mCluster2ShardIds.at(cluster)] throws when the cluster has no entry. *)
Definition checkIfInClusterScope {S} (cluster : ClusterAddressFormat) (shardId : Z) (h : RouteInfoHelper) : M S bool :=
  match omap_find cluster (mCluster2ShardIds h) with
  | Some shards => ret (bool_decide (shardId ∈ shards))
  | None => stop Uncaught
  end.

(** The first cluster in the order of the map; no cluster is the empty text. *)
Definition getClusterByShardId (shardId : Z) (h : RouteInfoHelper) : ClusterAddressFormat :=
  match filter (fun e : string * gset Z => shardId ∈ e.2) (mCluster2ShardIds h) with
  | (cluster, _) :: _ => cluster
  | [] => ""
  end.

(** [mCluster2ShardIds[addrFormat].insert(id)] for the shards of a cluster: without shards there is no entry. *)
Definition insert_shard (cluster : ClusterAddressFormat) (m : OMap string (gset Z)) (id : Z) : OMap string (gset Z) :=
  omap_put cluster ({[id]} ∪ default ∅ (omap_find cluster m)) m.

Definition updateShardMap (h : RouteInfoHelper) : RouteInfoHelper :=
  mkRouteHelper (mRouteInfo h)
    (fold_left (fun m (x : list Z * ClusterAddress) => fold_left (insert_shard (clusterToAddressFormat x.2)) x.1 m)
               (ri_placementMap (mRouteInfo h)) (mCluster2ShardIds h)).

Definition updateRouteInfo (info : RouteInfo) (h : RouteInfoHelper) : RouteInfoHelper :=
  updateShardMap (mkRouteHelper info (mCluster2ShardIds h)).

Definition getSourceCluster (h : MigrationInfoHelp) : ClusterAddressFormat := clusterToAddressFormat (mt_sourceCluster (mMigrationTask h)).
Definition getTargetCluster (h : MigrationInfoHelp) : ClusterAddressFormat := clusterToAddressFormat (mt_targetCluster (mMigrationTask h)).

Definition checkIfInMigrationShards (shardId : Z) (h : MigrationInfoHelp) : bool :=
  bool_decide (is_Some (mShard2Status h !! shardId)).

Definition updateMigrationMap (h : MigrationInfoHelp) : MigrationInfoHelp :=
  mkMigrationHelp (mMigrationTask h)
    (fold_left (fun m (x : Z * MigrationShardStatus) => <[x.1 := x.2]> m) (mt_migrateShards (mMigrationTask h)) (mShard2Status h)).

Definition updateMigrationTask (task : MigrationTask) (h : MigrationInfoHelp) : MigrationInfoHelp :=
  updateMigrationMap (mkMigrationHelp task (mShard2Status h)).

(** What a node knows. *)
Record Info := mkInfo {
  mMyClusterAddrFormat : ClusterAddressFormat;
  mStatus : ClusterStatus;
  mRouteInfoHelper : RouteInfoHelper;
  mMigrationInfoHelper : MigrationInfoHelp;
}.

(** The members, and the members [mCached...], of which commands get pointers. *)
Record GlobalInfo := mkGlobal { latest : Info; cached : Info }.

Definition new_info : Info := mkInfo "" INIT new_route new_migration.
Definition new_GlobalInfo : GlobalInfo := mkGlobal new_info new_info.

Definition update_info (clusterAddr : option ClusterAddress) (status : ClusterStatus) (route : RouteInfo) (task : MigrationTask)
    (i : Info) : Info :=
  mkInfo (match clusterAddr with Some a => clusterToAddressFormat a | None => mMyClusterAddrFormat i end) status
    (updateRouteInfo route (mRouteInfoHelper i)) (updateMigrationTask task (mMigrationInfoHelper i)).

(** [updateLatestInfo], with and without an address. *)
Definition updateLatestInfo (clusterAddr : option ClusterAddress) (status : ClusterStatus) (route : RouteInfo) (task : MigrationTask)
    (g : GlobalInfo) : GlobalInfo :=
  mkGlobal (update_info clusterAddr status route task (latest g)) (update_info clusterAddr status route task (cached g)).

Definition update_route (route : RouteInfo) (i : Info) : Info :=
  mkInfo (mMyClusterAddrFormat i) (mStatus i) (updateRouteInfo route (mRouteInfoHelper i)) (mMigrationInfoHelper i).

Definition updateLatestRouteInfo (route : RouteInfo) (g : GlobalInfo) : GlobalInfo :=
  mkGlobal (update_route route (latest g)) (update_route route (cached g)).

Definition getLatestInfo (g : GlobalInfo) : Info := latest g.
Definition getCachedInfo (g : GlobalInfo) : Info := cached g.

(** ** The node *)

(** What the node has asked of the object manager. *)
Inductive ManagerCall := RequestRouteInfo | ReportMigrationProgress (p : MigrationProgress).

Record ObjectStore := mkObjectStore {
  mGlobalInfo : GlobalInfo;
  mMigrationManager : option MigrationManager;
  mRefreshingRouteInfo : bool;
  sent : list ManagerCall;
}.

Definition new_ObjectStore : ObjectStore := mkObjectStore new_GlobalInfo None false [].

Definition set_info (g : GlobalInfo) (o : ObjectStore) : ObjectStore :=
  mkObjectStore g (mMigrationManager o) (mRefreshingRouteInfo o) (sent o).
Definition set_migration (m : option MigrationManager) (o : ObjectStore) : ObjectStore :=
  mkObjectStore (mGlobalInfo o) m (mRefreshingRouteInfo o) (sent o).

Definition getCurClusterStatus (o : ObjectStore) : ClusterStatus := mStatus (getLatestInfo (mGlobalInfo o)).

Definition refreshRouteInfo : M ObjectStore Status.t :=
  let* o := get in
  if mRefreshingRouteInfo o then ret Status.ok
  else
    put (mkObjectStore (mGlobalInfo o) (mMigrationManager o) true (sent o ++ [RequestRouteInfo])) ;;;
    ret Status.ok.

(** The callback of the request: the header of the answer is not looked at. *)
Definition routeInfoReceived (route : RouteInfo) : M ObjectStore unit :=
  modify (fun o => mkObjectStore (updateLatestRouteInfo route (mGlobalInfo o)) (mMigrationManager o) false (sent o)).

Definition reportMigration (progress : MigrationProgress) : M ObjectStore Status.t :=
  modify (fun o => mkObjectStore (mGlobalInfo o) (mMigrationManager o) (mRefreshingRouteInfo o)
                                 (sent o ++ [ReportMigrationProgress progress])) ;;;
  ret Status.ok.

(** ** Becoming leader *)

(** [OnStartup::Response] *)
Record StartupResponse := mkStartup {
  su_code : ResponseCode;
  su_status : ClusterStatus;
  su_route : RouteInfo;
  su_task : MigrationTask;
}.

(** The loop that reports until the answer is OK; [answers] are the answers of the object
    manager, one per attempt. [fuel] bounds the attempts. *)
Fixpoint reportStartup (fuel n : nat) (answers : ClusterAddress -> nat -> StartupResponse) (cluster : ClusterAddress)
    : M ObjectStore unit :=
  match fuel with
  | O => stop WouldBlock
  | S fuel =>
      let resp := answers cluster n in
      if bool_decide (su_code resp <> RC_OK) then reportStartup fuel (S n) answers cluster
      else modify (fun o => set_info (updateLatestInfo (Some cluster) (su_status resp) (su_route resp) (su_task resp) (mGlobalInfo o)) o)
  end.

(** [ipPortStr] is [receiver/ip.port] of the configuration, [selfId] what [getSelfMemId] returns. *)
Definition becomeLeaderCallBack (ipPortStr : string) (selfId : Z) (answers : ClusterAddress -> nat -> StartupResponse)
    (fuel : nat) (clusterInfo : list string) : M ObjectStore Status.t :=
  match tokenize ipPortStr ":"%char with
  | [_; port] =>
      assert_ (negb (bool_decide (selfId = -1))) ;;;
      match stoi port with
      | None => stop Uncaught
      | Some appPort =>
          let* cluster := raftMembersToClusterAddress (u64 appPort) selfId clusterInfo in
          reportStartup fuel O answers cluster ;;;
          ret Status.ok
      end
  | _ => stop AssertFail
  end.

(** ** The check before a command *)

Section PreExecute.
Context {S : Type} `{!KVStore S}.

(** [isMiniTrxKey] of the callback: every key, of none too. *)
Definition isMiniTrx (keys : list KeyType) : bool := forallb (String.prefix TRX_KEY_PREFIX) keys.

Definition shard_of (mini : bool) (key : KeyType) : Z := if mini then RMSTRX_SHARD_IDX else keyToShardId key.

(** The loop over the keys. *)
Fixpoint checkKeys (info : Info) (mini : bool) (keys : list KeyType) : M S Status.t :=
  match keys with
  | [] => ret Status.ok
  | key :: keys =>
      let shardId := shard_of mini key in
      let* here := checkIfInClusterScope (mMyClusterAddrFormat info) shardId (mRouteInfoHelper info) in
      let migrating := checkIfInMigrationShards shardId (mMigrationInfoHelper info) in
      if negb here then
        if (bool_decide (mStatus info = IMPORTING) && migrating)%bool then checkKeys info mini keys
        else ret (Status.wrongRoute "routed to a wrong cluster")
      else if (bool_decide (mStatus info = EXPORTING) && migrating)%bool then
        let* (s, _) := kvReadMeta key empty_meta in
        if Status.isNotFound s then ret (Status.migratedRoute (getTargetCluster (mMigrationInfoHelper info)))
        else checkKeys info mini keys
      else checkKeys info mini keys
  end.

Definition in_store {A} (m : M ObjectStore A) : M (ObjectStore * S) A := zoom fst (fun o s => (o, s.2)) m.
Definition in_kvStore {A} (m : M S A) : M (ObjectStore * S) A := zoom snd (fun kv s => (s.1, kv)) m.

(** [preExecuteCallBack]; there is one partition strategy, [HASH_MOD]. *)
Definition preExecuteCallBack (cmd : Command S) : M (ObjectStore * S) Status.t :=
  let* (o, _) := get in
  let info := getCachedInfo (mGlobalInfo o) in
  let version := getRouteVersion (mRouteInfoHelper info) in
  let header := Command.getRequestHeader cmd in
  if bool_decide (rq_routeVersion header < version) then
    ret (Status.clientRouteOutOfDate "client needs to refresh route info")
  else if bool_decide (version < rq_routeVersion header) then
    in_store refreshRouteInfo ;;;
    ret (Status.serverRouteOutOfDate "server refreshing route, please try again")
  else if bool_decide (mStatus info = OUT_OF_SERVICE) then
    ret (Status.outOfService "server is not in good state")
  else
    let keys := Command.getTargetKeys cmd in
    in_kvStore (checkKeys info (isMiniTrx keys) keys).

(** The callback as the command processor sees it: what it does to the node is left out. *)
Definition preExecute (o : ObjectStore) (cmd : Command S) : M S Status.t :=
  fun c s => match preExecuteCallBack cmd c (o, s) with
             | Done st c' (_, s') => Done st c' s'
             | Stop f => Stop f
             end.

End PreExecute.

(** ** The calls of the object manager *)

Section Migrating.
Context {E : Type} `{!EngineOps E}.

Definition in_os {A} (m : M ObjectStore A) : M (ObjectStore * E) A := zoom fst (fun o s => (o, s.2)) m.
Definition in_eng {A} (m : M E A) : M (ObjectStore * E) A := zoom snd (fun e s => (s.1, e)) m.

(** The read that shows whether the node is the leader: the code of its answer. *)
Definition leadership : M (ObjectStore * E) ResponseCode :=
  let* resp := in_eng (engGet (mkGetRequest (mkReqHeader 0 0) (mkReadEntry "dummykeytocheckleadership" 0) false false)) in
  ret (h_code (gp_header resp)).

(** [maxTaskID] is the static counter of the thread pools. *)
Definition triggerMigration (maxTaskID : Z) (status : ClusterStatus) (route : RouteInfo) (task : MigrationTask)
    : M (ObjectStore * E) Status.t :=
  let* (o, _) := get in
  match mMigrationManager o with
  | Some _ => ret (Status.notSupported "already has a migration task running")
  | None =>
      let* code := leadership in
      if bool_decide (code = RC_NOT_LEADER) then ret (Status.notLeader "")
      else
        in_os (modify (fun o => set_info (updateLatestInfo None status route task (mGlobalInfo o)) o)) ;;;
        in_os (fun c o => match startMigration task c (new_MigrationManager maxTaskID) with
                          | Done _ c' m => Done tt c' (set_migration (Some m) o)
                          | Stop f => Stop f
                          end) ;;;
        ret Status.ok
  end.

Definition finishMigration (status : ClusterStatus) (route : RouteInfo) (task : MigrationTask)
    : M (ObjectStore * E) Status.t :=
  let* code := leadership in
  if bool_decide (code = RC_NOT_LEADER) then ret (Status.notLeader "")
  else
    let* (o, _) := get in
    let curStatus := getCurClusterStatus o in
    if bool_decide (curStatus = EXPORTING /\ is_Some (mMigrationManager o) \/ curStatus = IMPORTING /\ mMigrationManager o = None) then
      in_os (modify (set_migration None)) ;;;
      in_os (modify (fun o => set_info (updateLatestInfo None status route task (mGlobalInfo o)) o)) ;;;
      ret Status.ok
    else ret (Status.notSupported "no on-going migration").

(** [StartMigrationCallData] and [EndMigrationCallData] (object-store/network/rpc): the code of the answer.
    A migration that is refused is answered like one that is accepted. *)
Definition startMigrationCall (maxTaskID : Z) (status : ClusterStatus) (route : RouteInfo) (task : MigrationTask)
    : M (ObjectStore * E) ResponseCode :=
  let* s := triggerMigration maxTaskID status route task in
  ret (if Status.isNotLeader s then RC_NOT_LEADER else RC_OK).

Definition endMigrationCall (status : ClusterStatus) (route : RouteInfo) (task : MigrationTask) : M (ObjectStore * E) ResponseCode :=
  let* s := finishMigration status route task in
  ret (if Status.isNotLeader s then RC_NOT_LEADER else RC_OK).

End Migrating.

(** ** Starting up *)

(** The loop of [run] that waits for a status: while the node is in [INIT] a startup command is
    submitted. [statuses] is what [getCurClusterStatus] returns, iteration by iteration; the result is the
    number of startup commands. *)
Fixpoint startupLoop (maxStartupCmdRetry n : nat) (statuses : nat -> ClusterStatus) : nat :=
  match maxStartupCmdRetry with
  | O => n
  | S retry => if bool_decide (statuses n = INIT) then startupLoop retry (S n) statuses else n
  end.
