(* ===== verification/RetryClient.v ===== *)
(** * Clients that retry

    [ObjectManagerClient] and [ObjectStoreClient] (object-store/network): a call goes to the current
    node; when the node is not available or not the leader the call goes to the next one, otherwise the
    callback gets what was received. *)

From S2P Require Import Prelude Status Proto.

(** [grpc::StatusCode]: without success the response keeps its default value. *)
Inductive GrpcCode := GRPC_OK | UNAVAILABLE | GrpcOther.

#[global] Instance GrpcCode_eq_dec : EqDecision GrpcCode.
Proof. solve_decision. Defined.

(** [mStubs] is known by its size. *)
Record RetryClient := mkRetryClient { mCurRetry : Z; mCurStubIndex : Z; mStubs : nat }.

Definition new_RetryClient (stubs : nat) : RetryClient := mkRetryClient 0 0 stubs.

(** [needRetry]; the remainder by no stubs is undefined. *)
Definition needRetry (grpcCode : GrpcCode) (code : ResponseCode) : M RetryClient bool :=
  if bool_decide (grpcCode = UNAVAILABLE \/ code = RC_NOT_LEADER) then
    let* s := get in
    if bool_decide (mStubs s = O) then stop Undefined
    else
      let curRetry := u32 (mCurRetry s + 1) in
      put (mkRetryClient curRetry (curRetry mod Z.of_nat (mStubs s)) (mStubs s)) ;;;
      ret true
  else ret false.

Section Calls.
(** The responses of a call, the default one and the code in the header. *)
Context {A : Type} (none : A) (code : A -> ResponseCode).

(** What the nodes answer: by attempt and by stub. *)
Context (answer : nat -> Z -> GrpcCode * A).

Definition received (a : GrpcCode * A) : A := match a.1 with GRPC_OK => a.2 | _ => none end.

(** A call and the turns of [clientLoopMain] that serve it, up to the response its callback gets. [fuel]
    bounds the attempts. *)
Fixpoint request (fuel n : nat) : M RetryClient A :=
  match fuel with
  | O => stop WouldBlock
  | S fuel =>
      let* s := get in
      if bool_decide (mStubs s = O) then stop Undefined else
      let a := answer n (mCurStubIndex s) in
      let* again := needRetry a.1 (code (received a)) in
      if (again : bool) then request fuel (S n) else ret (received a)
  end.

(** The client goes around its stubs. *)
Definition client_ok (s : RetryClient) : Prop :=
  (0 < mStubs s)%nat /\ is_u32 (mCurRetry s) /\ mCurStubIndex s = mCurRetry s mod Z.of_nat (mStubs s).

(** A stub whose node takes the call. *)
Definition takes (i : Z) : Prop :=
  forall n, (answer n i).1 <> UNAVAILABLE /\ code (received (answer n i)) <> RC_NOT_LEADER.

Lemma needRetry_run g cd c s : client_ok s -> mCurRetry s + 1 < 2 ^ 32 ->
  needRetry g cd c s =
  if bool_decide (g = UNAVAILABLE \/ cd = RC_NOT_LEADER)
  then Done true c (mkRetryClient (mCurRetry s + 1) ((mCurStubIndex s + 1) mod Z.of_nat (mStubs s)) (mStubs s))
  else Done false c s.
Proof.
  intros (Hs & Hr & Hi) Hmax. unfold needRetry. case_bool_decide; [|done]. run. rewrite bool_decide_eq_false_2 by lia.
  rewrite u32_small by (unfold is_u32 in *; lia). rewrite Hi, Zplus_mod_idemp_l. done.
Qed.

Lemma next_stub_closer i j n : 0 < n -> (i - j) mod n <> 0 -> (i - (j + 1) mod n) mod n = (i - j) mod n - 1.
Proof.
  intros Hn Hne. pose proof (Z.mod_pos_bound (i - j) n Hn). rewrite Zminus_mod_idemp_r.
  replace (i - (j + 1)) with ((i - j) mod n - 1 + n * ((i - j) / n)) by (pose proof (Z_div_mod_eq_full (i - j) n); lia).
  rewrite Z.mul_comm, Z_mod_plus_full. apply Z.mod_small. lia.
Qed.

(** The callback gets what a node that took the call answered. *)
Definition answered (s : RetryClient) (r : A) : Prop :=
  exists n i, 0 <= i < Z.of_nat (mStubs s) /\ r = received (answer n i) /\
    (answer n i).1 <> UNAVAILABLE /\ code r <> RC_NOT_LEADER.

(** A node that takes the call is reached within one round. *)
Lemma request_reaches i : takes i -> forall fuel n c s, client_ok s -> 0 <= i < Z.of_nat (mStubs s) ->
  mCurRetry s + Z.of_nat fuel < 2 ^ 32 -> (i - mCurStubIndex s) mod Z.of_nat (mStubs s) < Z.of_nat fuel ->
  exists r s', request fuel n c s = Done r c s' /\ answered s r.
Proof.
  intros Ht. induction fuel as [|fuel IH]; intros n c s Hok Hi Hmax Hd.
  { pose proof (Z.mod_pos_bound (i - mCurStubIndex s) (Z.of_nat (mStubs s)) ltac:(lia)). lia. }
  pose proof Hok as (Hs & Hr & Hidx). cbn [request]. run. rewrite bool_decide_eq_false_2 by lia.
  pose proof (Z.mod_pos_bound (mCurRetry s) (Z.of_nat (mStubs s)) ltac:(lia)) as Hb. rewrite <- Hidx in Hb.
  rewrite needRetry_run by (done || lia). case_bool_decide as Hagain; cbn [ret].
  - pose proof (Z.mod_pos_bound (i - mCurStubIndex s) (Z.of_nat (mStubs s)) ltac:(lia)).
    destruct (decide ((i - mCurStubIndex s) mod Z.of_nat (mStubs s) = 0)) as [Hz|Hz].
    { exfalso.
      assert (mCurStubIndex s = i) as E.
      { apply Z.mod_divide in Hz as [q Hq]; [|lia]. assert (-1 < q < 1) by (clear - Hq Hb Hi; split; nia). assert (q = 0) as -> by lia. lia. }
      rewrite E in Hagain. destruct (Ht n). tauto. }
    edestruct (IH (S n) c (mkRetryClient (mCurRetry s + 1) ((mCurStubIndex s + 1) mod Z.of_nat (mStubs s)) (mStubs s)))
      as (r & s' & E & Ha); simpl; [|lia|lia|rewrite next_stub_closer; lia|by exists r, s'].
    split_and!; simpl; [lia|unfold is_u32 in *; lia|]. rewrite Hidx, Zplus_mod_idemp_l. done.
  - eexists _, _. split; [reflexivity|]. exists n, (mCurStubIndex s). split_and!; [lia|lia|done|tauto|tauto].
Qed.

(** A call that times out is not repeated: the callback gets the default response. *)
Lemma timed_out fuel n c s : (0 < mStubs s)%nat -> (answer n (mCurStubIndex s)).1 = GrpcOther -> code none <> RC_NOT_LEADER ->
  request (S fuel) n c s = Done none c s.
Proof.
  intros Hs Hg Hn. cbn [request]. run. rewrite bool_decide_eq_false_2 by lia. unfold needRetry, received. rewrite Hg.
  run. rewrite bool_decide_eq_false_2 by naive_solver. done.
Qed.
End Calls.
