(* ===== verification/Admin.v ===== *)
(** * The administration tool

    [Admin] (admin/Admin.h/.cpp) and its [main] (admin/Main.cpp): milestones and keys read from and written to a
    database, the copy of a database of an earlier release to a new one, the comparison of two databases, and
    the encryption of a log with another key. What a function reports is its result. *)

From Stdlib Require Import Ascii.
From S2P Require Import Prelude Status Proto KVStore RocksDBKVStore Command KVGenerateCommand ScanCommand OldRocksDBKVStore Shards.
From S2P Require Import RaftEventStore RetryClient.

#[local] Existing Instance wsLookupFunc.

(** ** Databases *)

Section Databases.
Context {P : ProtoCodec} {OC : OldCodec} {R : RocksDB} {SC : RocksDBScan R}.

(** [openStoreDB] and [openOldStoreDB]; the directories come from the configuration. *)
Definition openStoreDB {S} (walDir dbDir : string) : M S RocksDBKVStore := new_RocksDBKVStore walDir dbDir allWS.
Definition openOldStoreDB {S} (walDir dbDir : string) : M S RocksDBKVStore := new_RocksDBKVStore walDir dbDir allWS.

(** The functions below run on the database they have opened. *)
Definition loadMilestoneFromStoreDB : M RocksDBKVStore (option Z) :=
  let* (s, milestone) := kvLoadMilestone 0 in
  ret (if Status.isOK s then Some milestone else None).

Definition saveMilestoneToStoreDB (milestone : Z) : M RocksDBKVStore bool :=
  let* s := kvCommit milestone in
  ret (Status.isOK s).

Definition getKeyFromStoreDB (key : KeyType) : M RocksDBKVStore (option ReadOut) :=
  let* (s, out) := kvReadKV key (mkOut "" INFINITE_TTL kInvalidVersion) in
  ret (if Status.isOK s then Some out else None).

Definition getKeyFromOldStoreDB (key : KeyType) : M RocksDBKVStore (option ReadOut) :=
  let* (s, out) := OldRocksDBKVStore.readKV None key (mkOut "" INFINITE_TTL kInvalidVersion) in
  ret (if Status.isOK s then Some out else None).

(** The write stays in the batch of a store that is closed next. *)
Definition putKVToStoreDB (key : KeyType) (value : ValueType) (version : VersionType) : M RocksDBKVStore bool :=
  let* s := kvWriteKV key value version NOT_UPDATED DEFAULT_UDFMETA in
  ret (Status.isOK s).

(** *** The copy of a database *)

Abbreviation TwoStores := (RocksDBKVStore * RocksDBKVStore)%type (only parsing).

Definition in_old {A} (m : M RocksDBKVStore A) : M TwoStores A := zoom fst (fun o s => (o, s.2)) m.
Definition in_new {A} (m : M RocksDBKVStore A) : M TwoStores A := zoom snd (fun n s => (s.1, n)) m.

(** The body of the loop: [curTime + ttl] is nanoseconds plus seconds, as a time of 32 bits. *)
Definition migrateEntry (curTime : Z) (t : Scanned) : M TwoStores unit :=
  let '(key, value, ttl, version) := t in
  in_new (if bool_decide (ttl = INFINITE_TTL) then kvWriteKV key value version NOT_UPDATED DEFAULT_UDFMETA
          else kvWriteTTLKV key value version ttl (u32 (u64 (curTime + ttl))) NOT_UPDATED DEFAULT_UDFMETA) ;;;
  ret tt.

(** The inner loop; on an error it does not move on. [fuel] bounds the iterations. *)
Fixpoint migrateLoop (fuel : nat) (curTime : Z) (it : KVIterator) : M TwoStores unit :=
  match fuel with
  | O => stop WouldBlock
  | S fuel =>
      if hasValue it then
        let* x := in_old (old_iterator_get it) in
        match x with
        | inl _ => migrateLoop fuel curTime it
        | inr t => migrateEntry curTime t ;;; migrateLoop fuel curTime (next it)
        end
      else ret tt
  end.

Definition migrateWS (curTime : Z) (ws : WSName) : M TwoStores unit :=
  let* it := in_old (OldRocksDBKVStore.newIterator ws) in
  migrateLoop (S (length (it_entries it))) curTime (seekToBegin it).

Definition migrationDB (tv_nsec : Z) : M TwoStores unit :=
  let* curTime := currentTimeInNanos tv_nsec in
  forM allWS (migrateWS curTime) ;;;
  let* (s, milestone) := in_old (OldRocksDBKVStore.loadMilestone None 0) in
  assert_ (Status.isOK s) ;;;
  let* s := in_new (kvCommit milestone) in
  assert_ (Status.isOK s).

(** *** The comparison of two databases *)

(** The inner loop: the pairs of keys that are reported. *)
Fixpoint compareLoop (fuel : nat) (oldIt newIt : KVIterator) : M TwoStores (list (KeyType * KeyType)) :=
  match fuel with
  | O => stop WouldBlock
  | S fuel =>
      if (hasValue oldIt && hasValue newIt)%bool then
        let* x := in_old (iterator_get oldIt) in
        let* y := in_new (iterator_get newIt) in
        match x, y with
        | inr oldTuple, inr newTuple =>
            let* rest := compareLoop fuel (next oldIt) (next newIt) in
            ret (if bool_decide (oldTuple = newTuple) then rest else (oldTuple.1.1.1, newTuple.1.1.1) :: rest)
        | _, _ => stop AssertFail
        end
      else ret []
  end.

Definition compareWS (ws : WSName) : M TwoStores (list (KeyType * KeyType)) :=
  let* oldIt := in_old (newIterator ws) in
  let* newIt := in_new (newIterator ws) in
  compareLoop (S (length (it_entries oldIt))) (seekToBegin oldIt) (seekToBegin newIt).

Fixpoint compareAll (names : list WSName) : M TwoStores (list (KeyType * KeyType)) :=
  match names with
  | [] => ret []
  | ws :: names =>
      let* x := compareWS ws in
      let* xs := compareAll names in
      ret (x ++ xs)
  end.

Definition compareDB : M TwoStores (list (KeyType * KeyType)) := compareAll allWS.

End Databases.

(** ** Logs *)

(** [gringofts::storage::SegmentLog]. *)
Class SegmentLog (L : Type) := {
  slFirstIndex : L -> Z;
  slLastIndex : L -> Z;
  slEntry : L -> Z -> LogEntry;
  slAppend : L -> LogEntry -> L;
}.

(** [slEntries]: the entries from the first index to the last; an entry is appended at the end. *)
Class SegmentLogLaws (L : Type) `{!SegmentLog L} := {
  slEntries : L -> list LogEntry;
  slLast_law l : slLastIndex l = slFirstIndex l + Z.of_nat (length (slEntries l)) - 1;
  slEntry_law l i e : slEntries l !! i = Some e -> slEntry l (slFirstIndex l + Z.of_nat i) = e;
  slAppend_law l e : slEntries (slAppend l e) = slEntries l ++ [e];
}.

(** [decryptEntry]: [None] is the failure of the assertion. *)
Definition decryptLogEntry (C : LogCodec) (entry : LogEntry) : option LogEntry :=
  if le_noop entry then Some entry
  else if cryptoEnabled then
    payload ← decrypt (if bool_decide (le_keyVersion entry = kInvalidSecKeyVersion) then kOldestSecKeyVersion else le_keyVersion entry)
                      (le_payload entry);
    Some (mkLogEntry (le_term entry) (le_index entry) (le_noop entry) (le_keyVersion entry) payload)
  else Some entry.

(** [encryptEntry] *)
Definition encryptLogEntry (C : LogCodec) (entry : LogEntry) : LogEntry :=
  if le_noop entry then entry
  else mkLogEntry (le_term entry) (le_index entry) (le_noop entry) latestSecKeyVersion (encrypt latestSecKeyVersion (le_payload entry)).

Section Segments.
Context {L : Type} `{!SegmentLog L} (oldCrypto newCrypto : LogCodec).

(** The loop of [migrateSegments]: the log that is written. *)
Fixpoint migrateEntries (old : L) (indices : list Z) (new : L) : option L :=
  match indices with
  | [] => Some new
  | i :: indices =>
      entry ← decryptLogEntry oldCrypto (slEntry old i);
      migrateEntries old indices (slAppend new (encryptLogEntry newCrypto entry))
  end.

Definition migrateSegments (old new : L) : option L :=
  migrateEntries old (seqZ (slFirstIndex old) (slLastIndex old - slFirstIndex old + 1)) new.

End Segments.

(** ** The command line *)

Inductive Action :=
| AddCluster (config : string) (servers : list string)
| LoadMilestone (config : string)
| SaveMilestone (config : string) (milestone : Z)
| GetKeyFromOldStore (config : string) (key : KeyType)
| GetKeyFromStore (config : string) (key : KeyType)
| PutKVToStore (config : string) (key : KeyType) (value : ValueType) (version : Z)
| MigrationDB (oldConfig newConfig : string)
| CompareDB (oldConfig newConfig : string)
| MigrationSegments (oldConfig newConfig : string).

(** [std::stoull(arg)] *)
Definition number_arg {S} (arg : string) : M S Z :=
  match stoull arg with Some n => ret n | None => stop Uncaught end.

(** What [main] calls with [argv]; no action is the usage text. *)
Definition main {S} (argv : list string) : M S (option Action) :=
  match argv with
  | _ :: subCommand :: config :: args =>
      if bool_decide (subCommand = "addCluster") then
        assert_ (negb (bool_decide (args = []))) ;;; ret (Some (AddCluster config args))
      else if bool_decide (subCommand = "loadMilestoneFromStore") then
        assert_ (bool_decide (args = [])) ;;; ret (Some (LoadMilestone config))
      else if bool_decide (subCommand = "saveMilestoneToStore") then
        match args with
        | [n] => let* milestone := number_arg n in ret (Some (SaveMilestone config milestone))
        | _ => stop AssertFail
        end
      else if bool_decide (subCommand = "getKeyFromOldStore") then
        match args with [key] => ret (Some (GetKeyFromOldStore config key)) | _ => stop AssertFail end
      else if bool_decide (subCommand = "getKeyFromStore") then
        match args with [key] => ret (Some (GetKeyFromStore config key)) | _ => stop AssertFail end
      else if bool_decide (subCommand = "putKVToStore") then
        match args with
        | [key; value; n] => let* version := number_arg n in ret (Some (PutKVToStore config key value version))
        | _ => stop AssertFail
        end
      else if bool_decide (subCommand = "migrationDB") then
        match args with [newConfig] => ret (Some (MigrationDB config newConfig)) | _ => stop AssertFail end
      else if bool_decide (subCommand = "compareDB") then
        match args with [newConfig] => ret (Some (CompareDB config newConfig)) | _ => stop AssertFail end
      else if bool_decide (subCommand = "migrationSegments") then
        match args with [newConfig] => ret (Some (MigrationSegments config newConfig)) | _ => stop AssertFail end
      else ret None
  | _ => ret None
  end.

(** [addCluster]: whether the object manager has accepted the cluster. *)
Definition addCluster (answer : list string -> nat -> Z -> GrpcCode * ResponseHeader) (fuel : nat) (serverAddrs : list string)
    : M RetryClient bool :=
  let* header := request empty_header h_code (answer serverAddrs) fuel O in
  ret (bool_decide (h_code header = RC_OK)).
