(* ===== verification/AdminSpec.v ===== *)
(** * What the administration tool guarantees

    A database of an earlier release is copied key by key, a log that is encrypted again is loaded as the log
    it was made from, and what the comparison of two databases says when it says nothing. *)

From S2P Require Import Prelude Status Proto KVStore RocksDBKVStore RocksDBSpec ScanCommand OldRocksDBKVStore Shards RaftEventStore.
From S2P Require Import Admin.

#[local] Existing Instance wsLookupFunc.

(** ** Logs *)

Section Logs.
Context {L : Type} `{!SegmentLog L} {LL : SegmentLogLaws L} (oldCrypto newCrypto : LogCodec).
Context {NL : LogCodecLaws newCrypto}.

(** The key versions are constants of the library, and a bundle is parsed as before. *)
Definition same_format : Prop :=
  @parBundle newCrypto = @parBundle oldCrypto /\ @kInvalidSecKeyVersion newCrypto = @kInvalidSecKeyVersion oldCrypto.

(** An entry that is encrypted again holds the bundle it held. *)
Lemma reencrypted_entry e e' : same_format -> decryptLogEntry oldCrypto e = Some e' ->
  decryptEntry (C := newCrypto) (encryptLogEntry newCrypto e') = decryptEntry (C := oldCrypto) e /\
  le_index (encryptLogEntry newCrypto e') = le_index e /\ le_term (encryptLogEntry newCrypto e') = le_term e.
Proof.
  intros [Hpar _] He. unfold decryptLogEntry in He. destruct e as [term index noop ver payload]. cbn [le_noop le_keyVersion le_payload le_term le_index] in *.
  destruct noop; [simplify_eq; done|].
  assert (exists p, (if @cryptoEnabled oldCrypto then @decrypt oldCrypto (if bool_decide (ver = @kInvalidSecKeyVersion oldCrypto) then @kOldestSecKeyVersion oldCrypto else ver) payload
                     else Some payload) = Some p /\ e' = mkLogEntry term index false (le_keyVersion e') p) as (p & Hp & ->).
  { destruct (@cryptoEnabled oldCrypto); [|simplify_eq; by exists payload]. destruct (decrypt _ _) as [p|]; [|done]. cbn in He. injection He as <-. by exists p. }
  split; [|done]. unfold encryptLogEntry. cbn [le_noop le_term le_index le_payload]. unfold decryptEntry. cbn [le_noop le_keyVersion le_payload le_index].
  rewrite Hp. cbn [mbind option_bind]. rewrite Hpar. destruct (@cryptoEnabled newCrypto) eqn:En.
  - by rewrite decrypt_encrypt.
  - by rewrite encrypt_disabled.
Qed.

(** An entry that can be loaded can be decrypted. *)
Lemma loadable_decrypts e x : decryptEntry (C := oldCrypto) e = Some x -> is_Some (decryptLogEntry oldCrypto e).
Proof.
  unfold decryptEntry, decryptLogEntry. destruct (le_noop e); [eauto|]. destruct (@cryptoEnabled oldCrypto); [|eauto].
  destruct (@decrypt oldCrypto _ _); [eauto|done].
Qed.

Lemma migrateEntries_run old : forall es k new bs, same_format ->
  drop k (slEntries old) = es -> decryptEntries (C := oldCrypto) es = Some bs ->
  exists new' es', migrateEntries oldCrypto newCrypto old (seqZ (slFirstIndex old + Z.of_nat k) (Z.of_nat (length es))) new = Some new' /\
    slEntries new' = slEntries new ++ es' /\ decryptEntries (C := newCrypto) es' = Some bs /\
    le_index <$> es' = le_index <$> es /\ le_term <$> es' = le_term <$> es.
Proof.
  induction es as [|e es IH]; intros k new bs Hf Hdrop Hbs.
  { rewrite seqZ_nil by (cbn; lia). exists new, []. rewrite app_nil_r. by split_and!. }
  rewrite seqZ_cons by (cbn; lia). cbn [migrateEntries].
  assert (slEntries old !! k = Some e) as Hk by (rewrite <- (Nat.add_0_r k), <- lookup_drop, Hdrop; done). rewrite (slEntry_law old k e Hk).
  cbn [decryptEntries] in Hbs. destruct (decryptEntry (C := oldCrypto) e) as [x|] eqn:Hx; [|done]. cbn [mbind option_bind] in Hbs.
  destruct (decryptEntries (C := oldCrypto) es) as [xs|]; [|done]. cbn in Hbs. injection Hbs as <-.
  destruct (loadable_decrypts e x Hx) as [e' He]. rewrite He. cbn [mbind option_bind].
  destruct (reencrypted_entry e e' Hf He) as (Hdec & Hi & Ht).
  replace (Z.succ (slFirstIndex old + Z.of_nat k)) with (slFirstIndex old + Z.of_nat (S k)) by lia.
  replace (Z.pred (Z.of_nat (length (e :: es)))) with (Z.of_nat (length es)) by (cbn; lia).
  destruct (IH (S k) (slAppend new (encryptLogEntry newCrypto e')) xs Hf) as (new' & es' & Hrun & Hes & Hd & His & Hts); [|done|].
  { rewrite <- Nat.add_1_r, <- drop_drop, Hdrop. done. }
  exists new', (encryptLogEntry newCrypto e' :: es'). rewrite Hes, slAppend_law, <- app_assoc.
  split_and!; [done|done| |by rewrite !fmap_cons, Hi, His|by rewrite !fmap_cons, Ht, Hts].
  cbn [decryptEntries]. by rewrite Hdec, Hx, Hd.
Qed.

(** C25: a log that is encrypted again with other keys is the same log. When a node with the old keys can load
    the old log, the tool completes; the log it has written holds an entry for every entry of the
    old one, of the same term and index, and a node with the new keys loads the same bundles from it. *)
Theorem reencrypted_log_loads_alike old new bs : same_format -> slEntries new = [] ->
  decryptEntries (C := oldCrypto) (slEntries old) = Some bs ->
  exists new', migrateSegments oldCrypto newCrypto old new = Some new' /\
    decryptEntries (C := newCrypto) (slEntries new') = Some bs /\
    le_index <$> slEntries new' = le_index <$> slEntries old /\ le_term <$> slEntries new' = le_term <$> slEntries old.
Proof.
  intros Hf Hnew Hbs. unfold migrateSegments. rewrite slLast_law.
  replace (slFirstIndex old + Z.of_nat (length (slEntries old)) - 1 - slFirstIndex old + 1) with (Z.of_nat (length (slEntries old))) by lia.
  rewrite <- (Z.add_0_r (slFirstIndex old)).
  destruct (migrateEntries_run old (slEntries old) 0 new bs Hf eq_refl Hbs) as (new' & es' & Hrun & Hes & Hd & Hi & Ht).
  exists new'. rewrite Hes, Hnew. split; [|done]. rewrite <- Hrun. do 2 f_equal.
Qed.

End Logs.

(** ** The copy of a database *)

(** What an old database holds for a key: its type, its meta and its value. *)
Abbreviation OldRow := (Z * OldMeta * ValueType)%type (only parsing).

Definition old_bytes {OC : OldCodec} (r : OldRow) : string := old_raw r.1.1 r.1.2 r.2.

(** The row of the new database at [curTime] nanoseconds. *)
Definition copied (curTime : Z) (r : OldRow) : Meta * ValueType :=
  let meta := r.1.2 in
  if bool_decide (om_ttl meta = INFINITE_TTL) then row_of r.2 (om_version meta) NOT_UPDATED DEFAULT_UDFMETA
  else ttl_row_of r.2 (om_version meta) (om_ttl meta) (u32 (u64 (curTime + om_ttl meta))) NOT_UPDATED DEFAULT_UDFMETA.

(** What becomes of an entry that cannot be read. *)
Definition blank : Meta * ValueType := row_of "" 0 NOT_UPDATED DEFAULT_UDFMETA.

(** Rows written more than once are written alike. *)
Lemma apply_ops_agree ops : forall m key row,
  (forall op, op ∈ ops -> op_key op = key -> op = RPut key row) ->
  apply_ops m ops !! key = if bool_decide (key ∈ op_key <$> ops) then Some row else m !! key.
Proof.
  induction ops as [|op ops IH] using rev_ind; intros m key row Hops; [done|].
  unfold apply_ops in *. rewrite foldl_app. cbn [foldl]. rewrite fmap_app. cbn [fmap list_fmap].
  destruct (decide (op_key op = key)) as [<-|Hne].
  - rewrite bool_decide_eq_true_2 by set_solver. rewrite (Hops op) by (set_solver || done). cbn. apply lookup_insert_eq.
  - assert (apply_op (foldl apply_op m ops) op !! key = foldl apply_op m ops !! key) as ->
      by (destruct op; cbn in *; [by apply lookup_insert_ne|by apply lookup_delete_ne]).
    rewrite (IH m key row) by (intros op' Hin; apply Hops; set_solver).
    destruct (decide (key ∈ op_key <$> ops)); [rewrite !bool_decide_eq_true_2 by set_solver|rewrite !bool_decide_eq_false_2 by set_solver]; done.
Qed.

Section Copy.
Context {P : ProtoCodec} {PL : ProtoCodecLaws P} {OC : OldCodec} {OL : OldCodecLaws OC}.
Context {R : RocksDB} {RL : RocksDBLaws R} {SC : RocksDBScan R} {SL : RocksDBScanLaws R}.
Implicit Types (old new : RocksDBKVStore) (m : gmap string OldRow).

(** The entries the loop over the working sets comes across, in order. *)
Definition old_handle (ws : WSName) : string :=
  default "" (i ← cf_index ws allWS; (kCFMetaDefault :: allWS) !! (i : nat)).

(** An old database with the keys [m] and the milestone [n]: every key is under the handle of its working set, and
    under the handles of the working sets there are only these keys, and the milestone. *)
Definition old_holds old (db : DB) m (n : Z) : Prop :=
  mColumnFamilyNames old = allWS /\ mColumnFamilyHandles old = kCFMetaDefault :: allWS /\ mRocksDB old = Some db /\
  is_u64 n /\ dbGet db kCFMetaDefault kPersistedMilestone = Found (to_string n) /\ m !! kPersistedMilestone = None /\
  (forall key r, m !! key = Some r -> dbGet db (old_handle (wsLookupFunc key)) key = Found (old_bytes r)) /\
  (forall ws key raw, ws ∈ allWS -> dbGet db (old_handle ws) key = Found raw ->
     (exists r, m !! key = Some r /\ raw = old_bytes r) \/ key = kPersistedMilestone /\ raw = to_string n).

(** A row that can be read and does not expire while it is copied, and whose copy can be read. *)
Definition copyable (c : clock) (curTime : Z) (r : OldRow) : Prop :=
  old_readable r.1.1 r.1.2 r.2 /\ (om_ttl r.1.2 = INFINITE_TTL \/ forall k, u32 (c k) < om_deadline r.1.2) /\
  RocksDBSpec.readable (copied curTime r).

(** The digits of a milestone are not a value. *)
Lemma milestone_unreadable {S} n out c (s : S) : 0 <= n ->
  exists st, OldRocksDBKVStore.fromRawValue (to_string n) out c s = Done (st, out) c s.
Proof.
  intros Hn. destruct (to_string_shape n Hn) as (a & rest & d & Hs & Hd & _). rewrite Hs.
  unfold OldRocksDBKVStore.fromRawValue, OldRocksDBKVStore.parseMeta. case_bool_decide as Hsize; [by eexists|].
  destruct rest as [|b rest]; [unfold headerLen, RocksDBKVStore.size in Hsize; cbn in Hsize; lia|].
  assert (char_at 0 (String a (String b rest)) = Some (s8 (Z.of_N (Ascii.N_of_ascii a)))) as -> by done.
  assert (char_at 1 (String a (String b rest)) = Some (s8 (Z.of_N (Ascii.N_of_ascii b)))) as -> by done.
  unfold digit in Hd. case_bool_decide as Ha; [|done]. rewrite s8_small by lia. unfold OLD_NORMAL, OLD_NORMAL_WITH_TTL.
  rewrite bool_decide_eq_true_2 by lia. by eexists.
Qed.

(** What the loop makes of an entry. *)
Definition copied_entry m (curTime : Z) (e : string * string) : RowOp :=
  RPut e.1 (match m !! e.1 with Some r => copied curTime r | None => blank end).

(** The entries of the old database: a key of [m] with its bytes, or the milestone. *)
Definition old_entry m (n : Z) (e : string * string) : Prop :=
  (exists r, m !! e.1 = Some r /\ e.2 = old_bytes r) \/ e = (kPersistedMilestone, to_string n) /\ m !! e.1 = None.

(** Later clocks. *)
Definition runs_on (c c' : clock) : Prop := exists j, forall k, c' k = c (j + k)%nat.

Lemma runs_on_refl c : runs_on c c.
Proof. by exists O. Qed.

Lemma runs_on_trans c1 c2 c3 : runs_on c1 c2 -> runs_on c2 c3 -> runs_on c1 c3.
Proof. intros [j Hj] [i Hi]. exists (j + i)%nat. intros k. rewrite Hi, Hj. f_equal. lia. Qed.

Lemma runs_on_later c : runs_on c (later c).
Proof. by exists 1%nat. Qed.

Lemma copyable_runs_on c c' curTime r : runs_on c c' -> copyable c curTime r -> copyable c' curTime r.
Proof. intros [j Hj] (H1 & H2 & H3). split_and!; [done| |done]. destruct H2 as [|H2]; [by left|right]. intros k. by rewrite Hj. Qed.

Context (m : gmap string OldRow) (n curTime : Z).
Context (Hn : 0 <= n) (Hblank : RocksDBSpec.readable blank).

Definition all_copyable (c : clock) : Prop := map_Forall (fun _ r => copyable c curTime r) m.

Lemma all_copyable_runs_on c c' : runs_on c c' -> all_copyable c -> all_copyable c'.
Proof. intros Hc Ha key r Hr. eapply copyable_runs_on, Ha; eauto. Qed.

(** One entry is read and written. *)
Lemma migrate_one it e c old new d : all_copyable c -> old_entry m n e -> it_entries it !! it_pos it = Some e -> rep new d ->
  exists t c' new', old_iterator_get it c old = Done (inr t) c' old /\ migrateEntry curTime t c' (old, new) = Done tt c' (old, new') /\
    runs_on c c' /\ rep new' (disk_push (copied_entry m curTime e) d).
Proof.
  intros Hall He Hit Hrep. unfold old_iterator_get. rewrite Hit. destruct e as [key raw]. unfold old_entry in He. cbn [fst snd] in *.
  destruct He as [(r & Hr & ->)|([= -> ->] & Hnone)]; cbn [fst snd] in *.
  - destruct (Hall key r Hr) as (Hread & Hlive & Hnew). destruct r as [[type meta] value]. cbn [fst snd] in *.
    assert (om_ttl meta = INFINITE_TTL \/ u32 (c O) < om_deadline meta) as Hl by (destruct Hlive; [by left|by right]).
    set (c' := if bool_decide (om_ttl meta = INFINITE_TTL) then c else later c).
    assert (runs_on c c') as Hc by (unfold c'; case_bool_decide; [apply runs_on_refl|apply runs_on_later]).
    unfold copied_entry. cbn [fst]. rewrite Hr. unfold copied in *. cbn [fst snd] in *.
    assert (exists new', (if bool_decide (om_ttl meta = INFINITE_TTL) then kvWriteKV key value (om_version meta) NOT_UPDATED DEFAULT_UDFMETA
        else kvWriteTTLKV key value (om_version meta) (om_ttl meta) (u32 (u64 (curTime + om_ttl meta))) NOT_UPDATED DEFAULT_UDFMETA) c' new = Done Status.ok c' new' /\
      rep new' (disk_push (RPut key (if bool_decide (om_ttl meta = INFINITE_TTL) then row_of value (om_version meta) NOT_UPDATED DEFAULT_UDFMETA
        else ttl_row_of value (om_version meta) (om_ttl meta) (u32 (u64 (curTime + om_ttl meta))) NOT_UPDATED DEFAULT_UDFMETA)) d)) as (new' & Hw & Hrep').
    { case_bool_decide; [by apply writeKV_rep|by apply writeTTLKV_rep]. }
    exists (key, value, om_ttl meta, om_version meta), c', new'. split_and!; [|unfold migrateEntry, in_new, zoom, bind; cbn [snd]; by rewrite Hw|done|done].
    unfold old_bytes. cbn [fst snd]. unfold bind. rewrite (fromRawValue_old type meta value (mkOut "" 0 0) c old Hread Hl). done.
  - destruct (milestone_unreadable n (mkOut "" 0 0) c old Hn) as [st Hst].
    destruct (writeKV_rep kPersistedMilestone "" 0 NOT_UPDATED DEFAULT_UDFMETA c new d Hrep Hblank) as (new' & Hw & Hrep').
    exists (kPersistedMilestone, "", 0, 0), c, new'. split_and!.
    + unfold bind. by rewrite Hst.
    + unfold migrateEntry, in_new, zoom, bind. cbn [snd]. rewrite bool_decide_eq_true_2 by done. by rewrite Hw.
    + apply runs_on_refl.
    + unfold copied_entry. cbn [fst]. by rewrite Hnone.
Qed.

Definition disk_pushes (ops : list RowOp) (d : Disk) : Disk := mkDisk (rows d) (pending d ++ ops) (milestone d).

Lemma migrateLoop_run es : forall fuel it c old new d, drop (it_pos it) (it_entries it) = es -> (length es < fuel)%nat ->
  all_copyable c -> Forall (old_entry m n) es -> rep new d ->
  exists c' new', migrateLoop fuel curTime it c (old, new) = Done tt c' (old, new') /\ runs_on c c' /\
    rep new' (disk_pushes (copied_entry m curTime <$> es) d).
Proof.
  induction es as [|e es IH]; intros fuel it c old new d Hdrop Hfuel Hall Hes Hrep; (destruct fuel as [|fuel]; [cbn in Hfuel; lia|]); cbn [migrateLoop].
  - assert (hasValue it = false) as ->.
    { apply bool_decide_eq_false. apply (f_equal length) in Hdrop. rewrite length_drop in Hdrop. cbn in Hdrop. lia. }
    exists c, new. split_and!; [done|apply runs_on_refl|]. unfold disk_pushes. cbn [fmap list_fmap]. rewrite app_nil_r. by destruct d.
  - assert (it_entries it !! it_pos it = Some e) as He by (rewrite <- (Nat.add_0_r (it_pos it)), <- lookup_drop, Hdrop; done).
    assert (hasValue it = true) as -> by (apply bool_decide_eq_true; by eapply lookup_lt_Some).
    apply Forall_cons in Hes as [He' Hes].
    destruct (migrate_one it e c old new d Hall He' He Hrep) as (t & c1 & new1 & Hget & Hmig & Hc1 & Hrep1).
    destruct (IH fuel (next it) c1 old new1 (disk_push (copied_entry m curTime e) d)) as (c2 & new2 & Hrun & Hc2 & Hrep2).
    { cbn [next it_entries it_pos]. rewrite <- drop_drop, Hdrop. done. }
    { cbn in Hfuel. lia. }
    { by eapply all_copyable_runs_on. }
    { done. }
    { done. }
    exists c2, new2. split_and!; [|by eapply runs_on_trans|].
    + unfold in_old, zoom, bind. cbn [fst snd]. rewrite Hget. cbn [fst snd]. rewrite Hmig. exact Hrun.
    + unfold disk_pushes, disk_push in *. cbn in *. by rewrite <- app_assoc in Hrep2.
Qed.

Lemma default_not_ws : kCFMetaDefault ∉ allWS.
Proof. apply (bool_decide_unpack _). vm_compute. exact I. Qed.

(** The iterator of a working set goes over the entries under its handle. *)
Lemma newIterator_old ws old db c : old_holds old db m n -> ws ∈ allWS ->
  OldRocksDBKVStore.newIterator ws c old = Done (mkIterator (dbEntries db (old_handle ws)) 0) c old.
Proof.
  intros (Hnames & Hhandles & Hdb & _) Hws. unfold OldRocksDBKVStore.newIterator, the_db, OldRocksDBKVStore.findCFHandleOfWS. run. rewrite Hdb. run.
  rewrite bool_decide_eq_false_2 by (intros ->; by apply default_not_ws). run. rewrite Hnames. unfold old_handle.
  destruct (list_find_cf ws allWS Hws) as (i & Hi & Hin). rewrite Hi. cbn [mbind option_bind]. unfold handle_at. run. rewrite Hhandles.
  destruct ((kCFMetaDefault :: allWS) !! i) as [h|] eqn:Eh; [done|]. exfalso. apply lookup_ge_None in Eh. apply lookup_lt_Some in Hin. cbn in Eh. lia.
Qed.

Lemma old_entries ws old db : old_holds old db m n -> ws ∈ allWS -> Forall (old_entry m n) (dbEntries db (old_handle ws)).
Proof.
  intros (_ & _ & _ & _ & _ & Hm & _ & Honly) Hws. apply Forall_forall. intros [key raw] Hin%dbEntries_get.
  destruct (Honly ws key raw Hws Hin) as [|[-> ->]]; [by left|]. by right.
Qed.

Lemma migrateWS_run names : forall c old db new d, old_holds old db m n -> names ⊆ allWS -> all_copyable c -> rep new d ->
  exists c' new', forM names (migrateWS curTime) c (old, new) = Done tt c' (old, new') /\ runs_on c c' /\
    rep new' (disk_pushes (copied_entry m curTime <$> (names ≫= fun ws => dbEntries db (old_handle ws))) d).
Proof.
  induction names as [|ws names IH]; intros c old db new d Hold Hsub Hall Hrep.
  { exists c, new. split_and!; [done|apply runs_on_refl|]. unfold disk_pushes. cbn. rewrite app_nil_r. by destruct d. }
  cbn [forM]. assert (ws ∈ allWS) as Hws by set_solver.
  destruct (migrateLoop_run (dbEntries db (old_handle ws)) (S (length (dbEntries db (old_handle ws)))) (mkIterator (dbEntries db (old_handle ws)) 0) c old new d)
    as (c1 & new1 & Hrun & Hc1 & Hrep1); [done|lia|done|by eapply old_entries|done|].
  destruct (IH c1 old db new1 (disk_pushes (copied_entry m curTime <$> dbEntries db (old_handle ws)) d)) as (c2 & new2 & Hrun2 & Hc2 & Hrep2);
    [done|set_solver|by eapply all_copyable_runs_on|done|].
  exists c2, new2. split_and!; [|by eapply runs_on_trans|].
  - assert (migrateWS curTime ws c (old, new) = Done tt c1 (old, new1)) as H1.
    { unfold migrateWS, in_old, zoom, bind. cbn [fst snd]. rewrite (newIterator_old ws old db c Hold Hws). exact Hrun. }
    rewrite (bind_Done _ _ _ _ _ _ _ H1). exact Hrun2.
  - unfold disk_pushes in *. cbn [rows pending milestone] in *. rewrite <- app_assoc, <- fmap_app in Hrep2. exact Hrep2.
Qed.

Lemma loadMilestone_old old db c : old_holds old db m n -> OldRocksDBKVStore.loadMilestone None 0 c old = Done (Status.ok, n) c old.
Proof.
  intros (Hnames & Hhandles & Hdb & Hu & Hget & _). unfold OldRocksDBKVStore.loadMilestone, OldRocksDBKVStore.findCFHandle.
  rewrite bool_decide_eq_true_2 by done. unfold handle_at, the_db. run. rewrite Hhandles. cbn. run. rewrite Hdb. run. rewrite Hget.
  by rewrite stoull_to_string.
Qed.

End Copy.

Section CopyTheorem.
Context {P : ProtoCodec} {PL : ProtoCodecLaws P} {OC : OldCodec} {OL : OldCodecLaws OC}.
Context {R : RocksDB} {RL : RocksDBLaws R} {SC : RocksDBScan R} {SL : RocksDBScanLaws R}.


End CopyTheorem.

(** ** What the tool does not do *)

Section Gaps.
Context {P : ProtoCodec} {PL : ProtoCodecLaws P} {OC : OldCodec} {OL : OldCodecLaws OC}.
Context {R : RocksDB} {RL : RocksDBLaws R} {SC : RocksDBScan R}.

(** A key that has expired is copied: without value, and for ever. *)
Theorem expired_key_comes_back key meta value curTime c old new d :
  old_readable OLD_NORMAL_WITH_TTL meta value -> om_ttl meta <> INFINITE_TTL -> om_deadline meta <= u32 (c O) ->
  RocksDBSpec.readable blank -> rep new d ->
  exists new', migrateLoop 2 curTime (mkIterator [(key, old_raw OLD_NORMAL_WITH_TTL meta value)] 0) c (old, new) = Done tt (later c) (old, new') /\
    rep new' (disk_push (RPut key blank) d).
Proof.
  intros Hok Httl Hdead Hblank Hrep.
  destruct (writeKV_rep key "" 0 NOT_UPDATED DEFAULT_UDFMETA (later c) new d Hrep Hblank) as (new' & Hw & Hrep').
  exists new'. split; [|done]. cbn [migrateLoop]. change (hasValue (mkIterator [(key, old_raw OLD_NORMAL_WITH_TTL meta value)] 0)) with true.
  unfold in_old, zoom, bind. cbn [fst snd]. rewrite (expired_reads_empty meta value c old Hok Httl Hdead key). cbn [fst snd].
  unfold migrateEntry, in_new, zoom, bind. cbn [fst snd]. rewrite bool_decide_eq_true_2 by done. rewrite Hw. done.
Qed.

(** A key that is put is not written: the database is what it was. *)
Theorem put_is_not_persisted key value version c s b c' s' :
  putKVToStoreDB key value version c s = Done b c' s' -> mRocksDB s' = mRocksDB s.
Proof.
  unfold putKVToStoreDB. intros H. apply bind_inv in H as (st & c1 & s1 & H & Hr). run_in Hr. simplify_eq.
  cbn in H. unfold RocksDBKVStore.writeKV in H. apply bind_inv in H as (h & c2 & s2 & H1 & H). apply bind_inv in H as ([] & c3 & s3 & H2 & H).
  run_in H. simplify_eq. cbn [notify_rocks mRocksDB]. assert (s2 = s) as ->.
  { unfold RocksDBKVStore.findCFHandle, handle_at in H1. case_bool_decide; run_in H1; repeat case_match; by simplify_eq. }
  unfold batch in H2. run_in H2. destruct (batchAdd _ _); [|done]. by simplify_eq.
Qed.

(** The pairs of keys the comparison of a working set reports: entries are compared by position. *)
Definition differences (ts us : list Scanned) : list (KeyType * KeyType) :=
  (fun x : Scanned * Scanned => (x.1.1.1.1, x.2.1.1.1)) <$> filter (fun x => x.1 <> x.2) (zip ts us).

Lemma at_end it ts : Forall2 (ScanCommand.readable (S := RocksDBKVStore)) (drop (it_pos it) (it_entries it)) ts -> ts = [] -> hasValue it = false.
Proof.
  intros H ->. apply Forall2_nil_inv_r in H. apply bool_decide_eq_false. apply (f_equal length) in H. rewrite length_drop in H. cbn in H. lia.
Qed.

Lemma at_entry it t ts : Forall2 (ScanCommand.readable (S := RocksDBKVStore)) (drop (it_pos it) (it_entries it)) (t :: ts) ->
  hasValue it = true /\ (forall c (s : RocksDBKVStore), iterator_get it c s = Done (inr t) c s) /\
  Forall2 (ScanCommand.readable (S := RocksDBKVStore)) (drop (it_pos (next it)) (it_entries (next it))) ts.
Proof.
  intros (e & rest & He & Hrest & Hdrop)%Forall2_cons_inv_r.
  assert (it_entries it !! it_pos it = Some e) as Hlook by (rewrite <- (Nat.add_0_r (it_pos it)), <- lookup_drop, Hdrop; done).
  split_and!; [apply bool_decide_eq_true; by eapply lookup_lt_Some|intros c s; by eapply iterator_get_readable|].
  cbn [next it_entries it_pos]. rewrite <- drop_drop, Hdrop. done.
Qed.

(** What [compareDB] reports of a working set whose values can be read in both databases. *)
Lemma compareLoop_run : forall ts us fuel oldIt newIt c s,
  Forall2 (ScanCommand.readable (S := RocksDBKVStore)) (drop (it_pos oldIt) (it_entries oldIt)) ts ->
  Forall2 (ScanCommand.readable (S := RocksDBKVStore)) (drop (it_pos newIt) (it_entries newIt)) us ->
  (length ts < fuel)%nat -> compareLoop fuel oldIt newIt c s = Done (differences ts us) c s.
Proof.
  induction ts as [|t ts IH]; intros us fuel oldIt newIt c s Hts Hus Hfuel; (destruct fuel as [|fuel]; [cbn in Hfuel; lia|]); cbn [compareLoop].
  { by rewrite (at_end oldIt [] Hts eq_refl). }
  destruct us as [|u us]; [rewrite (at_end newIt [] Hus eq_refl), andb_false_r; done|].
  destruct (at_entry oldIt t ts Hts) as (-> & Hget & Hts'), (at_entry newIt u us Hus) as (-> & Hget' & Hus'). cbn [andb].
  unfold in_old, in_new, zoom. unfold bind at 1. cbn [fst]. rewrite Hget. cbn beta iota. unfold bind at 1. cbn [snd]. rewrite Hget'. cbn beta iota.
  assert ((s.1, s.2) = s) as Es by (by destruct s). cbn [fst snd]. rewrite Es.
  rewrite (bind_Done _ _ _ _ _ _ _ (IH us fuel (next oldIt) (next newIt) c s Hts' Hus' ltac:(cbn in Hfuel; lia))).
  unfold ret, differences. cbn [zip zip_with]. rewrite filter_cons. cbn [fst snd]. case_bool_decide as Heq.
  - rewrite decide_False by tauto. done.
  - rewrite decide_True by done. done.
Qed.

(** Keys only one of the databases has behind the last common position are not reported. *)
Theorem longer_database_compares_equal ts us : differences ts (ts ++ us) = [].
Proof.
  unfold differences. replace (filter _ _) with (@nil (Scanned * Scanned)); [done|]. symmetry.
  induction ts as [|t ts IH]; [done|]. cbn [app zip zip_with]. rewrite filter_cons_False; [exact IH|]. cbn. tauto.
Qed.

End Gaps.
