(* ===== verification/ObjectStoreSpec.v ===== *)
(** * What the check before a command guarantees

    A node only runs the commands a route has given it: what [preExecuteCallBack] accepts
    (ObjectStore.v), over every history of routes the node has received, and what that means for
    the commands the processor replicates. *)

From S2P Require Import Prelude Utils OrderedMap Status Proto KVStore Event Command CommandProcessor ProcessorSpec ControlProto.
From S2P Require Import EngineContract Shards ScanCommand MigrationManager ObjectStore.

(** ** Shards of a cluster *)

Definition scope (m : OMap string (gset Z)) (cluster : ClusterAddressFormat) : gset Z := default ∅ (omap_find cluster m).

Lemma insert_shards_scope b shards : forall (m : OMap string (gset Z)) a s,
  s ∈ scope (fold_left (insert_shard b) shards m) a <-> s ∈ scope m a \/ (a = b /\ s ∈ shards).
Proof.
  induction shards as [|x shards IH]; intros m a s; cbn [fold_left]; [set_solver|].
  rewrite IH. assert (s ∈ scope (insert_shard b m x) a <-> s ∈ scope m a \/ (a = b /\ s = x)) as ->; [|set_solver].
  unfold scope, insert_shard. destruct (decide (a = b)) as [->|Hne].
  - rewrite omap_find_put_eq. cbn. set_solver.
  - rewrite omap_find_put_ne by done. naive_solver.
Qed.

(** A placement puts a shard on a cluster. *)
Definition places (route : RouteInfo) (cluster : ClusterAddressFormat) (s : Z) : Prop :=
  exists shards addr, (shards, addr) ∈ ri_placementMap route /\ clusterToAddressFormat addr = cluster /\ s ∈ shards.

Lemma updateShardMap_scope h a s :
  s ∈ scope (mCluster2ShardIds (updateShardMap h)) a <-> s ∈ scope (mCluster2ShardIds h) a \/ places (mRouteInfo h) a s.
Proof.
  destruct h as [route m]. unfold updateShardMap, places. cbn [mRouteInfo mCluster2ShardIds]. revert m.
  induction (ri_placementMap route) as [|[shards addr] l IH]; intros m; cbn [fold_left].
  { split; [by left|]. intros [H|(? & ? & H & _)]; [done|by apply elem_of_nil in H]. }
  rewrite IH, insert_shards_scope. cbn [fst snd]. split.
  - intros [[H|[-> H]]|(sh & ad & Hin & H)]; [by left|right; exists shards, addr; split_and!; [by left|done|done]|].
    right. exists sh, ad. split; [by right|done].
  - intros [H|(sh & ad & [[= -> ->]|Hin]%elem_of_cons & <- & H)]; [by left; left|by left; right|].
    right. exists sh, ad. done.
Qed.

(** ** Histories *)

(** The routes a node has received, the last one first. *)
Inductive history : ObjectStore -> list RouteInfo -> Prop :=
| H_new : history new_ObjectStore []
| H_update addr status route task o rs :
    history o rs -> history (set_info (updateLatestInfo addr status route task (mGlobalInfo o)) o) (route :: rs)
| H_route route o rs :
    history o rs -> history (mkObjectStore (updateLatestRouteInfo route (mGlobalInfo o)) (mMigrationManager o) false (sent o)) (route :: rs)
| H_other o o' rs : history o rs -> mGlobalInfo o' = mGlobalInfo o -> history o' rs.

(** What a node knows comes from those routes, and the copy commands look at is up to date. *)
Lemma history_info o rs :
  history o rs ->
  cached (mGlobalInfo o) = latest (mGlobalInfo o) /\
  ri_version (mRouteInfo (mRouteInfoHelper (latest (mGlobalInfo o)))) = default 0 (ri_version <$> head rs) /\
  forall a s, s ∈ scope (mCluster2ShardIds (mRouteInfoHelper (latest (mGlobalInfo o)))) a <-> exists route, route ∈ rs /\ places route a s.
Proof.
  assert (forall route rs m a s, (forall a s, s ∈ scope m a <-> exists route, route ∈ rs /\ places route a s) ->
    s ∈ scope (mCluster2ShardIds (updateRouteInfo route (mkRouteHelper empty_route m))) a <->
    exists route', route' ∈ route :: rs /\ places route' a s) as Hadd.
  { intros route rs' m a s H. unfold updateRouteInfo. rewrite updateShardMap_scope. cbn [mCluster2ShardIds mRouteInfo]. rewrite H. set_solver. }
  induction 1 as [|addr status route task o rs _ (Hc & Hv & Hs)|route o rs _ (Hc & Hv & Hs)|o o' rs _ IH ->]; [| | |done].
  - split_and!; [done|done|]. intros a s. unfold scope. cbn. split; [set_solver|]. intros (r & Hr & _). by apply elem_of_nil in Hr.
  - cbn. rewrite Hc. split_and!; [done|done|]. intros a s. by apply Hadd.
  - cbn. rewrite Hc. split_and!; [done|done|]. intros a s. by apply Hadd.
Qed.

(** ** Every operation is part of a history *)

Lemma reportStartup_inv answers cluster : forall fuel n c o u c' o',
  reportStartup fuel n answers cluster c o = Done u c' o' ->
  exists k, su_code (answers cluster k) = RC_OK /\
    o' = set_info (updateLatestInfo (Some cluster) (su_status (answers cluster k)) (su_route (answers cluster k))
                     (su_task (answers cluster k)) (mGlobalInfo o)) o.
Proof.
  induction fuel as [|fuel IH]; intros n c o u c' o' H; [done|]. cbn [reportStartup] in H. case_bool_decide as Hc; [eauto|].
  exists n. run_in H. simplify_eq. split; [|done]. by destruct (decide (su_code (answers cluster n) = RC_OK)).
Qed.

Lemma parseMembers_state {S} l : forall c (s : S) x c' s', parseMembers l c s = Done x c' s' -> s' = s.
Proof.
  induction l as [|m l IH]; intros c s x c' s' H; cbn [parseMembers] in H; [by run_in H; simplify_eq|].
  destruct (tokenize m _) as [|ip [|port [|]]]; try done. destruct (stoi port); [|done].
  apply bind_inv in H as (r & c1 & s1 & H1 & H). apply IH in H1 as ->. by run_in H; simplify_eq.
Qed.

Lemma becomeLeader_history ip self answers fuel members c o st c' o' rs :
  becomeLeaderCallBack ip self answers fuel members c o = Done st c' o' -> history o rs ->
  exists cluster k, su_code (answers cluster k) = RC_OK /\ history o' (su_route (answers cluster k) :: rs).
Proof.
  unfold becomeLeaderCallBack. intros H Hh. destruct (tokenize ip _) as [|x [|port [|]]]; try done.
  apply bind_inv in H as ([] & c1 & o1 & H1 & H). apply assert_inv in H1 as (_ & -> & ->).
  destruct (stoi port); [|done]. apply bind_inv in H as (cluster & c2 & o2 & H2 & H).
  assert (o2 = o) as ->.
  { unfold raftMembersToClusterAddress in H2. apply bind_inv in H2 as ([] & c3 & o3 & H3 & H2). apply assert_inv in H3 as (_ & -> & ->). apply bind_inv in H2 as (l & c4 & o4 & H4 & H2). apply parseMembers_state in H4 as ->.
    repeat case_match; try done; by run_in H2; simplify_eq. }
  apply bind_inv in H as ([] & c3 & o3 & H3 & H). run_in H. simplify_eq. apply reportStartup_inv in H3 as (k & Hk & ->).
  exists cluster, k. split; [done|]. by constructor.
Qed.

Section Managing.
Context {E : Type} `{!EngineOps E}.

Lemma leadership_state c o (e : E) code c' o' e' : leadership c (o, e) = Done code c' (o', e') -> o' = o.
Proof.
  unfold leadership. intros H. apply bind_inv in H as (resp & c1 & [o1 e1] & H1 & H). run_in H. simplify_eq.
  unfold in_eng, zoom in H1. case_match; by simplify_eq.
Qed.

(** A migration adds the route it comes with, or changes nothing. *)
Lemma trigger_history k status route task c o (e : E) st c' o' e' rs :
  triggerMigration k status route task c (o, e) = Done st c' (o', e') -> history o rs ->
  history o' (if Status.isOK st then route :: rs else rs).
Proof.
  unfold triggerMigration. intros H Hh. apply bind_inv in H as ([o1 e1] & c1 & s1 & H1 & H). run_in H1. simplify_eq.
  destruct (mMigrationManager o1); [by run_in H; simplify_eq|]. apply bind_inv in H as (code & c2 & [o2 e2] & H2 & H).
  apply leadership_state in H2 as ->. case_bool_decide; [by run_in H; simplify_eq|].
  unfold in_os in H. run_in H. destruct (startMigration _ _ _); [|done]. simplify_eq. change (Status.isOK Status.ok) with true.
  apply (H_other (set_info (updateLatestInfo None status route task (mGlobalInfo o1)) o1)); [by constructor|done].
Qed.

Lemma finish_history status route task c o (e : E) st c' o' e' rs :
  finishMigration status route task c (o, e) = Done st c' (o', e') -> history o rs ->
  history o' (if Status.isOK st then route :: rs else rs).
Proof.
  unfold finishMigration. intros H Hh. apply bind_inv in H as (code & c2 & [o2 e2] & H2 & H).
  apply leadership_state in H2 as ->. case_bool_decide; [by run_in H; simplify_eq|].
  run_in H. unfold in_os in H. case_bool_decide; run_in H; simplify_eq; [|done]. change (Status.isOK Status.ok) with true.
  apply (H_update None status route task (set_migration None o)). by eapply H_other.
Qed.

End Managing.

(** ** What is accepted *)

Section Accepting.
Context {S : Type} `{!KVStore S}.

(** A key the node may serve: of a shard of its cluster, or of one that comes to it. *)
Definition served (info : Info) (shardId : Z) : Prop :=
  shardId ∈ scope (mCluster2ShardIds (mRouteInfoHelper info)) (mMyClusterAddrFormat info) \/
  mStatus info = IMPORTING /\ checkIfInMigrationShards shardId (mMigrationInfoHelper info) = true.

Lemma checkKeys_served info mini keys : forall c (s : S) st c' s',
  checkKeys info mini keys c s = Done st c' s' -> Status.isOK st = true -> Forall (fun k => served info (shard_of mini k)) keys.
Proof.
  induction keys as [|key keys IH]; intros c s st c' s' H Hok; [apply Forall_nil_2|]. cbn [checkKeys] in H.
  apply bind_inv in H as (here & c1 & s1 & H1 & H). unfold checkIfInClusterScope in H1.
  destruct (omap_find _ _) as [shards|] eqn:Ef; [|done]. run_in H1. simplify_eq. constructor.
  - case_bool_decide as Hin; cbn [negb] in H; [left; unfold scope; by rewrite Ef|].
    case_bool_decide as Hst; cbn [andb] in H; [|by run_in H; simplify_eq].
    destruct (checkIfInMigrationShards _ _) eqn:Em; [by right|by run_in H; simplify_eq].
  - repeat case_match; try (by eapply IH); try (by run_in H; simplify_eq).
    apply bind_inv in H as ([x m] & c2 & s2 & H2 & H). case_match; [by run_in H; simplify_eq|by eapply IH].
Qed.

Lemma preExecute_accepts o (cmd : Command S) c s st c' s' :
  preExecute o cmd c s = Done st c' s' -> Status.isOK st = true ->
  let info := cached (mGlobalInfo o) in let keys := getTargetKeys cmd in
  rq_routeVersion (getRequestHeader cmd) = ri_version (mRouteInfo (mRouteInfoHelper info)) /\
  mStatus info <> OUT_OF_SERVICE /\ Forall (fun k => served info (shard_of (isMiniTrx keys) k)) keys.
Proof.
  unfold preExecute, preExecuteCallBack, getCachedInfo, getRouteVersion. intros H Hok. run_in H.
  case_bool_decide as H1; [by simplify_eq|]. case_bool_decide as H2.
  { exfalso. unfold in_store, refreshRouteInfo in H. run_in H. cbn [fst] in H. destruct (mRefreshingRouteInfo o); run_in H; by simplify_eq. }
  case_bool_decide as H3; [by simplify_eq|]. split_and!; [lia|done|].
  unfold in_kvStore, zoom in H. cbn [snd] in H. destruct (checkKeys _ _ _ _ _) eqn:Ec; [|done]. simplify_eq.
  by eapply checkKeys_served.
Qed.

(** C14: only routed commands are replicated. Whatever routes a node has received, a command whose
    events the processor hands to raft after the check carries the version of the last of them,
    the node's cluster was not out of service, and each of its keys belongs to a shard which one
    of those routes places on the node's cluster, or which is being migrated to it. *)
Theorem replicated_commands_are_routed o rs (cmd cmd' : Command S) c e c' e' term v r events :
  history o rs -> skipPreExecuteCB cmd = false ->
  doExecute (Some (preExecute o)) cmd c e = Done tt c' e' -> effects e' = effects e ++ [PersistAsync term v cmd' r events] ->
  let info := latest (mGlobalInfo o) in let keys := getTargetKeys cmd in
  rq_routeVersion (getRequestHeader cmd) = default 0 (ri_version <$> head rs) /\ mStatus info <> OUT_OF_SERVICE /\
  forall key, key ∈ keys -> let shard := shard_of (isMiniTrx keys) key in
    (exists route, route ∈ rs /\ places route (mMyClusterAddrFormat info) shard) \/
    mStatus info = IMPORTING /\ checkIfInMigrationShards shard (mMigrationInfoHelper info) = true.
Proof.
  intros Hh Hskip Hrun Heff info keys. destruct (history_info o rs Hh) as (Hc & Hv & Hs).
  assert (exists c1 s1 st c2 s2, preExecute o cmd c1 s1 = Done st c2 s2 /\ Status.isOK st = true) as (c1 & s1 & st & c2 & s2 & Hpre & Hok).
  { apply doExecute_Executed in Hrun. destruct Hrun; try (inv_steps; cbn in Heff; apply app_inv_head in Heff; discriminate).
    match goal with H : gate _ _ _ _ = Done _ _ _ |- _ => unfold gate in H; rewrite Hskip in H; apply in_kv_inv in H as (kv & H & _) end. eauto 10. }
  destruct (preExecute_accepts o cmd c1 s1 st c2 s2 Hpre Hok) as (Hver & Hst & Hall). rewrite Hc in *. fold info keys in Hver, Hst, Hall.
  split_and!; [by rewrite Hver|done|]. intros key Hkey shard. rewrite Forall_forall in Hall.
  destruct (Hall key Hkey) as [Hin|Him]; [left; by apply Hs|by right].
Qed.

End Accepting.
