(* ===== verification/ClusterSet.v ===== *)
(** * The set of clusters

    The object manager keeps the configuration of the system, the clusters, their servers and
    the migrations between them, as values of an engine of its own:
    [module::Base], [module::Cluster], [module::Migration] and
    [module::ClusterSetManager] (object-manager/module). A manager is built for
    each request, loads what is stored, and writes what it changes in one
    transaction guarded by the versions it loaded. *)

From Stdlib Require Import Ascii.
From S2P Require Import Prelude OrderedMap Status Proto KVStore ControlProto ConcurInMemoryKVStore HashRing.
From S2P Require Import KVGenerateCommand EngineContract.

(** ** Base (object-manager/module/Base.h/.cpp) *)

Definition KEY_CLUSTER_INFO_PREFIX : string := "/kv_manager/cluster_#".
Definition KEY_MIGRATION_INFO_PREFIX : string := "/kv_manager/migration_#".
Definition KEY_CLUSTER_GLOBAL_INFO : string := "/kv_manager/global_info".
Definition NON_VERSION : Z := 0.
Definition NON_CLUSTER_ID : Z := 0.

Definition buildClusterKey (clusterId : ClusterIdType) : string := KEY_CLUSTER_INFO_PREFIX +:+ to_string clusterId.
Definition buildMigrationTaskKey (taskId : Z) : string := KEY_MIGRATION_INFO_PREFIX +:+ to_string taskId.

Definition buildHeader (header : ResponseHeader) (code : ResponseCode) (msg : string) : ResponseHeader :=
  mkRespHeader code msg (h_latestVersion header) (h_leaderHint header) (h_routeHint header) (h_leaderIp header).

Definition set_message (msg : string) (header : ResponseHeader) : ResponseHeader := buildHeader header (h_code header) msg.

(** ** Requests under construction *)

Definition empty_trans : TransRequest := mkTransRequest (mkReqHeader 0 0) [] [] false false.

Definition add_precond (cond : Precondition) (req : TransRequest) : TransRequest :=
  mkTransRequest (tq_header req) (tq_preconds req ++ [cond]) (tq_entries req) (tq_isMetaReturned req) (tq_allowStale req).
Definition add_entry (entry : ReadWriteEntry) (req : TransRequest) : TransRequest :=
  mkTransRequest (tq_header req) (tq_preconds req) (tq_entries req ++ [entry]) (tq_isMetaReturned req) (tq_allowStale req).

(** [add_entries()->mutable_writeentry()] with a key and a value, and the like. *)
Definition write_entry (key value : string) : ReadWriteEntry :=
  RWWrite (mkWriteEntry key value false 0 0 0 DEFAULT_UDFMETA).
Definition read_entry (key : string) : ReadWriteEntry := RWRead (mkReadEntry key 0).
Definition remove_entry (key : string) : ReadWriteEntry := RWRemove (mkRemoveEntry key 0).

(** ** A cluster (object-manager/module/Cluster.h/.cpp) *)

Record Cluster := mkCluster { mClusterInfo : ClusterInfo; mClusterId : ClusterIdType; mClusterVersion : Z }.

Definition getStatus (c : Cluster) : ClusterStatus := ci_status (mClusterInfo c).
Definition getServerAddresses (c : Cluster) : ClusterAddress := ci_addr (mClusterInfo c).

Definition setStatus (s : ClusterStatus) (c : Cluster) : Cluster :=
  mkCluster (mkClusterInfo (ci_addr (mClusterInfo c)) s) (mClusterId c) (mClusterVersion c).

Record Migration := mkMigration { mMigrationTask : MigrationTask; mMigrationVersion : Z }.

Section Modules.
Context {CC : ControlCodec}.

Definition cluster_fillPrecondition (clusterId : ClusterIdType) (c : Cluster) (req : TransRequest) : TransRequest :=
  add_precond (VersionCond (buildClusterKey clusterId) (mClusterVersion c) EQUAL) req.

(** [Cluster::updateInTransaction]; the cluster itself takes the status. *)
Definition cluster_updateInTransaction (newStatus : ClusterStatus) (c : Cluster) (req : TransRequest)
    : Cluster * TransRequest :=
  if bool_decide (getStatus c = newStatus) then (c, req)
  else
    let c := setStatus newStatus c in
    (c, add_entry (write_entry (buildClusterKey (mClusterId c)) (serializeCluster (mClusterInfo c))) req).

Definition updateClusterInTransaction (addresses : ClusterAddress) (c : Cluster) (req : TransRequest) : TransRequest :=
  let clusterKey := buildClusterKey (mClusterId c) in
  let req := add_precond (ExistCond clusterKey true) req in
  let req := fold_left (fun req host => add_entry (write_entry host (to_string (mClusterId c))) req) addresses req in
  add_entry (write_entry clusterKey (serializeCluster (mkClusterInfo addresses (getStatus c)))) req.

Definition createInTransaction (newClusterId : ClusterIdType) (addresses : ClusterAddress) (req : TransRequest)
    : TransRequest :=
  let clusterKey := buildClusterKey newClusterId in
  let req := add_precond (ExistCond clusterKey false) req in
  let req := fold_left (fun req host =>
    add_entry (write_entry host (to_string newClusterId)) (add_precond (ExistCond host false) req)) addresses req in
  add_entry (write_entry clusterKey (serializeCluster (mkClusterInfo addresses INIT))) req.

Definition removeInTransaction (c : Cluster) (req : TransRequest) : TransRequest :=
  fold_left (fun req host => add_entry (remove_entry host) req) (getServerAddresses c)
    (add_entry (remove_entry (buildClusterKey (mClusterId c))) req).

(** ** A migration (object-manager/module/Migration.h/.cpp) *)

Definition migration_fillPrecondition (m : Migration) (req : TransRequest) : TransRequest :=
  add_precond (VersionCond (buildMigrationTaskKey (mt_taskId (mMigrationTask m))) (mMigrationVersion m) EQUAL) req.

Definition set_task_status (s : MigrationStatus) (t : MigrationTask) : MigrationTask :=
  mkMigrationTask (mt_taskId t) (mt_sourceCluster t) (mt_targetCluster t) (mt_migrateShards t) s.

(** [Migration::updateInTransaction]: it asserts that the status changes. *)
Definition migration_updateInTransaction (newStatus : MigrationStatus) (m : Migration) (req : TransRequest)
    : option (Migration * TransRequest) :=
  if bool_decide (mt_overallStatus (mMigrationTask m) = newStatus) then None
  else
    let m := mkMigration (set_task_status newStatus (mMigrationTask m)) (mMigrationVersion m) in
    Some (m, add_entry (write_entry (buildMigrationTaskKey (mt_taskId (mMigrationTask m)))
                                    (serializeTask (mMigrationTask m))) req).

Definition migration_createInTransaction (t : MigrationTask) (req : TransRequest) : option TransRequest :=
  if bool_decide (mt_taskId t = 0) then None
  else
    let key := buildMigrationTaskKey (mt_taskId t) in
    Some (add_entry (write_entry key (serializeTask t)) (add_precond (ExistCond key false) req)).

End Modules.

(** ** The manager (object-manager/module/ClusterSetManager.h/.cpp) *)

(** What is told to the clusters through [migration::ClusterProxy]
    (object-manager/migration/ClusterProxy.cpp). *)
Inductive Notice :=
| StartMigrationSent (clusterId : Z) (status : ClusterStatus) (route : RouteInfo) (task : MigrationTask)
| EndMigrationSent (clusterId : Z) (status : ClusterStatus) (route : RouteInfo).

Record Manager (E : Type) := mkManager {
  mKVEngine : E;
  mClusterMap : gmap Z ClusterAddress;
  notices : list Notice;
  mVersion : Z;
  mClusterSetGlobalInfo : ClusterSetGlobalInfo;
  mClusterVector : list Cluster;
  mMigrationVector : list Migration;
}.
Arguments mkManager {E} _ _ _ _ _ _ _.
Arguments mKVEngine {E} _.
Arguments mClusterMap {E} _.
Arguments notices {E} _.
Arguments mVersion {E} _.
Arguments mClusterSetGlobalInfo {E} _.
Arguments mClusterVector {E} _.
Arguments mMigrationVector {E} _.

Section ClusterSetManager.
Context {E : Type} `{!EngineOps E} {CC : ControlCodec} {HASH : StdHash}.

(** [VIRTUAL_NODE_COUNT] of the environment, or the default. *)
Context (virtualNodeCount : nat).

Definition set_engine (e : E) (m : Manager E) : Manager E :=
  mkManager e (mClusterMap m) (notices m) (mVersion m) (mClusterSetGlobalInfo m) (mClusterVector m) (mMigrationVector m).
Definition set_proxy (cm : gmap Z ClusterAddress) (ns : list Notice) (m : Manager E) : Manager E :=
  mkManager (mKVEngine m) cm ns (mVersion m) (mClusterSetGlobalInfo m) (mClusterVector m) (mMigrationVector m).
Definition set_global (v : Z) (g : ClusterSetGlobalInfo) (m : Manager E) : Manager E :=
  mkManager (mKVEngine m) (mClusterMap m) (notices m) v g (mClusterVector m) (mMigrationVector m).
Definition set_clusters (cs : list Cluster) (m : Manager E) : Manager E :=
  mkManager (mKVEngine m) (mClusterMap m) (notices m) (mVersion m) (mClusterSetGlobalInfo m) cs (mMigrationVector m).
Definition set_migrations (ms : list Migration) (m : Manager E) : Manager E :=
  mkManager (mKVEngine m) (mClusterMap m) (notices m) (mVersion m) (mClusterSetGlobalInfo m) (mClusterVector m) ms.

Definition in_engine {A} (m : M E A) : M (Manager E) A := zoom mKVEngine set_engine m.

(** The constructor, for the next request. *)
Definition new_manager : M (Manager E) unit :=
  modify (fun m => mkManager (mKVEngine m) (mClusterMap m) (notices m) 0 empty_global [] []).

(** [ClusterProxy::registerCluster]: the first address of a cluster stays. *)
Definition registerCluster (c : Cluster) : M (Manager E) unit :=
  modify (fun m => set_proxy (match mClusterMap m !! mClusterId c with
                              | Some _ => mClusterMap m
                              | None => <[mClusterId c := getServerAddresses c]> (mClusterMap m)
                              end) (notices m) m).

(** The loops of [init] over the results of the transaction: [transResponse.results(i)]
    is undefined past the last of them. *)
Fixpoint loadClusters (ids : list Z) (results : list ReadWriteResult)
    : M (Manager E) (option ResponseCode * list ReadWriteResult) :=
  match ids with
  | [] => ret (None, results)
  | clusterId :: ids =>
      match results with
      | ReadRes r :: results =>
          if bool_decide (rr_code r <> RC_OK) then ret (Some (rr_code r), results)
          else
            match parseCluster (rr_value r) with
            | None => stop AssertFail
            | Some clusterInfo =>
                modify (fun m => set_clusters (mClusterVector m ++ [mkCluster clusterInfo clusterId (rr_version r)]) m) ;;;
                loadClusters ids results
            end
      | _ :: _ => stop AssertFail
      | [] => stop Undefined
      end
  end.

Fixpoint loadMigrations (ids : list Z) (results : list ReadWriteResult) : M (Manager E) (option ResponseCode) :=
  match ids with
  | [] => ret None
  | _ :: ids =>
      match results with
      | ReadRes r :: results =>
          if bool_decide (rr_code r <> RC_OK) then ret (Some (rr_code r))
          else
            match parseTask (rr_value r) with
            | None => stop AssertFail
            | Some task =>
                modify (fun m => set_migrations (mMigrationVector m ++ [mkMigration task (rr_version r)]) m) ;;;
                loadMigrations ids results
            end
      | _ :: _ => stop AssertFail
      | [] => stop Undefined
      end
  end.

(** The transaction of [init]. *)
Definition loadRequest (version : Z) (g : ClusterSetGlobalInfo) : TransRequest :=
  let req := add_precond (VersionCond KEY_CLUSTER_GLOBAL_INFO version EQUAL) empty_trans in
  let load req key := add_entry (read_entry key) (add_precond (ExistCond key true) req) in
  let req := fold_left (fun req id => load req (buildClusterKey id)) (g_clusterIds g) req in
  fold_left (fun req id => load req (buildMigrationTaskKey id)) (g_migrationTaskIds g) req.

(** The second part of [init]: the clusters and the migrations of the global info. *)
Definition loadInfo (version : Z) (g : ClusterSetGlobalInfo) : M (Manager E) ResponseHeader :=
  let* transResponse := in_engine (engTrans (loadRequest version g)) in
  let header := tp_header transResponse in
  if bool_decide (h_code header <> RC_OK) then
    ret (set_message "ClusterSetManager::init, load global info in transaction failed" header)
  else
    let* (failed, results) := loadClusters (g_clusterIds g) (tp_results transResponse) in
    match failed with
    | Some code => ret (buildHeader header code "ClusterSetManager::init, load cluster info failed")
    | None =>
        let* m := get in
        forM (mClusterVector m) registerCluster ;;;
        let* failed := loadMigrations (g_migrationTaskIds g) results in
        match failed with
        | Some code => ret (buildHeader header code "ClusterSetManager::init, load migration info failed")
        | None => ret header
        end
    end.

Definition init : M (Manager E) ResponseHeader :=
  let* getResponse := in_engine (engGet (mkGetRequest (mkReqHeader 0 0) (mkReadEntry KEY_CLUSTER_GLOBAL_INFO 0) false false)) in
  let header := gp_header getResponse in
  if bool_decide (h_code header <> RC_OK) then
    ret (set_message "ClusterSetManager::init, get global cluster info failed" header)
  else
    let code := rr_code (gp_result getResponse) in
    if bool_decide (code <> RC_OK) then
      ret (buildHeader header (if bool_decide (code = RC_KEY_NOT_EXIST) then RC_OK else code)
             "ClusterSetManager::init, get global cluster result failed")
    else
      match parseGlobal (rr_value (gp_result getResponse)) with
      | None => stop AssertFail
      | Some g =>
          let version := rr_version (gp_result getResponse) in
          modify (set_global version g) ;;;
          assert_ (negb (bool_decide (version = 0))) ;;;
          loadInfo version g
      end.

(** [fillPrecondition]; [clusterids(i)] is out of range when there are fewer ids than clusters. *)
Fixpoint fillClusterPreconditions (clusters : list Cluster) (ids : list Z) (req : TransRequest) : option TransRequest :=
  match clusters, ids with
  | [], _ => Some req
  | c :: clusters, id :: ids => fillClusterPreconditions clusters ids (cluster_fillPrecondition id c req)
  | _ :: _, [] => None
  end.

Definition fillPrecondition (req : TransRequest) : M (Manager E) TransRequest :=
  let* m := get in
  if bool_decide (mVersion m = NON_VERSION) then
    ret (add_precond (ExistCond KEY_CLUSTER_GLOBAL_INFO false) req)
  else
    let req := add_precond (VersionCond KEY_CLUSTER_GLOBAL_INFO (mVersion m) EQUAL) req in
    match fillClusterPreconditions (mClusterVector m) (g_clusterIds (mClusterSetGlobalInfo m)) req with
    | None => stop Undefined
    | Some req => ret (fold_left (fun req mig => migration_fillPrecondition mig req) (mMigrationVector m) req)
    end.

Definition updateInTransaction (req : TransRequest) : M (Manager E) TransRequest :=
  let* m := get in
  ret (add_entry (write_entry KEY_CLUSTER_GLOBAL_INFO (serializeGlobal (mClusterSetGlobalInfo m))) req).

Definition assignNewClusterId (g : ClusterSetGlobalInfo) : ClusterIdType :=
  match last (g_clusterIds g) with
  | None => 1
  | Some id => u32 (id + 1)
  end.

Definition appendNewClusterId (clusterId : ClusterIdType) : M (Manager E) ResponseCode :=
  let* m := get in
  let g := mClusterSetGlobalInfo m in
  if bool_decide (clusterId ∈ g_clusterIds g) then ret RC_BAD_REQUEST
  else
    put (set_global (mVersion m) (mkGlobalInfo (g_routeVersion g) (g_clusterIds g ++ [clusterId])
                                    (g_currentMaxMigrationTaskId g) (g_migrationTaskIds g)) m) ;;;
    ret RC_OK.

Definition increaseGlobalRouteVersion : M (Manager E) unit :=
  modify (fun m => let g := mClusterSetGlobalInfo m in
    set_global (mVersion m) (mkGlobalInfo (u64 (g_routeVersion g + 1)) (g_clusterIds g)
                               (g_currentMaxMigrationTaskId g) (g_migrationTaskIds g)) m).

Definition assignMigrationTaskId : M (Manager E) Z :=
  let* m := get in
  let g := mClusterSetGlobalInfo m in
  let id := u64 (g_currentMaxMigrationTaskId g + 1) in
  put (set_global (mVersion m) (mkGlobalInfo (g_routeVersion g) (g_clusterIds g) id (g_migrationTaskIds g)) m) ;;;
  ret id.

Definition removeSuccessMigrationId (taskId : Z) : M (Manager E) unit :=
  modify (fun m => let g := mClusterSetGlobalInfo m in
    set_global (mVersion m) (mkGlobalInfo (g_routeVersion g) (g_clusterIds g) (g_currentMaxMigrationTaskId g)
                               (filter (fun id => id <> taskId) (g_migrationTaskIds g))) m).

Definition hasMigrationTask (m : Manager E) : bool := negb (bool_decide (length (mMigrationVector m) = O)).
Definition isOnlyOneCluster (m : Manager E) : bool := bool_decide (length (mClusterVector m) = 1%nat).

(** The position of a value in a list. *)
Fixpoint index_of (x : Z) (l : list Z) : option nat :=
  match l with
  | [] => None
  | y :: l => if bool_decide (x = y) then Some O else S <$> index_of x l
  end.

(** [findClusterById] and [findMigrationById] return pointers into the vectors,
    here positions; the position is found among the ids. *)
Definition findClusterById (clusterId : ClusterIdType) (m : Manager E) : option nat :=
  index_of clusterId (g_clusterIds (mClusterSetGlobalInfo m)).
Definition findMigrationById (taskId : Z) (m : Manager E) : option nat :=
  index_of taskId (g_migrationTaskIds (mClusterSetGlobalInfo m)).

(** [findClusterByAddress]: the first cluster one of whose servers is the first address. *)
Fixpoint find_address (host : string) (clusters : list Cluster) : option nat :=
  match clusters with
  | [] => None
  | c :: clusters => if bool_decide (host ∈ getServerAddresses c) then Some O else S <$> find_address host clusters
  end.

Definition findClusterByAddress (addresses : ClusterAddress) (m : Manager E) : M (Manager E) (option nat) :=
  match addresses with
  | [] => stop AssertFail
  | host :: _ => ret (find_address host (mClusterVector m))
  end.

(** [mClusterVector[i]->...]: a position past the end is undefined. *)
Definition the_cluster (i : nat) : M (Manager E) Cluster :=
  let* m := get in
  match mClusterVector m !! i with Some c => ret c | None => stop Undefined end.

Definition update_cluster (i : nat) (newStatus : ClusterStatus) (req : TransRequest) : M (Manager E) TransRequest :=
  let* c := the_cluster i in
  let '(c, req) := cluster_updateInTransaction newStatus c req in
  modify (fun m => set_clusters (<[i := c]> (mClusterVector m)) m) ;;;
  ret req.

Definition is_routing (c : Cluster) : bool :=
  bool_decide (getStatus c = EXPORTING \/ getStatus c = IN_SERVICE).

Definition getRoutingCluster (m : Manager E) : list Cluster := filter (fun c => is_routing c = true) (mClusterVector m).

(** [hashRing->addClusterId(...)] for a list of clusters; a full ring is probed for ever. *)
Fixpoint buildRing (ids : list Z) (ring : list (Z * Z)) : option (list (Z * Z)) :=
  match ids with
  | [] => Some ring
  | id :: ids => '(ring, _) ← addClusterId virtualNodeCount id ring None; buildRing ids ring
  end.

Definition fillRouteInfo (routeInfo : RouteInfo) : M (Manager E) (ResponseCode * RouteInfo) :=
  let* m := get in
  let clusterVec := getRoutingCluster m in
  match buildRing (mClusterId <$> clusterVec) [] with
  | None => stop WouldBlock
  | Some hashRing =>
      let shardMap := extractShardConfig hashRing [] in
      let '(start, end_) := getHashRange in
      ret (RC_OK,
           mkRouteInfo (g_routeVersion (mClusterSetGlobalInfo m))
             (ri_allShards routeInfo ++ seqZ start (end_ - start))
             (ri_placementMap routeInfo ++
                ((fun c => (default [] (omap_find (mClusterId c) shardMap), getServerAddresses c)) <$> clusterVec))
             (ri_allClusters routeInfo ++ (getServerAddresses <$> clusterVec)))
  end.

Definition fillRouteAndMigrationInfo (routeInfo : RouteInfo) (task : MigrationTask)
    : M (Manager E) (ResponseCode * RouteInfo * MigrationTask) :=
  let* (code, routeInfo) := fillRouteInfo routeInfo in
  if bool_decide (code <> RC_OK) then ret (code, routeInfo, task)
  else
    let* m := get in
    ret (RC_OK, routeInfo, match mMigrationVector m with mig :: _ => mMigrationTask mig | [] => task end).

(** ** Whose servers are these *)

(** The loop of [isAddressInSameCluster] over the results. *)
Fixpoint countAddresses (results : list ReadWriteResult) (count : Z) (clusterIdStr : string)
    : M (Manager E) (sum ResponseCode (Z * string)) :=
  match results with
  | [] => ret (inr (count, clusterIdStr))
  | ReadRes r :: results =>
      if bool_decide (rr_code r <> RC_OK /\ rr_code r <> RC_KEY_NOT_EXIST) then ret (inl (rr_code r))
      else if bool_decide (rr_code r = RC_KEY_NOT_EXIST \/ rr_value r = "") then countAddresses results count clusterIdStr
      else if bool_decide (clusterIdStr = "") then countAddresses results (count + 1) (rr_value r)
      else if bool_decide (clusterIdStr <> rr_value r) then ret (inl RC_BAD_REQUEST)
      else countAddresses results (count + 1) clusterIdStr
  | _ => stop AssertFail
  end.

(** [Cluster::isAddressInSameCluster] *)
Definition isAddressInSameCluster (addresses : ClusterAddress) : M (Manager E) (ResponseCode * Z * ClusterIdType) :=
  let* batchResponse := in_engine (engExeBatch (mkExeBatchRequest (mkReqHeader 0 0) (read_entry <$> addresses))) in
  let header := bp_header batchResponse in
  if bool_decide (h_code header <> RC_OK) then ret (h_code header, 0, NON_CLUSTER_ID)
  else
    let* r := countAddresses (bp_results batchResponse) 0 "" in
    match r with
    | inl code => ret (code, 0, NON_CLUSTER_ID)
    | inr (count, clusterIdStr) =>
        if bool_decide (clusterIdStr = "") then ret (RC_OK, count, NON_CLUSTER_ID)
        else match stoi clusterIdStr with
             | Some id => ret (RC_OK, count, u32 id)
             | None => stop Uncaught
             end
    end.

(** ** Operations *)

(** The transaction of [addCluster], once the addresses are known to be of one
    cluster, or new. *)
Definition addClusterRequest (sameClusterCount : Z) (clusterId : ClusterIdType) (addresses : ClusterAddress)
    (req : TransRequest) : M (Manager E) (sum (ResponseCode * string) TransRequest) :=
  if bool_decide (sameClusterCount = 0) then
    let* m := get in
    let clusterId := assignNewClusterId (mClusterSetGlobalInfo m) in
    let* code := appendNewClusterId clusterId in
    if bool_decide (code <> RC_OK) then ret (inl (code, "new cluster id has been occupied"))
    else ret (inr (createInTransaction clusterId addresses req))
  else
    let* m := get in
    match findClusterById clusterId m with
    | None => ret (inl (RC_BAD_REQUEST, "cluster not found"))
    | Some i => let* c := the_cluster i in ret (inr (updateClusterInTransaction addresses c req))
    end.

Definition addCluster (header : ResponseHeader) (addresses : ClusterAddress) : M (Manager E) ResponseHeader :=
  let* (code, sameClusterCount, clusterId) := isAddressInSameCluster addresses in
  if bool_decide (code <> RC_OK) then
    ret (buildHeader header code "ClusterSetManager::addCluster, call isAddressInSameCluster failed")
  else
    let* m := get in
    if hasMigrationTask m then
      ret (buildHeader header RC_BAD_REQUEST "ClusterSetManager::addCluster, migration task in progress")
    else
      let* req := fillPrecondition empty_trans in
      let* r := addClusterRequest sameClusterCount clusterId addresses req in
      match r with
      | inl (code, msg) => ret (buildHeader header code msg)
      | inr req =>
          let* req := updateInTransaction req in
          let* resp := in_engine (engTrans req) in
          ret (tp_header resp)
      end.

Definition onboardCluster (i : nat) : M (Manager E) ResponseCode :=
  let* m := get in
  let* c := the_cluster i in
  match buildRing (mClusterId <$> getRoutingCluster m) [] with
  | None => stop WouldBlock
  | Some hashRing =>
      match addClusterId virtualNodeCount (mClusterId c) hashRing (Some []) with
      | None => stop WouldBlock
      | Some (_, clusterShardMap) =>
          assert_ (negb (bool_decide (default [] clusterShardMap = []))) ;;;
          let* req := fillPrecondition empty_trans in
          let* req := update_cluster i IN_SERVICE req in
          let* req := updateInTransaction req in
          let* resp := in_engine (engTrans req) in
          ret (h_code (tp_header resp))
      end
  end.

(** The answer of [startCluster]: the header, the status and whether to migrate, the route and the task. *)
Definition Started : Type := ResponseHeader * (ClusterStatus * bool) * RouteInfo * MigrationTask.

(** The case of [startCluster] of a cluster that has not served yet. *)
Definition startInit (header : ResponseHeader) (i : nat) (routeInfo : RouteInfo) (task : MigrationTask)
    : M (Manager E) Started :=
  let* m := get in
  if isOnlyOneCluster m then
    let* req := fillPrecondition empty_trans in
    let* req := update_cluster i IN_SERVICE req in
    increaseGlobalRouteVersion ;;;
    let* req := updateInTransaction req in
    let* resp := in_engine (engTrans req) in
    let header := tp_header resp in
    let* c := the_cluster i in
    if bool_decide (h_code header <> RC_OK) then ret (header, (getStatus c, false), routeInfo, task)
    else
      let* (code, routeInfo) := fillRouteInfo routeInfo in
      ret (buildHeader header code "ok", (getStatus c, false), routeInfo, task)
  else if hasMigrationTask m then
    let* c := the_cluster i in
    ret (header, (getStatus c, false), routeInfo, task)
  else
    let* code := onboardCluster i in
    let header := buildHeader header code "ok" in
    let* c := the_cluster i in
    if bool_decide (code = RC_OK) then
      let* (_, routeInfo, task) := fillRouteAndMigrationInfo routeInfo task in
      ret (header, (getStatus c, false), routeInfo, task)
    else ret (header, (getStatus c, false), routeInfo, task).

Definition startCluster (header : ResponseHeader) (addresses : ClusterAddress) (routeInfo : RouteInfo)
    (task : MigrationTask) : M (Manager E) Started :=
  let* (code, sameClusterCount, clusterId) := isAddressInSameCluster addresses in
  let fail code msg : M (Manager E) Started :=
    ret (buildHeader header code msg, (INIT, false), routeInfo, task) in
  if bool_decide (code <> RC_OK) then fail code "ClusterSetManager::startCluster, call isAddressInSameCluster failed"
  else if bool_decide (sameClusterCount < Z.of_nat (length addresses) \/ clusterId = NON_CLUSTER_ID)
  then fail RC_BAD_REQUEST "ClusterSetManager::startCluster, bad cluster status"
  else
    let* m := get in
    match findClusterById clusterId m with
    | None => fail RC_BAD_REQUEST "cluster not found"
    | Some i =>
        let* c := the_cluster i in
        match getStatus c with
        | OUT_OF_SERVICE =>
            ret (buildHeader header RC_OK "cluster status is out-of-service", (OUT_OF_SERVICE, false), routeInfo, task)
        | IN_SERVICE =>
            let* (code, routeInfo) := fillRouteInfo routeInfo in
            ret (buildHeader header code "cluster status is in-service", (IN_SERVICE, false), routeInfo, task)
        | IMPORTING | EXPORTING =>
            let* (code, routeInfo, task) := fillRouteAndMigrationInfo routeInfo task in
            ret (buildHeader header code "cluster status is importing/exporting", (getStatus c, false), routeInfo, task)
        | INIT => startInit header i routeInfo task
        end
    end.

(** [handleMigrationSuccess] *)
Definition handleMigrationSuccess (header : ResponseHeader) (progress : MigrationProgress)
    : M (Manager E) (ResponseHeader * option (nat * nat)) :=
  let* m := get in
  match findMigrationById (mp_taskId progress) m with
  | None => stop AssertFail
  | Some j =>
      match mMigrationVector m !! j with
      | None => stop Undefined
      | Some mig =>
          let* source := findClusterByAddress (mt_sourceCluster (mMigrationTask mig)) m in
          let* target := findClusterByAddress (mt_targetCluster (mMigrationTask mig)) m in
          match source, target with
          | Some source, Some target =>
              let* req := fillPrecondition empty_trans in
              let* req := update_cluster source IN_SERVICE req in
              let* req := update_cluster target IN_SERVICE req in
              match migration_updateInTransaction SUCCEEDED mig req with
              | None => stop AssertFail
              | Some (mig, req) =>
                  modify (fun m => set_migrations (<[j := mig]> (mMigrationVector m)) m) ;;;
                  increaseGlobalRouteVersion ;;;
                  removeSuccessMigrationId (mp_taskId progress) ;;;
                  let* req := updateInTransaction req in
                  let* resp := in_engine (engTrans req) in
                  let header := tp_header resp in
                  ret (header, if bool_decide (h_code header <> RC_OK) then None else Some (source, target))
              end
          | _, _ => stop AssertFail
          end
      end
  end.

Definition handleRouteInfoRequest (header : ResponseHeader) (routeInfo : RouteInfo)
    : M (Manager E) (ResponseHeader * RouteInfo) :=
  let* (code, routeInfo) := fillRouteInfo routeInfo in
  ret (buildHeader header code "ok", routeInfo).

(** [fillAddressInfo] and [fillShardInfo]; shards that are none fail an assert. *)
Definition fillAddressInfo (addr : ClusterAddress) (c : Cluster) : ClusterAddress := addr ++ getServerAddresses c.

Definition fillShardInfo (task : MigrationTask) (shardVec : list Z) : option MigrationTask :=
  match shardVec with
  | [] => None
  | _ => Some (mkMigrationTask (mt_taskId task) (mt_sourceCluster task) (mt_targetCluster task)
                 (mt_migrateShards task ++ ((fun shard => (shard, INITED)) <$> shardVec)) (mt_overallStatus task))
  end.

(** [removeCluster] is not implemented. *)
Definition removeCluster (header : ResponseHeader) (addresses : ClusterAddress) : M (Manager E) ResponseHeader :=
  ret (buildHeader header RC_OK "ok").

(** [ClusterProxy::startMigration] and [ClusterProxy::endMigration]: a cluster that is
    not registered is not told. *)
Definition notify_cluster (clusterId : Z) (n : Notice) : M (Manager E) unit :=
  modify (fun m => match mClusterMap m !! clusterId with
                   | Some _ => set_proxy (mClusterMap m) (notices m ++ [n]) m
                   | None => m
                   end).

Definition notifyStartMigration (route : RouteInfo) (task : MigrationTask) (source : Cluster) : M (Manager E) unit :=
  notify_cluster (mClusterId source) (StartMigrationSent (mClusterId source) (getStatus source) route task).
Definition notifyEndMigration (route : RouteInfo) (c : Cluster) : M (Manager E) unit :=
  notify_cluster (mClusterId c) (EndMigrationSent (mClusterId c) (getStatus c) route).

Definition endMigration (source target : nat) : M (Manager E) unit :=
  let* (_, route) := fillRouteInfo empty_route in
  let* s := the_cluster source in
  notifyEndMigration route s ;;;
  let* t := the_cluster target in
  notifyEndMigration route t.

(** [beginMigration]; the pointers are not checked. *)
Definition beginMigration (route : RouteInfo) (task : MigrationTask) : M (Manager E) unit :=
  let* m := get in
  let* source := findClusterByAddress (mt_sourceCluster task) m in
  let* target := findClusterByAddress (mt_targetCluster task) m in
  match source, target with
  | Some source, Some _ => let* s := the_cluster source in notifyStartMigration route task s
  | _, _ => stop Undefined
  end.

(** ** Requests (object-manager/network/rpc) *)

Definition ok_header : ResponseHeader := buildHeader empty_header RC_OK "ok".

(** [AddClusterCallData::proceed] *)
Definition addClusterCall (servers : ClusterAddress) : M (Manager E) ResponseHeader :=
  if bool_decide (length servers < 1)%nat then ret (buildHeader ok_header RC_BAD_REQUEST "Insufficient node found")
  else
    new_manager ;;;
    let* header := init in
    if bool_decide (h_code header <> RC_OK) then ret header else addCluster header servers.

(** [OnStartupCallData::proceed]; the status is set on success only. *)
Definition onStartupCall (servers : ClusterAddress) : M (Manager E) (ResponseHeader * ClusterStatus * RouteInfo * MigrationTask) :=
  if bool_decide (length servers < 1)%nat then
    ret (buildHeader ok_header RC_BAD_REQUEST "Insufficient node found", INIT, empty_route, empty_task)
  else
    new_manager ;;;
    let* header := init in
    if bool_decide (h_code header <> RC_OK) then ret (header, INIT, empty_route, empty_task)
    else
      let* (header, (status, needMigration), route, task) := startCluster header servers empty_route empty_task in
      let answer := (header, if bool_decide (h_code header = RC_OK) then status else INIT, route, task) in
      if (needMigration : bool) then beginMigration route task ;;; ret answer else ret answer.

(** [OnMigrationCallData::proceed] *)
Definition onMigrationCall (progress : MigrationProgress) : M (Manager E) ResponseHeader :=
  match mp_overallStatus progress with
  | SUCCEEDED =>
      new_manager ;;;
      let* header := init in
      if bool_decide (h_code header <> RC_OK) then ret header
      else
        let* (header, clusters) := handleMigrationSuccess header progress in
        if bool_decide (h_code header = RC_OK) then
          match clusters with
          | Some (s, t) => endMigration s t ;;; ret header
          | None => stop AssertFail
          end
        else ret header
  | FAILED => ret (buildHeader ok_header RC_OK "failure migration not handled")
  | s => ret (buildHeader ok_header RC_OK ("migration, overallStatus is " +:+ to_string (MigrationStatus_number s)))
  end.

(** [RemoveClusterCallData::proceed] *)
Definition removeClusterCall (servers : ClusterAddress) : M (Manager E) ResponseHeader :=
  if bool_decide (length servers < 1)%nat then ret (buildHeader ok_header RC_BAD_REQUEST "Insufficient node found")
  else
    new_manager ;;;
    let* header := init in
    if bool_decide (h_code header <> RC_OK) then ret header else removeCluster header servers.

(** [RouterCallData::proceed] *)
Definition routerCall : M (Manager E) (ResponseHeader * RouteInfo) :=
  new_manager ;;;
  let* header := init in
  if bool_decide (h_code header <> RC_OK) then ret (header, empty_route)
  else handleRouteInfoRequest header empty_route.

End ClusterSetManager.
