(* ===== verification/Services.v ===== *)
(** * The services

    What the call objects of the object store (object-store/network/rpc) and of the object manager
    (object-manager/network/rpc) do with a request, as services of CallData.v, and the kinds of calls their receivers
    ([RequestReceiver::run] of each) are started with. *)

From S2P Require Import Prelude Status Proto KVStore Command KVGenerateCommand KVEngineImpl ControlProto EngineContract.
From S2P Require Import ObjectStore ClusterSet ConcurInMemoryKVStore CallData.

(** ** The object store *)

(** The calls of [KVStore] in service.proto; [Watch] is a stream, see WatchStream.v. *)
Inductive StoreRpc :=
| Connect | Get | Put | Delete | Transaction | GenerateKV | StartMigration | EndMigration | ExeBatch | MigrateBatch.

#[global] Instance StoreRpc_eq_dec : EqDecision StoreRpc.
Proof. solve_decision. Defined.

(** [UserDefine::CommandType] *)
Inductive CommandType := INVALID | TRANSFER.

Inductive StoreRequest :=
| ConnectReq (header : RequestHeader)
| GetReq (req : GetRequest)
| PutReq (req : PutRequest)
| DeleteReq (req : DeleteRequest)
| TransReq (req : TransRequest)
| GenerateReq (cmdType : CommandType) (req : GenerateRequest)
| StartMigrationReq (status : ClusterStatus) (route : RouteInfo) (task : MigrationTask)
| EndMigrationReq (status : ClusterStatus) (route : RouteInfo) (task : MigrationTask)
| ExeBatchReq (req : ExeBatchRequest)
| MigrateBatchReq (req : MigrateBatchRequest).

Definition store_rpc (req : StoreRequest) : StoreRpc :=
  match req with
  | ConnectReq _ => Connect | GetReq _ => Get | PutReq _ => Put | DeleteReq _ => Delete | TransReq _ => Transaction
  | GenerateReq _ _ => GenerateKV | StartMigrationReq _ _ _ => StartMigration | EndMigrationReq _ _ _ => EndMigration
  | ExeBatchReq _ => ExeBatch | MigrateBatchReq _ => MigrateBatch
  end.

(** Messages without their fields. *)
Definition no_header : RequestHeader := mkReqHeader 0 0.
Definition empty_store_request (rpc : StoreRpc) : StoreRequest :=
  match rpc with
  | Connect => ConnectReq no_header
  | Get => GetReq (mkGetRequest no_header (mkReadEntry "" 0) false false)
  | Put => PutReq (mkPutRequest no_header (mkWriteEntry "" "" false 0 0 0 DEFAULT_UDFMETA))
  | Delete => DeleteReq (mkDeleteRequest no_header (mkRemoveEntry "" 0) false)
  | Transaction => TransReq (mkTransRequest no_header [] [] false false)
  | GenerateKV => GenerateReq INVALID (mkGenerateRequest no_header [] [] "")
  | StartMigration => StartMigrationReq INIT empty_route empty_task
  | EndMigration => EndMigrationReq INIT empty_route empty_task
  | ExeBatch => ExeBatchReq (mkExeBatchRequest no_header [])
  | MigrateBatch => MigrateBatchReq (mkMigrateBatchRequest no_header [])
  end.

Inductive StoreResponse :=
| EngineResp (r : Response)
| CodeResp (code : ResponseCode).

Section Store.
Context {S Q E : Type} `{!KVStore S} `{!MpscQueue (nat * Command S) Q} `{!EngineOps E} {IPS : NodeIps} {TC : TransferCodec} {UN : Uninitialised}.
Context (queue_stopped : string) (maxTaskID : Z).

Abbreviation StoreApp := (KVEngineImpl Q * (ObjectStore * E))%type (only parsing).

(** A call of the engine: it runs the callback itself when it is stopped. *)
Definition engine_call (m : M (KVEngineImpl Q) (Status.t * nat)) : M StoreApp (Served StoreResponse) :=
  let* (_, n) := zoom fst (fun e a => (e, a.2)) m in
  let* (e, _) := get in
  ret (match KVEngineImpl.answered e !! n with Some r => Answer (EngineResp r) | None => Deferred n end).

(** A call of the object store, answered by [proceed] itself. *)
Definition migration_call (m : M (ObjectStore * E) ResponseCode) : M StoreApp (Served StoreResponse) :=
  let* code := zoom snd (fun o a => (a.1, o)) m in
  ret (Answer (CodeResp code)).

(** The [PROCESS] branches of the call objects. *)
Definition connect_branch (header : RequestHeader) : M StoreApp (Served StoreResponse) := engine_call (connectAsync queue_stopped header).
Definition get_branch (req : GetRequest) : M StoreApp (Served StoreResponse) := engine_call (getAsync queue_stopped req).
Definition put_branch (req : PutRequest) : M StoreApp (Served StoreResponse) := engine_call (putAsync queue_stopped req).
Definition delete_branch (req : DeleteRequest) : M StoreApp (Served StoreResponse) := engine_call (removeAsync queue_stopped req).
Definition trans_branch (req : TransRequest) : M StoreApp (Served StoreResponse) := engine_call (transAsync queue_stopped req).

(** A command of an unknown type is answered at once. *)
Definition generate_branch (cmdType : CommandType) (req : GenerateRequest) : M StoreApp (Served StoreResponse) :=
  match cmdType with
  | TRANSFER => engine_call (exeCustomCommand queue_stopped (KVGenerateCommand.command req))
  | INVALID => ret (Answer (CodeResp RC_BAD_REQUEST))
  end.

(** There are no objects for batches. *)
Definition store_serve (req : StoreRequest) : M StoreApp (Served StoreResponse) :=
  match req with
  | ConnectReq header => connect_branch header
  | GetReq req => get_branch req
  | PutReq req => put_branch req
  | DeleteReq req => delete_branch req
  | TransReq req => trans_branch req
  | GenerateReq cmdType req => generate_branch cmdType req
  | StartMigrationReq status route task => migration_call (startMigrationCall maxTaskID status route task)
  | EndMigrationReq status route task => migration_call (endMigrationCall status route task)
  | ExeBatchReq _ | MigrateBatchReq _ => stop Undefined
  end.

#[local] Instance store_service : Service StoreRpc StoreRequest StoreResponse StoreApp :=
  {| rpc_of := store_rpc; empty_request := empty_store_request; serve := store_serve |}.

(** The objects [run] creates, in order. *)
Definition store_rpcs : list StoreRpc := [Connect; Get; Put; Delete; Transaction; GenerateKV; StartMigration; EndMigration].

(** 2000 of each, for each completion queue. *)
Definition run_store (concurrency : nat) := run_receiver (Rpc := StoreRpc) (App := StoreApp) (2000 * concurrency) store_rpcs.

(** A command is submitted or answered as long as there are workers. *)
Lemma exeCustomCommand_completes (cmd : Command S) c (e : KVEngineImpl Q) :
  mWorkers (mCommandProcessExecutionService e) <> [] ->
  is_Some (Command.fillResponseAndReply cmd RC_GENERAL_ERROR queue_stopped None (initialResponse cmd)) ->
  exists s n e', exeCustomCommand queue_stopped cmd c e = Done (s, n) c e'.
Proof.
  intros Hw [r Hr]. unfold exeCustomCommand. run. unfold submit, getQueueId. set (svc := mCommandProcessExecutionService e) in *.
  assert (length (mWorkers svc) <> 0%nat) as Hlen by (by destruct (mWorkers svc)). rewrite bool_decide_eq_false_2 by done.
  destruct (lookup_lt_is_Some_2 (mWorkers svc) (Z.to_nat (mPointer svc mod Z.of_nat (length (mWorkers svc))))) as [w ->].
  { pose proof (Z.mod_pos_bound (mPointer svc) (Z.of_nat (length (mWorkers svc))) ltac:(lia)). lia. }
  unfold submit_worker. destruct (enqueue _ (mQueue w)); [by eexists _, _, _|]. rewrite Hr. by eexists _, _, _.
Qed.

(** The calls that are given to the engine never stop the process. *)
Theorem engine_calls_complete req c (a : StoreApp) :
  mWorkers (mCommandProcessExecutionService a.1) <> [] ->
  store_rpc req ∈ [Connect; Get; Put; Delete; Transaction; GenerateKV] ->
  exists s a', store_serve req c a = Done s c a'.
Proof.
  intros Hw Hin. assert (forall cmd : Command S, is_Some (Command.fillResponseAndReply cmd RC_GENERAL_ERROR queue_stopped None (initialResponse cmd)) ->
    exists s a', engine_call (exeCustomCommand queue_stopped cmd) c a = Done s c a') as H.
  { intros cmd Hf. destruct (exeCustomCommand_completes cmd c a.1 Hw Hf) as (s & n & e' & He). unfold engine_call, zoom, bind. rewrite He. by eexists _, _. }
  apply list_elem_of_In in Hin. cbn in Hin.
  destruct req as [h|q|q|q|q|[]|? ? ?|? ? ?|q|q]; cbn in Hin; try naive_solver; try (apply H; by eexists).
Qed.

(** No batch is ever accepted: there are no objects for [ExeBatch] and [MigrateBatch], though service.proto declares
    both and the export of keys to another cluster calls the second. *)
Theorem batches_are_not_served concurrency a c r0 r tag req :
  run_store concurrency c (new_Receiver a) = Done tt c r0 -> rtc step r0 r -> (tag, req) ∈ accepted r ->
  store_rpc req <> ExeBatch /\ store_rpc req <> MigrateBatch.
Proof.
  intros Hrun Hsteps Hin. pose proof (accepted_kinds _ _ a c r0 r tag req Hrun Hsteps Hin) as H. cbn in H. unfold store_rpcs in H.
  apply list_elem_of_In in H. cbn in H. split; intros Heq; rewrite Heq in H; naive_solver.
Qed.

End Store.

(** ** The object manager *)

Inductive ManagerRpc := Router | OnStartup | OnMigration | AddCluster | RemoveCluster.

#[global] Instance ManagerRpc_eq_dec : EqDecision ManagerRpc.
Proof. solve_decision. Defined.

Inductive ManagerRequest :=
| RouterReq
| OnStartupReq (servers : ClusterAddress)
| OnMigrationReq (progress : MigrationProgress)
| AddClusterReq (servers : ClusterAddress)
| RemoveClusterReq (servers : ClusterAddress).

Definition manager_rpc (req : ManagerRequest) : ManagerRpc :=
  match req with
  | RouterReq => Router | OnStartupReq _ => OnStartup | OnMigrationReq _ => OnMigration | AddClusterReq _ => AddCluster
  | RemoveClusterReq _ => RemoveCluster
  end.

Inductive ManagerResponse :=
| HeaderResp (header : ResponseHeader)
| RouterResp (header : ResponseHeader) (route : RouteInfo)
| OnStartupResp (header : ResponseHeader) (status : ClusterStatus) (route : RouteInfo) (task : MigrationTask).

Section Manager.
Context {E : Type} `{!EngineOps E} {CC : ControlCodec} {HASH : StdHash} (virtualNodeCount : nat).

Definition empty_manager_request (rpc : ManagerRpc) : ManagerRequest :=
  match rpc with
  | Router => RouterReq | OnStartup => OnStartupReq [] | OnMigration => OnMigrationReq (mkMigrationProgress 0 NOT_START)
  | AddCluster => AddClusterReq [] | RemoveCluster => RemoveClusterReq []
  end.

Definition manager_serve (req : ManagerRequest) : M (Manager E) (Served ManagerResponse) :=
  match req with
  | RouterReq => let* (header, route) := routerCall virtualNodeCount in ret (Answer (RouterResp header route))
  | OnStartupReq servers =>
      let* (header, status, route, task) := onStartupCall virtualNodeCount servers in ret (Answer (OnStartupResp header status route task))
  | OnMigrationReq progress => let* header := onMigrationCall virtualNodeCount progress in ret (Answer (HeaderResp header))
  | AddClusterReq servers => let* header := addClusterCall servers in ret (Answer (HeaderResp header))
  | RemoveClusterReq servers => let* header := removeClusterCall servers in ret (Answer (HeaderResp header))
  end.

#[local] Instance manager_service : Service ManagerRpc ManagerRequest ManagerResponse (Manager E) :=
  {| rpc_of := manager_rpc; empty_request := empty_manager_request; serve := manager_serve |}.

Definition manager_rpcs : list ManagerRpc := [Router; OnStartup; OnMigration; AddCluster; RemoveCluster].

Definition run_manager (concurrency : nat) := run_receiver (Rpc := ManagerRpc) (App := Manager E) (2000 * concurrency) manager_rpcs.

End Manager.
