(* ===== verification/ManagerClient.v ===== *)
(** * The client of the object manager

    [network::ObjectManagerClient] (object-store/network/ObjectManagerClient.cpp, AsyncClientCall.h): a node of the
    object store reports to the object manager, and asks it, over one of several addresses. Calls are asynchronous:
    any number is on its way, each with its callback, and the thread of the client takes up their results in
    any order. A result from a node that is not available or does not lead sends the call again, to the next
    address; every other one goes to the callback. *)

From Stdlib Require Import Ascii.
From S2P Require Import Prelude Config Status Proto ControlProto RetryClient Services.

(** ** The client *)

(** The requests it sends, by [AsyncRequestType]. *)
Inductive ManagerCall :=
| ADD_CLUSTER (servers : ClusterAddress)
| ROUTER
| REPORT_STARTUP (servers : ClusterAddress)
| REPORT_MIGRATION (progress : MigrationProgress).

(** [call->mResponse] before anything was received. *)
Definition no_response (call : ManagerCall) : ManagerResponse :=
  match call with
  | ADD_CLUSTER _ | REPORT_MIGRATION _ => HeaderResp empty_header
  | ROUTER => RouterResp empty_header empty_route
  | REPORT_STARTUP _ => OnStartupResp empty_header INIT empty_route empty_task
  end.

Definition resp_code (r : ManagerResponse) : ResponseCode :=
  match r with HeaderResp h | RouterResp h _ | OnStartupResp h _ _ _ => h_code h end.

(** [AsyncClientCall]: the request, the callback by its number, and the address it was sent to. *)
Record AsyncClientCall := mkAsyncCall { mCall : ManagerCall; mCB : nat; sentTo : string }.

(** A stub is the address of its channel. [mRetry] are [mCurRetry], [mCurStubIndex] and the number of stubs; [calls] are
    on their way, [delivered] is what the callbacks got, [queries] counts the questions to the name service. *)
Record ObjectManagerClient := mkOMClient {
  mManagerAddresses : list string;
  mResolvedManagerAddresses : list string;
  mStubs : list (option string);
  mRetry : RetryClient;
  mRunning : bool;
  calls : list AsyncClientCall;
  delivered : list (nat * ManagerResponse);
  queries : nat;
}.

Definition set_calls (l : list AsyncClientCall) (o : ObjectManagerClient) : ObjectManagerClient :=
  mkOMClient (mManagerAddresses o) (mResolvedManagerAddresses o) (mStubs o) (mRetry o) (mRunning o) l (delivered o) (queries o).

Definition set_retry (r : RetryClient) (o : ObjectManagerClient) : ObjectManagerClient :=
  mkOMClient (mManagerAddresses o) (mResolvedManagerAddresses o) (mStubs o) r (mRunning o) (calls o) (delivered o) (queries o).

Section Client.
Context {NS : NameService}.

(** [refressChannel]; the second look under the lock sees what the first one saw. *)
Definition refressChannel (addrIndex : nat) : M ObjectManagerClient unit :=
  let* o := get in
  assert_ (bool_decide (addrIndex < length (mManagerAddresses o))%nat) ;;;
  assert_ (bool_decide (addrIndex < length (mResolvedManagerAddresses o))%nat) ;;;
  assert_ (bool_decide (addrIndex < length (mStubs o))%nat) ;;;
  match mManagerAddresses o !! addrIndex with
  | None => stop Undefined
  | Some addr =>
      match StrSplit "@" addr with
      | [_; domain] =>
          match resolve (queries o) domain with
          | None => stop Undefined
          | Some newResolvedAddress =>
              let changed := bool_decide (mResolvedManagerAddresses o !! addrIndex <> Some newResolvedAddress) in
              put (mkOMClient (mManagerAddresses o)
                     (if changed then <[addrIndex := newResolvedAddress]> (mResolvedManagerAddresses o) else mResolvedManagerAddresses o)
                     (if changed then <[addrIndex := Some newResolvedAddress]> (mStubs o) else mStubs o)
                     (mRetry o) (mRunning o) (calls o) (delivered o) (S (queries o)))
          end
      | _ => stop AssertFail
      end
  end.

(** The constructor. *)
Definition new_client (objectManagerAddr : string) (query : nat) : M ObjectManagerClient unit :=
  let addresses := StrSplit "," objectManagerAddr in
  let n := length addresses in
  put (mkOMClient addresses (replicate n "") (replicate n None) (new_RetryClient n) true [] [] query) ;;;
  forM (seq 0 n) refressChannel.

(** What the four calls do: the current stub, which is not looked at before it is used. *)
Definition start_call (call : ManagerCall) (cb : nat) : M ObjectManagerClient unit :=
  let* o := get in
  match mStubs o !! Z.to_nat (mCurStubIndex (mRetry o)) with
  | Some (Some addr) => put (set_calls (calls o ++ [mkAsyncCall call cb addr]) o)
  | _ => stop Undefined
  end.

Definition addCluster (servers : ClusterAddress) (cb : nat) : M ObjectManagerClient unit := start_call (ADD_CLUSTER servers) cb.
Definition requestRouteInfo (cb : nat) : M ObjectManagerClient unit := start_call ROUTER cb.
Definition reportStartup (servers : ClusterAddress) (cb : nat) : M ObjectManagerClient unit := start_call (REPORT_STARTUP servers) cb.
Definition reportMigrationProgress (progress : MigrationProgress) (cb : nat) : M ObjectManagerClient unit :=
  start_call (REPORT_MIGRATION progress) cb.

(** The call of the kind again. *)
Definition call_again (call : ManagerCall) (cb : nat) : M ObjectManagerClient unit :=
  match call with
  | ADD_CLUSTER servers => addCluster servers cb
  | ROUTER => requestRouteInfo cb
  | REPORT_STARTUP servers => reportStartup servers cb
  | REPORT_MIGRATION progress => reportMigrationProgress progress cb
  end.

Definition deliver (cb : nat) (resp : ManagerResponse) : M ObjectManagerClient unit :=
  modify (fun o => mkOMClient (mManagerAddresses o) (mResolvedManagerAddresses o) (mStubs o) (mRetry o) (mRunning o) (calls o)
                              (delivered o ++ [(cb, resp)]) (queries o)).

(** What the response holds when the call is over. *)
Definition received_by (call : ManagerCall) (g : GrpcCode) (resp : ManagerResponse) : ManagerResponse :=
  received (no_response call) (g, resp).

(** A turn of [clientLoopMain] on a call that ended with status [g]. *)
Definition clientLoop (call : AsyncClientCall) (g : GrpcCode) (resp : ManagerResponse) : M ObjectManagerClient unit :=
  let* o := get in
  if mRunning o then
    (if bool_decide (g <> GRPC_OK) then refressChannel (Z.to_nat (mCurStubIndex (mRetry o))) else ret tt) ;;;
    let r := received_by (mCall call) g resp in
    let* again := zoom mRetry set_retry (needRetry g (resp_code r)) in
    if (again : bool) then call_again (mCall call) (mCB call) else deliver (mCB call) r
  else ret tt.

(** ** Calls and results in any order

    [l] are the numbers of the callbacks so far; a new call has a callback of its own. *)

Inductive step : list nat * ObjectManagerClient -> list nat * ObjectManagerClient -> Prop :=
| step_call l o call c c' o' : call_again call (length l) c o = Done tt c' o' -> step (l, o) (l ++ [length l], o')
| step_result l o l1 call l2 g resp c c' o' :
    calls o = l1 ++ call :: l2 -> clientLoop call g resp c (set_calls (l1 ++ l2) o) = Done tt c' o' -> step (l, o) (l, o').

(** An address [id@host:port]. *)
Definition address_ok (addr : string) : Prop :=
  exists id domain host port rest, StrSplit "@" addr = [id; domain] /\ StrSplit ":" domain = host :: port :: rest.

(** Every stub has a channel to the address its name was resolved to, and the current one is one of them. *)
Record client_wf (o : ObjectManagerClient) : Prop := {
  wf_addresses : Forall address_ok (mManagerAddresses o);
  wf_resolved : length (mResolvedManagerAddresses o) = length (mManagerAddresses o);
  wf_stubs : mStubs o = Some <$> mResolvedManagerAddresses o;
  wf_count : RetryClient.mStubs (mRetry o) = length (mManagerAddresses o);
  wf_index : 0 <= mCurStubIndex (mRetry o) < Z.of_nat (length (mManagerAddresses o));
  wf_running : mRunning o = true;
}.

Lemma resolve_some query domain host port rest : StrSplit ":" domain = host :: port :: rest ->
  exists a, resolve query domain = Some a /\ a <> "".
Proof.
  intros H. unfold resolve. rewrite H. eexists. split; [done|]. by destruct (getIpByHostname query host).
Qed.

(** The channel is made or kept; it is new where there was none. *)
Lemma refressChannel_run i c o addr r st :
  mManagerAddresses o !! i = Some addr -> address_ok addr ->
  mResolvedManagerAddresses o !! i = Some r -> mStubs o !! i = Some st -> (r = "" \/ st = Some r) ->
  exists a, refressChannel i c o = Done tt c (mkOMClient (mManagerAddresses o) (<[i := a]> (mResolvedManagerAddresses o))
    (<[i := Some a]> (mStubs o)) (mRetry o) (mRunning o) (calls o) (delivered o) (S (queries o))).
Proof.
  intros Ha (id & domain & host & port & rest & H1 & H2) Hr Hst Hcase. unfold refressChannel. run.
  pose proof (lookup_lt_Some _ _ _ Ha). pose proof (lookup_lt_Some _ _ _ Hr). pose proof (lookup_lt_Some _ _ _ Hst).
  rewrite !bool_decide_eq_true_2 by done. rewrite Ha, H1. destruct (resolve_some (queries o) _ _ _ _ H2) as (a & -> & Hne).
  exists a. case_bool_decide as Hc; [done|]. rewrite Hr in Hc. injection Hc as ->.
  destruct Hcase as [-> | ->]; [done|]. by rewrite !list_insert_id.
Qed.

(** The state of the constructor after the first channels. *)
Lemma refress_all k n c o : (k + n)%nat = length (mManagerAddresses o) -> Forall address_ok (mManagerAddresses o) ->
  length (mResolvedManagerAddresses o) = length (mManagerAddresses o) -> length (mStubs o) = length (mManagerAddresses o) ->
  (forall i, (i < k)%nat -> mStubs o !! i = Some <$> mResolvedManagerAddresses o !! i) ->
  (forall i, (k <= i < k + n)%nat -> mResolvedManagerAddresses o !! i = Some "") ->
  exists o', forM (seq k n) refressChannel c o = Done tt c o' /\ mStubs o' = Some <$> mResolvedManagerAddresses o' /\
    length (mResolvedManagerAddresses o') = length (mManagerAddresses o) /\ mManagerAddresses o' = mManagerAddresses o /\
    mRetry o' = mRetry o /\ mRunning o' = mRunning o /\ calls o' = calls o /\ delivered o' = delivered o.
Proof.
  revert k o. induction n as [|n IH]; intros k o Hk Hok Hr Hs Hdone Htodo.
  { exists o. split_and!; try done. apply list_eq. intros i. rewrite list_lookup_fmap.
    destruct (decide (i < k)%nat); [by apply Hdone|]. rewrite !lookup_ge_None_2; [done|lia|lia]. }
  destruct (lookup_lt_is_Some_2 (mManagerAddresses o) k) as [addr Ha]; [lia|].
  destruct (lookup_lt_is_Some_2 (mStubs o) k) as [st Hst]; [lia|].
  destruct (refressChannel_run k c o addr "" st Ha (proj1 (Forall_lookup _ _) Hok _ _ Ha) (Htodo k ltac:(lia)) Hst (or_introl eq_refl)) as [a Hrun].
  cbn [seq forM]. erewrite bind_Done by exact Hrun. edestruct (IH (S k)) as (o' & -> & Ho'); [..|exists o'; split; [reflexivity|]; exact Ho'];
    cbn; rewrite ?length_insert; try done; [lia| |].
  - intros i Hi. destruct (decide (i = k)) as [->|]; [rewrite !list_lookup_insert_eq by lia; done|].
    rewrite !list_lookup_insert_ne by lia. apply Hdone. lia.
  - intros i Hi. rewrite list_lookup_insert_ne by lia. apply Htodo. lia.
Qed.

Lemma StrSplit_nonempty d s : StrSplit d s <> [].
Proof. induction s as [|a s IH]; [done|]. cbn. case_bool_decide; [done|]. by destruct (StrSplit d s). Qed.

Lemma new_client_run conf query c o : Forall address_ok (StrSplit "," conf) ->
  exists o', new_client conf query c o = Done tt c o' /\ client_wf o' /\ calls o' = [] /\ delivered o' = [].
Proof.
  intros Hok. unfold new_client. run. set (l := StrSplit "," conf) in *.
  destruct (refress_all 0 (length l) c (mkOMClient l (replicate (length l) "") (replicate (length l) None) (new_RetryClient (length l)) true [] [] query))
    as (o' & -> & Hst & Hlen & Ha & Hr & Hrun & Hc & Hd); cbn; rewrite ?length_replicate; try done.
  { intros i Hi. lia. }
  { intros i Hi. apply lookup_replicate_2. lia. }
  cbn in *. exists o'. split; [done|]. split; [|done]. assert (0 < length l)%nat by (pose proof (StrSplit_nonempty "," conf); destruct l eqn:E; [done|cbn; lia]).
  split; rewrite ?Ha, ?Hr, ?Hrun; cbn; try done; lia.
Qed.

Lemma start_call_run call cb c o : client_wf o ->
  exists addr, addr ∈ mResolvedManagerAddresses o /\ call_again call cb c o = Done tt c (set_calls (calls o ++ [mkAsyncCall call cb addr]) o).
Proof.
  intros Hwf. destruct (lookup_lt_is_Some_2 (mResolvedManagerAddresses o) (Z.to_nat (mCurStubIndex (mRetry o)))) as [addr Ha].
  { rewrite (wf_resolved _ Hwf). pose proof (wf_index _ Hwf). lia. }
  exists addr. split; [by eapply list_elem_of_lookup_2|].
  assert (start_call call cb c o = Done tt c (set_calls (calls o ++ [mkAsyncCall call cb addr]) o)) as H.
  { unfold start_call. run. by rewrite (wf_stubs _ Hwf), list_lookup_fmap, Ha. }
  by destruct call.
Qed.

(** A failed call looks its name up again; nothing else changes. *)
Lemma refress_current c o : client_wf o ->
  exists o', refressChannel (Z.to_nat (mCurStubIndex (mRetry o))) c o = Done tt c o' /\ client_wf o' /\ calls o' = calls o /\ delivered o' = delivered o.
Proof.
  intros Hwf. pose proof (wf_index _ Hwf) as Hi. destruct (lookup_lt_is_Some_2 (mManagerAddresses o) (Z.to_nat (mCurStubIndex (mRetry o)))) as [addr Ha]; [lia|].
  destruct (lookup_lt_is_Some_2 (mResolvedManagerAddresses o) (Z.to_nat (mCurStubIndex (mRetry o)))) as [r Hr]; [rewrite (wf_resolved _ Hwf); lia|].
  assert (mStubs o !! Z.to_nat (mCurStubIndex (mRetry o)) = Some (Some r)) as Hs by (by rewrite (wf_stubs _ Hwf), list_lookup_fmap, Hr).
  destruct (refressChannel_run _ c o addr r (Some r) Ha (proj1 (Forall_lookup _ _) (wf_addresses _ Hwf) _ _ Ha) Hr Hs (or_intror eq_refl)) as [a Hrun].
  eexists. split; [exact Hrun|]. split; [|done]. split; cbn; rewrite ?length_insert; try apply Hwf.
  by rewrite (wf_stubs _ Hwf), list_fmap_insert.
Qed.

Lemma client_needRetry g code c o : client_wf o ->
  exists o', zoom mRetry set_retry (needRetry g code) c o = Done (bool_decide (g = UNAVAILABLE \/ code = RC_NOT_LEADER)) c o' /\
    client_wf o' /\ calls o' = calls o /\ delivered o' = delivered o.
Proof.
  intros Hwf. pose proof (wf_count _ Hwf) as Hn. pose proof (wf_index _ Hwf) as Hi. unfold needRetry. case_bool_decide; run.
  - rewrite bool_decide_eq_false_2 by lia. eexists. split; [reflexivity|]. split; [|done]. split; cbn; try apply Hwf.
    rewrite <- Hn. apply Z.mod_pos_bound. lia.
  - eexists. split; [reflexivity|]. split; [|done]. by destruct o, Hwf.
Qed.

(** A turn of the loop, as it ends: the call is on its way again, or its callback was called. *)
Lemma clientLoop_run call g resp c o : client_wf o ->
  exists o', clientLoop call g resp c o = Done tt c o' /\ client_wf o' /\
    (g = UNAVAILABLE \/ resp_code (received_by (mCall call) g resp) = RC_NOT_LEADER ->
      exists addr, calls o' = calls o ++ [mkAsyncCall (mCall call) (mCB call) addr] /\ addr ∈ mResolvedManagerAddresses o' /\ delivered o' = delivered o) /\
    (~ (g = UNAVAILABLE \/ resp_code (received_by (mCall call) g resp) = RC_NOT_LEADER) ->
      calls o' = calls o /\ delivered o' = delivered o ++ [(mCB call, received_by (mCall call) g resp)]).
Proof.
  intros Hwf. unfold clientLoop. cbn [bind get]. rewrite (wf_running _ Hwf).
  assert (exists o1, (if bool_decide (g <> GRPC_OK) then refressChannel (Z.to_nat (mCurStubIndex (mRetry o))) else ret tt) c o = Done tt c o1 /\
    client_wf o1 /\ calls o1 = calls o /\ delivered o1 = delivered o) as (o1 & Hfirst & Hwf1 & Hc1 & Hd1).
  { case_bool_decide; [by apply refress_current|by exists o]. }
  erewrite bind_Done by exact Hfirst. cbv zeta.
  destruct (client_needRetry g (resp_code (received_by (mCall call) g resp)) c o1 Hwf1) as (o2 & Hneed & Hwf2 & Hc2 & Hd2).
  erewrite bind_Done by exact Hneed. case_bool_decide as Hagain.
  - destruct (start_call_run (mCall call) (mCB call) c o2 Hwf2) as (addr & Hin & ->). eexists. split; [reflexivity|].
    split; [by destruct Hwf2|]. split; [|done]. intros _. exists addr. cbn. by rewrite Hc2, Hc1, Hd2, Hd1.
  - eexists. split; [reflexivity|]. split; [by destruct Hwf2|]. split; [done|]. intros _. cbn. by rewrite Hc2, Hc1, Hd2, Hd1.
Qed.

(** What holds of a client and the callbacks so far. *)
Record client_ok (l : list nat) (o : ObjectManagerClient) : Prop := {
  co_wf : client_wf o;
  co_numbers : l = seq 0 (length l);
  co_calls : l ≡ₚ (mCB <$> calls o) ++ (delivered o).*1;
  co_final : Forall (fun x => resp_code x.2 <> RC_NOT_LEADER) (delivered o);
}.

Lemma client_step_ok x y : step x y -> client_ok x.1 x.2 -> client_ok y.1 y.2.
Proof.
  intros [l o call c c' o' Hrun|l o l1 call l2 g resp c c' o' Hl Hrun] [Hwf Hnum Hcalls Hfin]; cbn [fst snd] in *.
  - destruct (start_call_run call (length l) c o Hwf) as (addr & _ & E). rewrite E in Hrun. injection Hrun as _ <-.
    split; cbn; [by destruct Hwf| |rewrite fmap_app; cbn|done].
    + rewrite length_app, seq_app. cbn. by rewrite <- Hnum.
    + rewrite Hcalls. solve_Permutation.
  - assert (client_wf (set_calls (l1 ++ l2) o)) as Hwf' by by destruct Hwf.
    destruct (clientLoop_run call g resp c _ Hwf') as (o1 & E & Hwf1 & Hyes & Hno). rewrite E in Hrun. injection Hrun as _ <-.
    rewrite Hl, fmap_app in Hcalls. cbn in Hcalls, Hyes, Hno.
    destruct (decide (g = UNAVAILABLE \/ resp_code (received_by (mCall call) g resp) = RC_NOT_LEADER)) as [Ha|Ha].
    + destruct (Hyes Ha) as (addr & Hc & _ & Hd). split; [done|done| |by rewrite Hd]. rewrite Hc, Hd, !fmap_app, Hcalls. cbn. solve_Permutation.
    + destruct (Hno Ha) as [Hc Hd]. split; [done|done| |].
      * rewrite Hc, Hd, !fmap_app, Hcalls. cbn. solve_Permutation.
      * rewrite Hd. apply Forall_app. split; [done|]. constructor; [cbn; tauto|constructor].
Qed.

(** However calls and their results follow each other, no step of the client fails, every stub has a channel to what its
    name was last resolved to; every callback is called at most once, with what a leader or a failure other than an
    unavailable node left, and until then its call is on its way. *)
Theorem every_call_is_on_its_way_or_over conf query c o :
  Forall address_ok (StrSplit "," conf) ->
  exists o0, new_client conf query c o = Done tt c o0 /\
  forall l o', rtc step ([], o0) (l, o') ->
    mStubs o' = Some <$> mResolvedManagerAddresses o' /\
    NoDup ((mCB <$> calls o') ++ (delivered o').*1) /\
    (forall cb, (cb < length l)%nat -> cb ∈ mCB <$> calls o' \/ exists r, (cb, r) ∈ delivered o' /\ resp_code r <> RC_NOT_LEADER) /\
    (forall call cb c', exists o2, call_again call cb c' o' = Done tt c' o2) /\
    (forall l1 call l2 g resp c', calls o' = l1 ++ call :: l2 -> exists o2, clientLoop call g resp c' (set_calls (l1 ++ l2) o') = Done tt c' o2).
Proof.
  intros Hok. destruct (new_client_run conf query c o Hok) as (o0 & Hnew & Hwf0 & Hc0 & Hd0). exists o0. split; [done|].
  intros l o' Hsteps. assert (client_ok l o') as [Hwf Hnum Hcalls Hfin].
  { change (client_ok (l, o').1 (l, o').2). remember ([], o0) as x0 eqn:Hx. assert (client_ok x0.1 x0.2) as H0.
    { subst. split; cbn; rewrite ?Hc0, ?Hd0; done. }
    clear Hx. induction Hsteps as [|? ? ? Hst _ IH]; [done|]. by apply IH, (client_step_ok _ _ Hst). }
  split_and!.
  - apply Hwf.
  - rewrite <- Hcalls, Hnum. apply NoDup_seq.
  - intros cb Hcb. assert (cb ∈ l) as Hin by (rewrite Hnum; apply elem_of_seq; lia). rewrite Hcalls, elem_of_app in Hin.
    destruct Hin as [Hin|([? r] & -> & Hin)%list_elem_of_fmap]; [by left|]. right. exists r. split; [done|].
    rewrite Forall_forall in Hfin. apply (Hfin _ Hin).
  - intros call cb c'. destruct (start_call_run call cb c' o' Hwf) as (addr & _ & ->). eauto.
  - intros l1 call l2 g resp c' _. destruct (clientLoop_run call g resp c' (set_calls (l1 ++ l2) o')) as (o2 & -> & _); [by destruct Hwf|]. eauto.
Qed.

End Client.
