(* ===== verification/ClusterSetSpec.v ===== *)
(** * The configuration stays consistent

    The invariant of the configuration the object manager keeps, [config_ok]: the global info lists the
    clusters, each is stored, and every server of a cluster is recorded as a server of that
    cluster, so that no server is in two. Requests are served by concurrent managers, each
    on what it loaded; [configuration_stays_consistent] shows that, whatever the others do
    in between, a request leaves the configuration consistent, and as another request may find it. *)

From S2P Require Import Prelude OrderedMap Status Proto KVStore ControlProto HashRing KVGenerateCommand TransSpec.
From S2P Require Import ConcurInMemoryKVStore EngineContract ClusterSet.

(** ** Keys *)

Definition reserved (k : string) : Prop := String.prefix "/kv_manager/" k = true.

Lemma to_string_inj n1 n2 : 0 <= n1 -> 0 <= n2 -> to_string n1 = to_string n2 -> n1 = n2.
Proof.
  intros H1 H2 E. destruct (to_string_shape n1 H1) as (a & s & d & E1 & _ & <-).
  destruct (to_string_shape n2 H2) as (a' & s' & d' & E2 & _ & <-). congruence.
Qed.

Lemma to_string_nonempty n : 0 <= n -> to_string n <> "".
Proof. intros H. destruct (to_string_shape n H) as (a & s & d & -> & _). done. Qed.

Lemma app_inj_l (p s1 s2 : string) : p +:+ s1 = p +:+ s2 -> s1 = s2.
Proof. induction p as [|a p IH]; cbn; [done|]. intros [= H]. by apply IH. Qed.

Lemma clusterKey_inj i j : 0 <= i -> 0 <= j -> buildClusterKey i = buildClusterKey j -> i = j.
Proof. intros Hi Hj E. apply to_string_inj; [done..|]. by eapply app_inj_l. Qed.

Lemma clusterKey_reserved i : reserved (buildClusterKey i).
Proof. unfold reserved, buildClusterKey, KEY_CLUSTER_INFO_PREFIX. cbn. by destruct (to_string i). Qed.

Lemma globalKey_reserved : reserved KEY_CLUSTER_GLOBAL_INFO.
Proof. reflexivity. Qed.

Lemma clusterKey_not_global i : buildClusterKey i <> KEY_CLUSTER_GLOBAL_INFO.
Proof. discriminate. Qed.

(** ** The invariant *)

Abbreviation CMap := (gmap string (string * Z)) (only parsing).

Section Config.
Context {CC : ControlCodec} `{!ControlCodecLaws CC}.
Implicit Types (m : CMap) (g : ClusterSetGlobalInfo).

Definition cluster_at m (id : Z) (info : ClusterInfo) (ver : Z) : Prop :=
  exists x, m !! buildClusterKey id = Some (x, ver) /\ parseCluster x = Some info.

(** The cluster is stored and its servers are recorded as its own. *)
Definition cluster_ok m (id : Z) : Prop :=
  exists info ver, cluster_at m id info ver /\
    Forall (fun h => ~ reserved h /\ fst <$> m !! h = Some (to_string id)) (ci_addr info).

Record global_ok m g : Prop := {
  ids_distinct : NoDup (g_clusterIds g);
  ids_range : Forall (fun id => 0 <= id < 2 ^ 32) (g_clusterIds g);
  no_migrations : g_migrationTaskIds g = [];
  clusters_ok : Forall (cluster_ok m) (g_clusterIds g);
}.

Definition config_ok m : Prop :=
  match m !! KEY_CLUSTER_GLOBAL_INFO with
  | None => True
  | Some (x, _) => exists g, parseGlobal x = Some g /\ global_ok m g
  end.

(** The version of the global info, which every change of the configuration moves on. *)
Definition gver m : Z := default 0 (snd <$> m !! KEY_CLUSTER_GLOBAL_INFO).

Definition evolved m m1 : Prop := m1 = m \/ config_ok m1 /\ gver m < gver m1.

#[export] Instance evolved_preorder : PreOrder evolved.
Proof.
  split; [by left|]. intros m1 m2 m3 [->|[H1 H2]] [->|[H3 H4]]; [by left|by right|by right|]. right. split; [done|lia].
Qed.

Lemma evolved_ok m m1 : config_ok m -> evolved m m1 -> config_ok m1.
Proof. by intros H [->|[H1 _]]. Qed.

(** Nothing happened while the version is the same. *)
Lemma evolved_same m m1 m2 : evolved m m1 -> evolved m1 m2 -> gver m2 = gver m -> m1 = m /\ m2 = m.
Proof. intros [->|[_ H1]] [->|[_ H2]] E; [done|lia..]. Qed.

(** Two clusters share no server. *)
Lemma one_cluster_per_server m g id1 id2 info1 info2 ver1 ver2 h :
  global_ok m g -> id1 ∈ g_clusterIds g -> id2 ∈ g_clusterIds g ->
  cluster_at m id1 info1 ver1 -> cluster_at m id2 info2 ver2 -> h ∈ ci_addr info1 -> h ∈ ci_addr info2 -> id1 = id2.
Proof.
  intros [_ Hr _ Hc] H1 H2 (x1 & E1 & P1) (x2 & E2 & P2) Hh1 Hh2. rewrite Forall_forall in Hc. rewrite Forall_forall in Hr.
  destruct (Hc _ H1) as (i1 & v1 & (y1 & F1 & G1) & S1). destruct (Hc _ H2) as (i2 & v2 & (y2 & F2 & G2) & S2).
  rewrite Forall_forall in S1. rewrite Forall_forall in S2.
  assert (i1 = info1) as -> by congruence. assert (i2 = info2) as -> by congruence.
  destruct (S1 h Hh1) as [_ T1]. destruct (S2 h Hh2) as [_ T2].
  apply to_string_inj; [by apply Hr|by apply Hr|congruence].
Qed.

(** ** What an update writes *)

Definition hosts_put (hosts : list string) (x : string) (v : Z) m : CMap :=
  fold_left (fun m h => <[h := (x, v)]> m) hosts m.

Lemma hosts_put_lookup hosts x v : forall m k,
  hosts_put hosts x v m !! k = if bool_decide (k ∈ hosts) then Some (x, v) else m !! k.
Proof.
  induction hosts as [|h hosts IH]; intros m k; [by rewrite bool_decide_eq_false_2 by set_solver|].
  cbn. fold (hosts_put hosts x v (<[h := (x, v)]> m)). rewrite IH. destruct (decide (k ∈ hosts)) as [Hin|Hin].
  - by rewrite !bool_decide_eq_true_2 by set_solver.
  - rewrite (bool_decide_eq_false_2 _ Hin). destruct (decide (k = h)) as [->|Hne].
    + by rewrite lookup_insert_eq, bool_decide_eq_true_2 by set_solver.
    + by rewrite lookup_insert_ne, bool_decide_eq_false_2 by set_solver.
Qed.

(** One cluster is written, its new servers are recorded, and the global info. *)
Definition updated (hosts : list string) (id : Z) (info : ClusterInfo) g (v : Z) m : CMap :=
  <[KEY_CLUSTER_GLOBAL_INFO := (serializeGlobal g, v)]>
    (<[buildClusterKey id := (serializeCluster info, v)]> (hosts_put hosts (to_string id) v m)).

Lemma updated_global hosts id info g v m :
  updated hosts id info g v m !! KEY_CLUSTER_GLOBAL_INFO = Some (serializeGlobal g, v).
Proof. apply lookup_insert_eq. Qed.

Lemma updated_cluster hosts id info g v m :
  updated hosts id info g v m !! buildClusterKey id = Some (serializeCluster info, v).
Proof. unfold updated. rewrite lookup_insert_ne by (intros E; by apply (clusterKey_not_global id)). apply lookup_insert_eq. Qed.

Lemma updated_host hosts id info g v m h :
  ~ reserved h ->
  updated hosts id info g v m !! h = if bool_decide (h ∈ hosts) then Some (to_string id, v) else m !! h.
Proof.
  intros Hh. unfold updated.
  rewrite !lookup_insert_ne by (intros <-; apply Hh; first [apply clusterKey_reserved|apply globalKey_reserved]).
  apply hosts_put_lookup.
Qed.

Lemma updated_other hosts id info g v m id' :
  0 <= id -> 0 <= id' -> id' <> id -> Forall (fun h => ~ reserved h) hosts ->
  updated hosts id info g v m !! buildClusterKey id' = m !! buildClusterKey id'.
Proof.
  intros H1 H2 Hne Hh. unfold updated. rewrite lookup_insert_ne by (intros E; by apply (clusterKey_not_global id')).
  rewrite lookup_insert_ne by (intros E; by apply Hne, clusterKey_inj). rewrite hosts_put_lookup.
  rewrite bool_decide_eq_false_2; [done|]. rewrite Forall_forall in Hh. intros Hin. apply (Hh _ Hin), clusterKey_reserved.
Qed.

Lemma updated_ok hosts id info g v m :
  0 <= id -> NoDup (g_clusterIds g) -> Forall (fun id => 0 <= id < 2 ^ 32) (g_clusterIds g) -> g_migrationTaskIds g = [] ->
  Forall (fun h => ~ reserved h) hosts ->
  Forall (fun h => ~ reserved h /\ (h ∈ hosts \/ fst <$> m !! h = Some (to_string id))) (ci_addr info) ->
  (forall id', id' ∈ g_clusterIds g -> id' <> id -> cluster_ok m id' /\
    forall h, h ∈ hosts -> fst <$> m !! h <> Some (to_string id')) ->
  config_ok (updated hosts id info g v m).
Proof.
  intros Hid Hnd Hr Hmig Hres Hown Hothers. unfold config_ok. rewrite updated_global. exists g. split; [apply parse_global|].
  constructor; [done..|]. rewrite Forall_forall in Hr. apply Forall_forall. intros id' Hid'.
  destruct (decide (id' = id)) as [->|Hne].
  - exists info, v. split; [eexists; split; [apply updated_cluster|apply parse_cluster]|].
    eapply Forall_impl; [exact Hown|]. intros h [Hh Hin]. split; [done|]. rewrite updated_host by done.
    case_bool_decide; [done|]. naive_solver.
  - destruct (Hothers id' Hid' Hne) as ((info' & ver & (x & Hx & Hp) & Hs) & Hdis). exists info', ver. split.
    + exists x. split; [|done]. rewrite updated_other by (first [done|by apply Hr]). done.
    + eapply Forall_impl; [exact Hs|]. intros h [Hh Hin]. split; [done|]. rewrite updated_host by done.
      rewrite bool_decide_eq_false_2; [done|]. intros Hin'. by apply (Hdis h).
Qed.

End Config.

(** ** Transactions of a manager *)

Definition exist_cond (ex : bool) (k : string) : Precondition := ExistCond k ex.
Definition write_pair (kx : string * string) : ReadWriteEntry := write_entry kx.1 kx.2.

(** A request that only checks and reads. *)
Lemma load_fold (f : Z -> string) ids : forall req,
  fold_left (fun req id => add_entry (read_entry (f id)) (add_precond (ExistCond (f id) true) req)) ids req =
  mkTransRequest (tq_header req) (tq_preconds req ++ (exist_cond true <$> (f <$> ids)))
    (tq_entries req ++ (read_entry <$> (f <$> ids))) (tq_isMetaReturned req) (tq_allowStale req).
Proof.
  induction ids as [|id ids IH]; intros req; cbn; [rewrite !app_nil_r; by destruct req|].
  rewrite IH. cbn. by rewrite <- !app_assoc.
Qed.

Definition load_keys (g : ClusterSetGlobalInfo) : list string :=
  (buildClusterKey <$> g_clusterIds g) ++ (buildMigrationTaskKey <$> g_migrationTaskIds g).

Lemma loadRequest_eq version g :
  loadRequest version g = mkTransRequest (mkReqHeader 0 0)
    (VersionCond KEY_CLUSTER_GLOBAL_INFO version EQUAL :: (exist_cond true <$> load_keys g)) (read_entry <$> load_keys g) false false.
Proof. unfold loadRequest. cbn zeta. rewrite !load_fold. cbn. unfold load_keys. by rewrite !fmap_app. Qed.

Lemma plain_exist ex keys : Forall plain_cond (exist_cond ex <$> keys).
Proof. apply Forall_fmap, Forall_forall. done. Qed.

Lemma plain_reads keys : plain_entries ∅ ∅ (read_entry <$> keys).
Proof. induction keys as [|k keys IH]; [done|]. split; [set_solver|done]. Qed.

Lemma plain_writes kxs : forall written removed, plain_entries written removed (write_pair <$> kxs).
Proof. induction kxs as [|kx kxs IH]; intros written removed; [done|]. split; [done|]. apply IH. Qed.

Lemma aentries_reads v (m : CMap) keys :
  aentries v m (read_entry <$> keys) = ((fun k => ReadRes (read_answer m k)) <$> keys, m).
Proof. induction keys as [|k keys IH]; [done|]. cbn. by rewrite IH. Qed.

Definition puts (v : Z) (kxs : list (string * string)) (m : CMap) : CMap :=
  fold_left (fun m kx => <[kx.1 := (kx.2, v)]> m) kxs m.

Lemma aentries_writes v kxs : forall m : CMap, (aentries v m (write_pair <$> kxs)).2 = puts v kxs m.
Proof.
  induction kxs as [|kx kxs IH]; intros m; [done|]. cbn. specialize (IH (<[kx.1 := (kx.2, v)]> m)).
  destruct (aentries v _ (write_pair <$> kxs)). exact IH.
Qed.

Lemma puts_app v l1 l2 m : puts v (l1 ++ l2) m = puts v l2 (puts v l1 m).
Proof. apply fold_left_app. Qed.

Lemma puts_hosts v hosts x : forall m, puts v ((fun h => (h, x)) <$> hosts) m = hosts_put hosts x v m.
Proof. induction hosts as [|h hosts IH]; intros m; [done|]. apply IH. Qed.

Lemma gver_version (m : CMap) ver : acond m (VersionCond KEY_CLUSTER_GLOBAL_INFO ver EQUAL) = true -> gver m = ver.
Proof. cbn. rewrite bool_decide_eq_true. unfold gver. by intros ->. Qed.

Lemma gver_absent (m : CMap) : acond m (ExistCond KEY_CLUSTER_GLOBAL_INFO false) = true -> gver m = 0.
Proof.
  cbn. unfold gver. destruct (m !! KEY_CLUSTER_GLOBAL_INFO) as [x|]; [|done]. by rewrite bool_decide_eq_true_2 by eauto.
Qed.

(** The requests of a manager: conditions and writes. *)
Definition update_request (conds : list Precondition) (kxs : list (string * string)) : TransRequest :=
  mkTransRequest (mkReqHeader 0 0) conds (write_pair <$> kxs) false false.

Lemma add_precond_update cond conds kxs : add_precond cond (update_request conds kxs) = update_request (conds ++ [cond]) kxs.
Proof. reflexivity. Qed.

Lemma add_write_update k x conds kxs :
  add_entry (write_entry k x) (update_request conds kxs) = update_request conds (kxs ++ [(k, x)]).
Proof. unfold update_request. by rewrite fmap_app. Qed.

Lemma plain_update conds kxs : Forall plain_cond conds -> plain_trans (update_request conds kxs).
Proof. intros H. constructor; [done..|apply plain_writes]. Qed.

Section Requests.
Context {CC : ControlCodec}.

Lemma create_update id addrs conds kxs :
  createInTransaction id addrs (update_request conds kxs) =
  update_request (conds ++ exist_cond false (buildClusterKey id) :: (exist_cond false <$> addrs))
    (kxs ++ ((fun h => (h, to_string id)) <$> addrs) ++ [(buildClusterKey id, serializeCluster (mkClusterInfo addrs INIT))]).
Proof.
  unfold createInTransaction. cbn zeta. rewrite add_precond_update.
  assert (forall hosts conds kxs, fold_left (fun req host => add_entry (write_entry host (to_string id))
    (add_precond (ExistCond host false) req)) hosts (update_request conds kxs) =
    update_request (conds ++ (exist_cond false <$> hosts)) (kxs ++ ((fun h => (h, to_string id)) <$> hosts))) as H.
  { intros hosts. induction hosts as [|h hosts IH]; intros cs ks; cbn; [by rewrite !app_nil_r|].
    rewrite add_precond_update, add_write_update, IH. by rewrite <- !app_assoc. }
  rewrite H, add_write_update. by rewrite <- !app_assoc.
Qed.

Lemma update_update addrs cl conds kxs :
  updateClusterInTransaction addrs cl (update_request conds kxs) =
  update_request (conds ++ [exist_cond true (buildClusterKey (mClusterId cl))])
    (kxs ++ ((fun h => (h, to_string (mClusterId cl))) <$> addrs) ++
     [(buildClusterKey (mClusterId cl), serializeCluster (mkClusterInfo addrs (getStatus cl)))]).
Proof.
  unfold updateClusterInTransaction. cbn zeta. rewrite add_precond_update.
  assert (forall hosts conds kxs, fold_left (fun req host => add_entry (write_entry host (to_string (mClusterId cl))) req)
    hosts (update_request conds kxs) =
    update_request conds (kxs ++ ((fun h => (h, to_string (mClusterId cl))) <$> hosts))) as H.
  { intros hosts. induction hosts as [|h hosts IH]; intros cs ks; cbn; [by rewrite !app_nil_r|].
    rewrite add_write_update, IH. by rewrite <- !app_assoc. }
  rewrite H, add_write_update. by rewrite <- !app_assoc.
Qed.

Lemma puts_updated v hosts id info g (m : CMap) :
  puts v (((fun h => (h, to_string id)) <$> hosts) ++ [(buildClusterKey id, serializeCluster info)] ++
          [(KEY_CLUSTER_GLOBAL_INFO, serializeGlobal g)]) m = updated hosts id info g v m.
Proof. rewrite puts_app, puts_hosts. reflexivity. Qed.

End Requests.

Section Runs.
Context {E : Type} `{!EngineOps E} {CC : ControlCodec} `{!ControlCodecLaws CC} `{!EngineLaws E evolved} {HASH : StdHash}.
Implicit Types (m : CMap) (mgr : Manager E).

(** The manager has what [m] stores. *)
Definition loaded m mgr : Prop :=
  mMigrationVector mgr = [] /\ mVersion mgr = gver m /\
  match m !! KEY_CLUSTER_GLOBAL_INFO with
  | None => mClusterSetGlobalInfo mgr = empty_global /\ mClusterVector mgr = []
  | Some (x, _) => parseGlobal x = Some (mClusterSetGlobalInfo mgr) /\
      Forall2 (fun id c => mClusterId c = id /\ cluster_at m id (mClusterInfo c) (mClusterVersion c))
              (g_clusterIds (mClusterSetGlobalInfo mgr)) (mClusterVector mgr)
  end.

(** A manager whose engine has [m] and will have [n] more calls. *)
Definition serving mgr m (v : Z) (n : Z) : Prop := holds (mKVEngine mgr) m v /\ v + n * (slack E + 1) < limit E.

Lemma call_trans req c mgr m v n :
  plain_trans req -> serving mgr m v n -> 1 <= n ->
  exists resp c' e' m1 v1 m2 v2, in_engine (engTrans req) c mgr = Done resp c' (set_engine e' mgr) /\
    evolved m m1 /\ gver m1 < v1 /\ (forall mgr', mKVEngine mgr' = e' -> serving mgr' m2 v2 (n - 1)) /\
    (atrans v1 m1 (tq_preconds req) (tq_entries req) = (h_code (tp_header resp), tp_results resp, m2) \/
     h_code (tp_header resp) <> RC_OK /\ m2 = m1).
Proof.
  intros Hp [Hh Hroom] Hn. pose proof (slack_nonneg E). destruct (holds_versions _ _ _ Hh) as [Hv _].
  destruct (trans_law req c _ m v Hp Hh ltac:(nia)) as (resp & c' & e' & m1 & v1 & m2 & v2 & H1 & H2 & H3 & H4 & H5 & H6 & H7).
  exists resp, c', e', m1, v1, m2, v2. split_and!; [by apply zoom_Done|done| | |done].
  - unfold gver. destruct (m1 !! KEY_CLUSTER_GLOBAL_INFO) as [[x ver]|] eqn:E1; cbn; [apply H4 in E1; lia|lia].
  - intros mgr' <-. split; [done|nia].
Qed.

Lemma call_get req c mgr m v n :
  plain_get req -> serving mgr m v n -> 1 <= n ->
  exists resp c' e' m1 v1, in_engine (engGet req) c mgr = Done resp c' (set_engine e' mgr) /\
    evolved m m1 /\ versions_below m1 v1 /\ (forall mgr', mKVEngine mgr' = e' -> serving mgr' m1 v1 (n - 1)) /\
    (h_code (gp_header resp) = RC_OK -> gp_result resp = read_answer m1 (re_key (gq_entry req))).
Proof.
  intros Hp [Hh Hroom] Hn. pose proof (slack_nonneg E).
  destruct (get_law req c _ m v Hp Hh ltac:(nia)) as (resp & c' & e' & m1 & v1 & H1 & H2 & H3 & H4 & H5).
  exists resp, c', e', m1, v1. split_and!; [by apply zoom_Done|done|by eapply holds_versions| |done].
  intros mgr' <-. split; [done|nia].
Qed.

Lemma call_batch req keys c mgr m v n :
  bq_entries req = read_entry <$> keys -> serving mgr m v n -> 1 <= n ->
  exists resp c' e' m1 v1, in_engine (engExeBatch req) c mgr = Done resp c' (set_engine e' mgr) /\
    evolved m m1 /\ (forall mgr', mKVEngine mgr' = e' -> serving mgr' m1 v1 (n - 1)) /\
    (h_code (bp_header resp) = RC_OK ->
     Forall2 (fun k r => exists mi, evolved m mi /\ evolved mi m1 /\ r = ReadRes (read_answer mi k)) keys (bp_results resp)).
Proof.
  intros Hp [Hh Hroom] Hn. pose proof (slack_nonneg E).
  destruct (batch_law req keys c _ m v Hp Hh ltac:(nia)) as (resp & c' & e' & m1 & v1 & H1 & H2 & H3 & H4 & H5).
  exists resp, c', e', m1, v1. split_and!; [by apply zoom_Done|done| |done].
  intros mgr' <-. split; [done|nia].
Qed.

(** *** Loading *)

Lemma loadClusters_run m ids rest c : forall mgr,
  Forall (cluster_ok m) ids ->
  exists cs, loadClusters ids (((fun id => ReadRes (read_answer m (buildClusterKey id))) <$> ids) ++ rest) c mgr =
      Done (None, rest) c (set_clusters (mClusterVector mgr ++ cs) mgr) /\
    Forall2 (fun id cl => mClusterId cl = id /\ cluster_at m id (mClusterInfo cl) (mClusterVersion cl)) ids cs.
Proof.
  induction ids as [|id ids IH]; intros mgr Hok.
  - exists []. cbn. rewrite app_nil_r. split; [by destruct mgr|constructor].
  - apply Forall_cons in Hok as [(info & ver & (x & Hx & Hp) & _) Hok].
    destruct (IH (set_clusters (mClusterVector mgr ++ [mkCluster info id ver]) mgr) Hok) as (cs & Hrun & Hcs).
    exists (mkCluster info id ver :: cs). split.
    + assert (read_answer m (buildClusterKey id) = mkReadResult RC_OK ver x 0 None) as Hra by (unfold read_answer; by rewrite Hx).
      cbn [fmap list_fmap app loadClusters]. rewrite Hra. cbn [rr_code rr_value rr_version].
      rewrite bool_decide_eq_false_2 by naive_solver. rewrite Hp. unfold bind, modify.
      etransitivity; [exact Hrun|]. cbn. by rewrite <- app_assoc.
    + constructor; [|done]. split; [done|]. by exists x.
Qed.

Lemma registerClusters_run cs c : forall mgr,
  exists cm, forM cs registerCluster c mgr = Done tt c (set_proxy cm (notices mgr) mgr).
Proof.
  induction cs as [|cl cs IH]; intros mgr; [exists (mClusterMap mgr); by destruct mgr|].
  cbn [forM]. unfold registerCluster at 1, modify, bind. cbn.
  destruct (IH (set_proxy (match mClusterMap mgr !! mClusterId cl with
    | Some _ => mClusterMap mgr | None => <[mClusterId cl := getServerAddresses cl]> (mClusterMap mgr) end) (notices mgr) mgr))
    as [cm Hcm]. exists cm. exact Hcm.
Qed.

Lemma loadInfo_run c mgr m v n x ver g :
  serving mgr m v n -> 1 <= n -> m !! KEY_CLUSTER_GLOBAL_INFO = Some (x, ver) -> parseGlobal x = Some g -> global_ok m g ->
  mVersion mgr = ver -> mClusterSetGlobalInfo mgr = g -> mClusterVector mgr = [] -> mMigrationVector mgr = [] ->
  exists header c' mgr' m1 v1, loadInfo ver g c mgr = Done header c' mgr' /\ evolved m m1 /\ serving mgr' m1 v1 (n - 1) /\
    (h_code header = RC_OK -> loaded m1 mgr').
Proof.
  intros Hs Hn Ex Hpg Hgok Hver Hg Hc Hmig. unfold loadInfo.
  assert (plain_trans (loadRequest ver g)) as Hplain.
  { rewrite loadRequest_eq. constructor; cbn; [done..| |apply plain_reads]. constructor; [done|apply plain_exist]. }
  destruct (call_trans _ c mgr m v n Hplain Hs ltac:(lia))
    as (tresp & c2 & e2 & m2 & v2 & m3 & v3 & H2 & Hev & _ & Hs2 & Hans).
  rewrite (bind_Done _ _ _ _ _ _ _ H2). clear H2.
  rewrite loadRequest_eq in Hans. unfold atrans, aconds in Hans. cbn [tq_preconds tq_entries forallb] in Hans.
  rewrite aentries_reads in Hans.
  assert (m3 = m2) as -> by (destruct Hans as [Ha|[_ ->]]; [destruct (_ && _)%bool|]; by simplify_eq).
  case_bool_decide as Hcode.
  { eexists _, _, _, m2, v3. split; [reflexivity|]. split_and!; [done|by apply Hs2|done]. }
  destruct Hans as [Ha|[? _]]; [|done].
  destruct (acond m2 (VersionCond KEY_CLUSTER_GLOBAL_INFO ver EQUAL)) eqn:Hcond; [|cbn in Ha; congruence].
  destruct (forallb _ _); [|cbn in Ha; congruence]. cbn [andb] in Ha. injection Ha as _ Hresults.
  assert (m2 = m) as ->.
  { apply gver_version in Hcond. apply (evolved_same m m m2); [done..|]. unfold gver at 2. by rewrite Ex. }
  rewrite <- Hresults. unfold load_keys. rewrite (no_migrations _ _ Hgok). cbn [fmap list_fmap]. rewrite app_nil_r, <- list_fmap_compose.
  destruct (loadClusters_run m (g_clusterIds g) [] c2 (set_engine e2 mgr) (clusters_ok _ _ Hgok)) as (cs & Hload & Hcs).
  rewrite app_nil_r in Hload. rewrite (bind_Done _ _ _ _ _ _ _ Hload). unfold bind at 1, get at 1.
  set (mgr2 := set_clusters _ _). destruct (registerClusters_run (mClusterVector mgr2) c2 mgr2) as [cm Hreg].
  rewrite (bind_Done _ _ _ _ _ _ _ Hreg). cbn.
  eexists _, _, _, m, v3. split; [reflexivity|]. split_and!; [done|by apply Hs2|].
  intros _. unfold loaded, gver. rewrite Ex. cbn. rewrite Hc, Hg. by split_and!.
Qed.

Lemma init_run c mgr m v n :
  serving mgr m v n -> 2 <= n -> config_ok m ->
  mVersion mgr = 0 -> mClusterSetGlobalInfo mgr = empty_global -> mClusterVector mgr = [] -> mMigrationVector mgr = [] ->
  exists header c' mgr' m1 v1, init c mgr = Done header c' mgr' /\ evolved m m1 /\ serving mgr' m1 v1 (n - 2) /\
    (h_code header = RC_OK -> loaded m1 mgr').
Proof.
  intros Hs Hn Hok Hver Hg Hc Hmig. unfold init.
  destruct (call_get (mkGetRequest (mkReqHeader 0 0) (mkReadEntry KEY_CLUSTER_GLOBAL_INFO 0) false false) c mgr m v n
    ltac:(done) Hs ltac:(lia)) as (resp & c1 & e1 & m1 & v1 & H1 & Hev1 & Hbelow & Hs1 & Hres).
  rewrite (bind_Done _ _ _ _ _ _ _ H1). clear H1.
  assert (serving (set_engine e1 mgr) m1 v1 (n - 2)) as Hs1'.
  { destruct (Hs1 (set_engine e1 mgr) eq_refl) as [? ?]. pose proof (slack_nonneg E). split; [done|nia]. }
  case_bool_decide as Hcode.
  { eexists _, _, _, m1, v1. split; [reflexivity|]. by split_and!. }
  rewrite (Hres Hcode). unfold read_answer. cbn [re_key gq_entry].
  destruct (m1 !! KEY_CLUSTER_GLOBAL_INFO) as [[x ver]|] eqn:Ex; cbn [rr_code rr_value rr_version].
  2: { eexists _, _, _, m1, v1. split; [reflexivity|]. split_and!; [done|done|].
    intros _. unfold loaded, gver. rewrite Ex. by destruct mgr; cbn in *; subst. }
  rewrite bool_decide_eq_false_2 by naive_solver.
  pose proof (evolved_ok _ _ Hok Hev1) as Hok1. unfold config_ok in Hok1. rewrite Ex in Hok1. destruct Hok1 as (g & Hpg & Hgok).
  rewrite Hpg. unfold modify at 1. unfold bind at 1. specialize (Hbelow _ _ _ Ex).
  rewrite bool_decide_eq_false_2 by lia. unfold bind at 1, assert_ at 1. cbn [negb]. unfold ret at 1. cbn beta iota.
  destruct (loadInfo_run c1 (set_global ver g (set_engine e1 mgr)) m1 v1 (n - 1) x ver g) as
    (header & c' & mgr' & m2 & v2 & Hrun & Hev2 & Hs2 & Hl); [by apply Hs1|lia|done..|].
  exists header, c', mgr', m2, v2. split_and!; [done|by etransitivity| |done]. by replace (n - 2) with (n - 1 - 1) by lia.
Qed.

(** *** Committing *)

(** The conditions that hold only on the map the manager loaded. *)
Definition guards m (conds : list Precondition) : Prop :=
  Forall plain_cond conds /\ forall m1, aconds m1 conds = true -> gver m1 = gver m.

Lemma guards_app m conds conds' : guards m conds -> Forall plain_cond conds' -> guards m (conds ++ conds').
Proof.
  intros [H1 H2] H3. split; [by apply Forall_app|]. intros m1. unfold aconds. rewrite forallb_app.
  intros [H _]%andb_true_iff. by apply H2.
Qed.

Lemma fillPrecondition_run m mgr c kxs :
  loaded m mgr -> (is_Some (m !! KEY_CLUSTER_GLOBAL_INFO) -> 0 < gver m) ->
  exists conds, fillPrecondition (update_request [] kxs) c mgr = Done (update_request conds kxs) c mgr /\ guards m conds.
Proof.
  intros (Hmig & Hver & Hload) Hpos. unfold fillPrecondition. run. rewrite Hver, Hmig.
  destruct (m !! KEY_CLUSTER_GLOBAL_INFO) as [[x ver]|] eqn:Ex.
  - specialize (Hpos ltac:(eauto)). rewrite bool_decide_eq_false_2 by (unfold NON_VERSION; lia).
    destruct Hload as [_ Hcs]. rewrite add_precond_update. cbn [app].
    assert (forall ids cs conds, Forall2 (fun id cl => mClusterId cl = id /\ cluster_at m id (mClusterInfo cl) (mClusterVersion cl)) ids cs ->
      exists conds', fillClusterPreconditions cs ids (update_request conds kxs) = Some (update_request (conds ++ conds') kxs) /\
        Forall plain_cond conds') as H.
    { intros ids cs conds HF. revert conds. induction HF as [|id cl ids cs _ _ IH]; intros conds.
      - exists []. by rewrite app_nil_r.
      - cbn. unfold cluster_fillPrecondition. rewrite add_precond_update.
        destruct (IH (conds ++ [VersionCond (buildClusterKey id) (mClusterVersion cl) EQUAL])) as (conds' & -> & Hp).
        eexists (_ :: conds'). rewrite <- app_assoc. split; [reflexivity|]. by constructor. }
    destruct (H _ _ [VersionCond KEY_CLUSTER_GLOBAL_INFO (gver m) EQUAL] Hcs) as (conds' & -> & Hp).
    eexists. split; [reflexivity|]. cbn [app]. split; [by constructor|]. cbn. intros m1 [Hc _]%andb_true_iff. by apply gver_version.
  - rewrite bool_decide_eq_true_2 by (unfold gver; by rewrite Ex). rewrite add_precond_update. eexists. split; [reflexivity|].
    split; [by repeat constructor|]. cbn. intros m1. rewrite andb_true_r. intros Hc.
    rewrite (gver_absent _ Hc). unfold gver. by rewrite Ex.
Qed.

Lemma commit_run conds kxs c mgr m0 m v n :
  serving mgr m v n -> 1 <= n -> evolved m0 m -> guards m0 conds ->
  (m = m0 -> aconds m0 conds = true -> forall v1, gver m0 < v1 ->
   config_ok (puts v1 kxs m0) /\ gver (puts v1 kxs m0) = v1) ->
  exists resp c' e' m' v', in_engine (engTrans (update_request conds kxs)) c mgr = Done resp c' (set_engine e' mgr) /\
    evolved m0 m' /\ (forall mgr', mKVEngine mgr' = e' -> serving mgr' m' v' (n - 1)).
Proof.
  intros Hs Hn Hev [Hplain Hguard] Hok.
  destruct (call_trans _ c mgr m v n (plain_update conds kxs Hplain) Hs Hn)
    as (resp & c1 & e1 & m1 & v1 & m2 & v2 & Hrun & Hev1 & Hv1 & Hs2 & Hans).
  exists resp, c1, e1, m2, v2. split_and!; [done| |done].
  destruct Hans as [Ha|[_ ->]]; [|by etransitivity]. unfold atrans in Ha. cbn [tq_preconds tq_entries update_request] in Ha.
  destruct (aconds m1 conds) eqn:Hc; [|injection Ha as _ _ <-; by etransitivity].
  destruct (evolved_same _ _ _ Hev Hev1 (Hguard _ Hc)) as [-> ->].
  pose proof (aentries_writes v1 kxs m0) as Hw. destruct (aentries v1 m0 _) as [rs m']. injection Ha as _ _ <-.
  cbn in Hw. subst m'. destruct (Hok eq_refl Hc v1 Hv1) as [H1 H2]. right. split; [done|lia].
Qed.

(** *** Whose servers *)

Lemma countAddresses_keeps results : forall count str c mgr r c' mgr',
  countAddresses results count str c mgr = Done r c' mgr' -> c' = c /\ mgr' = mgr.
Proof.
  induction results as [|res results IH]; intros count str c mgr r c' mgr' H; [by injection H as _ <- <-|].
  cbn in H. destruct res; [done| |done|done].
  repeat case_bool_decide; first [by eapply IH|by injection H as _ <- <-].
Qed.

Lemma countAddresses_inv results : forall count str c mgr r c' mgr',
  countAddresses results count str c mgr = Done (inr r) c' mgr' -> 0 <= count -> (str = "" <-> count = 0) ->
  (r.2 = "" <-> r.1 = 0) /\ (str <> "" -> r.2 = str) /\
  forall x, ReadRes x ∈ results -> rr_code x = RC_KEY_NOT_EXIST \/ rr_value x = "" \/ rr_value x = r.2.
Proof.
  induction results as [|res results IH]; intros count str c mgr r c' mgr' H Hpos Hstr.
  - cbn in H. injection H as <- _ _. split_and!; try done; set_solver.
  - cbn in H. destruct res as [|x| |]; [done| |done|done]. case_bool_decide; [done|]. case_bool_decide as Hmiss.
    { destruct (IH _ _ _ _ _ _ _ H Hpos Hstr) as (H1 & H2 & H3). split_and!; [done..|].
      intros y [[= ->]|Hy]%elem_of_cons; [naive_solver|by apply H3]. }
    assert (rr_value x <> "") as Hx by naive_solver. case_bool_decide as Hs; [|case_bool_decide as Hne; [done|]];
      (destruct (IH _ _ _ _ _ _ _ H) as (H1 & H2 & H3); [lia|split; [done|lia]|]; split_and!; [done..|];
       intros y [[= ->]|Hy]%elem_of_cons; [|by apply H3]; right; right; rewrite H2; [congruence|done]).
Qed.

(** The addresses that are of a cluster already are of the cluster found. *)
Definition owned_by m (addrs : list string) (id : Z) : Prop :=
  exists str z, stoi str = Some z /\ id = u32 z /\
    forall h x, h ∈ addrs -> fst <$> m !! h = Some x -> x = "" \/ x = str.

Lemma isAddress_inv addrs c mgr m v n code count id c' mgr' :
  serving mgr m v n -> 1 <= n -> isAddressInSameCluster addrs c mgr = Done (code, count, id) c' mgr' ->
  exists e' m1 v1, mgr' = set_engine e' mgr /\ evolved m m1 /\ (forall mgr', mKVEngine mgr' = e' -> serving mgr' m1 v1 (n - 1)) /\
    (code = RC_OK -> count <> 0 -> m1 = m -> owned_by m addrs id).
Proof.
  intros Hs Hn H. unfold isAddressInSameCluster in H.
  destruct (call_batch (mkExeBatchRequest (mkReqHeader 0 0) (read_entry <$> addrs)) addrs c mgr m v n eq_refl Hs Hn)
    as (resp & c1 & e1 & m1 & v1 & Hrun & Hev & Hs1 & Hres).
  rewrite (bind_Done _ _ _ _ _ _ _ Hrun) in H. case_bool_decide as Hcode.
  { cbv [ret] in H. injection H as <- <- <- <- <-. exists e1, m1, v1. split_and!; try done. }
  specialize (Hres Hcode). apply bind_inv in H as (r & c2 & mgr2 & Hcount & H).
  destruct (countAddresses_keeps _ _ _ _ _ _ _ _ Hcount) as [-> ->]. destruct r as [bad|[cnt str]].
  { cbv [ret] in H. injection H as <- <- <- <- <-. exists e1, m1, v1. by split_and!. }
  destruct (countAddresses_inv _ _ _ _ _ _ _ _ Hcount) as (H1 & _ & H3); [lia|done|]. cbn in H1, H3.
  case_bool_decide as Hempty.
  { cbv [ret] in H. injection H as <- <- <- <- <-. exists e1, m1, v1. split_and!; try done. naive_solver. }
  destruct (stoi str) as [z|] eqn:Hz; [|done]. cbv [ret] in H. injection H as <- <- <- <- <-. exists e1, m1, v1.
  split_and!; try done. intros _ _ ->. exists str, z. split_and!; [done..|]. intros h x Hh Hx.
  destruct (list_elem_of_lookup_1 _ _ Hh) as [i Hi]. destruct (Forall2_lookup_l _ _ _ _ _ Hres Hi) as (res & Hri & mi & Hmi1 & Hmi2 & ->).
  destruct (evolved_same _ _ _ Hmi1 Hmi2 eq_refl) as [-> _].
  destruct (H3 (read_answer m h)) as [H4|H4]; [by eapply list_elem_of_lookup_2| |];
    unfold read_answer in H4; destruct (m !! h) as [[y ver]|]; cbn in *; [done|done|naive_solver|done].
Qed.

(** *** Adding a cluster *)

Lemma serving_fewer mgr m v n n' : serving mgr m v n -> n' <= n -> serving mgr m v n'.
Proof. intros [H1 H2] Hn. pose proof (slack_nonneg E). split; [done|nia]. Qed.

Lemma serving_positive mgr m v n : serving mgr m v n -> is_Some (m !! KEY_CLUSTER_GLOBAL_INFO) -> 0 < gver m.
Proof.
  intros [Hh _] [[x ver] Hx]. destruct (holds_versions _ _ _ Hh) as [_ Hb]. apply Hb in Hx as Hx'. unfold gver. rewrite Hx. cbn. lia.
Qed.

Lemma loaded_global m mgr :
  config_ok m -> loaded m mgr -> global_ok m (mClusterSetGlobalInfo mgr) /\
  Forall2 (fun id c => mClusterId c = id /\ cluster_at m id (mClusterInfo c) (mClusterVersion c))
          (g_clusterIds (mClusterSetGlobalInfo mgr)) (mClusterVector mgr).
Proof.
  unfold config_ok. intros Hok (_ & _ & Hl). destruct (m !! KEY_CLUSTER_GLOBAL_INFO) as [[x ver]|].
  - destruct Hok as (g & Hg & Hok). destruct Hl as [Hp Hl]. assert (g = mClusterSetGlobalInfo mgr) as -> by congruence. by split.
  - destruct Hl as [-> ->]. split; [|constructor]. constructor; [apply NoDup_nil_2|done..].
Qed.

Lemma gver_updated hosts id info g v m : gver (updated hosts id info g v m) = v.
Proof. unfold gver. by rewrite updated_global. Qed.

Lemma index_of_Some x l i : index_of x l = Some i -> l !! i = Some x.
Proof.
  revert i. induction l as [|y l IH]; intros i H; [done|]. cbn in H. case_bool_decide as E1; [by injection H as <-; subst|].
  destruct (index_of x l) as [j|]; [|done]. injection H as <-. by apply IH.
Qed.

(** The conditions of a new cluster: its servers are of no cluster. *)
Lemma new_hosts_free m (conds : list Precondition) k addrs h :
  aconds m (conds ++ exist_cond false k :: (exist_cond false <$> addrs)) = true -> h ∈ addrs -> m !! h = None.
Proof.
  unfold aconds. rewrite forallb_app. intros [_ H]%andb_true_iff Hh. cbn [forallb] in H. apply andb_true_iff in H as [_ H].
  rewrite forallb_forall in H. specialize (H (exist_cond false h)). cbn in H.
  destruct (m !! h); [|done]. rewrite bool_decide_eq_true_2 in H by eauto. discriminate H.
  apply list_elem_of_In, list_elem_of_fmap. eauto.
Qed.

Lemma create_ok m g addrs v id :
  global_ok m g -> id ∉ g_clusterIds g -> 0 <= id < 2 ^ 32 -> Forall (fun h => ~ reserved h) addrs ->
  (forall h, h ∈ addrs -> m !! h = None) ->
  config_ok (updated addrs id (mkClusterInfo addrs INIT)
    (mkGlobalInfo (g_routeVersion g) (g_clusterIds g ++ [id]) (g_currentMaxMigrationTaskId g) (g_migrationTaskIds g)) v m).
Proof.
  intros [Hnd Hr Hmig Hc] Hid Hrange Hres Hfree. apply updated_ok; cbn; [lia| | |done|done| |].
  - apply NoDup_app. split_and!; [done| |apply NoDup_singleton]. set_solver.
  - apply Forall_app. split; [done|]. by apply Forall_singleton.
  - apply Forall_forall. intros h Hh. rewrite Forall_forall in Hres. split; [by apply Hres|by left].
  - intros id' Hin Hne. rewrite Forall_forall in Hc. split; [apply Hc; set_solver|]. intros h Hh. by rewrite Hfree.
Qed.

(** A cluster that exists takes the addresses that are its own or nobody's. *)
Lemma replace_ok m g addrs v id status :
  global_ok m g -> id ∈ g_clusterIds g -> Forall (fun h => ~ reserved h) addrs -> owned_by m addrs id ->
  config_ok (updated addrs id (mkClusterInfo addrs status) g v m).
Proof.
  intros [Hnd Hr Hmig Hc] Hid Hres (str & z & Hz & -> & Hown). rewrite Forall_forall in Hr. rewrite Forall_forall in Hc.
  apply updated_ok; cbn; [apply Hr in Hid; lia|done|by apply Forall_forall|done|done| |].
  - apply Forall_forall. intros h Hh. rewrite Forall_forall in Hres. split; [by apply Hres|by left].
  - intros id' Hin Hne. split; [by apply Hc|]. intros h Hh Hx. specialize (Hr _ Hin).
    destruct (Hown _ _ Hh Hx) as [He|<-]; [by apply to_string_nonempty in He; [|lia]|].
    rewrite stoi_to_string in Hz by lia. case_bool_decide; [|done]. injection Hz as <-. apply Hne. unfold u32. by rewrite Z.mod_small.
Qed.

(** A cluster that exists changes its status. *)
Lemma restatus_ok m g g' v id info ver status :
  global_ok m g -> id ∈ g_clusterIds g -> cluster_at m id info ver ->
  g_clusterIds g' = g_clusterIds g -> g_migrationTaskIds g' = g_migrationTaskIds g ->
  config_ok (updated [] id (mkClusterInfo (ci_addr info) status) g' v m).
Proof.
  intros [Hnd Hr Hmig Hc] Hid (x & Hx & Hp) Hids Hmigs. rewrite Forall_forall in Hc.
  apply updated_ok; rewrite ?Hids, ?Hmigs; [|done|done|done|done| |].
  - rewrite Forall_forall in Hr. apply Hr in Hid. lia.
  - destruct (Hc _ Hid) as (info' & ver' & (x' & Hx' & Hp') & Hs). assert (info' = info) as -> by congruence.
    eapply Forall_impl; [exact Hs|]. cbn. naive_solver.
  - intros id' Hin _. split; [by apply Hc|]. intros h Hh. by apply not_elem_of_nil in Hh.
Qed.

Lemma assign_range g : 0 <= assignNewClusterId g < 2 ^ 32.
Proof. unfold assignNewClusterId, u32. destruct (last _); [apply Z.mod_pos_bound; lia|lia]. Qed.

(** The update of [addCluster], committed on the map loaded. *)
Lemma addClusterRequest_inv count id addrs conds c mgr m r c' mgr' :
  config_ok m -> loaded m mgr -> Forall (fun h => ~ reserved h) addrs -> guards m conds ->
  addClusterRequest count id addrs (update_request conds []) c mgr = Done r c' mgr' ->
  c' = c /\ mKVEngine mgr' = mKVEngine mgr /\
  forall req, r = inr req -> exists conds' kxs, req = update_request conds' kxs /\ guards m conds' /\
    forall v, aconds m conds' = true -> (count <> 0 -> owned_by m addrs id) ->
      let m' := puts v (kxs ++ [(KEY_CLUSTER_GLOBAL_INFO, serializeGlobal (mClusterSetGlobalInfo mgr'))]) m in
      config_ok m' /\ gver m' = v.
Proof.
  intros Hok Hl Hres Hguard H. destruct (loaded_global _ _ Hok Hl) as [Hg Hcs]. unfold addClusterRequest in H. case_bool_decide as Hz.
  - unfold bind at 1, get at 1, appendNewClusterId in H. unfold bind at 1 2, get at 1 in H. case_bool_decide as Hin.
    + cbv [ret] in H. rewrite bool_decide_eq_true_2 in H by done. injection H as <- <- <-. by split_and!.
    + unfold put, bind, ret in H. cbn in H. injection H as <- <- <-. split_and!; [done..|]. intros req [= <-].
      rewrite create_update. eexists _, _. split; [reflexivity|]. split.
      { apply guards_app; [done|]. constructor; [done|apply plain_exist]. }
      intros v Hc _. cbn [app mClusterSetGlobalInfo set_global]. rewrite <- app_assoc, puts_updated. split; [|apply gver_updated].
      apply create_ok; [done|done|apply assign_range|done|]. intros h. by eapply new_hosts_free.
  - unfold bind at 1, get at 1 in H. destruct (findClusterById id mgr) as [i|] eqn:Hfind;
      [|cbv [ret] in H; injection H as <- <- <-; by split_and!].
    apply index_of_Some in Hfind. destruct (Forall2_lookup_l _ _ _ _ _ Hcs Hfind) as (cl & Hcl & <- & _).
    unfold the_cluster in H. unfold bind, get in H. rewrite Hcl in H. cbv [ret] in H. injection H as <- <- <-.
    split_and!; [done..|]. intros req [= <-]. rewrite update_update. eexists _, _. split; [reflexivity|]. split.
    { apply guards_app; [done|]. by repeat constructor. }
    intros v Hc Hown. cbn [app]. rewrite <- app_assoc, puts_updated. split; [|apply gver_updated].
    apply replace_ok; [done|by eapply list_elem_of_lookup_2|done|by apply Hown].
Qed.

Lemma addCluster_inv header addrs c mgr m v n header' c' mgr' :
  serving mgr m v n -> 2 <= n -> config_ok m -> loaded m mgr -> Forall (fun h => ~ reserved h) addrs ->
  addCluster header addrs c mgr = Done header' c' mgr' ->
  exists m' v', evolved m m' /\ serving mgr' m' v' (n - 2).
Proof.
  intros Hs Hn Hok Hl Hres H. unfold addCluster in H. apply bind_inv in H as ([[code count] id] & c1 & mgr1 & Haddr & H).
  destruct (isAddress_inv _ _ _ _ _ _ _ _ _ _ _ Hs ltac:(lia) Haddr) as (e1 & m1 & v1 & -> & Hev & Hs1 & Hown).
  assert (serving (set_engine e1 mgr) m1 v1 (n - 2)) as Hs1' by (eapply serving_fewer; [by apply Hs1|lia]).
  case_bool_decide as Hcode; [injection H as _ _ <-; eauto|]. specialize (Hown Hcode).
  unfold bind at 1, get at 1 in H. unfold hasMigrationTask in H. cbn [mMigrationVector set_engine] in H.
  destruct Hl as (Hmig & Hl'). assert (loaded m (set_engine e1 mgr)) as Hl by done.
  rewrite Hmig in H. cbn [length negb] in H. rewrite bool_decide_eq_true_2 in H by done. cbn [negb] in H.
  destruct (fillPrecondition_run m (set_engine e1 mgr) c1 [] Hl (serving_positive _ _ _ _ Hs)) as (conds & Hfill & Hguard).
  change empty_trans with (update_request [] []) in H. rewrite (bind_Done _ _ _ _ _ _ _ Hfill) in H.
  destruct (loaded_global _ _ Hok Hl) as [Hg Hcs]. cbn [mClusterSetGlobalInfo mClusterVector set_engine] in Hg, Hcs.
  apply bind_inv in H as (r & c2 & mgr2 & Hreq & H).
  destruct (addClusterRequest_inv _ _ _ _ _ _ _ _ _ _ Hok Hl Hres Hguard Hreq) as (-> & He2 & Hupd).
  destruct r as [[bad msg]|req]; [injection H as _ _ <-; exists m1, v1; split; [done|by eapply serving_fewer; [apply Hs1|lia]]|].
  destruct (Hupd req eq_refl) as (conds' & kxs & -> & Hguard' & Hpost). clear Hupd.
  unfold updateInTransaction in H. unfold bind at 1 2, get at 1, ret at 1 in H. rewrite add_write_update in H.
  destruct (commit_run conds' (kxs ++ [(KEY_CLUSTER_GLOBAL_INFO, serializeGlobal (mClusterSetGlobalInfo mgr2))]) c1 mgr2 m m1 v1 (n - 1))
    as (resp & c3 & e3 & m' & v' & Hrun & Hev' & Hs3); [by apply Hs1|lia|done|done| |].
  { intros -> Hc v2 _. apply Hpost; [done|]. intros Hz. by apply Hown. }
  rewrite (bind_Done _ _ _ _ _ _ _ Hrun) in H. injection H as _ _ <-. exists m', v'. split; [done|].
  replace (n - 2) with (n - 1 - 1) by lia. by apply Hs3.
Qed.

(** *** Starting a cluster *)

Lemma fillRouteInfo_keeps vnc route c mgr r c' mgr' :
  fillRouteInfo vnc route c mgr = Done r c' mgr' -> c' = c /\ mgr' = mgr.
Proof.
  unfold fillRouteInfo, bind, get. destruct (buildRing _ _ _); [|done]. intros H. injection H as _ <- <-. done.
Qed.

Lemma fillRouteAndMigrationInfo_keeps vnc route task c mgr r c' mgr' :
  fillRouteAndMigrationInfo vnc route task c mgr = Done r c' mgr' -> c' = c /\ mgr' = mgr.
Proof.
  intros H. unfold fillRouteAndMigrationInfo in H. apply bind_inv in H as ([code route'] & c1 & mgr1 & H1 & H).
  apply fillRouteInfo_keeps in H1 as [-> ->]. case_bool_decide; by injection H as _ <- <-.
Qed.

Lemma the_cluster_inv i c mgr cl c' mgr' :
  the_cluster i c mgr = Done cl c' mgr' -> c' = c /\ mgr' = mgr /\ mClusterVector mgr !! i = Some cl.
Proof. unfold the_cluster, bind, get. destruct (mClusterVector mgr !! i); [|done]. intros H. by injection H as -> -> ->. Qed.

Lemma update_cluster_run i cl newStatus conds kxs c mgr :
  mClusterVector mgr !! i = Some cl -> getStatus cl <> newStatus ->
  update_cluster i newStatus (update_request conds kxs) c mgr =
    Done (update_request conds (kxs ++ [(buildClusterKey (mClusterId cl), serializeCluster (mkClusterInfo (ci_addr (mClusterInfo cl)) newStatus))]))
      c (set_clusters (<[i := setStatus newStatus cl]> (mClusterVector mgr)) mgr).
Proof.
  intros Hi Hst. unfold update_cluster, the_cluster. run. rewrite Hi. cbn beta iota. unfold cluster_updateInTransaction.
  rewrite bool_decide_eq_false_2 by done. cbn beta iota zeta. by rewrite add_write_update.
Qed.

(** A cluster goes into service, with the global info as it is or moved on. *)
Lemma into_service_run i cl c mgr mgr1 m0 m v n conds :
  serving mgr m v n -> 1 <= n -> evolved m0 m -> config_ok m0 -> loaded m0 mgr -> guards m0 conds ->
  mClusterVector mgr !! i = Some cl ->
  mKVEngine mgr1 = mKVEngine mgr -> g_clusterIds (mClusterSetGlobalInfo mgr1) = g_clusterIds (mClusterSetGlobalInfo mgr) ->
  g_migrationTaskIds (mClusterSetGlobalInfo mgr1) = g_migrationTaskIds (mClusterSetGlobalInfo mgr) ->
  exists resp c' e' m' v',
    in_engine (engTrans (update_request conds
      [(buildClusterKey (mClusterId cl), serializeCluster (mkClusterInfo (ci_addr (mClusterInfo cl)) IN_SERVICE));
       (KEY_CLUSTER_GLOBAL_INFO, serializeGlobal (mClusterSetGlobalInfo mgr1))])) c mgr1 = Done resp c' (set_engine e' mgr1) /\
    evolved m0 m' /\ (forall mgr', mKVEngine mgr' = e' -> serving mgr' m' v' (n - 1)).
Proof.
  intros Hs Hn Hev Hok Hl Hguard Hi He Hids Hmigs. destruct (loaded_global _ _ Hok Hl) as [Hg Hcs].
  destruct (Forall2_lookup_r _ _ _ _ _ Hcs Hi) as (id & Hid & <- & Hat).
  apply (commit_run conds _ c mgr1 m0 m v n); [|done|done|done|].
  - unfold serving. by rewrite He.
  - intros _ _ v1 _. change (puts v1 _ m0) with (updated [] (mClusterId cl) (mkClusterInfo (ci_addr (mClusterInfo cl)) IN_SERVICE)
      (mClusterSetGlobalInfo mgr1) v1 m0). split; [|apply gver_updated].
    eapply restatus_ok; [done|by eapply list_elem_of_lookup_2|done|done|done].
Qed.

Lemma onboardCluster_inv vnc i cl c mgr m0 m v n code c' mgr' :
  serving mgr m v n -> 1 <= n -> evolved m0 m -> config_ok m0 -> loaded m0 mgr ->
  (is_Some (m0 !! KEY_CLUSTER_GLOBAL_INFO) -> 0 < gver m0) -> mClusterVector mgr !! i = Some cl -> getStatus cl = INIT ->
  onboardCluster vnc i c mgr = Done code c' mgr' ->
  exists m' v', evolved m0 m' /\ serving mgr' m' v' (n - 1).
Proof.
  intros Hs Hn Hev0 Hok Hl Hpos Hi Hst H. unfold onboardCluster, the_cluster in H. unfold bind at 1 2 3, get at 1 2 in H. rewrite Hi in H.
  cbv [ret] in H. destruct (buildRing vnc _ _) as [ring|]; [|done]. destruct (addClusterId vnc _ ring _) as [[ring' pmap]|]; [|done].
  destruct (bool_decide _); [done|]. cbn [negb assert_] in H. unfold bind at 1, ret at 1 in H.
  destruct (fillPrecondition_run m0 mgr c [] Hl Hpos) as (conds & Hfill & Hguard).
  change empty_trans with (update_request [] []) in H. rewrite (bind_Done _ _ _ _ _ _ _ Hfill) in H.
  rewrite (bind_Done _ _ _ _ _ _ _ (update_cluster_run i cl IN_SERVICE conds [] c mgr Hi ltac:(by rewrite Hst))) in H.
  unfold updateInTransaction in H. unfold bind at 1 2, get at 1, ret at 1 in H. rewrite add_write_update in H.
  destruct (into_service_run i cl c mgr (set_clusters (<[i := setStatus IN_SERVICE cl]> (mClusterVector mgr)) mgr) m0 m v n conds)
    as (resp & c1 & e1 & m' & v' & Hrun & Hev & Hs1); [done..|].
  cbn [app] in H. rewrite (bind_Done _ _ _ _ _ _ _ Hrun) in H. injection H as _ _ <-. exists m', v'. split; [done|]. by apply Hs1.
Qed.

Lemma startInit_inv vnc header i cl route task c mgr m0 m v n r c' mgr' :
  serving mgr m v n -> 1 <= n -> evolved m0 m -> config_ok m0 -> loaded m0 mgr ->
  (is_Some (m0 !! KEY_CLUSTER_GLOBAL_INFO) -> 0 < gver m0) -> mClusterVector mgr !! i = Some cl -> getStatus cl = INIT ->
  startInit vnc header i route task c mgr = Done r c' mgr' ->
  exists m' v', evolved m0 m' /\ serving mgr' m' v' (n - 1).
Proof.
  intros Hs Hn Hev0 Hok Hl Hpos Hi Hst H. unfold startInit in H. unfold bind at 1, get at 1 in H.
  destruct (isOnlyOneCluster mgr).
  - destruct (fillPrecondition_run m0 mgr c [] Hl Hpos) as (conds & Hfill & Hguard).
    change empty_trans with (update_request [] []) in H. rewrite (bind_Done _ _ _ _ _ _ _ Hfill) in H.
    rewrite (bind_Done _ _ _ _ _ _ _ (update_cluster_run i cl IN_SERVICE conds [] c mgr Hi ltac:(by rewrite Hst))) in H.
    unfold increaseGlobalRouteVersion, updateInTransaction in H. unfold bind at 1 2 3, modify at 1, get at 1, ret at 1 in H.
    rewrite add_write_update in H. set (mgr1 := set_global _ _ _) in H.
    destruct (into_service_run i cl c mgr mgr1 m0 m v n conds) as (resp & c1 & e1 & m' & v' & Hrun & Hev & Hs1); [done..|].
    cbn [app] in H. rewrite (bind_Done _ _ _ _ _ _ _ Hrun) in H. exists m', v'. split; [done|].
    apply bind_inv in H as (cl' & c2 & mgr2 & Hcl' & H).
    apply the_cluster_inv in Hcl' as (-> & -> & _).
    case_bool_decide; [injection H as _ _ <-; by apply Hs1|].
    apply bind_inv in H as ([code route'] & c3 & mgr3 & Hfr & H). apply fillRouteInfo_keeps in Hfr as [-> ->].
    injection H as _ _ <-. by apply Hs1.
  - destruct (hasMigrationTask mgr).
    { unfold the_cluster in H. unfold bind, get in H. rewrite Hi in H. injection H as _ _ <-. exists m, v. split; [done|].
      eapply serving_fewer; [done|lia]. }
    apply bind_inv in H as (code & c1 & mgr1 & Hon & H).
    destruct (onboardCluster_inv _ _ _ _ _ _ _ _ _ _ _ _ Hs Hn Hev0 Hok Hl Hpos Hi Hst Hon) as (m' & v' & Hev & Hs1).
    exists m', v'. split; [done|]. apply bind_inv in H as (cl' & c2 & mgr2 & Hcl' & H).
    apply the_cluster_inv in Hcl' as (-> & -> & _).
    case_bool_decide; [|by injection H as _ _ <-].
    apply bind_inv in H as ([[? ?] ?] & c3 & mgr3 & Hfr & H). apply fillRouteAndMigrationInfo_keeps in Hfr as [-> ->].
    by injection H as _ _ <-.
Qed.

Lemma startCluster_inv vnc header addrs route task c mgr m v n r c' mgr' :
  serving mgr m v n -> 2 <= n -> config_ok m -> loaded m mgr ->
  startCluster vnc header addrs route task c mgr = Done r c' mgr' ->
  exists m' v', evolved m m' /\ serving mgr' m' v' (n - 2).
Proof.
  intros Hs Hn Hok Hl H. unfold startCluster in H. apply bind_inv in H as ([[code count] id] & c1 & mgr1 & Haddr & H).
  destruct (isAddress_inv _ _ _ _ _ _ _ _ _ _ _ Hs ltac:(lia) Haddr) as (e1 & m1 & v1 & -> & Hev & Hs1 & _).
  assert (exists m' v', evolved m m' /\ serving (set_engine e1 mgr) m' v' (n - 2)) as Hsame.
  { exists m1, v1. split; [done|]. eapply serving_fewer; [by apply Hs1|lia]. }
  case_bool_decide; [by injection H as _ _ <-|]. case_bool_decide; [by injection H as _ _ <-|].
  unfold bind at 1, get at 1 in H. destruct (findClusterById id _) as [i|]; [|by injection H as _ _ <-].
  apply bind_inv in H as (cl & c2 & mgr2 & Hcl & H). apply the_cluster_inv in Hcl as (-> & -> & Hcl).
  destruct (getStatus cl) eqn:Hst.
  - destruct (startInit_inv vnc header i cl route task c1 (set_engine e1 mgr) m m1 v1 (n - 1) r c' mgr') as (m' & v' & Hev' & Hs');
      [by apply Hs1|lia|done|done|done|by eapply serving_positive|done|done|done|].
    exists m', v'. split; [done|]. by replace (n - 2) with (n - 1 - 1) by lia.
  - apply bind_inv in H as ([? ?] & c3 & mgr3 & Hfr & H). apply fillRouteInfo_keeps in Hfr as [-> ->]. by injection H as _ _ <-.
  - apply bind_inv in H as ([[? ?] ?] & c3 & mgr3 & Hfr & H). apply fillRouteAndMigrationInfo_keeps in Hfr as [-> ->].
    by injection H as _ _ <-.
  - apply bind_inv in H as ([[? ?] ?] & c3 & mgr3 & Hfr & H). apply fillRouteAndMigrationInfo_keeps in Hfr as [-> ->].
    by injection H as _ _ <-.
  - by injection H as _ _ <-.
Qed.

(** ** Requests *)

Lemma new_manager_run c mgr m v n :
  serving mgr m v n ->
  exists mgr0, new_manager c mgr = Done tt c mgr0 /\ serving mgr0 m v n /\ mVersion mgr0 = 0 /\
    mClusterSetGlobalInfo mgr0 = empty_global /\ mClusterVector mgr0 = [] /\ mMigrationVector mgr0 = [].
Proof. intros Hs. eexists. split; [reflexivity|]. by split_and!. Qed.

(** The start of every request: a manager that has loaded the configuration. *)
Lemma begin_inv {A} (k : ResponseHeader -> M (Manager E) A) c mgr m v n a c' mgr' :
  serving mgr m v n -> 2 <= n -> config_ok m ->
  (new_manager ;;; let* header := init in k header) c mgr = Done a c' mgr' ->
  exists header c1 mgr1 m1 v1, k header c1 mgr1 = Done a c' mgr' /\ evolved m m1 /\ serving mgr1 m1 v1 (n - 2) /\ config_ok m1 /\
    (h_code header = RC_OK -> loaded m1 mgr1).
Proof.
  intros Hs Hn Hok H. destruct (new_manager_run c mgr m v n Hs) as (mgr0 & Hnew & Hs0 & H1 & H2 & H3 & H4).
  rewrite (bind_Done _ _ _ _ _ _ _ Hnew) in H.
  destruct (init_run c mgr0 m v n Hs0 Hn Hok H1 H2 H3 H4) as (header & c1 & mgr1 & m1 & v1 & Hinit & Hev & Hs1 & Hl).
  rewrite (bind_Done _ _ _ _ _ _ _ Hinit) in H. exists header, c1, mgr1, m1, v1. split_and!; try done. by eapply evolved_ok.
Qed.

Lemma beginMigration_engine route task c mgr c' mgr' :
  beginMigration route task c mgr = Done tt c' mgr' -> mKVEngine mgr' = mKVEngine mgr.
Proof.
  intros H. unfold beginMigration, findClusterByAddress in H. unfold bind at 1, get at 1 in H.
  destruct (mt_sourceCluster task); [done|]. unfold bind at 1, ret at 1 in H.
  destruct (mt_targetCluster task); [done|]. unfold bind at 1, ret at 1 in H.
  destruct (find_address _ _) as [i|]; [|done]. destruct (find_address _ _); [|done].
  apply bind_inv in H as (cl & c1 & mgr1 & Hcl & H). apply the_cluster_inv in Hcl as (-> & -> & _).
  unfold notifyStartMigration, notify_cluster, modify in H. injection H as <- <-. by destruct (_ !! _).
Qed.

#[local] Ltac fewer := eapply serving_fewer; [eassumption|lia].

Inductive Request :=
| AddCluster (servers : ClusterAddress)
| RemoveCluster (servers : ClusterAddress)
| OnStartup (servers : ClusterAddress)
| OnMigration (progress : MigrationProgress)
| Router.

Definition handle (vnc : nat) (req : Request) : M (Manager E) unit :=
  match req with
  | AddCluster servers => let* _ := addClusterCall servers in ret tt
  | RemoveCluster servers => let* _ := removeClusterCall servers in ret tt
  | OnStartup servers => let* _ := onStartupCall vnc servers in ret tt
  | OnMigration progress => let* _ := onMigrationCall vnc progress in ret tt
  | Router => let* _ := routerCall vnc in ret tt
  end.

(** The servers a request names are not keys of the configuration itself. *)
Definition well_named (req : Request) : Prop :=
  match req with AddCluster servers => Forall (fun h => ~ reserved h) servers | _ => True end.

Lemma handle_inv vnc req c mgr m v c' mgr' :
  well_named req -> serving mgr m v 4 -> config_ok m -> handle vnc req c mgr = Done tt c' mgr' ->
  exists m' v', evolved m m' /\ serving mgr' m' v' 0.
Proof.
  intros Hw Hs Hok H. assert (exists m' v', evolved m m' /\ serving mgr m' v' 0) as Hsame.
  { exists m, v. split; [done|]. eapply serving_fewer; [done|lia]. }
  destruct req as [servers|servers|servers|progress|]; cbn [handle] in H; apply bind_inv in H as (x & c1 & mgr1 & H & Hr);
    injection Hr as -> ->.
  - unfold addClusterCall in H. case_bool_decide; [by injection H as _ _ <-|].
    destruct (begin_inv _ c mgr m v 4 _ _ _ Hs ltac:(lia) Hok H) as (header & c2 & mgr2 & m1 & v1 & Hk & Hev & Hs1 & Hok1 & Hl).
    case_bool_decide as Hcode; [injection Hk as _ _ <-; exists m1, v1; split; [done|fewer]|].
    destruct (addCluster_inv _ _ _ _ _ _ _ _ _ _ Hs1 ltac:(lia) Hok1 (Hl Hcode) Hw Hk) as (m' & v' & Hev' & Hs').
    exists m', v'. split; [by etransitivity|fewer].
  - unfold removeClusterCall in H. case_bool_decide; [by injection H as _ _ <-|].
    destruct (begin_inv _ c mgr m v 4 _ _ _ Hs ltac:(lia) Hok H) as (header & c2 & mgr2 & m1 & v1 & Hk & Hev & Hs1 & Hok1 & Hl).
    assert (mgr2 = mgr') as -> by (case_bool_decide; by injection Hk as _ _ <-).
    exists m1, v1. split; [done|fewer].
  - unfold onStartupCall in H. case_bool_decide; [by injection H as _ _ <-|].
    destruct (begin_inv _ c mgr m v 4 _ _ _ Hs ltac:(lia) Hok H) as (header & c2 & mgr2 & m1 & v1 & Hk & Hev & Hs1 & Hok1 & Hl).
    case_bool_decide as Hcode; [injection Hk as _ _ <-; exists m1, v1; split; [done|fewer]|].
    apply bind_inv in Hk as ([[[hd [st need]] route] task] & c3 & mgr3 & Hstart & Hk).
    destruct (startCluster_inv _ _ _ _ _ _ _ _ _ _ _ _ _ Hs1 ltac:(lia) Hok1 (Hl Hcode) Hstart) as (m' & v' & Hev' & Hs').
    assert (mKVEngine mgr' = mKVEngine mgr3) as He.
    { destruct need; [|by injection Hk as _ _ <-]. apply bind_inv in Hk as ([] & c4 & mgr4 & Hb & Hk). injection Hk as _ _ <-.
      by eapply beginMigration_engine. }
    exists m', v'. split; [by etransitivity|]. unfold serving in *. rewrite He. destruct Hs' as [? ?]. split; [done|].
    pose proof (slack_nonneg E). nia.
  - unfold onMigrationCall in H. destruct (mp_overallStatus progress); try (by injection H as _ _ <-).
    destruct (begin_inv _ c mgr m v 4 _ _ _ Hs ltac:(lia) Hok H) as (header & c2 & mgr2 & m1 & v1 & Hk & Hev & Hs1 & Hok1 & Hl).
    case_bool_decide as Hcode; [injection Hk as _ _ <-; exists m1, v1; split; [done|fewer]|].
    apply bind_inv in Hk as (? & ? & ? & Hh & _). exfalso. unfold handleMigrationSuccess, findMigrationById in Hh.
    unfold bind at 1, get at 1 in Hh. destruct (loaded_global _ _ Hok1 (Hl Hcode)) as [Hg _].
    by rewrite (no_migrations _ _ Hg) in Hh.
  - unfold routerCall in H.
    destruct (begin_inv _ c mgr m v 4 _ _ _ Hs ltac:(lia) Hok H) as (header & c2 & mgr2 & m1 & v1 & Hk & Hev & Hs1 & Hok1 & Hl).
    case_bool_decide as Hcode; [injection Hk as _ _ <-; exists m1, v1; split; [done|fewer]|].
    unfold handleRouteInfoRequest in Hk. apply bind_inv in Hk as ([code route] & c3 & mgr3 & Hf & Hk).
    apply fillRouteInfo_keeps in Hf as [-> ->]. injection Hk as _ _ <-. exists m1, v1. split; [done|fewer].
Qed.

(** C35: the configuration stays consistent. Whatever other managers do between the calls a
    request makes to the engine, a request that ends leaves the configuration as it found it, or moved on by
    others, or updated on the version it loaded; in any case consistent, and no
    server is in two clusters. *)
Theorem configuration_stays_consistent vnc req c mgr m v c' mgr' :
  well_named req -> holds (mKVEngine mgr) m v -> v + 4 * (slack E + 1) < limit E -> config_ok m ->
  handle vnc req c mgr = Done tt c' mgr' ->
  exists m' v', holds (mKVEngine mgr') m' v' /\ evolved m m' /\ config_ok m' /\
    forall x ver g id1 id2 info1 info2 ver1 ver2 h,
      m' !! KEY_CLUSTER_GLOBAL_INFO = Some (x, ver) -> parseGlobal x = Some g ->
      id1 ∈ g_clusterIds g -> id2 ∈ g_clusterIds g -> cluster_at m' id1 info1 ver1 -> cluster_at m' id2 info2 ver2 ->
      h ∈ ci_addr info1 -> h ∈ ci_addr info2 -> id1 = id2.
Proof.
  intros Hw Hh Hv Hok H. destruct (handle_inv vnc req c mgr m v c' mgr' Hw) as (m' & v' & Hev & [Hh' _]); [by split|done..|].
  exists m', v'. pose proof (evolved_ok _ _ Hok Hev) as Hok'. split_and!; [done..|].
  intros x ver g id1 id2 info1 info2 ver1 ver2 h Hx Hp H1 H2. unfold config_ok in Hok'. rewrite Hx in Hok'.
  destruct Hok' as (g' & Hg' & Hgok). assert (g' = g) as -> by congruence. by apply (one_cluster_per_server m' g).
Qed.

End Runs.
