(* ===== verification/RouteSpec.v ===== *)
(** * The route covers every shard

    The route the object manager gives out ([fillRouteInfo],
    object-manager/module/ClusterSetManager.cpp) places each shard on exactly one
    of the clusters in service. Together with the check of the object store (ObjectStore.v): when the clusters in service have the
    route, a command on a key is accepted by exactly one of them. *)

From S2P Require Import Prelude OrderedMap Status Proto KVStore Command ControlProto ConcurInMemoryKVStore HashRing EngineContract.
From S2P Require Import Shards MigrationManager ObjectStore ObjectStoreSpec ClusterSet.

Section Rings.
Context {HASH : StdHash}.

Lemma addNodes_next vnc c i orders st st' :
  addNode vnc c i st = Some st' -> addNodes vnc c (i :: orders) st = addNodes vnc c orders st'.
Proof. intros H. cbn [addNodes]. by rewrite H. Qed.

(** The nodes of a ring belong to the clusters added to it. *)
Lemma addNodes_clusters vnc c orders : forall (ring : Ring) p ring' p',
  ring_wf ring -> Z.of_nat (length ring + length orders) <= RING_LENGTH ->
  addNodes vnc c orders (ring, p) = Some (ring', p') -> forall x, x ∈ ring'.*2 -> x = c \/ x ∈ ring.*2.
Proof.
  induction orders as [|i orders IH]; intros ring p ring' p' Hwf Hl H x Hx; [injection H as <- <-; by right|].
  cbn [length] in Hl. destruct (addNode_run vnc c i ring p Hwf ltac:(lia)) as (sh & Hfree & Hsh & Hrun).
  rewrite (addNodes_next _ _ _ _ _ _ Hrun) in H.
  assert (omap_find sh ring = None) as Hn by (by apply omap_find_None).
  assert (length (omap_put sh c ring) = S (length ring)) as Hlen by (by rewrite length_omap_put).
  destruct (IH _ _ _ _ (put_wf _ sh c Hwf Hsh) ltac:(lia) H x Hx) as [->|Hin]; [by left|].
  apply list_elem_of_fmap in Hin as ([k y] & -> & Hin). apply elem_of_omap_put in Hin as [[-> ->]|[_ Hin]]; [by left| |apply Hwf].
  right. by apply (list_elem_of_fmap_2 snd) in Hin.
Qed.

Lemma buildRing_run vnc ids : forall ring : Ring,
  ring_wf ring -> Z.of_nat (length ring + vnc * length ids) <= RING_LENGTH ->
  exists ring', buildRing vnc ids ring = Some ring' /\ ring_wf ring' /\
    length ring' = (length ring + vnc * length ids)%nat /\ forall x, x ∈ ring'.*2 -> x ∈ ids \/ x ∈ ring.*2.
Proof.
  induction ids as [|c ids IH]; intros ring Hwf Hl.
  - exists ring. split_and!; [done|done|cbn; lia|by right].
  - cbn [length] in Hl.
    destruct (addNodes_run vnc c (seq 0 vnc) ring None Hwf) as (ring1 & p1 & Hrun & Hwf1 & Hlen1 & _); [rewrite length_seq; lia|].
    rewrite length_seq in Hlen1. destruct (IH ring1 Hwf1 ltac:(lia)) as (ring' & Hb & Hwf' & Hlen & Hids).
    exists ring'. cbn [buildRing]. unfold addClusterId. rewrite Hrun. cbn [mbind option_bind]. split_and!; [done|done|cbn [length]; lia|].
    intros x [Hx|Hx]%Hids; [left; by right|].
    destruct (addNodes_clusters vnc c (seq 0 vnc) ring None ring1 p1 Hwf ltac:(rewrite length_seq; lia) Hrun x Hx) as [->|]; [|by right].
    left. by left.
Qed.

End Rings.

Section Routes.
Context {E : Type} `{!EngineOps E} {CC : ControlCodec} {HASH : StdHash}.
Implicit Types (mgr : Manager E).

(** What [fillRouteInfo] builds. *)
Lemma route_placement vnc c mgr :
  let clusters := getRoutingCluster mgr in
  (0 < vnc)%nat -> clusters <> [] -> NoDup (mClusterId <$> mClusterVector mgr) ->
  Z.of_nat (vnc * length clusters) <= RING_LENGTH ->
  exists route, fillRouteInfo vnc empty_route c mgr = Done (RC_OK, route) c mgr /\
    ri_version route = g_routeVersion (mClusterSetGlobalInfo mgr) /\ ri_allShards route = seqZ 0 RING_LENGTH /\
    (ri_placementMap route).*2 = getServerAddresses <$> clusters /\
    forall s, s ∈ ri_allShards route -> exists i shards addr,
      ri_placementMap route !! i = Some (shards, addr) /\ s ∈ shards /\
      forall j shards' addr', ri_placementMap route !! j = Some (shards', addr') -> s ∈ shards' -> j = i.
Proof.
  intros clusters Hvnc Hne Hnd Hroom. unfold fillRouteInfo. run. fold clusters.
  destruct (buildRing_run vnc (mClusterId <$> clusters) []) as (ring & -> & Hwf & Hlen & Hids).
  { split; [apply SSorted_nil|apply Forall_nil_2]. }
  { cbn. by rewrite length_fmap. }
  cbn [getHashRange ri_allShards ri_placementMap empty_route app]. replace (RING_LENGTH - 0) with RING_LENGTH by lia.
  assert (ring <> []) as Hring.
  { intros ->. cbn [length] in Hlen. rewrite length_fmap in Hlen. destruct clusters; [done|]. cbn [length] in Hlen. lia. }
  eexists. split; [reflexivity|]. cbn [ri_version ri_allShards ri_placementMap]. split_and!; [done|done| |].
  { by rewrite <- list_fmap_compose. }
  assert (NoDup (mClusterId <$> clusters)) as Hnd'.
  { eapply sublist_NoDup; [exact Hnd|]. apply fmap_sublist, sublist_filter. }
  intros s Hs%elem_of_seqZ. destruct (owner_serves ring s (proj1 Hwf) Hring) as (k & id & Hown & Hserves).
  assert (id ∈ mClusterId <$> clusters) as Hid.
  { destruct (Hids id) as [H|H]; [|done|by apply elem_of_nil in H]. destruct Hserves as [H _ _|H _ _]; by apply (list_elem_of_fmap_2 snd) in H. }
  apply list_elem_of_lookup_1 in Hid as [i Hi]. rewrite list_lookup_fmap in Hi.
  destruct (clusters !! i) as [cl|] eqn:Ecl; [|done]. injection Hi as <-.
  eexists i, _, _. rewrite list_lookup_fmap, Ecl. split; [reflexivity|]. split; [apply extract_owner; [done..|split; [lia|done]]|].
  intros j shards' addr' Hj Hs'. rewrite list_lookup_fmap in Hj. destruct (clusters !! j) as [cl'|] eqn:Ecl'; [|done].
  injection Hj as <- _. apply extract_owner in Hs' as [_ Hown']; [|done..].
  eapply NoDup_lookup; [exact Hnd'| |]; rewrite list_lookup_fmap; [by rewrite Ecl'|]. rewrite Ecl. cbn. congruence.
Qed.

(** C36: the route covers every shard. If the clusters have distinct ids and one is in service, and the ring has
    room for their nodes, the route has all 4096 shards and the clusters in service with their
    addresses, and places each shard on exactly one of them. *)
Theorem route_covers_every_shard vnc c mgr :
  let clusters := getRoutingCluster mgr in
  (0 < vnc)%nat -> clusters <> [] -> NoDup (mClusterId <$> mClusterVector mgr) ->
  Z.of_nat (vnc * length clusters) <= RING_LENGTH ->
  exists route, fillRouteInfo vnc empty_route c mgr = Done (RC_OK, route) c mgr /\
    ri_version route = g_routeVersion (mClusterSetGlobalInfo mgr) /\ ri_allShards route = seqZ 0 RING_LENGTH /\
    (ri_placementMap route).*2 = getServerAddresses <$> clusters /\
    forall s, s ∈ ri_allShards route -> exists i shards addr,
      ri_placementMap route !! i = Some (shards, addr) /\ s ∈ shards /\
      forall j shards' addr', ri_placementMap route !! j = Some (shards', addr') -> s ∈ shards' -> j = i.
Proof. apply route_placement. Qed.

End Routes.

(** ** Every key has one home *)

(** A node of the cluster [addr] in service that has received [route]. *)
Definition node_of (addr : ClusterAddress) (route : RouteInfo) : ObjectStore :=
  ObjectStore.set_info (updateLatestInfo (Some addr) IN_SERVICE route empty_task new_GlobalInfo) new_ObjectStore.

Section Homes.
Context {S : Type} `{!KVStore S}.

(** Under the version of the route, and unless the cluster is out of service, what is left of the
    check is the loop over the keys. *)
Lemma preExecute_key o (cmd : Command S) c s :
  let info := cached (mGlobalInfo o) in let keys := Command.getTargetKeys cmd in
  rq_routeVersion (Command.getRequestHeader cmd) = ri_version (mRouteInfo (mRouteInfoHelper info)) -> mStatus info <> OUT_OF_SERVICE ->
  preExecute o cmd c s = checkKeys info (isMiniTrx keys) keys c s.
Proof.
  intros info keys Hv Hst. unfold preExecute, preExecuteCallBack. run. unfold getRouteVersion, getCachedInfo. fold info keys.
  rewrite Hv, !bool_decide_eq_false_2 by (lia || done). unfold in_kvStore, zoom. cbn [snd fst]. by destruct (checkKeys _ _ _ c s).
Qed.

(** In service the check depends on the route only. *)
Lemma single_key_check addr route (cmd : Command S) key c s :
  Command.getTargetKeys cmd = [key] -> rq_routeVersion (Command.getRequestHeader cmd) = ri_version route ->
  preExecute (node_of addr route) cmd c s =
  match omap_find (clusterToAddressFormat addr) (mCluster2ShardIds (updateRouteInfo route new_route)) with
  | None => Stop Uncaught
  | Some shards => Done (if bool_decide (shard_of (isMiniTrx [key]) key ∈ shards) then Status.ok
                         else Status.wrongRoute "routed to a wrong cluster") c s
  end.
Proof.
  intros Hkeys Hv. rewrite preExecute_key by done. rewrite Hkeys. cbn [checkKeys]. unfold checkIfInClusterScope, node_of. cbn.
  destruct (omap_find _ _) as [shards|]; [|done]. run. by case_bool_decide.
Qed.

Lemma accepts_iff addr route (cmd : Command S) key :
  Command.getTargetKeys cmd = [key] -> rq_routeVersion (Command.getRequestHeader cmd) = ri_version route ->
  (places route (clusterToAddressFormat addr) (shard_of (isMiniTrx [key]) key) ->
   forall c s, preExecute (node_of addr route) cmd c s = Done Status.ok c s) /\
  (forall c s c' s', preExecute (node_of addr route) cmd c s = Done Status.ok c' s' ->
   places route (clusterToAddressFormat addr) (shard_of (isMiniTrx [key]) key)).
Proof.
  intros Hkeys Hv. pose proof (updateShardMap_scope (mkRouteHelper route []) (clusterToAddressFormat addr) (shard_of (isMiniTrx [key]) key)) as Hs.
  cbn [mRouteInfo mCluster2ShardIds] in Hs. change (updateShardMap (mkRouteHelper route [])) with (updateRouteInfo route new_route) in Hs.
  unfold scope in Hs at 1. split.
  - intros Hp c s. rewrite (single_key_check addr route cmd key) by done. destruct (omap_find _ _) as [shards|]; cbn in Hs; [|set_solver].
    rewrite bool_decide_eq_true_2; [done|]. apply Hs. by right.
  - intros c s c' s' H. rewrite (single_key_check addr route cmd key) in H by done. destruct (omap_find _ _) as [shards|]; [|done].
    case_bool_decide as Hin; [|done]. cbn in Hs. apply Hs in Hin as [Hin|]; [|done]. unfold scope in Hin. set_solver.
Qed.

Context {E : Type} `{!EngineOps E} {CC : ControlCodec} {HASH : StdHash}.
Implicit Types (mgr : Manager E).

Lemma shard_in_ring mini key : 0 <= shard_of mini key < RING_LENGTH.
Proof. unfold shard_of. destruct mini; [unfold RMSTRX_SHARD_IDX, RING_LENGTH; lia|apply keyToShardId_range]. Qed.


End Homes.
