(* ===== verification/WatchCenter.v ===== *)
(** * Watches

    [watch::WatchEntry], [watch::WatchCenter] and [watch::WatchObserver] (object-store/watch): the
    changes of watched keys wait in an entry per watch and key until the watch takes them; and
    [KVWatchCallData] (object-store/network/rpc), the stream of a client that watches. *)

From S2P Require Import Prelude Status Proto KVStore KVGenerateCommand KVEngineImpl Command.

(** ** Entries *)

Record WatchEntry := mkWatchEntry {
  we_changedKey : KeyType;
  we_newValue : ValueType;
  we_newVersion : VersionType;
  we_recordVersion : VersionType;
  we_exists : bool;
}.

Definition isDeleted (e : WatchEntry) : bool := negb (we_exists e).

Record WatchEntryWrap := mkWrap { mWatchId : string; mEntries : list WatchEntry }.

Definition valueChange (key : KeyType) (value : ValueType) (version : VersionType) (w : WatchEntryWrap) : WatchEntryWrap :=
  mkWrap (mWatchId w) (mEntries w ++ [mkWatchEntry key value version version true]).

Definition keyDeleted (key : KeyType) (version recordVersion : VersionType) (w : WatchEntryWrap) : WatchEntryWrap :=
  mkWrap (mWatchId w) (mEntries w ++ [mkWatchEntry key "" version recordVersion false]).

(** [purgeValueChange]: the entries are moved out. *)
Definition purgeValueChange (w : WatchEntryWrap) : list WatchEntry * WatchEntryWrap := (mEntries w, mkWrap (mWatchId w) []).

(** ** The center *)

Record WatchCenter := mkCenter {
  mKey2WatchEntryMap : gmap KeyType (list WatchEntryWrap);
  mWatchId2KeyMap : gmap string (list KeyType);
}.

Definition new_WatchCenter : WatchCenter := mkCenter ∅ ∅.

(** [mKey2WatchEntryMap[key]] *)
Definition wraps (key : KeyType) (c : WatchCenter) : list WatchEntryWrap := default [] (mKey2WatchEntryMap c !! key).

Definition add_wrap (watchId : string) (m : gmap KeyType (list WatchEntryWrap)) (key : KeyType)
    : gmap KeyType (list WatchEntryWrap) :=
  <[key := default [] (m !! key) ++ [mkWrap watchId []]]> m.

(** [registerWatch]; [watchId] is the identifier [allocateId] returns. *)
Definition registerWatch (watchId : string) (keyVector : list KeyType) (c : WatchCenter) : WatchCenter :=
  mkCenter (fold_left (add_wrap watchId) keyVector (mKey2WatchEntryMap c)) (<[watchId := keyVector]> (mWatchId2KeyMap c)).

(** The first entry of a watch is erased. *)
Fixpoint erase_wrap (watchId : string) (l : list WatchEntryWrap) : list WatchEntryWrap :=
  match l with
  | [] => []
  | w :: l => if bool_decide (mWatchId w = watchId) then l else w :: erase_wrap watchId l
  end.

Definition drop_wrap (watchId : string) (m : gmap KeyType (list WatchEntryWrap)) (key : KeyType)
    : gmap KeyType (list WatchEntryWrap) :=
  match erase_wrap watchId (default [] (m !! key)) with
  | [] => delete key m
  | vec => <[key := vec]> m
  end.

Definition unRegisterWatch (watchId : string) (c : WatchCenter) : bool * WatchCenter :=
  match mWatchId2KeyMap c !! watchId with
  | None => (false, c)
  | Some keys =>
      (true, mkCenter (fold_left (drop_wrap watchId) keys (mKey2WatchEntryMap c)) (delete watchId (mWatchId2KeyMap c)))
  end.

(** The inner loop of [purgeWatchValue]. *)
Fixpoint purge_wraps (watchId : string) (l : list WatchEntryWrap) : list WatchEntry * list WatchEntryWrap :=
  match l with
  | [] => ([], [])
  | w :: l =>
      let '(taken, l') := purge_wraps watchId l in
      if bool_decide (mWatchId w = watchId)
      then let '(es, w') := purgeValueChange w in (es ++ taken, w' :: l')
      else (taken, w :: l')
  end.

Definition purge_key (watchId : string) (acc : list WatchEntry * gmap KeyType (list WatchEntryWrap)) (key : KeyType)
    : list WatchEntry * gmap KeyType (list WatchEntryWrap) :=
  let '(pVec, m) := acc in
  let '(taken, l) := purge_wraps watchId (default [] (m !! key)) in
  (pVec ++ taken, <[key := l]> m).

Definition purgeWatchValue (watchId : string) (c : WatchCenter) : option (list WatchEntry) * WatchCenter :=
  match mWatchId2KeyMap c !! watchId with
  | None => (None, c)
  | Some keys =>
      let '(pVec, m) := fold_left (purge_key watchId) keys ([], mKey2WatchEntryMap c) in
      (Some pVec, mkCenter m (mWatchId2KeyMap c))
  end.

(** The loop the two notifications share. *)
Definition on_key (key : KeyType) (f : WatchEntryWrap -> WatchEntryWrap) (c : WatchCenter) : WatchCenter :=
  match mKey2WatchEntryMap c !! key with
  | None => c
  | Some l => mkCenter (<[key := f <$> l]> (mKey2WatchEntryMap c)) (mWatchId2KeyMap c)
  end.

Definition onWriteValue (key : KeyType) (value : ValueType) (version : VersionType) (c : WatchCenter) : WatchCenter :=
  on_key key (valueChange key value version) c.

Definition onDeleteKey (key : KeyType) (version deleteRecordVersion : VersionType) (c : WatchCenter) : WatchCenter :=
  on_key key (keyDeleted key version deleteRecordVersion) c.

(** [WatchObserver]: what a store tells its observers; reads and evictions assert. *)
Definition observe (n : Notification) : M WatchCenter unit :=
  match n with
  | OnWrite key value version => modify (onWriteValue key value version)
  | OnDelete key version deleteRecordVersion => modify (onDeleteKey key version deleteRecordVersion)
  | OnRead _ | OnEvict _ => stop AssertFail
  end.

(** ** Mailboxes

    What the center is for: a mailbox per watch, which takes the changes of its keys. *)

Inductive WatchOp :=
| Watches (watchId : string) (keys : list KeyType)
| Unwatches (watchId : string)
| Purge (watchId : string)
| Written (key : KeyType) (value : ValueType) (version : VersionType)
| Deleted (key : KeyType) (version recordVersion : VersionType).

(** What a watch gets to see of an operation. *)
Inductive WatchAnswer := Registered | Unregistered (found : bool) | Taken (entries : option (list WatchEntry)) | Noted.

Definition operate (op : WatchOp) (c : WatchCenter) : WatchAnswer * WatchCenter :=
  match op with
  | Watches w keys => (Registered, registerWatch w keys c)
  | Unwatches w => let '(found, c) := unRegisterWatch w c in (Unregistered found, c)
  | Purge w => let '(es, c) := purgeWatchValue w c in (Taken es, c)
  | Written k v ver => (Noted, onWriteValue k v ver c)
  | Deleted k ver rec => (Noted, onDeleteKey k ver rec c)
  end.

(** The keys of a watch, each with the changes that wait. *)
Abbreviation Mailboxes := (gmap string (list (KeyType * list WatchEntry))) (only parsing).

Definition deliver (key : KeyType) (e : WatchEntry) (box : list (KeyType * list WatchEntry)) : list (KeyType * list WatchEntry) :=
  (fun x => if bool_decide (x.1 = key) then (x.1, x.2 ++ [e]) else x) <$> box.

Definition box_entries (box : list (KeyType * list WatchEntry)) : list WatchEntry := concat box.*2.
Definition emptied (box : list (KeyType * list WatchEntry)) : list (KeyType * list WatchEntry) := (fun k => (k, [])) <$> box.*1.
Definition deliver_all (key : KeyType) (e : WatchEntry) (b : Mailboxes) : Mailboxes := fmap (M := gmap string) (deliver key e) b.

Definition abstract_operate (op : WatchOp) (b : Mailboxes) : WatchAnswer * Mailboxes :=
  match op with
  | Watches w keys => (Registered, <[w := (fun k => (k, [])) <$> keys]> b)
  | Unwatches w => (Unregistered (bool_decide (is_Some (b !! w))), delete w b)
  | Purge w => (Taken (box_entries <$> (b !! w)), alter emptied w b)
  | Written k v ver => (Noted, deliver_all k (mkWatchEntry k v ver ver true) b)
  | Deleted k ver rec => (Noted, deliver_all k (mkWatchEntry k "" ver rec false) b)
  end.

Fixpoint operate_all {X} (f : WatchOp -> X -> WatchAnswer * X) (ops : list WatchOp) (x : X) : list WatchAnswer * X :=
  match ops with
  | [] => ([], x)
  | op :: ops => let '(a, x) := f op x in let '(l, x) := operate_all f ops x in (a :: l, x)
  end.

(** Identifiers are new when they are given out, and a watch names a key once. *)
Fixpoint proper (ops : list WatchOp) (used : gset string) : Prop :=
  match ops with
  | [] => True
  | Watches w keys :: ops => (w ∉ used) /\ NoDup keys /\ proper ops ({[w]} ∪ used)
  | _ :: ops => proper ops used
  end.

(** ** The center is the mailboxes *)

(** The changes a watch has waiting for a key: one list per entry of the watch. *)
Definition waiting (w : string) (l : list WatchEntryWrap) : list (list WatchEntry) :=
  mEntries <$> filter (fun x => mWatchId x = w) l.

Definition box_of (k : KeyType) (box : option (list (KeyType * list WatchEntry))) : list (list WatchEntry) :=
  match box with Some box => (filter (fun x => x.1 = k) box).*2 | None => [] end.

Definition mirrors (c : WatchCenter) (b : Mailboxes) : Prop :=
  (forall w, mWatchId2KeyMap c !! w = (fun box => box.*1) <$> (b !! w)) /\
  (forall w box, b !! w = Some box -> NoDup box.*1) /\
  forall k w, waiting w (wraps k c) = box_of k (b !! w).

Lemma waiting_app w l1 l2 : waiting w (l1 ++ l2) = waiting w l1 ++ waiting w l2.
Proof. unfold waiting. by rewrite filter_app, fmap_app. Qed.

Lemma waiting_single w w' es : waiting w [mkWrap w' es] = if bool_decide (w' = w) then [es] else [].
Proof. unfold waiting. rewrite filter_cons, filter_nil. cbn. repeat case_match; case_bool_decide; done. Qed.

(** Registering. *)
Lemma add_wraps_lookup w keys : forall m k, NoDup keys ->
  default [] (fold_left (add_wrap w) keys m !! k) = default [] (m !! k) ++ (if bool_decide (k ∈ keys) then [mkWrap w []] else []).
Proof.
  induction keys as [|x keys IH]; intros m k Hnd; cbn [fold_left].
  { rewrite bool_decide_eq_false_2 by set_solver. by rewrite app_nil_r. }
  apply NoDup_cons in Hnd as [Hx Hnd]. rewrite IH by done. unfold add_wrap. destruct (decide (k = x)) as [->|Hne].
  - rewrite lookup_insert_eq. rewrite bool_decide_eq_false_2 by done. rewrite bool_decide_eq_true_2 by (by left). cbn. by rewrite app_nil_r.
  - rewrite lookup_insert_ne by done. rewrite (bool_decide_ext (k ∈ keys) (k ∈ x :: keys)) by set_solver. done.
Qed.

(** Unregistering. *)
Lemma erase_waiting w w' l : waiting w' (erase_wrap w l) = if bool_decide (w' = w) then tail (waiting w' l) else waiting w' l.
Proof.
  unfold waiting. induction l as [|x l IH]; cbn [erase_wrap]; [by case_bool_decide|]. destruct (decide (mWatchId x = w)) as [Hx|Hx].
  - rewrite (bool_decide_eq_true_2 (mWatchId x = w)) by done. rewrite filter_cons. destruct (decide (mWatchId x = w')) as [Hd|Hd].
    + by rewrite (bool_decide_eq_true_2 (w' = w)) by congruence.
    + by rewrite (bool_decide_eq_false_2 (w' = w)) by congruence.
  - rewrite (bool_decide_eq_false_2 (mWatchId x = w)) by done. rewrite !filter_cons. destruct (decide (mWatchId x = w')) as [Hd|Hd]; [|done].
    rewrite (bool_decide_eq_false_2 (w' = w)) in * by congruence. by rewrite !fmap_cons, IH.
Qed.

Lemma drop_wrap_lookup w m k k' :
  default [] (drop_wrap w m k !! k') = if bool_decide (k' = k) then erase_wrap w (default [] (m !! k')) else default [] (m !! k').
Proof.
  unfold drop_wrap. destruct (decide (k' = k)) as [->|Hne].
  - rewrite bool_decide_eq_true_2 by done. destruct (erase_wrap _ _); [by rewrite lookup_delete_eq|by rewrite lookup_insert_eq].
  - rewrite bool_decide_eq_false_2 by done. destruct (erase_wrap _ _); [by rewrite lookup_delete_ne|by rewrite lookup_insert_ne].
Qed.

Lemma drop_wraps_lookup w keys : forall m k, NoDup keys ->
  default [] (fold_left (drop_wrap w) keys m !! k) =
  if bool_decide (k ∈ keys) then erase_wrap w (default [] (m !! k)) else default [] (m !! k).
Proof.
  induction keys as [|x keys IH]; intros m k Hnd; cbn [fold_left]; [done|].
  apply NoDup_cons in Hnd as [Hx Hnd]. rewrite IH by done. rewrite !drop_wrap_lookup. destruct (decide (k = x)) as [->|Hne].
  - rewrite (bool_decide_eq_false_2 (x ∈ keys)) by done. rewrite (bool_decide_eq_true_2 (x ∈ x :: keys)) by (by left).
    by rewrite bool_decide_eq_true_2.
  - rewrite (bool_decide_eq_false_2 (k = x)) by done. rewrite (bool_decide_ext (k ∈ keys) (k ∈ x :: keys)) by set_solver. done.
Qed.

(** Taking. *)
Lemma purge_wraps_spec w l :
  (purge_wraps w l).1 = concat (waiting w l) /\
  forall w', waiting w' (purge_wraps w l).2 = if bool_decide (w' = w) then (fun _ => []) <$> waiting w' l else waiting w' l.
Proof.
  unfold waiting. induction l as [|x l [IH1 IH2]]; cbn [purge_wraps]; [split; [done|intros w'; by case_bool_decide]|].
  destruct (purge_wraps w l) as [taken l']. cbn [fst snd] in *. case_bool_decide as Hx; cbn [purgeValueChange fst snd]; split.
  - rewrite filter_cons, decide_True by done. cbn. by rewrite IH1.
  - intros w'. rewrite !filter_cons. cbn [mWatchId]. destruct (decide (mWatchId x = w')) as [Hd|Hd].
    + rewrite bool_decide_eq_true_2 by congruence. rewrite !fmap_cons. cbn [mEntries]. f_equal. rewrite IH2. by rewrite bool_decide_eq_true_2 by congruence.
    + rewrite bool_decide_eq_false_2 by congruence. rewrite IH2. by rewrite bool_decide_eq_false_2 by congruence.
  - rewrite filter_cons, decide_False by done. done.
  - intros w'. rewrite !filter_cons. destruct (decide (mWatchId x = w')) as [Hd|Hd]; [|apply IH2]. rewrite bool_decide_eq_false_2 by congruence.
    rewrite !fmap_cons, IH2. by rewrite bool_decide_eq_false_2 by congruence.
Qed.

Lemma purge_keys_spec w keys : forall out m, NoDup keys ->
  let '(pVec, m') := fold_left (purge_key w) keys (out, m) in
  pVec = out ++ concat ((fun k => concat (waiting w (default [] (m !! k)))) <$> keys) /\
  forall k w', waiting w' (default [] (m' !! k)) =
    if bool_decide (k ∈ keys /\ w' = w) then (fun _ => []) <$> waiting w' (default [] (m !! k)) else waiting w' (default [] (m !! k)).
Proof.
  induction keys as [|x keys IH]; intros out m Hnd; cbn [fold_left].
  { split; [by rewrite app_nil_r|]. intros k w'. rewrite bool_decide_eq_false_2; [done|]. set_solver. }
  apply NoDup_cons in Hnd as [Hx Hnd]. unfold purge_key at 2.
  destruct (purge_wraps_spec w (default [] (m !! x))) as [H1 H2]. destruct (purge_wraps w _) as [taken l]. cbn [fst snd] in *.
  specialize (IH (out ++ taken) (<[x := l]> m) Hnd). destruct (fold_left _ keys _) as [pVec m']. destruct IH as [-> IH2]. split.
  - rewrite fmap_cons. cbn [concat]. rewrite <- app_assoc, <- H1. do 3 f_equal. apply list_fmap_ext. intros i k Hk.
    rewrite lookup_insert_ne; [done|]. intros ->. apply Hx. by eapply list_elem_of_lookup_2.
  - intros k w'. rewrite IH2. destruct (decide (k = x)) as [->|Hne].
    + rewrite lookup_insert_eq. cbn [default]. rewrite (bool_decide_eq_false_2 (x ∈ keys /\ w' = w)) by (intros [? _]; done).
      rewrite H2. erewrite bool_decide_ext; [reflexivity|]. set_solver.
    + rewrite lookup_insert_ne by done. erewrite bool_decide_ext; [reflexivity|]. set_solver.
Qed.

(** ** Boxes *)

Lemma box_of_fresh keys k : NoDup keys -> box_of k (Some ((fun k => (k, [])) <$> keys)) = if bool_decide (k ∈ keys) then [[]] else [].
Proof.
  cbn. induction 1 as [|x keys Hx Hnd IH]; [done|]. rewrite fmap_cons, filter_cons. cbn [fst]. destruct (decide (x = k)) as [->|Hne].
  - rewrite bool_decide_eq_true_2 by (by left). rewrite bool_decide_eq_false_2 in IH by done. by rewrite fmap_cons, IH.
  - rewrite IH. by rewrite (bool_decide_ext (k ∈ keys) (k ∈ x :: keys)) by set_solver.
Qed.

Lemma box_of_absent k (box : list (KeyType * list WatchEntry)) : k ∉ box.*1 -> box_of k (Some box) = [].
Proof.
  cbn. induction box as [|[x es] box IH]; [done|]. rewrite fmap_cons. intros Hk. rewrite filter_cons, decide_False by (cbn; set_solver). apply IH. set_solver.
Qed.

Lemma box_of_one k (box : list (KeyType * list WatchEntry)) : NoDup box.*1 -> tail (box_of k (Some box)) = [].
Proof.
  induction box as [|[x es] box IH]; [done|]. rewrite fmap_cons. intros [Hx Hnd]%NoDup_cons. cbn [box_of]. rewrite filter_cons. cbn [fst] in *.
  destruct (decide (x = k)) as [->|Hne]; [|by apply IH]. rewrite fmap_cons. cbn [tail]. by apply box_of_absent.
Qed.

Lemma box_of_entries (box : list (KeyType * list WatchEntry)) : NoDup box.*1 ->
  concat ((fun k => concat (box_of k (Some box))) <$> box.*1) = box_entries box.
Proof.
  unfold box_entries. induction box as [|[x es] box IH]; [done|]. rewrite !fmap_cons. cbn [fst snd concat]. intros [Hx Hnd]%NoDup_cons.
  rewrite <- IH by done. f_equal.
  - cbn [box_of]. rewrite filter_cons, decide_True by done. rewrite fmap_cons. cbn [snd concat].
    pose proof (box_of_absent x box Hx) as H. cbn [box_of] in H. rewrite H. apply app_nil_r.
  - f_equal. apply list_fmap_ext. intros i k Hk. cbn [box_of]. rewrite filter_cons, decide_False; [done|]. cbn. intros ->.
    apply Hx. by eapply list_elem_of_lookup_2.
Qed.

Lemma box_of_emptied k (box : list (KeyType * list WatchEntry)) : box_of k (Some (emptied box)) = (fun _ => []) <$> box_of k (Some box).
Proof.
  cbn [box_of]. unfold emptied. induction box as [|[x es] box IH]; [done|]. rewrite !fmap_cons, !filter_cons. cbn [fst].
  destruct (decide (x = k)); [by rewrite !fmap_cons, IH|done].
Qed.

Lemma box_of_deliver k e k' (box : list (KeyType * list WatchEntry)) :
  box_of k' (Some (deliver k e box)) = if bool_decide (k' = k) then (fun es => es ++ [e]) <$> box_of k' (Some box) else box_of k' (Some box).
Proof.
  cbn [box_of]. unfold deliver. induction box as [|[x es] box IH]; [by case_bool_decide|]. rewrite fmap_cons, !filter_cons. cbn [fst snd].
  destruct (decide (x = k)) as [->|Hne].
  - rewrite (bool_decide_eq_true_2 (k = k)) by done. cbn [fst]. destruct (decide (k = k')) as [->|Hne'].
    + rewrite (bool_decide_eq_true_2 (k' = k')) in * by done. by rewrite !fmap_cons, IH.
    + done.
  - rewrite (bool_decide_eq_false_2 (x = k)) by done. cbn [fst]. destruct (decide (x = k')) as [->|Hne'].
    + rewrite (bool_decide_eq_false_2 (k' = k)) in * by done. by rewrite !fmap_cons, IH.
    + done.
Qed.

Lemma deliver_keys k e (box : list (KeyType * list WatchEntry)) : (deliver k e box).*1 = box.*1.
Proof. unfold deliver. rewrite <- list_fmap_compose. apply list_fmap_ext. intros i [x es] _. cbn. by case_bool_decide. Qed.

Lemma emptied_keys (box : list (KeyType * list WatchEntry)) : (emptied box).*1 = box.*1.
Proof. unfold emptied. rewrite <- list_fmap_compose. by apply list_fmap_id. Qed.

(** ** Operations *)

Lemma register_mirrors w keys c b :
  mirrors c b -> b !! w = None -> NoDup keys -> mirrors (registerWatch w keys c) (<[w := (fun k => (k, [])) <$> keys]> b).
Proof.
  intros (Hk & Hnd & Hw) Hb Hkeys. assert (((fun k : KeyType => (k, [] : list WatchEntry)) <$> keys).*1 = keys) as Hfst.
  { rewrite <- list_fmap_compose. by apply list_fmap_id. }
  split_and!.
  - intros w'. cbn. destruct (decide (w' = w)) as [->|Hne]; [rewrite !lookup_insert_eq; cbn; by rewrite Hfst|by rewrite !lookup_insert_ne].
  - intros w' box Hbox. apply lookup_insert_Some in Hbox as [[<- <-]|[_ Hbox]]; [by rewrite Hfst|by eapply Hnd].
  - intros k w'. unfold wraps. cbn [registerWatch mKey2WatchEntryMap]. rewrite add_wraps_lookup, waiting_app by done.
    pose proof (Hw k w') as Hkw. unfold wraps in Hkw. rewrite Hkw. destruct (decide (w' = w)) as [->|Hne].
    + rewrite Hb, lookup_insert_eq, box_of_fresh by done. cbn [box_of app]. destruct (bool_decide (k ∈ keys)); [|done].
      rewrite waiting_single. by rewrite bool_decide_eq_true_2.
    + rewrite lookup_insert_ne by done. destruct (bool_decide (k ∈ keys)); [|apply app_nil_r]. rewrite waiting_single.
      rewrite bool_decide_eq_false_2 by done. apply app_nil_r.
Qed.

Lemma unregister_mirrors w c b :
  mirrors c b -> (unRegisterWatch w c).1 = bool_decide (is_Some (b !! w)) /\ mirrors (unRegisterWatch w c).2 (delete w b).
Proof.
  intros (Hk & Hnd & Hw). unfold unRegisterWatch. rewrite Hk. destruct (b !! w) as [box|] eqn:Eb; cbn [fmap option_fmap option_map fst snd].
  - split; [by rewrite bool_decide_eq_true_2|]. specialize (Hnd w box Eb) as Hbox. split_and!.
    + intros w'. cbn. destruct (decide (w' = w)) as [->|Hne]; [by rewrite !lookup_delete_eq|by rewrite !lookup_delete_ne].
    + intros w' box' Hbox'. apply lookup_delete_Some in Hbox' as [_ Hbox']. by eapply Hnd.
    + intros k w'. unfold wraps. cbn [mKey2WatchEntryMap]. rewrite drop_wraps_lookup by done. pose proof (Hw k w') as Hkw. unfold wraps in Hkw.
      destruct (decide (w' = w)) as [->|Hne].
      * rewrite lookup_delete_eq. cbn [box_of]. rewrite Eb in Hkw. destruct (decide (k ∈ box.*1)) as [Hin|Hin].
        -- rewrite bool_decide_eq_true_2 by done. rewrite erase_waiting, bool_decide_eq_true_2 by done. rewrite Hkw. by apply box_of_one.
        -- rewrite bool_decide_eq_false_2 by done. rewrite Hkw. by apply box_of_absent.
      * rewrite lookup_delete_ne by done. rewrite <- Hkw. destruct (bool_decide (k ∈ box.*1)); [|done].
        rewrite erase_waiting. by rewrite bool_decide_eq_false_2.
  - split; [done|]. by rewrite delete_id.
Qed.

Lemma purge_mirrors w c b :
  mirrors c b -> (purgeWatchValue w c).1 = box_entries <$> (b !! w) /\ mirrors (purgeWatchValue w c).2 (alter emptied w b).
Proof.
  intros (Hk & Hnd & Hw). unfold purgeWatchValue. rewrite Hk. destruct (b !! w) as [box|] eqn:Eb; cbn [fmap option_fmap option_map].
  - specialize (Hnd w box Eb) as Hbox. pose proof (purge_keys_spec w box.*1 [] (mKey2WatchEntryMap c) Hbox) as Hp.
    destruct (fold_left _ _ _) as [pVec m]. destruct Hp as [-> Hm]. cbn [fst snd app]. split; [|split_and!].
    + f_equal. rewrite <- box_of_entries by done. f_equal. apply list_fmap_ext. intros i k _. rewrite <- Eb. f_equal. apply Hw.
    + intros w'. cbn [mWatchId2KeyMap]. rewrite Hk. destruct (decide (w' = w)) as [->|Hne].
      * rewrite lookup_alter_eq, Eb. cbn. by rewrite emptied_keys.
      * by rewrite lookup_alter_ne.
    + intros w' box' Hbox'. destruct (decide (w' = w)) as [->|Hne].
      * rewrite lookup_alter_eq, Eb in Hbox'. injection Hbox' as <-. by rewrite emptied_keys.
      * rewrite lookup_alter_ne in Hbox' by done. by eapply Hnd.
    + intros k w'. unfold wraps. cbn [mKey2WatchEntryMap]. rewrite Hm. pose proof (Hw k w') as Hkw. unfold wraps in Hkw. rewrite Hkw.
      destruct (decide (w' = w)) as [->|Hne].
      * rewrite lookup_alter_eq, Eb. cbn [fmap option_fmap option_map]. rewrite box_of_emptied. destruct (decide (k ∈ box.*1)) as [Hin|Hin].
        -- by rewrite bool_decide_eq_true_2.
        -- rewrite bool_decide_eq_false_2 by (by intros [? _]). by rewrite box_of_absent.
      * rewrite lookup_alter_ne by done. by rewrite bool_decide_eq_false_2 by (by intros [_ ?]).
  - split; [done|]. cbn [snd]. rewrite alter_id; [done|]. intros x Hx. by rewrite Eb in Hx.
Qed.

Lemma on_key_mirrors k e f c b :
  (forall x, f x = mkWrap (mWatchId x) (mEntries x ++ [e])) -> mirrors c b -> mirrors (on_key k f c) (deliver_all k e b).
Proof.
  intros Hf (Hk & Hnd & Hw).
  assert (forall l w, waiting w (f <$> l) = (fun es => es ++ [e]) <$> waiting w l) as Hwait.
  { intros l w. unfold waiting. induction l as [|x l IH]; [done|]. rewrite fmap_cons, !filter_cons, Hf. cbn [mWatchId].
    destruct (decide (mWatchId x = w)); [by rewrite !fmap_cons, IH|done]. }
  split_and!.
  - intros w. unfold deliver_all. rewrite lookup_fmap. transitivity (mWatchId2KeyMap c !! w); [unfold on_key; by case_match|]. rewrite Hk.
    destruct (b !! w); [|done]. cbn. by rewrite deliver_keys.
  - intros w box. unfold deliver_all. rewrite lookup_fmap. destruct (b !! w) as [box0|] eqn:Eb; [|done]. intros [= <-]. rewrite deliver_keys. by eapply Hnd.
  - intros k' w. unfold deliver_all. rewrite lookup_fmap.
    assert (waiting w (wraps k' (on_key k f c)) = if bool_decide (k' = k) then (fun es => es ++ [e]) <$> waiting w (wraps k' c) else waiting w (wraps k' c)) as ->.
    { unfold on_key, wraps. destruct (mKey2WatchEntryMap c !! k) as [l|] eqn:El; cbn [mKey2WatchEntryMap]; destruct (decide (k' = k)) as [->|Hne].
      - rewrite lookup_insert_eq, El, bool_decide_eq_true_2 by done. apply Hwait.
      - rewrite lookup_insert_ne by done. by rewrite bool_decide_eq_false_2.
      - rewrite El. by case_bool_decide.
      - by rewrite bool_decide_eq_false_2. }
    rewrite Hw. destruct (b !! w) as [box|]; cbn [fmap option_fmap option_map]; [by rewrite box_of_deliver|]. by case_bool_decide.
Qed.

(** C21: the center is a set of mailboxes. For any sequence of registrations with new identifiers and
    distinct keys, of changes, and of watches that take their changes or end, every watch is
    answered as if it had a mailbox of its own, into which each change of one of its
    keys is put once, in order, from its registration to its end, and which it empties. *)
Theorem center_refines_mailboxes ops : proper ops ∅ ->
  (operate_all operate ops new_WatchCenter).1 = (operate_all abstract_operate ops ∅).1.
Proof.
  assert (forall ops c b used, mirrors c b -> dom b ⊆ used -> proper ops used ->
    (operate_all operate ops c).1 = (operate_all abstract_operate ops b).1) as H.
  { clear ops. induction ops as [|op ops IH]; intros c b used Hm Hd Hp; [done|]. cbn [operate_all].
    assert (forall a c' b', mirrors c' b' -> forall used', dom b' ⊆ used' -> proper ops used' ->
      (let '(l, x) := operate_all operate ops c' in (a :: l, x)).1 = (let '(l, x) := operate_all abstract_operate ops b' in (a :: l, x)).1) as Hcons.
    { intros a c' b' Hm' used' Hd' Hp'. specialize (IH c' b' used' Hm' Hd' Hp').
      destruct (operate_all operate ops c'), (operate_all abstract_operate ops b'). cbn in *. by rewrite IH. }
    destruct op as [w keys|w|w|k v ver|k ver rec]; cbn [operate abstract_operate proper] in *.
    - destruct Hp as (Hw & Hnd & Hp). assert (b !! w = None) as Hb by (apply not_elem_of_dom; set_solver).
      apply (Hcons _ _ _ (register_mirrors w keys c b Hm Hb Hnd) ({[w]} ∪ used)); [set_solver|done].
    - destruct (unregister_mirrors w c b Hm) as [H1 H2]. destruct (unRegisterWatch w c) as [found c']. cbn in H1, H2. rewrite <- H1.
      apply (Hcons _ _ _ H2 used); [set_solver|done].
    - destruct (purge_mirrors w c b Hm) as [H1 H2]. destruct (purgeWatchValue w c) as [es c']. cbn in H1, H2. rewrite <- H1.
      apply (Hcons _ _ _ H2 used); [by rewrite dom_alter_L|done].
    - apply (Hcons _ _ _ (on_key_mirrors k (mkWatchEntry k v ver ver true) _ c b ltac:(done) Hm) used); [|done]. unfold deliver_all. by rewrite dom_fmap_L.
    - apply (Hcons _ _ _ (on_key_mirrors k (mkWatchEntry k "" ver rec false) _ c b ltac:(done) Hm) used); [|done]. unfold deliver_all. by rewrite dom_fmap_L. }
  intros Hp. apply (H ops _ _ ∅); [|set_solver|done]. split_and!; [done|done|]. intros k w. unfold wraps. cbn. by rewrite !lookup_empty.
Qed.
