(* ===== verification/WatchStream.v ===== *)
(** * The stream of a watch

    [KVWatchCallData] (object-store/network/rpc/KVWatchCallData.h/.cpp): a client asks to watch keys,
    is sent their changes until it cancels, and heartbeats meanwhile. gRPC calls [proceed] after each
    operation on the stream. *)

From S2P Require Import Prelude Status Proto KVStore KVGenerateCommand KVEngineImpl Command WatchCenter.

(** ** Messages *)

Inductive WatchValue := CreateReq (entries : list ReadEntry) (retrieveOnConnected : bool) | CancelReq | NoValue.

Record WatchRequest := mkWatchRequest { wq_header : RequestHeader; wq_value : WatchValue }.

(** [Watch::EventType] *)
Inductive ChangeType := INIT_EXIST | INIT_NOTEXIST | OVERWRITTEN | DELETED_ | HEARTBEAT.

Record Change := mkChange { ch_key : string; ch_value : string; ch_version : Z; ch_type : ChangeType }.

Record WatchResponse := mkWatchResponse { wp_code : ResponseCode; wp_watchId : string; wp_changes : list Change }.

(** ** State *)

Inductive CallStatus := CREATE | PROCESS | FINISH.

(** What is asked of the stream and of its queue. *)
Inductive StreamOp :=
| RequestWatch
| NewCallData
| Read
| ReadCancel
| Write (r : WatchResponse)
| WriteAndFinish (r : WatchResponse)
| Finish
| SetAlarm
| Deleted_.

Record KVWatchCallData := mkCall {
  mCallStatus : CallStatus;
  mUnwatchReceived : bool;
  mWatch : string;
  mKeyVersionMap : gmap string Z;
  mRequest : WatchRequest;
  mPreHeartbeatTime : Z;
  stream : list StreamOp;
}.

Definition new_call : KVWatchCallData := mkCall CREATE false "" ∅ (mkWatchRequest (mkReqHeader 0 0) NoValue) 0 [].

(** The call, the center and the database. *)
Record World (R : Type) := mkWorld { call : KVWatchCallData; center : WatchCenter; database : R }.
Arguments mkWorld {R} _ _ _.
Arguments call {R} _.
Arguments center {R} _.
Arguments database {R} _.

Definition HEARTBEAT_INTERVAL_IN_SEC : Z := 30.

Definition set_status (st : CallStatus) (d : KVWatchCallData) : KVWatchCallData :=
  mkCall st (mUnwatchReceived d) (mWatch d) (mKeyVersionMap d) (mRequest d) (mPreHeartbeatTime d) (stream d).
Definition add_op (op : StreamOp) (d : KVWatchCallData) : KVWatchCallData :=
  mkCall (mCallStatus d) (mUnwatchReceived d) (mWatch d) (mKeyVersionMap d) (mRequest d) (mPreHeartbeatTime d) (stream d ++ [op]).

Section WatchStream.
Context {R : Type} `{!KVStore R} {UNINIT : Uninitialised}.

Definition on_call (f : KVWatchCallData -> KVWatchCallData) : M (World R) unit :=
  modify (fun w => mkWorld (f (call w)) (center w) (database w)).
Definition in_center {A} (f : WatchCenter -> A * WatchCenter) : M (World R) A :=
  fun c w => let '(a, ctr) := f (center w) in Done a c (mkWorld (call w) ctr (database w)).
Definition in_database {A} (m : M R A) : M (World R) A := zoom database (fun d w => mkWorld (call w) (center w) d) m.

(** Times are in nanoseconds. *)
Definition resetHeartbeatTime (now : Z) (d : KVWatchCallData) : KVWatchCallData :=
  mkCall (mCallStatus d) (mUnwatchReceived d) (mWatch d) (mKeyVersionMap d) (mRequest d) now (stream d).

Definition need2SendHeartbeat (now : Z) (d : KVWatchCallData) : bool :=
  bool_decide (HEARTBEAT_INTERVAL_IN_SEC * 10 ^ 9 < now - mPreHeartbeatTime d).

Definition sendResponse (now : Z) (resp : WatchResponse) : M (World R) unit :=
  on_call (fun d => resetHeartbeatTime now (add_op (Write resp) d)).

Definition sendHeartbeat (now : Z) : M (World R) unit :=
  let* w := get in
  sendResponse now (mkWatchResponse RC_OK (mWatch (call w)) [mkChange "" "" 0 HEARTBEAT]).

(** [version > mKeyVersionMap[key]] *)
Definition needNotify (key : KeyType) (version : VersionType) (d : KVWatchCallData) : bool :=
  bool_decide (default 0 (mKeyVersionMap d !! key) < version).

Definition processCancelWatchRequest : M (World R) unit :=
  let* w := get in
  in_center (unRegisterWatch (mWatch (call w))) ;;;
  ret tt.

(** [mKeyVersionMap[e.key()] = e.version()] for the entries. *)
Definition note_versions (entries : list ReadEntry) (m : gmap string Z) : gmap string Z :=
  fold_left (fun m e => <[re_key e := re_version e]> m) entries m.

(** The values the watch starts with: what the database has. The code of the header is that of the last
    read that failed. *)
Fixpoint initial_changes (entries : list ReadEntry) (results : list ReadWriteResult) (code : ResponseCode) (changes : list Change)
    : ResponseCode * list Change :=
  match entries, results with
  | e :: entries, r :: results =>
      let r := match r with ReadRes r => r | _ => empty_read_result end in
      if bool_decide (rr_code r = RC_KEY_NOT_EXIST \/ rr_code r = RC_OK) then
        initial_changes entries results code
          (changes ++ [mkChange (re_key e) (rr_value r) (rr_version r)
                         (if bool_decide (rr_code r = RC_KEY_NOT_EXIST) then INIT_NOTEXIST else INIT_EXIST)])
      else initial_changes entries results (rr_code r) changes
  | _, _ => (code, changes)
  end.

Definition startWatch (newId : string) (now : Z) (header : RequestHeader) (entries : list ReadEntry) (retrieve : bool) : M (World R) unit :=
  on_call (fun d => mkCall (mCallStatus d) (mUnwatchReceived d) newId (note_versions entries (mKeyVersionMap d)) (mRequest d)
                           (mPreHeartbeatTime d) (stream d)) ;;;
  in_center (fun c => (tt, registerWatch newId (re_key <$> entries) c)) ;;;
  if retrieve then
    let* batchResp := in_database (getAppliedBatch
                        (mkExeBatchRequest header ((fun e => RWRead (mkReadEntry (re_key e) 0)) <$> entries))) in
    if bool_decide (h_code (bp_header batchResp) = RC_OK) then
      let '(code, changes) := initial_changes entries (bp_results batchResp) RC_OK [] in
      sendResponse now (mkWatchResponse code newId changes)
    else sendResponse now (mkWatchResponse (h_code (bp_header batchResp)) newId [])
  else sendResponse now (mkWatchResponse RC_OK newId []).

(** [newId] is the identifier given out if a watch is registered. *)
Definition processNewWatchRequest (newId : string) (now : Z) : M (World R) unit :=
  let* w := get in
  match wq_value (mRequest (call w)) with
  | NoValue => on_call (add_op Read)
  | CreateReq (e :: entries) retrieve =>
      on_call (add_op NewCallData) ;;;
      startWatch newId now (wq_header (mRequest (call w))) (e :: entries) retrieve
  | _ =>
      on_call (add_op NewCallData) ;;;
      on_call (fun d => add_op (WriteAndFinish (mkWatchResponse RC_BAD_REQUEST "" [])) (set_status FINISH d))
  end.

Definition change_of (e : WatchEntry) : Change :=
  if isDeleted e then mkChange (we_changedKey e) "" (we_newVersion e) DELETED_
  else mkChange (we_changedKey e) (we_newValue e) (we_newVersion e) OVERWRITTEN.

Definition news (d : KVWatchCallData) (entries : list WatchEntry) : list Change :=
  change_of <$> filter (fun e => needNotify (we_changedKey e) (we_recordVersion e) d = true) entries.

Definition responseWatchData (now : Z) : M (World R) unit :=
  let* w := get in
  (if mUnwatchReceived (call w) then ret tt
   else on_call (fun d => mkCall (mCallStatus d) true (mWatch d) (mKeyVersionMap d) (mRequest d) (mPreHeartbeatTime d) (stream d ++ [ReadCancel]))) ;;;
  let* result := in_center (purgeWatchValue (mWatch (call w))) in
  match result with
  | None => on_call (fun d => add_op Finish (set_status FINISH d))
  | Some [] =>
      let* w := get in
      if need2SendHeartbeat now (call w) then sendHeartbeat now
      else on_call (fun d => add_op SetAlarm (set_status PROCESS d))
  | Some entries => sendResponse now (mkWatchResponse RC_OK (mWatch (call w)) (news (call w) entries))
  end.

Definition proceed (newId : string) (now : Z) : M (World R) unit :=
  let* w := get in
  match mCallStatus (call w) with
  | CREATE => on_call (fun d => add_op RequestWatch (set_status PROCESS d))
  | PROCESS => if bool_decide (mWatch (call w) = "") then processNewWatchRequest newId now else responseWatchData now
  | FINISH => on_call (add_op Deleted_)
  end.

Definition failOver : M (World R) unit :=
  let* w := get in
  (if bool_decide (mWatch (call w) = "") then ret tt
   else in_center (unRegisterWatch (mWatch (call w))) ;;; ret tt) ;;;
  on_call (add_op Deleted_).

(** ** What is sent *)

(** A turn of the stream of a registered watch sends what waits in the mailbox of the watch, less what the client has
    already, and empties the mailbox. *)
Lemma turn_sends_mailbox newId now c w b box :
  mirrors (center w) b -> mCallStatus (call w) = PROCESS -> mWatch (call w) <> "" -> b !! mWatch (call w) = Some box -> box_entries box <> [] ->
  exists w' ops, proceed newId now c w = Done tt c w' /\
    stream (call w') = ops ++ [Write (mkWatchResponse RC_OK (mWatch (call w)) (news (call w) (box_entries box)))] /\
    mirrors (center w') (alter emptied (mWatch (call w)) b) /\ mCallStatus (call w') = PROCESS.
Proof.
  intros Hm Hst Hid Hb Hne. unfold proceed. run. rewrite Hst. rewrite bool_decide_eq_false_2 by done. unfold responseWatchData, sendResponse, on_call, in_center. run.
  destruct (purge_mirrors (mWatch (call w)) (center w) b Hm) as [H1 H2]. rewrite Hb in H1. cbn in H1.
  destruct (mUnwatchReceived (call w)); cbn [center]; destruct (purgeWatchValue _ _) as [out ctr]; cbn in H1, H2; subst out;
    (destruct (box_entries box) as [|e es]; [done|]; eexists _, _; split; [reflexivity|]; cbn; split_and!; [reflexivity|done|done]).
Qed.

End WatchStream.
