(* ===== verification/ClusterClient.v ===== *)
(** * Reaching a cluster

    [migration::ClusterClient] (object-manager/migration/ClusterClient.h/.cpp): the object manager
    tells a cluster to start or to end a migration. It has to find the leader among the nodes
    of the cluster: it tries them in turn, or follows the hint of a node that is not the leader. *)

From Stdlib Require Import Ascii.
From S2P Require Import Prelude OrderedMap Status Proto KVGenerateCommand ControlProto.

(** ** State *)

Record NodeClient := mkNode { mNodeId : Z; mHostName : string }.

(** [slept]: the milliseconds slept so far. *)
Record ClusterClient := mkClient {
  mLeaderIndex : Z;
  mNodeClientVector : list NodeClient;
  mClusterAddress : ClusterAddress;
  slept : Z;
}.

Definition set_nodes (l : list NodeClient) (s : ClusterClient) : ClusterClient :=
  mkClient (mLeaderIndex s) l (mClusterAddress s) (slept s).

Definition MAX_ROUND : nat := 3.
Definition SLEEP_MILLI_SEC_PER_ROUND : Z := 100.

(** ** Construction *)

(** [buildClient]: the client of a node is made anew, in its place if it has one. The clients are known by
    their node: [mClientMap] has the pointers of [mNodeClientVector]. *)
Definition buildClient (nodeId : Z) (hostName : string) (l : list NodeClient) : list NodeClient :=
  (fun n => if bool_decide (mNodeId n = nodeId) then mkNode nodeId hostName else n) <$> l.

(** A server is [id@host], or [host] with its position as its id. *)
Definition server_node (i : nat) (hostName : string) : option NodeClient :=
  match String.index 0 "@" hostName with
  | Some pos =>
      id ← stoi (String.substring 0 pos hostName);
      Some (mkNode (u32 id) (String.substring (pos + 1) (String.length hostName - (pos + 1)) hostName))
  | None => Some (mkNode (u32 (Z.of_nat i + 1)) hostName)
  end.

(** [init]; a host whose id is no number throws. *)
Fixpoint initNodes (i : nat) (servers : list string) (l : list NodeClient) : option (list NodeClient) :=
  match servers with
  | [] => Some l
  | hostName :: servers =>
      n ← server_node i hostName;
      initNodes (S i) servers (buildClient (mNodeId n) (mHostName n) l ++ [n])
  end.

Definition new_ClusterClient (clusterAddress : ClusterAddress) : option ClusterClient :=
  l ← initNodes 0 clusterAddress []; Some (mkClient 0 l clusterAddress 0).

(** ** Nodes *)

Definition servers_size (s : ClusterClient) : Z := Z.of_nat (length (mClusterAddress s)).

Definition getNextNodeIndex (index : Z) : M ClusterClient Z :=
  let* s := get in
  assert_ (bool_decide (index < servers_size s)) ;;;
  ret (u64 (index + 1) mod servers_size s).

(** Without nodes the remainder is undefined. *)
Definition getNodeByIndex (index : Z) : M ClusterClient NodeClient :=
  let* s := get in
  let size := Z.of_nat (length (mNodeClientVector s)) in
  if bool_decide (size = 0) then stop Undefined
  else match mNodeClientVector s !! Z.to_nat (index mod size) with Some n => ret n | None => stop Undefined end.

Fixpoint find_node (nodeId : Z) (l : list NodeClient) : option Z :=
  match l with
  | [] => None
  | n :: l => if bool_decide (mNodeId n = nodeId) then Some 0 else Z.succ <$> find_node nodeId l
  end.

Definition getIndexByNodeId (nodeId : Z) : M ClusterClient Z :=
  let* s := get in
  match find_node nodeId (mNodeClientVector s) with Some i => ret i | None => stop AssertFail end.

Definition doSleep (retry : Z) : M ClusterClient unit :=
  modify (fun s => mkClient (mLeaderIndex s) (mNodeClientVector s) (mClusterAddress s)
                            (slept s + ((retry - 1) / servers_size s + 1) * SLEEP_MILLI_SEC_PER_ROUND)).

Definition setLeader (index : Z) : M ClusterClient unit :=
  modify (fun s => mkClient index (mNodeClientVector s) (mClusterAddress s) (slept s)).

(** [buildClient(nodeId, mNodeClientVector[leaderIndex]->getHostname())] *)
Definition rebuild (nodeId leaderIndex : Z) : M ClusterClient unit :=
  let* s := get in
  match mNodeClientVector s !! Z.to_nat leaderIndex with
  | None => stop Undefined
  | Some n => put (set_nodes (buildClient nodeId (mHostName n) (mNodeClientVector s)) s)
  end.

(** ** Requests *)

(** What the nodes answer to the request: the header, by attempt and by node. *)
Section Requests.
Context (answer : Z -> Z -> ResponseHeader).

(** [doMigrationImpl]; [attemptsLeft] counts the attempts up to [MAX_ROUND] times the number of servers. *)
Fixpoint doMigrationImpl (attemptsLeft : nat) (leaderIndex retryTime : Z) : M ClusterClient (ResponseCode * ResponseHeader) :=
  match attemptsLeft with
  | O => ret (RC_GENERAL_ERROR, empty_header)
  | S attemptsLeft =>
      let* n := getNodeByIndex leaderIndex in
      let response := answer retryTime (mNodeId n) in
      if bool_decide (h_code response = RC_OK) then
        setLeader leaderIndex ;;;
        ret (RC_OK, response)
      else if bool_decide (h_code response = RC_NOT_LEADER /\ h_leaderHint response <> "") then
        match stoi (h_leaderHint response) with
        | None => stop Uncaught
        | Some id =>
            let* index := getIndexByNodeId (u32 id) in
            doMigrationImpl attemptsLeft index (retryTime + 1)
        end
      else
        doSleep retryTime ;;;
        (if bool_decide (h_code response = RC_UNKNOWN \/ h_code response = RC_GENERAL_ERROR)
         then rebuild (mNodeId n) leaderIndex else ret tt) ;;;
        let* index := getNextNodeIndex leaderIndex in
        doMigrationImpl attemptsLeft index (retryTime + 1)
  end.

(** [endMigrationImpl]: the id in the hint is taken for an index. *)
Fixpoint endMigrationImpl (attemptsLeft : nat) (leaderIndex retryTime : Z) : M ClusterClient (ResponseCode * ResponseHeader) :=
  match attemptsLeft with
  | O => ret (RC_GENERAL_ERROR, empty_header)
  | S attemptsLeft =>
      let* n := getNodeByIndex leaderIndex in
      let response := answer retryTime (mNodeId n) in
      if bool_decide (h_code response = RC_OK) then
        setLeader leaderIndex ;;;
        ret (RC_OK, response)
      else if bool_decide (h_code response = RC_NOT_LEADER /\ h_leaderHint response <> "") then
        match stoi (h_leaderHint response) with
        | None => stop Uncaught
        | Some id => endMigrationImpl attemptsLeft (u64 id) (retryTime + 1)
        end
      else
        doSleep retryTime ;;;
        rebuild (mNodeId n) leaderIndex ;;;
        let* index := getNextNodeIndex leaderIndex in
        endMigrationImpl attemptsLeft index (retryTime + 1)
  end.

Definition attempts (s : ClusterClient) : nat := (MAX_ROUND * length (mClusterAddress s))%nat.

Definition doMigration : M ClusterClient ResponseHeader :=
  let* s := get in
  let* (_, response) := doMigrationImpl (attempts s) (mLeaderIndex s) 1 in
  ret response.

Definition endMigration : M ClusterClient ResponseHeader :=
  let* s := get in
  let* (_, response) := endMigrationImpl (attempts s) (mLeaderIndex s) 1 in
  ret response.

End Requests.

(** ** The leader is found *)

(** A client of a cluster whose nodes have distinct ids, one per server. *)
Definition client_ok (s : ClusterClient) : Prop :=
  length (mNodeClientVector s) = length (mClusterAddress s) /\ NoDup (mNodeId <$> mNodeClientVector s) /\
  0 <= mLeaderIndex s < servers_size s /\ servers_size s < 2 ^ 63.

(** The node at position [l] leads: it accepts the request; the others do not, and give its id as a hint or none. *)
Definition leads (answer : Z -> Z -> ResponseHeader) (id : Z) : Prop :=
  0 <= id < 2 ^ 31 /\ forall retry n,
    if bool_decide (n = id) then h_code (answer retry n) = RC_OK
    else h_code (answer retry n) <> RC_OK /\ (h_leaderHint (answer retry n) = "" \/ h_leaderHint (answer retry n) = to_string id).

Lemma find_node_index l i n : NoDup (mNodeId <$> l) -> l !! i = Some n -> find_node (mNodeId n) l = Some (Z.of_nat i).
Proof.
  revert i. induction l as [|x l IH]; intros i Hnd Hi; [done|]. rewrite fmap_cons in Hnd. apply NoDup_cons in Hnd as [Hx Hnd]. cbn [find_node].
  destruct i as [|i]; [injection Hi as ->; by rewrite bool_decide_eq_true_2|]. cbn in Hi. rewrite bool_decide_eq_false_2.
  - rewrite (IH i) by done. cbn. f_equal. lia.
  - intros Heq. apply Hx. rewrite Heq. apply (list_elem_of_fmap_2 mNodeId). by eapply list_elem_of_lookup_2.
Qed.

Lemma buildClient_ids id h l : mNodeId <$> buildClient id h l = mNodeId <$> l.
Proof. unfold buildClient. rewrite <- list_fmap_compose. apply list_fmap_ext. intros i x _. cbn. by case_bool_decide. Qed.

(** The ids of a client, all that matters for finding the leader. *)
Definition ids (s : ClusterClient) : list Z := mNodeId <$> mNodeClientVector s.

Lemma getNode_run s i c : (0 < length (ids s))%nat ->
  exists n, getNodeByIndex i c s = Done n c s /\ ids s !! Z.to_nat (i mod Z.of_nat (length (ids s))) = Some (mNodeId n).
Proof.
  intros Hlen. unfold getNodeByIndex. run. unfold ids in *. rewrite length_fmap in *. rewrite bool_decide_eq_false_2 by lia.
  destruct (lookup_lt_is_Some_2 (mNodeClientVector s) (Z.to_nat (i mod Z.of_nat (length (mNodeClientVector s))))) as [n Hn].
  { pose proof (Z.mod_pos_bound i (Z.of_nat (length (mNodeClientVector s))) ltac:(lia)). lia. }
  exists n. rewrite Hn, list_lookup_fmap, Hn. done.
Qed.

(** Distances around the ring of nodes. *)
Lemma distance_pos a b n : 0 <= a < n -> 0 <= b < n -> a <> b -> 0 < (a - b) mod n.
Proof.
  intros Ha Hb Hne. destruct (Z_lt_ge_dec a b).
  - rewrite <- (Z.mod_add _ 1) by lia. rewrite Z.mod_small; lia.
  - rewrite Z.mod_small; lia.
Qed.

Lemma distance_next a b n : 0 < n -> 0 < (a - b) mod n -> (a - (b + 1) mod n) mod n = (a - b) mod n - 1.
Proof.
  intros Hn Hpos. rewrite Zminus_mod_idemp_r. replace (a - (b + 1)) with (a - b - 1) by lia. rewrite <- Zminus_mod_idemp_l.
  pose proof (Z.mod_pos_bound (a - b) n Hn). rewrite Z.mod_small; lia.
Qed.

(** Trying the next node. *)
Lemma next_node_run answer retry n idx c s :
  0 <= idx < servers_size s -> servers_size s < 2 ^ 63 -> length (ids s) = length (mClusterAddress s) ->
  exists s', ids s' = ids s /\ mClusterAddress s' = mClusterAddress s /\ forall k : Z -> M ClusterClient (ResponseCode * ResponseHeader),
    (doSleep retry ;;;
     (if bool_decide (h_code answer = RC_UNKNOWN \/ h_code answer = RC_GENERAL_ERROR) then rebuild n idx else ret tt) ;;;
     let* index := getNextNodeIndex idx in k index) c s = k ((idx + 1) mod servers_size s) c s'.
Proof.
  intros Hidx Hsz Hlen. unfold doSleep, rebuild, getNextNodeIndex. run. unfold servers_size in *. cbn [mNodeClientVector mClusterAddress].
  destruct (lookup_lt_is_Some_2 (mNodeClientVector s) (Z.to_nat idx)) as [x Hx].
  { unfold ids in Hlen. rewrite length_fmap in Hlen. lia. }
  case_bool_decide; cbn [mNodeClientVector mClusterAddress set_nodes]; rewrite ?Hx; cbn [mNodeClientVector mClusterAddress set_nodes];
    (eexists; split_and!; [| |intros k; rewrite bool_decide_eq_true_2 by lia; rewrite u64_small by (unfold is_u64; lia); reflexivity]; [|done]).
  - unfold ids. cbn. apply buildClient_ids.
  - done.
Qed.

Lemma doMigrationImpl_finds answer id k : leads answer id -> forall attemptsLeft idx retry c s,
  length (ids s) = length (mClusterAddress s) -> NoDup (ids s) -> servers_size s < 2 ^ 63 -> ids s !! k = Some id ->
  0 <= idx < servers_size s -> (Z.of_nat k - idx) mod servers_size s < Z.of_nat attemptsLeft ->
  exists r s', doMigrationImpl answer attemptsLeft idx retry c s = Done (RC_OK, answer r id) c s' /\ mLeaderIndex s' = Z.of_nat k /\ ids s' = ids s.
Proof.
  intros [Hid Hl]. induction attemptsLeft as [|left IH]; intros idx retry c s Hlen Hnd Hsz Hk Hidx Hd.
  { pose proof (Z.mod_pos_bound (Z.of_nat k - idx) (servers_size s) ltac:(lia)). lia. }
  assert (0 <= Z.of_nat k < servers_size s) as Hks by (apply lookup_lt_Some in Hk; unfold servers_size; lia).
  assert (Z.of_nat (length (ids s)) = servers_size s) as Hids by (unfold servers_size; lia).
  destruct (getNode_run s idx c ltac:(lia)) as (n & Hn & Hni). rewrite Hids, Z.mod_small in Hni by lia.
  cbn [doMigrationImpl]. rewrite (bind_Done _ _ _ _ _ _ _ Hn). specialize (Hl retry (mNodeId n)) as Hans. case_bool_decide as Hlead.
  { rewrite bool_decide_eq_true_2 by done. exists retry. rewrite Hlead in *. eexists. split; [reflexivity|]. cbn.
    split; [|done]. assert (Z.to_nat idx = k) by (eapply NoDup_lookup; [exact Hnd|done|done]). lia. }
  destruct Hans as [Hcode Hhint]. rewrite (bool_decide_eq_false_2 (h_code _ = RC_OK)) by done.
  assert (0 < (Z.of_nat k - idx) mod servers_size s) as Hpos.
  { apply distance_pos; [done|done|]. intros <-. rewrite Nat2Z.id, Hk in Hni. congruence. }
  case_bool_decide as Hh.
  - destruct Hh as [_ Hh]. destruct Hhint as [|Hhint]; [done|]. rewrite Hhint, stoi_to_string by lia. rewrite bool_decide_eq_true_2 by lia.
    rewrite u32_small by (unfold is_u32; lia). destruct (mNodeClientVector s !! k) as [nk|] eqn:Enk; unfold ids in Hk; rewrite list_lookup_fmap, Enk in Hk; [|done].
    injection Hk as Hnk. unfold getIndexByNodeId. run.
    assert (find_node id (mNodeClientVector s) = Some (Z.of_nat k)) as -> by (rewrite <- Hnk; by apply find_node_index).
    apply IH; [done|done|done|unfold ids; rewrite list_lookup_fmap, Enk; cbn; by rewrite Hnk|lia|]. rewrite Z.sub_diag, Z.mod_0_l by lia. lia.
  - destruct (next_node_run (answer retry (mNodeId n)) retry (mNodeId n) idx c s Hidx Hsz Hlen) as (s1 & Hi1 & Ha1 & Hrun). rewrite Hrun.
    assert (servers_size s1 = servers_size s) as Hs1 by (unfold servers_size; by rewrite Ha1).
    destruct (IH ((idx + 1) mod servers_size s) (retry + 1) c s1) as (r & s' & Hr & Hs); rewrite ?Hi1, ?Ha1, ?Hs1; [done..| | |].
    + apply Z.mod_pos_bound. lia.
    + rewrite distance_next by lia. lia.
    + exists r, s'. rewrite Hi1 in Hs. done.
Qed.

(** C22: the leader is found. If one node of the cluster leads and accepts the request while the others do not, and say who
    leads or nothing at all, a migration is started: the answer is the leader's, and the client
    remembers its place. *)
Theorem migration_reaches_the_leader answer id k c s :
  client_ok s -> ids s !! k = Some id -> leads answer id ->
  exists r s', doMigration answer c s = Done (answer r id) c s' /\ mLeaderIndex s' = Z.of_nat k /\ ids s' = ids s.
Proof.
  intros (Hlen & Hnd & Hidx & Hsz) Hk Hl. unfold doMigration. run.
  assert (length (ids s) = length (mClusterAddress s)) as Hlen' by (unfold ids; by rewrite length_fmap).
  destruct (doMigrationImpl_finds answer id k Hl (attempts s) (mLeaderIndex s) 1 c s) as (r & s' & Hr & Hs); [done..| |].
  - pose proof (Z.mod_pos_bound (Z.of_nat k - mLeaderIndex s) (servers_size s) ltac:(lia)). unfold attempts, MAX_ROUND, servers_size in *. lia.
  - exists r, s'. by rewrite Hr.
Qed.

(** A client of three nodes. *)
Definition three_nodes : ClusterClient := mkClient 0 [mkNode 1 "a:1"; mkNode 2 "b:1"; mkNode 3 "c:1"] ["1@a:1"; "2@b:1"; "3@c:1"] 0.

(** Node 3 leads; the others say so. *)
Definition third_leads (retry n : Z) : ResponseHeader :=
  if bool_decide (n = 3) then mkRespHeader RC_OK "" 0 "" [] "" else mkRespHeader RC_NOT_LEADER "" 0 "3" [] "".

(** Ending a migration does not find the leader starting it finds: the id of the leader, taken for a position, is the first node's, and the
    nine attempts all go there. *)
Theorem end_migration_misses_the_leader c :
  doMigration third_leads c three_nodes = Done (third_leads 0 3) c (mkClient 2 (mNodeClientVector three_nodes) (mClusterAddress three_nodes) 0) /\
  endMigration third_leads c three_nodes = Done empty_header c three_nodes.
Proof. split; reflexivity. Qed.

Lemma migration_reaches_the_leader_witness :
  exists r s', doMigration third_leads (fun _ => 0) three_nodes = Done (third_leads r 3) (fun _ => 0) s' /\ mLeaderIndex s' = 2.
Proof.
  destruct (migration_reaches_the_leader third_leads 3 2 (fun _ => 0) three_nodes) as (r & s' & H1 & H2 & _).
  - split_and!; [reflexivity|apply (bool_decide_unpack _); vm_compute; exact I|vm_compute; discriminate|reflexivity|reflexivity].
  - reflexivity.
  - split; [lia|]. intros retry n. unfold third_leads. case_bool_decide; [done|]. split; [done|by right].
  - exists r, s'. split; assumption.
Defined.
