(* ===== verification/Witnesses.v ===== *)
(** * Concrete runs

    The theorems with hypotheses, applied to concrete inputs: the server's store
    over a database, with the library parameters instantiated as in
    Instances.v. *)

From S2P Require Import Prelude Status Proto KVStore SharedMutex Lockable ProxyKVStore InMemoryKVStore.
From S2P Require Import Sharding ConcurInMemoryKVStore WSConcurInMemoryKVStore Locking VersionStore.
From S2P Require Import TemporalKVStore RocksDBKVStore RocksDBSpec Instances Event Command.
From S2P Require Import KVPutCommand KVGetCommand KVDeleteCommand KVImportCommand KVTransCommand.
From S2P Require Import CommandProcessor ProcessorSpec CommandsSpec.

#[local] Existing Instance concrete_hash.
#[local] Existing Instance concrete_lookup.

#[local] Instance concrete_ips : NodeIps := fun _ => "10.0.0.1".

Definition ran {S A} (o : outcome S A) : bool := match o with Done _ _ _ => true | Stop _ => false end.

Lemma ran_Done {S A} (o : outcome S A) : ran o = true -> exists a c s, o = Done a c s.
Proof. destruct o as [a c s|]; [eauto | discriminate]. Qed.

(** ** Stores *)

Definition rocks0 : RocksDBKVStore :=
  mkRocks _ (Some ∅) "wal" "db" ["ws"] ["default"; "ws"] [] no_observers.

Definition wsconcur0 : WSConcur := default (mkWSConcur ∅ no_observers) (new_WSConcur ["ws"]).

Abbreviation ServerStore := (WSConcurInMemoryKVStore (ReadOnlyKVStore RocksDBKVStore)).

Definition store0 : ServerStore := mkWSStore wsconcur0 (wrap rocks0).

Definition engine0 {S} (kv : S) : Engine S := mkEngine kv (mkVersionStore 8 7) 3 5 [].

Definition put0 : PutRequest :=
  mkPutRequest (mkReqHeader 0 0) (mkWriteEntry "k" "v" false 0 0 0 (mkUdf [1] [])).
Definition get0 : GetRequest := mkGetRequest (mkReqHeader 0 0) (mkReadEntry "k" 0) false false.
Definition del0 : DeleteRequest := mkDeleteRequest (mkReqHeader 0 0) (mkRemoveEntry "k" 0) true.

Lemma wsconcur_refines_inmemory_witness :
  new_WSConcur ["ws"] = Some wsconcur0 /\
  sim_at (merged WSConcurInMemoryKVStore.wf WSConcurInMemoryKVStore.shard mWSDelegate)
    (calls [CallWrite "a" "1" 3 0 DEFAULT_UDFMETA; CallRead "a" fresh_out; CallDelete "a" 4 3;
            CallRead "a" fresh_out] (clock_at 10) store0)
    (calls [CallWrite "a" "1" 3 0 DEFAULT_UDFMETA; CallRead "a" fresh_out; CallDelete "a" 4 3;
            CallRead "a" fresh_out] (clock_at 10) (mkInMemory empty_bucket (wrap rocks0))).
Proof.
  assert (new_WSConcur ["ws"] = Some wsconcur0) as Hnew by reflexivity.
  split; [exact Hnew|]. apply (wsconcur_refines_inmemory ["ws"]); [exact Hnew|].
  intros key. exists (mkWrapper new_Concur Free). apply (lookup_insert_eq ∅ "ws").
Defined.

(** ** Locks *)

Lemma locking_deadlock_free_witness :
  exists cfg', steps (start [(["a"; "bb"], true); (["bb"], true)]) cfg' /\ Forall finished cfg'.2 /\
    forall k, cfg'.1 k = Free.
Proof. apply (locking_deadlock_free [(["a"; "bb"], true); (["bb"], true)]). constructor. Defined.


(** Two commands that lock "a" shared. *)
Definition cmds0 : list (list KeyType * bool) := [(["a"], false); (["a"], false)].
Definition seg0 : WSName * nat := ("ws", 1%nat).

Lemma start0 : start cmds0 = (fun _ => Free, [mkThread false [] [seg0]; mkThread false [] [seg0]]).
Proof. vm_compute. reflexivity. Qed.

Definition cfg1 : Config :=
  (upd (fun _ => Free) seg0 (Shared 1), [mkThread false [seg0] []; mkThread false [] [seg0]]).
Definition cfg2 : Config :=
  (upd (upd (fun _ => Free) seg0 (Shared 1)) seg0 (Shared 2),
   [mkThread false [seg0] []; mkThread false [seg0] []]).

Lemma step01 : step (start cmds0) cfg1.
Proof. rewrite start0. by apply (step_acquire _ [] [mkThread false [] [seg0]]). Qed.

Lemma step12 : step cfg1 cfg2.
Proof. by apply (step_acquire _ [mkThread false [seg0] []] []). Qed.

Lemma locking_bounded_witness : (work cfg2.2 < work cfg1.2 <= work (start cmds0).2)%nat.
Proof.
  apply (locking_bounded cmds0 cfg1 cfg2); [|apply step12].
  eapply steps_step; [apply step01 | constructor].
Defined.

Lemma locking_exclusion_witness :
  excl (mkThread false [seg0] []) = false /\ excl (mkThread false [seg0] []) = false.
Proof.
  apply (locking_exclusion cmds0 cfg2 0 1 _ _ seg0); [|lia|reflexivity|reflexivity|by left|by left].
  eapply steps_step; [apply step01|]. eapply steps_step; [apply step12 | constructor].
Defined.

(** ** The stored value *)


Lemma raw_ttl_value_roundtrip_witness :
  fromRawValue (toRawValueTTL "v" 5 60 1060 SINGLE 1000 DEFAULT_UDFMETA) (clock_at 0) tt =
  Done (Status.ok, mkPayload (mkMeta NORMAL_WITH_TTL 5 60 1060 SINGLE 1000 None) (SingleValue "v"))
       (clock_at 0) tt.
Proof.
  apply (raw_ttl_value_roundtrip "v" 5 60 1060 SINGLE 1000 DEFAULT_UDFMETA (clock_at 0) tt).
  vm_compute. reflexivity.
Defined.

(** A user-defined meta with one field of a hundred characters. *)
Definition long_meta : Meta :=
  mkMeta NORMAL 5 0 0 SINGLE 17 (Some (mkUdf [] [String.concat "" (replicate 10 "0123456789")])).

Lemma long_meta_is_unreadable_witness :
  fromRawValue (raw_of long_meta (SingleValue "v")) (clock_at 0) tt =
  Done (Status.error "corrupted payload", mkPayload empty_meta NoData) (clock_at 0) tt.
Proof.
  apply (long_meta_is_unreadable long_meta "v" (clock_at 0) tt).
  - by left.
  - vm_compute. split; discriminate.
  - vm_compute. reflexivity.
Defined.

(** ** Commands *)

Definition write0 : Event :=
  EvWrite (mkWriteEvent "k" "v" 8 false INFINITE_TTL NEVER_EXPIRE 10 (mkUdf [1] []) false).

Lemma replicated_events_apply_alike_witness :
  exists b es', toBundle [write0] (clock_at 0) store0 = Done b (clock_at 0) store0 /\
    fromBundle b (clock_at 0) store0 = Done es' (clock_at 0) store0 /\
    length es' = 1%nat /\ (getAllocatedVersion <$> es') = [8] /\
    apply_all es' (clock_at 0) store0 = apply_all [write0] (clock_at 0) store0.
Proof. apply (replicated_events_apply_alike [write0] (clock_at 0) store0). by repeat constructor. Defined.

Lemma put_imports_nothing {S} `{!KVStore S} req : imports_nothing (KVPutCommand.command (S := S) req).
Proof.
  intros r c s st es r' c' s' H. cbn in H. unfold plain, KVPutCommand.execute in H.
  apply bind_inv in H as ([st0 es0] & c1 & s1 & H1 & H). run_in H. simplify_eq.
  apply bind_inv in H1 as ([s2|[en ttl]] & c2 & s2' & H2 & H1); [run_in H1; simplify_eq; constructor|].
  apply bind_inv in H1 as (dl & c3 & s3 & H3 & H1). run_in H1. simplify_eq.
  repeat constructor. discriminate.
Qed.

(** A single in-memory store over the database. *)
Abbreviation PlainStore := (InMemoryKVStore (ReadOnlyKVStore RocksDBKVStore)).
Definition plain0 : Engine PlainStore := engine0 (mkInMemory empty_bucket (wrap rocks0)).

Definition pput : Command PlainStore := KVPutCommand.command put0.
Definition pget : Command PlainStore := KVGetCommand.command get0.
Definition pdel : Command PlainStore := KVDeleteCommand.command del0.

Lemma persisted_events_are_applied_witness :
  exists c' e' r,
    doExecute None pput (clock_at 10) plain0 = Done tt c' e' /\
    effects e' = [PersistAsync 3 8 pput r [write0]] /\
    3 = mCurTerm plain0 /\ [write0] <> [] /\
    Forall (fun x => replicable x /\ getAllocatedVersion x = 8) [write0] /\
    (8, mVersionStorePtr e') = allocateNextVersion kInvalidVersion (mVersionStorePtr plain0) /\
    exists sp r0 cp kvp c0 kv0 s0 es r1 c1 kv1 f c2 kv2 u,
      Command.prepare pput (initialResponse pput) (clock_at 10) (mKVStorePtr plain0) = Done (sp, r0) cp kvp /\
      Status.isOK sp = true /\
      Command.execute pput r0 c0 kv0 = Done (s0, es, r1) c1 kv1 /\
      until_error [write0] apply Status.ok c1 kv1 = Done f c2 kv2 /\ Status.isOK f = true /\
      kvUnlock ["k"] true c2 kv2 = Done u c' (mKVStorePtr e') /\ Status.isOK u = true.
Proof.
  destruct (put_run put0 (clock_at 10) plain0 eq_refl ltac:(cbn; lia)) as (r & _ & _ & H).
  eexists _, _, (PutResp r). split; [exact H|]. split; [reflexivity|].
  apply (persisted_events_are_applied None pput ["k"] true (clock_at 10) plain0 _ _ 3 8 (PutResp r)
    [write0] ltac:(done) (put_imports_nothing put0) H eq_refl).
Defined.

(** The server's engine. *)
Definition server0 : Engine ServerStore := engine0 store0.
Definition sput : Command ServerStore := KVPutCommand.command put0.
Definition env0 : Environment := mkEnv (fun _ => (Leader, 3)) (fun _ => SteppedDown) (fun _ => Status.ok) None.

Lemma process_balances_locks_witness :
  exists c' e', process false 1 env0 None sput (clock_at 10) server0 = Done tt c' e' /\
    forall i, engine_locks e' i = engine_locks server0 i.
Proof.
  destruct (ran_Done (process false 1 env0 None sput (clock_at 10) server0)) as ([] & c' & e' & H);
    [vm_compute; reflexivity|].
  exists c', e'. split; [exact H|].
  apply (process_balances_locks false 1 env0 None sput (KVPutCommand.laws put0) (clock_at 10) server0 c' e');
    [intros cb cmd; discriminate | exact H].
Defined.


Lemma one_effect_from_the_leader_witness :
  exists c' e', process false 1 env0 None sput (clock_at 10) server0 = Done tt c' e' /\
    exists x, effects e' = effects server0 ++ [x] /\
      forall t, persist_term x = Some t -> t = mCurTerm e' /\ exists n, roleAndTerm env0 n = (Leader, t).
Proof.
  destruct (ran_Done (process false 1 env0 None sput (clock_at 10) server0)) as ([] & c' & e' & H);
    [vm_compute; reflexivity|].
  exists c', e'. split; [exact H|].
  apply (one_effect_from_the_leader false 1 env0 None sput (clock_at 10) server0 c' e'); [reflexivity | exact H].
Defined.

Lemma put_then_get_witness :
  exists c' e' r1 r2 w,
    session [pput; pget] (clock_at 10) plain0 = Done tt c' e' /\
    effects e' = [PersistAsync 3 8 pput (PutResp r1) [EvWrite w]; ReplyAsync 0 3 8 pget (GetResp r2) false] /\
    w_version w = 8 /\ w_value w = "v" /\ wr_version (pp_result r1) = 8 /\
    rr_code (gp_result r2) = RC_OK /\ rr_value (gp_result r2) = "v" /\ rr_version (gp_result r2) = 8.
Proof.
  apply (put_then_get put0 get0 (clock_at 10) plain0);
    [reflexivity | split; reflexivity | reflexivity | cbn; lia].
Defined.

Lemma put_delete_get_witness :
  exists c' e' r1 r2 r3 w d,
    session [pput; pdel; pget] (clock_at 10) plain0 = Done tt c' e' /\
    effects e' = [PersistAsync 3 8 pput (PutResp r1) [EvWrite w];
                  PersistAsync 3 9 pdel (DeleteResp r2) [EvDelete d];
                  ReplyAsync 0 3 9 pget (GetResp r3) false] /\
    d_version d = 9 /\ d_deletedVersion d = 8 /\ dr_version (dp_result r2) = 8 /\
    rr_code (gp_result r3) = RC_KEY_NOT_EXIST.
Proof.
  apply (put_delete_get put0 del0 get0 (clock_at 10) plain0);
    [reflexivity | reflexivity | split; reflexivity | reflexivity | reflexivity | cbn; lia].
Defined.

(** The key is in the database only. *)
Definition rocks1 : RocksDBKVStore :=
  mkRocks _ (Some {[("ws", "k") := toRawValue "old" 4 SINGLE 9 DEFAULT_UDFMETA]}) "wal" "db" ["ws"]
          ["default"; "ws"] [] no_observers.
Definition plain1 : Engine PlainStore := engine0 (mkInMemory empty_bucket (wrap rocks1)).

Lemma delete_then_get_of_uncached_key_witness :
  exists c' e' r1 r2 d,
    session [pdel; pget] (clock_at 10) plain1 = Done tt c' e' /\
    effects e' = [PersistAsync 3 8 pdel (DeleteResp r1) [EvDelete d]; ReplyAsync 0 3 4 pget (GetResp r2) false] /\
    d_key d = "k" /\ rr_code (gp_result r2) = RC_OK /\ rr_value (gp_result r2) = "old".
Proof.
  apply (delete_then_get_of_uncached_key del0 get0 (clock_at 10) plain1 "old" 0 4);
    [reflexivity | split; reflexivity | reflexivity | reflexivity | reflexivity | | lia | cbn; lia].
  intros c. vm_compute. reflexivity.
Defined.

Lemma import_never_completes_witness :
  ~ exists x c' e', doExecute None (Import_.command put0) (clock_at 10) server0 = Done x c' e'.
Proof.
  intros (x & c' & e' & H). revert H.
  apply (import_never_completes put0 (clock_at 10) server0 x c' e'). intros H. discriminate.
Defined.
