(* ===== verification/RaftWitnesses.v ===== *)
(** * Concrete runs of the raft side

    A codec for log entries that satisfies its laws, a committed log of two
    entries, and the theorems of RaftEventStore.v and ReplyLoop.v applied to
    them. *)

From Stdlib Require Import Ascii.
From S2P Require Import Prelude Status Proto KVStore ProxyKVStore InMemoryKVStore RocksDBKVStore.
From S2P Require Import Instances VersionStore Event Command CommandProcessor CommandsSpec Witnesses.
From S2P Require Import RaftEventStore ReplyLoop RocksDBSpec EventApplyLoop ApplyLoopSpec ReplicationSpec Checkpoint.

(** ** An encoding of bundles *)

Definition bool_enc (b : bool) : string := if b then "t" else "f".
Definition bool_dec (s : string) : bool := bool_decide (s = "t").

Lemma bool_dec_enc b : bool_dec (bool_enc b) = b.
Proof. by destruct b. Qed.

Definition ProtoEvent_fields (p : ProtoEvent) : list string :=
  match p with
  | PWrite w =>
      "w" :: pw_key w :: pw_value w :: Z_enc (pw_version w) :: bool_enc (pw_enableTTL w) :: Z_enc (pw_ttl w)
          :: Z_enc (pw_deadline w) :: Z_enc (pw_updateTime w) :: bool_enc (pw_isNoop w)
          :: udf_fields (pw_udfMeta w)
  | PDelete d => ["d"; pd_key d; pd_deletedValue d; Z_enc (pd_deletedVersion d); Z_enc (pd_version d)]
  | PAppend => ["a"]
  | PUnset => []
  end.

Definition ProtoEvent_of_fields (l : list string) : option ProtoEvent :=
  match l with
  | tag :: k :: v :: ver :: e :: t :: dl :: ut :: n :: udf =>
      Some (PWrite (mkProtoWrite k v (Z_dec ver) (bool_dec e) (Z_dec t) (Z_dec dl) (Z_dec ut) (bool_dec n)
                                 (udf_of_fields udf)))
  | [tag; k; v; dv; ver] => Some (PDelete (mkProtoDelete k v (Z_dec dv) (Z_dec ver)))
  | [tag] => Some PAppend
  | [] => Some PUnset
  | _ => None
  end.

Lemma ProtoEvent_of_fields_ok p : ProtoEvent_of_fields (ProtoEvent_fields p) = Some p.
Proof.
  destruct p as [[]|[]| |]; cbn -[Z_dec Z_enc bool_dec bool_enc udf_fields udf_of_fields];
    by rewrite ?Z_dec_enc, ?bool_dec_enc, ?udf_of_fields_ok.
Qed.

Definition Bundle_enc (b : Bundle) : string := strs_enc ((fun p => strs_enc (ProtoEvent_fields p)) <$> b).

Definition Bundle_dec (s : string) : option Bundle :=
  mapM (fun x => ProtoEvent_of_fields (strs_dec x)) (strs_dec s).

(** Encryption that puts a mark in front of the payload. *)
#[local] Instance concrete_codec : LogCodec := {|
  cryptoEnabled := true;
  latestSecKeyVersion := 2;
  kInvalidSecKeyVersion := 0;
  kOldestSecKeyVersion := 1;
  encrypt _ p := String "#"%char p;
  decrypt _ p := match p with String _ p => Some p | EmptyString => None end;
  serBundle := Bundle_enc;
  parBundle := Bundle_dec;
|}.

#[local] Instance concrete_codec_laws : LogCodecLaws concrete_codec.
Proof.
  constructor; cbn; [|done..]. intros b. unfold Bundle_dec, Bundle_enc. rewrite strs_dec_enc.
  induction b as [|p b IH]; [done|]. cbn [fmap list_fmap mapM]. rewrite strs_dec_enc, ProtoEvent_of_fields_ok.
  cbn. unfold Bundle_dec in IH. by rewrite IH.
Qed.

(** ** A committed log *)

Definition bundle0 : Bundle := [PWrite (mkProtoWrite "k" "v" 8 false 0 0 10 false None)].

(** The no-op of the leader of term 3, and a bundle. *)
Definition log0 : list LogEntry := [mkLogEntry 3 1 true 2 ""; entry_of 2 3 bundle0].

Definition view_of (log : list LogEntry) (term : Z) (role : RaftRole) : RaftView :=
  mkRaftView (Z.of_nat (length log)) (Z.of_nat (length log)) term role
    (fun i => log !! Z.to_nat (i - 1))
    (fun start size => take (Z.to_nat size) (drop (Z.to_nat (start - 1)) log)).

(** A raft that stays as it is. *)
Definition steady (v : RaftView) : nat -> RaftView := fun _ => v.

Lemma view_shows_all log term role : shows_all log (view_of log term role).
Proof. by split. Qed.

Lemma view_sees log term role : sees log (view_of log term role).
Proof. intros start size Hs Hz. exists (Z.to_nat size). split; [lia | done]. Qed.

Lemma bundles_loaded_in_order_witness :
  exists bs c' st', (resetLoadedLogIndex 0 ;;; loadCalls 4 [steady (view_of log0 3 Follower)])
      (clock_at 0) (new_RES (S := PlainStore)) = Done bs c' st' /\
    bs `prefix_of` [(bundle0, 2)] /\ mAppliedIndex st' = foldl Z.max 0 bs.*2 /\
    (Forall (fun raft => forall i, shows_all log0 (raft i)) [steady (view_of log0 3 Follower)] ->
     (length [(bundle0, 2%Z)] <= 1)%nat -> bs = [(bundle0, 2)]).
Proof.
  apply (bundles_loaded_in_order log0 0 [(bundle0, 2)] 4 [steady (view_of log0 3 Follower)]).
  - vm_compute. reflexivity.
  - cbn. lia.
  - constructor; [intros i; apply view_sees | constructor].
  - cbn. lia.
  - reflexivity.
  - reflexivity.
  - reflexivity.
Defined.

(** ** Persisting *)

Definition size0 (e : LogEntry) : Z := 100.

Lemma fits0 : forall e, size0 e <= kMaxPayLoadSizeInBytes.
Proof. intros e. discriminate. Qed.

Definition presp : Response := initialResponse pput.

Definition queued0 : RaftEventStore PlainStore :=
  mkRES 3 Leader [] 1 1 [mkPersistTask [write0] 8 3 pput presp] [] 1 [] [].


(** ** Becoming leader: the log ends with the no-op of term 4. *)

Definition log1 : list LogEntry := log0 ++ [mkLogEntry 4 3 true 2 ""].

Lemma leader_is_ready_when_caught_up_witness :
  exists k, (k < 1)%nat /\
    caught_up (steady (view_of log1 4 Leader)) (fun _ => (3, 2)) 4 (0 + 4 * k)%nat 3 (Some bundle0).
Proof.
  apply (leader_is_ready_when_caught_up 1 0 4 (steady (view_of log1 4 Leader)) (fun _ => (3, 2)) 3
    (Some bundle0) (clock_at 0) (clock_at 0) (new_RES (S := unit)) new_RES).
  vm_compute. reflexivity.
Defined.

(** ** Replies *)

Definition entry0 : LogEntry :=
  entry_of 2 3 [PWrite (mkProtoWrite "k" "v" 8 false INFINITE_TTL NEVER_EXPIRE 10 false (Some (mkUdf [1] [])))].
Definition log2 : list LogEntry := [mkLogEntry 3 1 true 2 ""; entry0].
Definition task0 : ReplyTask PlainStore := mkReplyTask 2 3 8 false pput presp.
Definition sent0 : RaftEventStore PlainStore := mkRES 3 Leader [] 1 1 [] [] 2 [task0] [entry0].
Definition reply0 : Response := default presp (fillResponseAndReply pput RC_OK "Success" None presp).
Definition loop0 : ReplyLoop PlainStore :=
  mkReplyLoop (mkVersionStore 9 8) [] [] [(task0, RC_OK, reply0)].

Lemma view_safe log term role : RaftSafe (fun i => log !! Z.to_nat (i - 1)) (steady (view_of log term role)).
Proof. by split. Qed.

Lemma loop0_reached :
  rtc (step (RaftSafe (fun i => log2 !! Z.to_nat (i - 1)))) (mkReplyLoop (mkVersionStore 9 7) [] [] []) loop0.
Proof.
  eapply rtc_l; [by apply (step_push _ task0 _ (clock_at 0) (clock_at 0))|].
  eapply rtc_l; [|apply rtc_refl].
  apply (step_write _ 1 0 (steady (view_of log2 3 Leader)) (fun _ => true) None task0 [] _ [] []
    (clock_at 0) (clock_at 0)); [apply view_safe|]. reflexivity.
Qed.

Lemma acked_write_is_durable_witness :
  exists task entry b, task ∈ mPersistQueue queued0 /\ rt_cmd task0 = pt_cmd task /\
    log2 !! Z.to_nat (2 - 1) = Some entry /\ decryptEntry entry = Some [(b, 2)] /\
    forall c s, fromBundle b c s = Done (rebuilt <$> pt_events task) c (s : RaftEventStore PlainStore).
Proof.
  apply (acked_write_is_durable size0 fits0 (fun i => log2 !! Z.to_nat (i - 1)) true queued0 sent0
    (mkVersionStore 9 7) loop0 task0 reply0 (clock_at 0) (clock_at 0)).
  - repeat constructor.
  - cbn. lia.
  - cbn. lia.
  - reflexivity.
  - reflexivity.
  - intros e e' He%list_elem_of_singleton. subst e. cbn. intros [= <-] _. reflexivity.
  - apply loop0_reached.
  - by left.
  - by left.
Defined.

Lemma waiting_write_is_answered_witness :
  exists b, waitTillCommittedOrQuit 1 0 (steady (view_of log2 3 Leader)) (fun _ => true) 2 3 (clock_at 0) tt =
    Done b (clock_at 0) tt.
Proof.
  apply (waiting_write_is_answered (steady (view_of log2 3 Leader)) (fun _ => true) 2 3 0 1 (clock_at 0) tt).
  - exists 3. split; [done|]. left. cbn. lia.
  - cbn. lia.
  - intros n m _ _. by exists entry0.
  - lia.
Defined.

(** A new leader of term 4 overwrote index 2 with its no-op. *)
Definition log3 : list LogEntry := [mkLogEntry 3 1 true 2 ""; mkLogEntry 4 2 true 2 ""].
Definition read0 : ReplyTask PlainStore := mkReplyTask 0 3 8 false pget (initialResponse pget).
Definition loop1 : ReplyLoop PlainStore := mkReplyLoop (mkVersionStore 9 7) [task0] [read0] [].

Lemma failed_write_releases_reads_witness :
  exists respw respr,
  (exists l0, replyTask 1 0 (steady (view_of log3 4 Follower)) (fun _ => true) None read0 (clock_at 0) loop1 =
     Done tt (clock_at 0) l0 /\ replied l0 = []) /\
  exists l1 l2, replyTask 1 0 (steady (view_of log3 4 Follower)) (fun _ => true) None task0 (clock_at 0) loop1 =
     Done tt (clock_at 0) l1 /\
    replyTask 1 0 (steady (view_of log3 4 Follower)) (fun _ => true) None read0 (clock_at 0) l1 =
     Done tt (clock_at 0) l2 /\
    replied l2 = [] ++ [(task0, RC_NOT_LEADER, respw); (read0, RC_OK, respr)].
Proof.
  eexists _, _.
  apply (failed_write_releases_reads 1 0 (steady (view_of log3 4 Follower)) (fun _ => true) None task0 read0
    _ _ (clock_at 0) loop1).
  - discriminate.
  - reflexivity.
  - reflexivity.
  - reflexivity.
  - reflexivity.
  - cbn. lia.
  - reflexivity.
Defined.

(** ** Replay *)

#[local] Existing Instance concrete_lookup.

Lemma rocks0_rep : rep rocks0 (mkDisk ∅ [] None).
Proof.
  split; [|split; [done|split; [constructor|]]].
  - split; [done|]. split; [intros key; by left|]. by intros [H|H%elem_of_nil]%elem_of_cons.
  - exists ∅. split; [done|]. split; [intros key|]; by eexists.
Qed.

Lemma log2_ok : log_ok log2.
Proof.
  constructor.
  - intros [|[|k]] e H; [by injection H as <-..|done].
  - eexists. split; [vm_compute; reflexivity|]. apply Forall_singleton. split; [done|].
    split; [by eexists|]. apply Forall_singleton. split; [by left|]. vm_compute. reflexivity.
  - cbn. lia.
Qed.

Lemma database_replays_the_log_witness :
  exists l : EventApplyLoop RocksDBKVStore unit, rtc (life log2) (new_ApplyLoop rocks0) l /\
  exists d, rep (mKVStore l) d /\ rows d = replay log2 (default 0 (milestone d)) /\
    (mShouldRecover l = false ->
     default 0 (milestone d) = mLastMilestone l /\
     apply_ops (rows d) (pending d) = replay log2 (appliedIndex l)).
Proof.
  assert (starting log2 (new_ApplyLoop (S := unit) rocks0) (mkDisk ∅ [] None)) as Hst.
  { constructor; try done. apply rocks0_rep. }
  destruct (runOnce_starting log2 log2_ok 4 0 7 (steady (view_of log2 3 Follower)) (clock_at 0) _ _ Hst
    (fun _ => view_sees _ _ _) ltac:(cbn; lia)) as (c' & l' & d' & ds & Hrun & _).
  exists (new_ApplyLoop (restart (mKVStore l'))).
  assert (rtc (life log2) (new_ApplyLoop rocks0) (new_ApplyLoop (S := unit) (restart (mKVStore l')))) as Hlife.
  { eapply rtc_l; [eapply (life_round _ 4 0 7 (steady (view_of log2 3 Follower)) (clock_at 0)); [|cbn; lia|exact Hrun]|].
    - intros i. apply view_sees.
    - apply rtc_once, life_crash. }
  split; [exact Hlife|]. apply (database_replays_the_log log2 log2_ok rocks0 _ rocks0_rep Hlife).
Defined.

Lemma apply_loop_catches_up_witness :
  exists c' (l' : EventApplyLoop RocksDBKVStore unit) d',
    forM (replicate 3 (7, steady (view_of log2 3 Follower)))
      (fun x => runOnce isClearState 4 1 x.1 x.2 (fun _ => false)) (clock_at 0)
      (new_ApplyLoop (restart rocks0)) = Done tt c' l' /\
    rep (mKVStore l') d' /\ apply_ops (rows d') (pending d') = replay log2 2.
Proof.
  apply (apply_loop_catches_up log2 log2_ok 4 0 (replicate 3 (7, steady (view_of log2 3 Follower))) (clock_at 0)
    rocks0 (mkDisk ∅ [] None) rocks0_rep).
  - reflexivity.
  - cbn. lia.
  - cbn. lia.
  - repeat constructor; intros; try apply view_sees.
  - cbn. lia.
Defined.

(** ** A put, from the client to the database of a node *)

#[local] Existing Instance concrete_ips.

Definition events0 : RaftEventStore PlainStore := mkRES 3 Leader [] 1 1 [] [] 1 [] [].
Definition queued1 cmd r : RaftEventStore PlainStore :=
  mkRES 3 Leader [] 1 1 [mkPersistTask [EvWrite (mkWriteEvent "k" "v" 8 false INFINITE_TTL NEVER_EXPIRE 10 (mkUdf [1] []) false)] 8 3 cmd r] [] 1 [] [].

Lemma put0_is_sent cmd r :
  persistRound size0 true 1 (clock_at 10) (queued1 cmd r) =
  Done tt (clock_at 10) (mkRES 3 Leader [] 1 1 [] [] 2 [mkReplyTask 2 3 8 false cmd r] [entry0]).
Proof. vm_cast_no_check (eq_refl (Done (S := RaftEventStore PlainStore) tt (clock_at 10) (mkRES 3 Leader [] 1 1 [] [] 2 [mkReplyTask 2 3 8 false cmd r] [entry0]))). Qed.

(** Two rounds of the apply loop: the first applies the log, the second saves the milestone. *)
Definition round_at (ts : Z) (l : EventApplyLoop RocksDBKVStore unit) :=
  runOnce isClearState 4 1 ts (steady (view_of log2 3 Follower)) (fun _ => false) (clock_at 0) l.
Definition after_round (ts : Z) (l : EventApplyLoop RocksDBKVStore unit) :=
  match round_at ts l with Done _ _ l => l | Stop _ => l end.
Definition node0 := after_round (10 ^ 9) (after_round 7 (new_ApplyLoop rocks0)).

Lemma round_life ts l : round_at ts l = Done tt (clock_at 0) (after_round ts l) -> life log2 l (after_round ts l).
Proof. intros H. eapply (life_round _ 4 0 ts (steady (view_of log2 3 Follower)) (clock_at 0)); [intros i; apply view_sees|cbn; lia|exact H]. Qed.

Lemma node0_reached : rtc (life log2) (new_ApplyLoop rocks0) node0.
Proof.
  assert (round_at 7 (new_ApplyLoop rocks0) = Done tt (clock_at 0) (after_round 7 (new_ApplyLoop rocks0))) as H1
    by vm_cast_no_check (eq_refl (round_at 7 (new_ApplyLoop rocks0))).
  assert (round_at (10 ^ 9) (after_round 7 (new_ApplyLoop rocks0)) = Done tt (clock_at 0) node0) as H2
    by vm_cast_no_check (eq_refl (round_at (10 ^ 9) (after_round 7 (new_ApplyLoop rocks0)))).
  eapply rtc_l; [exact (round_life 7 _ H1)|]. eapply rtc_l; [exact (round_life (10 ^ 9) _ H2)|]. apply rtc_refl.
Qed.

Lemma node0_milestone c : kvLoadMilestone 0 c (mKVStore node0) = Done (Status.ok, 2) c (mKVStore node0).
Proof. vm_cast_no_check (eq_refl (kvLoadMilestone 0 c (mKVStore node0))). Qed.

Lemma put0_answered r :
  let t : ReplyTask PlainStore := mkReplyTask 2 3 8 false pput (PutResp r) in
  exists l r', rtc (step (RaftSafe (committed log2))) (mkReplyLoop (mkVersionStore 9 7) [] [] []) l /\ (t, RC_OK, r') ∈ replied l.
Proof.
  intros t. eexists _, _. split.
  - eapply rtc_l; [by apply (step_push _ t _ (clock_at 0) (clock_at 0))|]. eapply rtc_l; [|apply rtc_refl].
    apply (step_write _ 1 0 (steady (view_of log2 3 Leader)) (fun _ => true) None t [] _ [] [] (clock_at 0) (clock_at 0));
      [apply view_safe|]. reflexivity.
  - by left.
Qed.


(** ** Stale reads *)

(** A get that allows stale values, and a follower on the database of that node. *)
Definition stale0 : GetRequest := mkGetRequest (mkReqHeader 0 0) (mkReadEntry "k" 0) true false.
Definition follower0 : Engine PlainStore := engine0 (mkInMemory empty_bucket (wrap (mKVStore node0))).

Lemma stale_reads_are_monotonic_witness :
  exists n c' version r, 0 <= n <= 2 /\
    process false 0 env0 None (KVGetCommand.command stale0) (clock_at 10) follower0 =
      Done tt c' (answered (mKVStorePtr follower0) (ReplyAsync 0 3 version (KVGetCommand.command stale0) (GetResp r) true) follower0) /\
    answer_of r = replay_answer log2 n 10 "k".
Proof.
  destruct (stale_reads_are_monotonic log2 log2_ok rocks0 (new_ApplyLoop rocks0) node0 rocks0_rep (rtc_refl _ _) node0_reached)
    as (n & n' & H1 & H2 & _ & Hanswers).
  destruct (Hanswers stale0 0%nat env0 None (clock_at 10) follower0 eq_refl eq_refl) as (c' & v & r & Hrun & Hr).
  exists n', c', v, r. split; [change (Z.of_nat (length log2)) with 2 in H2; lia|]. by split.
Defined.

(** A put, a get of its key and a stale get of a key that is not there, on a leader with an empty database. *)
Lemma stale_miss_releases_reads_witness :
  exists c' e', (session [pput; pget] ;;; process false 0 env0 None (KVGetCommand.command stale0)) (clock_at 10) plain0 = Done tt c' e' /\
    length (effects e') = 3%nat.
Proof.
  destruct (stale_miss_releases_reads put0 get0 stale0 0 env0 None (clock_at 10) plain0) as (c' & e' & r1 & w & rg & rs & Hrun & Heff & _).
  - reflexivity.
  - split; reflexivity.
  - reflexivity.
  - cbn. lia.
  - cbn. lia.
  - reflexivity.
  - intros c. eexists _, _. reflexivity.
  - exists c', e'. split; [exact Hrun|]. by rewrite Heff.
Defined.

(** ** A checkpoint of that node *)

(** Directories and the databases in them. *)
#[local] Instance concrete_files : CheckpointFiles concrete_db (list (string * DB)) := {|
  ckCreate db path f := Some ((path, db) :: f);
  ckOpen f path _ := snd <$> head (filter (fun x => x.1 = path) f);
  ckRename path path' f := (fun x => (path', x.2) :: f) <$> head (filter (fun x => x.1 = path) f);
  getForeign _ db key := dbGet db kCFMetaDefault key;
|}.

#[local] Instance concrete_files_laws : CheckpointLaws concrete_db (list (string * DB)).
Proof.
  constructor; cbn.
  - intros db path f f' names [= <-]. exists db. split; [|done]. by rewrite filter_cons_True.
  - intros path path' f f' names H. destruct (head (filter _ f)) as [x|]; [|done]. injection H as <-. by rewrite filter_cons_True.
Qed.

