(* ===== verification/ControlScenarios.v ===== *)
(** * Scenarios of the control plane

    Concrete runs of the object manager on an engine that is a map: the
    theorems about configurations, routes and rings applied to concrete inputs, and what
    happens when clusters are added and started in one order or another. *)

From Stdlib Require Import Ascii.
From S2P Require Import Prelude OrderedMap Status Proto KVStore ControlProto ConcurInMemoryKVStore HashRing TransSpec.
From S2P Require Import KVGenerateCommand EngineContract ClusterSet ClusterSetSpec RouteSpec.

(** ** An encoding of the stored messages *)

Fixpoint bits (p : positive) : string :=
  match p with
  | xH => "1"
  | xO p => String "0"%char (bits p)
  | xI p => String "1"%char (bits p)
  end.

Fixpoint unbits (s : string) : option positive :=
  match s with
  | String "1"%char EmptyString => Some xH
  | String "0"%char s => xO <$> unbits s
  | String "1"%char s => xI <$> unbits s
  | _ => None
  end.

Lemma unbits_bits p : unbits (bits p) = Some p.
Proof.
  induction p as [p IH|p IH|]; [|cbn; by rewrite IH|done]. cbn [bits]. destruct (bits p) as [|a s] eqn:E; [by destruct p|].
  change (unbits (String "1"%char (String a s))) with (xI <$> unbits (String a s)). by rewrite IH.
Qed.

Section Encoding.
Context {A B : Type} `{Countable B} (out : A -> B) (back : B -> A).

Definition to_bits (x : A) : string := bits (encode (out x)).
Definition from_bits (s : string) : option A := p ← unbits s; back <$> decode p.

Lemma from_to_bits x : (forall x, back (out x) = x) -> from_bits (to_bits x) = Some x.
Proof. intros Hb. unfold from_bits, to_bits. rewrite unbits_bits. cbn. rewrite decode_encode. cbn. by rewrite Hb. Qed.

End Encoding.

Definition status_out (s : ClusterStatus) : Z :=
  match s with INIT => 0 | IN_SERVICE => 1 | EXPORTING => 2 | IMPORTING => 3 | OUT_OF_SERVICE => 1000 end.
Definition status_back (z : Z) : ClusterStatus :=
  match z with 0 => INIT | 1 => IN_SERVICE | 2 => EXPORTING | 3 => IMPORTING | _ => OUT_OF_SERVICE end.
Definition progress_back (z : Z) : MigrationStatus :=
  match z with 0 => NOT_START | 1 => PREPARED | 2 => RUNNING | 3 => SUCCEEDED | _ => FAILED end.
Definition shard_out (s : MigrationShardStatus) : Z :=
  match s with INITED => 0 | SCANNING => 1 | SHARD_EXPORTING => 2 | MIGRATED => 3 | STOPPED => 4 end.
Definition shard_back (z : Z) : MigrationShardStatus :=
  match z with 0 => INITED | 1 => SCANNING | 2 => SHARD_EXPORTING | 3 => MIGRATED | _ => STOPPED end.

Definition global_out (g : ClusterSetGlobalInfo) : Z * list Z * Z * list Z :=
  (g_routeVersion g, g_clusterIds g, g_currentMaxMigrationTaskId g, g_migrationTaskIds g).
Definition global_back (x : Z * list Z * Z * list Z) : ClusterSetGlobalInfo :=
  let '(a, b, c, d) := x in mkGlobalInfo a b c d.
Definition cluster_out (i : ClusterInfo) : list string * Z := (ci_addr i, status_out (ci_status i)).
Definition cluster_back (x : list string * Z) : ClusterInfo := mkClusterInfo x.1 (status_back x.2).
Definition task_out (t : MigrationTask) : Z * list string * list string * list (Z * Z) * Z :=
  (mt_taskId t, mt_sourceCluster t, mt_targetCluster t, (fun x => (x.1, shard_out x.2)) <$> mt_migrateShards t,
   MigrationStatus_number (mt_overallStatus t)).
Definition task_back (x : Z * list string * list string * list (Z * Z) * Z) : MigrationTask :=
  let '(a, b, c, d, e) := x in mkMigrationTask a b c ((fun x => (x.1, shard_back x.2)) <$> d) (progress_back e).

#[local] Instance bit_codec : ControlCodec := {
  serializeGlobal := to_bits global_out; parseGlobal := from_bits global_back;
  serializeCluster := to_bits cluster_out; parseCluster := from_bits cluster_back;
  serializeTask := to_bits task_out; parseTask := from_bits task_back;
}.

#[local] Instance bit_codec_laws : ControlCodecLaws bit_codec.
Proof.
  constructor; intros x; apply from_to_bits; clear x.
  - by intros [].
  - by intros [a []].
  - intros [a b c d e]. unfold task_back, task_out. cbn. f_equal; [|by destruct e]. rewrite <- list_fmap_compose.
    rewrite (list_fmap_ext _ id d), list_fmap_id; [done|]. by intros i [s []].
Qed.

(** ** An engine that is a map *)

Record MapEngine := mkMapEngine { theMap : gmap string (string * Z); nextVersion : Z }.

#[local] Instance map_engine : EngineOps MapEngine := {
  engGet req := let* e := get in
    ret (mkGetResponse (buildHeader empty_header RC_OK "") (read_answer (theMap e) (re_key (gq_entry req))));
  engTrans req := let* e := get in
    let '(code, results, m) := atrans (nextVersion e) (theMap e) (tq_preconds req) (tq_entries req) in
    put (mkMapEngine m (nextVersion e + 1)) ;;;
    ret (mkTransResponse (buildHeader empty_header code "") results []);
  engExeBatch req := let* e := get in
    let '(results, m) := aentries (nextVersion e) (theMap e) (bq_entries req) in
    put (mkMapEngine m (nextVersion e)) ;;;
    ret (mkExeBatchResponse (buildHeader empty_header RC_OK "") results);
}.

#[local] Instance map_engine_laws : EngineLaws MapEngine evolved.
Proof.
  refine {| holds e m v := theMap e = m /\ nextVersion e = v /\ 0 < v /\ versions_below m v; limit := 2 ^ 64; slack := 0 |}.
  - done.
  - by intros e m v (_ & _ & ?).
  - intros req c e m v _ He _. eexists _, c, e, m, v. destruct He as (<- & <- & ? & ?). split; [reflexivity|]. by split_and!; try lia.
  - intros req keys c e m v Hk He _. destruct He as (<- & <- & Hpos & Hb).
    eexists _, c, (mkMapEngine (theMap e) (nextVersion e)), (theMap e), (nextVersion e).
    change (fun k => RWRead (mkReadEntry k 0)) with read_entry in Hk.
    split; [cbn; unfold bind, get; rewrite Hk, aentries_reads; reflexivity|]. split_and!; try done; try lia.
    intros _. cbn. apply Forall2_fmap_r, Forall_Forall2_diag, Forall_forall. intros k _. exists (theMap e). done.
  - intros req c e m v _ He _. destruct He as (<- & <- & Hpos & Hb).
    pose proof (aentries_versions (nextVersion e) (tq_entries req) (theMap e)) as Hver. cbn. unfold bind, get.
    destruct (atrans (nextVersion e) (theMap e) (tq_preconds req) (tq_entries req)) as [[code results] m'] eqn:Ea.
    eexists _, _, _, (theMap e), (nextVersion e), m', (nextVersion e + 1). split; [reflexivity|].
    split_and!; try done; try (cbn; lia); [|by left]. intros k x ver Hk. cbn.
    assert (theMap e !! k = Some (x, ver) \/ ver = nextVersion e) as [Hk' | ->]; [|apply Hb in Hk'; lia|lia].
    unfold atrans in Ea. destruct (aconds _ _); [|injection Ea as <- <- <-; by left].
    destruct (aentries _ _ _) as [rs m'']. injection Ea as <- <- <-. destruct (Hver k x ver Hk) as [|[-> _]]; auto.
Defined.

(** ** Clusters come up *)

#[local] Instance sum_hash : StdHash := fun s => fold_left (fun acc a => 33 * acc + Z.of_nat (Ascii.nat_of_ascii a)) (String.list_ascii_of_string s) 5381.

Definition manager0 : Manager MapEngine := mkManager (mkMapEngine ∅ 1) ∅ [] 0 empty_global [] [].

Fixpoint requests (l : list Request) : M (Manager MapEngine) unit :=
  match l with
  | [] => ret tt
  | r :: l => handle 1 r ;;; requests l
  end.

Definition clock0 : clock := fun _ => 0.
Definition cluster_a : list string := ["1@10.0.0.1:50051"; "2@10.0.0.2:50051"].
Definition cluster_b : list string := ["1@10.1.0.1:50051"].

Definition outcome_fault {S A} (o : outcome S A) : option fault := match o with Stop f => Some f | Done _ _ _ => None end.

(** Two clusters that are added before one of them is started cannot be started: the first to start is not the only
    one, and there is no cluster in service to take shards from, which the manager asserts. *)
Theorem two_clusters_cannot_start :
  outcome_fault (requests [AddCluster cluster_a; AddCluster cluster_b; OnStartup cluster_a] clock0 manager0) = Some AssertFail.
Proof. vm_compute. reflexivity. Qed.

Definition router_after (l : list Request) : option RouteInfo :=
  match (requests l ;;; routerCall 1) clock0 manager0 with
  | Done (_, route) _ _ => Some route
  | Stop _ => None
  end.

Definition one_up : list Request := [AddCluster cluster_a; OnStartup cluster_a; AddCluster cluster_b].

Definition route_view (r : RouteInfo) : Z * list (list string) * list nat :=
  (ri_version r, ri_allClusters r, length <$> (ri_placementMap r).*1).

(** The placement changes and the version of the route does not: a second cluster that starts takes shards from the
    first, under the version the clients of the first have already. *)
Theorem onboarding_keeps_route_version :
  route_view <$> router_after one_up = Some (1, [cluster_a], [4096%nat]) /\
  route_view <$> router_after (one_up ++ [OnStartup cluster_b]) = Some (1, [cluster_a; cluster_b], [1%nat; 4095%nat]).
Proof. split; vm_compute; reflexivity. Qed.

(** A report on a migration that is not known aborts the manager. *)
Theorem unknown_migration_aborts taskId :
  outcome_fault (requests [AddCluster cluster_a; OnMigration (mkMigrationProgress taskId SUCCEEDED)] clock0 manager0) = Some AssertFail.
Proof. vm_compute. reflexivity. Qed.

(** ** A manager that comes too late *)

(** A manager loads the configuration; before it adds its cluster, another manager adds one. *)
Definition late_add (header : ResponseHeader) : M (Manager MapEngine) ResponseHeader :=
  new_manager ;;;
  let* header := init in
  let* mine := get in
  requests [AddCluster cluster_b] ;;;
  let* other := get in
  put (set_engine (mKVEngine other) mine) ;;;
  addCluster header cluster_a.

Definition clusters_of (m : Manager MapEngine) : option (list Z) :=
  '(x, _) ← theMap (mKVEngine m) !! KEY_CLUSTER_GLOBAL_INFO; g_clusterIds <$> parseGlobal x.

Lemma late_manager_is_refused :
  exists header c mgr, late_add ok_header clock0 manager0 = Done header c mgr /\
    h_code header = RC_PRECOND_NOT_MATCHED /\ clusters_of mgr = Some [1].
Proof. eexists _, _, _. split; [vm_compute; reflexivity|]. split; vm_compute; reflexivity. Qed.

(** ** Witnesses *)

Lemma configuration_stays_consistent_witness :
  exists c' mgr' m' v', handle 1 (AddCluster cluster_a) clock0 manager0 = Done tt c' mgr' /\
    holds (mKVEngine mgr') m' v' /\ config_ok m' /\ clusters_of mgr' = Some [1].
Proof.
  assert (exists c' mgr', handle 1 (AddCluster cluster_a) clock0 manager0 = Done tt c' mgr' /\ clusters_of mgr' = Some [1])
    as (c' & mgr' & Hrun & Hids) by (eexists _, _; split; vm_compute; reflexivity).
  destruct (configuration_stays_consistent 1 (AddCluster cluster_a) clock0 manager0 ∅ 1 c' mgr') as (m' & v' & Hh & _ & Hok & _).
  - apply (bool_decide_unpack _). vm_compute. exact I.
  - split_and!; done.
  - cbn. lia.
  - exact I.
  - exact Hrun.
  - exists c', mgr', m', v'. split_and!; assumption.
Defined.

Definition up (id : Z) (addr : list string) : Cluster := mkCluster (mkClusterInfo addr IN_SERVICE) id 7.
Definition manager_up : Manager MapEngine :=
  mkManager (mkMapEngine ∅ 1) ∅ [] 9 (mkGlobalInfo 1 [1; 2] 0 []) [up 1 cluster_a; up 2 cluster_b] [].

Lemma route_covers_every_shard_witness :
  exists route, fillRouteInfo 1 empty_route clock0 manager_up = Done (RC_OK, route) clock0 manager_up /\
    ri_version route = 1 /\ (ri_placementMap route).*2 = [cluster_a; cluster_b].
Proof.
  destruct (route_covers_every_shard 1 clock0 manager_up) as (route & H1 & H2 & _ & H3 & _).
  - lia.
  - discriminate.
  - apply (bool_decide_unpack _). vm_compute. exact I.
  - vm_compute. discriminate.
  - exists route. split_and!; assumption.
Defined.

Definition ring0 : list (Z * Z) := [(10, 1); (3000, 2)].

Lemma ring0_wf : ring_wf ring0.
Proof. split; [repeat constructor|apply (bool_decide_unpack _); vm_compute; exact I]. Qed.

Lemma config_is_the_owners_witness :
  let config := extractShardConfig ring0 [] in
  (forall c s, s ∈ default [] (omap_find c config) <-> 0 <= s < RING_LENGTH /\ owner ring0 s = Some c) /\
  (5 ∈ default [] (omap_find 2 config)).
Proof.
  destruct (config_is_the_owners ring0 ring0_wf ltac:(discriminate)) as (H & _ & _). split; [exact H|].
  apply H. split; [unfold RING_LENGTH; lia|reflexivity].
Defined.

Lemma cluster_joins_witness :
  exists ring' m, addClusterId 1 3 ring0 (Some []) = Some (ring', m) /\ ring_wf ring' /\ deleteClusterId 3 ring' = ring0.
Proof.
  destruct (cluster_joins ring0 3 1) as (ring' & m & H1 & H2 & _ & H3 & _).
  - exact ring0_wf.
  - discriminate.
  - apply (bool_decide_unpack _). vm_compute. exact I.
  - vm_compute. discriminate.
  - exists ring', m. split_and!; assumption.
Defined.
