(* ===== verification/Scenarios.v ===== *)
(** * Scenarios

    Concrete runs: the theorems with hypotheses of the generate command, of
    transactions and of the engine's front, applied to concrete inputs. *)

From Stdlib Require Import Ascii.
From S2P Require Import Prelude Utils OrderedMap Status Proto KVStore ProxyKVStore InMemoryKVStore RocksDBKVStore.
From S2P Require Import Instances VersionStore Event Command KVTransCommand KVGenerateCommand GenerateSpec.
From S2P Require Import KVEngineImpl CommandProcessor TransSpec Witnesses.

#[local] Existing Instance concrete_hash.
#[local] Existing Instance concrete_lookup.
#[local] Existing Instance concrete_ips.

(** ** A transfer *)

#[local] Instance transfer_codec : TransferCodec := fun s =>
  match tokenize s ","%char with
  | [f; t; n] => mkTransferRequest f t <$> stoull n
  | _ => None
  end.
#[local] Instance uninitialised0 : Uninitialised := (77, 78).

Definition transfer0 : GenerateRequest := mkGenerateRequest (mkReqHeader 0 0) ["alice"; "bob"] ["bob"; "alice"] "alice,bob,30".
Definition accounts0 : Bucket :=
  mkBucket {["alice" := mkEntry "100" 4 INFINITE_TTL NEVER_EXPIRE 1; "bob" := mkEntry "5" 6 INFINITE_TTL NEVER_EXPIRE 1]}
           ∅ ∅ no_observers.


(** ** Transactions *)

(** An engine that holds two accounts and nothing else. *)
Definition bank0 : Engine PlainStore := engine0 (mkInMemory accounts0 (wrap rocks0)).
Definition bank_map : gmap string (string * Z) := {["alice" := ("100", 4); "bob" := ("5", 6)]}.

Lemma rocks0_misses k : misses k (wrap rocks0).
Proof.
  intros [v ttl ver] c. exists (k +:+ " not found"), ttl, ver.
  assert (RocksDBKVStore.readKV None k (mkOut v ttl ver) c rocks0 =
    Done (Status.notFound (k +:+ " not found"), mkOut v ttl ver) c rocks0) as H.
  { unfold RocksDBKVStore.readKV, findCFHandle. destruct (bool_decide (k = kCFMetaDefault)); reflexivity. }
  rewrite ro_readKV. by rewrite (zoom_Done _ _ _ c (wrap rocks0) _ _ _ H).
Qed.

Lemma bank0_represents : represents bank_map (mKVStorePtr bank0).
Proof.
  intros k. unfold bank_map. destruct (decide (k = "alice")) as [->|Ha]; [eexists; split_and!; reflexivity|].
  destruct (decide (k = "bob")) as [->|Hb]; [eexists; split_and!; reflexivity|].
  rewrite lookup_insert_ne by done. rewrite lookup_singleton_ne by done. cbn. split.
  - by rewrite lookup_insert_ne, lookup_singleton_ne by done.
  - right. apply rocks0_misses.
Qed.

(** A transaction that moves the version of one account along with the other. *)
Definition trans0 : TransRequest :=
  mkTransRequest (mkReqHeader 0 0) [VersionCond "alice" 4 EQUAL; ExistCond "carol" false]
    [RWWrite (mkWriteEntry "carol" "9" false 0 0 0 (mkUdf [] [])); RWRead (mkReadEntry "carol" 0);
     RWRemove (mkRemoveEntry "bob" 0); RWRead (mkReadEntry "dave" 0)] false false.


(** ** A transaction that fails half-way *)

Definition bucket_k : Bucket :=
  mkBucket {["k" := mkEntry "v" 4 INFINITE_TTL NEVER_EXPIRE 1]} {["k" := mkUdf [1] []]} ∅ no_observers.
Definition engine_k : Engine PlainStore := engine0 (mkInMemory bucket_k (wrap rocks0)).

(** The condition on the meta of [k] holds, and the entry that writes [k] has a
    meta other than the condition's. *)
Definition half_trans : TransRequest :=
  mkTransRequest (mkReqHeader 0 0) [UserMetaCond "k" NUM (mkUdf [5] []) 0 GREATER]
    [RWWrite (mkWriteEntry "other" "x" false 0 0 0 (mkUdf [] []));
     RWWrite (mkWriteEntry "k" "y" false 0 0 0 (mkUdf [7] []))] false false.

Definition code_of {S} (o : outcome (Engine S) unit) : option ResponseCode :=
  match o with
  | Done _ _ e => match effects e with
                  | [Reply (TransResp r _)] => Some (h_code (tp_header r))
                  | _ => None
                  end
  | Stop _ => None
  end.

Definition entry_after (o : outcome (Engine PlainStore) unit) (k : string) : option (string * Z) :=
  match o with
  | Done _ _ e => (fun x => (e_value x, e_version x)) <$> mData (bucket (mKVStorePtr e)) !! k
  | Stop _ => None
  end.


(** ** Queues and batches *)

#[local] Instance list_queue T : MpscQueue T (list T * bool) := {
  enqueue x q := if (q.2 : bool) then Some (q.1 ++ [x], true) else None;
  dequeue q := if (q.2 : bool) then match q.1 with x :: l => Item x (l, true) | [] => NoItem end else QueueStopped;
  q_shutdown q := (q.1, false);
}.

#[local] Instance list_queue_laws T : MpscQueueLaws T (list T * bool).
Proof.
  refine {| contents q := q.1; running q := q.2 |}; try (intros x [? []]; cbn; naive_solver).
  - intros x l [l' []]; cbn; naive_solver.
  - intros [l []]; cbn; naive_solver.
  - done.
Defined.

Definition idle_worker {T} : QueueWorker (list T * bool) := mkWorker ([], true) 0.
Definition idle_service {T} (n : nat) : ExecutionServiceImpl (list T * bool) := mkService (repeat idle_worker n) 0.

Lemma idle_accepting {T} n : (0 < n)%nat -> accepting (idle_service (T := T) n).
Proof.
  intros Hn. split_and!; [by destruct n; [lia|]| |done]. apply Forall_forall. intros w Hw%list_elem_of_In.
  by apply repeat_spec in Hw as ->.
Qed.

(** Five numbers, added up by two workers. *)
Definition add_up (x : Z) : M (list Z) unit := modify (fun l => l ++ [x]).

Lemma commands_are_shared_out_witness :
  exists svc', submitAll [1; 2; 3; 4; 5] (idle_service 2) = Some svc' /\
    exists w w', mWorkers svc' !! 0%nat = Some w /\ loops 3 add_up (clock_at 1) (w, []) = Done tt (clock_at 1) (w', [1; 3; 5]).
Proof.
  destruct (commands_are_shared_out add_up [1; 2; 3; 4; 5] (idle_service 2)) as (svc' & Hs & Hl & H).
  - apply idle_accepting. lia.
  - repeat constructor.
  - exists svc'. split; [exact Hs|]. destruct (mWorkers svc' !! 0%nat) as [w|] eqn:Ew.
    + destruct (H 0%nat w Ew (clock_at 1) [] (clock_at 1) [1; 3; 5] eq_refl) as (w' & Hw & _). exists w, w'. split; [reflexivity|exact Hw].
    + apply lookup_ge_None in Ew. rewrite Hl in Ew. cbn in Ew. lia.
Defined.

(** A write and a read; the read fails. *)
Definition batch0 : ExeBatchRequest :=
  mkExeBatchRequest (mkReqHeader 0 0)
    [RWWrite (mkWriteEntry "a" "1" false 0 0 0 (mkUdf [] [])); RWRead (mkReadEntry "b" 0)].
Definition answer0 (n : nat) : option Response :=
  match n with
  | O => Some (PutResp (mkPutResponse (set_h_code RC_OK empty_header) (mkWriteResult RC_OK 9)))
  | S O => Some (GetResp (mkGetResponse (set_h_code RC_NOT_LEADER empty_header) (mkReadResult RC_NOT_LEADER 0 "" 0 None)))
  | _ => None
  end.
Definition impl0 : KVEngineImpl (list (nat * Command PlainStore) * bool) := mkImpl (idle_service 3) 0 ∅.

Lemma batch_answers_each_entry_witness :
  exists e' resp, exeBatch "stopped" answer0 batch0 (clock_at 1) impl0 = Done resp (clock_at 1) e' /\
    bp_results resp = [WriteRes (mkWriteResult RC_OK 9); ReadRes (mkReadResult RC_NOT_LEADER 0 "" 0 None)] /\
    h_code (bp_header resp) <> RC_OK.
Proof.
  destruct (batch_answers_each_entry "stopped" answer0 batch0 (clock_at 1) impl0
    [(set_h_code RC_OK empty_header, WriteRes (mkWriteResult RC_OK 9));
     (set_h_code RC_NOT_LEADER empty_header, ReadRes (mkReadResult RC_NOT_LEADER 0 "" 0 None))])
    as (cmds & svc' & e' & resp & _ & _ & _ & Hrun & Hres & Hcode).
  - apply idle_accepting. lia.
  - repeat constructor; discriminate.
  - repeat constructor; eexists; split; reflexivity.
  - exists e', resp. split; [exact Hrun|]. split; [exact Hres|]. intros Hok. apply Hcode in Hok.
    apply Forall_cons in Hok as [_ Hok]. apply Forall_cons in Hok as [Hok _]. discriminate Hok.
Defined.
