(* ===== verification/Servers.v ===== *)
(** * The servers

    [KVEngine] (kv-engine/KVEngine.cpp): the calls of an engine, once it is initialised. [ObjectStore] (object-store/ObjectStore.cpp) and
    [ObjectManager] (object-manager/ObjectManager.cpp): the two servers, from their settings to their end, with the constructors of their receivers
    (network/RequestReceiver.cpp of both), of [NetAdminServer] (kv-engine/network/NetAdminServer.h) and of
    [ObjectManagerClient] (object-store/network/ObjectManagerClient.cpp). *)

From Stdlib Require Import Ascii.
From S2P Require Import Prelude OrderedMap Utils Files ClusterInfo Status Proto KVStore ProxyKVStore InMemoryKVStore Sharding ConcurInMemoryKVStore WSConcurInMemoryKVStore.
From S2P Require Import VersionStore RocksDBKVStore RocksDBSpec Event Command KVGenerateCommand KVEngineImpl Loops Shards Lifecycle RetryClient ManagerClient.
From S2P Require Import Instances Witnesses Scenarios Config.

(** ** The engine behind its pointer *)

Section Facade.
Context {S Q R : Type} `{!KVStore S} `{!KVStore R} `{!MpscQueue (nat * Command S) Q} {IPS : NodeIps} {UNINIT : Uninitialised}.
Context (queue_stopped : string) (worker_answers : nat -> option Response).

(** The calls of an engine and its database. *)
Definition Impl : Type := KVEngineImpl Q * R.
Definition in_calls {A} (m : M (KVEngineImpl Q) A) : M Impl A := zoom fst (fun i s => (i, s.2)) m.
Definition in_database {A} (m : M R A) : M Impl A := zoom snd (fun r s => (s.1, r)) m.

(** [mImpl], null before [Init]. *)
Definition KVEngine : Type := option Impl.

Definition in_impl {A} (m : M Impl A) : M KVEngine A :=
  fun c e =>
    match e with
    | None => Stop Undefined
    | Some impl => match m c impl with Done a c impl => Done a c (Some impl) | Stop f => Stop f end
    end.

(** The calls that go to the commands, and what they return. *)
Inductive EngineCall :=
| Call_connect (req : RequestHeader) | Call_put (req : PutRequest) | Call_get (req : GetRequest) | Call_remove (req : DeleteRequest)
| Call_exeBatch (req : ExeBatchRequest) | Call_trans (req : TransRequest) | Call_getAppliedBatch (req : ExeBatchRequest)
| Call_connectAsync (req : RequestHeader) | Call_putAsync (req : PutRequest) | Call_getAsync (req : GetRequest)
| Call_removeAsync (req : DeleteRequest) | Call_exeBatchAsync (req : ExeBatchRequest) | Call_transAsync (req : TransRequest)
| Call_migrateBatchAsync (req : MigrateBatchRequest) | Call_exeCustomCommand (cmd : Command S).

Inductive EngineAnswer :=
| Ans_connect (r : ResponseHeader) | Ans_put (r : PutResponse) | Ans_get (r : GetResponse) | Ans_remove (r : DeleteResponse)
| Ans_batch (r : ExeBatchResponse) | Ans_trans (r : TransResponse)
| Ans_status (s : Status.t) (callback : nat)
| Ans_batchAsync (s : Status.t) (r : option ExeBatchResponse) | Ans_migrateAsync (s : Status.t) (r : MigrateBatchResponse).

Definition fmapM {St A B} (f : A -> B) (m : M St A) : M St B := let* a := m in ret (f a).

Definition on_impl (call : EngineCall) : M Impl EngineAnswer :=
  let answer {A} (f : A -> EngineAnswer) (m : M (KVEngineImpl Q) A) := in_calls (fmapM f m) in
  let status := answer (fun '(s, n) => Ans_status s n) in
  match call with
  | Call_connect req => answer Ans_connect (connect_ queue_stopped worker_answers req)
  | Call_put req => answer Ans_put (put_ queue_stopped worker_answers req)
  | Call_get req => answer Ans_get (get_ queue_stopped worker_answers req)
  | Call_remove req => answer Ans_remove (remove_ queue_stopped worker_answers req)
  | Call_exeBatch req => answer Ans_batch (exeBatch queue_stopped worker_answers req)
  | Call_trans req => answer Ans_trans (trans_ queue_stopped worker_answers req)
  | Call_getAppliedBatch req => in_database (fmapM Ans_batch (getAppliedBatch req))
  | Call_connectAsync req => status (connectAsync queue_stopped req)
  | Call_putAsync req => status (putAsync queue_stopped req)
  | Call_getAsync req => status (getAsync queue_stopped req)
  | Call_removeAsync req => status (removeAsync queue_stopped req)
  | Call_exeBatchAsync req => answer (fun '(s, r) => Ans_batchAsync s r) (exeBatchAsync queue_stopped worker_answers req)
  | Call_transAsync req => status (transAsync queue_stopped req)
  | Call_migrateBatchAsync req => answer (fun '(s, r) => Ans_migrateAsync s r) (migrateBatchAsync queue_stopped worker_answers req)
  | Call_exeCustomCommand cmd => status (exeCustomCommand queue_stopped cmd)
  end.

(** [KVEngine::connect] to [KVEngine::exeCustomCommand] *)
Definition on_engine (call : EngineCall) : M KVEngine EngineAnswer := in_impl (on_impl call).

(** What the futures of a waiting call give is what its callback gets: a waiting call is the asynchronous one with its answer. *)
Theorem waiting_put_is_async req c e s n c1 e1 :
  on_engine (Call_putAsync req) c e = Done (Ans_status s n) c1 e1 ->
  match on_engine (Call_put req) c e with
  | Done (Ans_put r) c' e' => c' = c1 /\ e' = e1 /\ exists impl, e1 = Some impl /\ future_get worker_answers n c1 impl.1 = Done (PutResp r) c1 impl.1
  | Done _ _ _ => False
  | Stop f => exists impl, e1 = Some impl /\ forall r, future_get worker_answers n c1 impl.1 <> Done (PutResp r) c1 impl.1
  end.
Proof.
  unfold on_engine, in_impl, on_impl, put_. destruct e as [[impl db]|]; [|done]. cbv zeta. unfold in_calls, zoom, fmapM. intros H. repeat unfold bind in *. cbn [fst] in *.
  destruct (putAsync queue_stopped req c impl) as [[s1 n1] c2 impl2|]; [|done]. cbn in *. injection H as -> -> -> <-.
  unfold future_get. unfold bind. cbn. destruct (KVEngineImpl.answered impl2 !! n) as [[]|] eqn:E1; [..|destruct (worker_answers n) as [[]|] eqn:E2]; cbn.
  all: first [exists (impl2, db); split; [done|intros r0; cbn; by rewrite E1]|split_and!; [done..|]; exists (impl2, db); split; [done|cbn; by rewrite E1]].
Qed.

End Facade.

(** ** Construction *)

(** [RequestReceiver] of either server, before it runs. *)
Record RequestReceiver := mkRequestReceiver { mIpPort : string; mConcurrency : Z; mTlsConfOpt : option TlsConf }.

Section Servers.
Context {P : ProtoCodec} {R : RocksDB} {HASH : StdHash} {T : NodeTable} {K : Tokenizer} {NS : NameService}.
Context {F Q : Type} `{!FileSystem F}.
Context (open_ini : string -> INIReader) (self_udns : option string) (hostname : string).
Context {Date : Type} (no_date : Date) (stod : string -> option Date) (empty_queue : Q).

#[local] Abbreviation World := (OMap Z string * F)%type.

(** The certificates of a server's settings. *)
Definition server_tls (reader : INIReader) : M World (option TlsConf) := zoom snd (fun f s => (s.1, f)) (parseTlsConf reader "tls").

(** [objectstore::network::RequestReceiver] *)
Definition new_StoreReceiver (reader : INIReader) : M World RequestReceiver :=
  let ipPort := Get reader "receiver" "ip.port" "UNKNOWN" in
  assert_ (bool_decide (ipPort <> "UNKNOWN")) ;;;
  let concurrency := u64 (GetInteger reader "concurrency" "receive.concurrency" 8) in
  let* tls := server_tls reader in
  ret (mkRequestReceiver ipPort concurrency tls).

(** [objectmanager::network::RequestReceiver]; [kConcurrency] is 8. *)
Definition new_ManagerReceiver (reader : INIReader) : M World RequestReceiver :=
  let ipPort := Get reader "receiver" "ip.port" "UNKNOWN" in
  assert_ (bool_decide (ipPort <> "UNKNOWN")) ;;;
  let* tls := server_tls reader in
  ret (mkRequestReceiver ipPort 8 tls).

Definition kDefaultNetAdminPort : Z := 50065.

(** [NetAdminServer]: its address and its certificates. *)
Definition new_NetAdminServer (reader : INIReader) : M World (string * option TlsConf) :=
  let netadminPort := Get reader "netadmin" "ip.port" "UNKNOWN" in
  let ipPort := if bool_decide (netadminPort = "UNKNOWN") then "0.0.0.0:" +:+ to_string kDefaultNetAdminPort else netadminPort in
  let* tls := server_tls reader in
  ret (ipPort, tls).

(** [ObjectManagerClient]; the thread of the client is in ManagerClient.v. *)
Definition new_ObjectManagerClient (reader : INIReader) : M World (ObjectManagerClient * option TlsConf) :=
  let* tls := server_tls reader in
  fun c w =>
    match new_client (Get reader "objectmanager" "address" "UNKNOWN") 0 c (mkOMClient [] [] [] (new_RetryClient 0) true [] [] 0) with
    | Done _ c client => Done (client, tls) c w
    | Stop f => Stop f
    end.

Record ObjectStoreServer := mkObjectStoreServer {
  mKVEngine : Parts (Q := Q);
  mRequestReceiver : RequestReceiver;
  mNetAdminService : string * option TlsConf;
  mObjectManagerClient : ObjectManagerClient * option TlsConf;
}.

(** [ObjectStore::ObjectStore]; the observer of the database is the [WatchObserver], and the lookup the stores are given is [wsLookupFunc]. *)
Definition new_ObjectStoreServer (watchObserver : nat) (reader : INIReader) : M World ObjectStoreServer :=
  if bool_decide (ParseError reader < 0) then stop Uncaught
  else
    let* engine := Init open_ini self_udns hostname no_date stod empty_queue reader allWS (Some watchObserver) in
    let* receiver := new_StoreReceiver reader in
    let* admin := new_NetAdminServer reader in
    let* client := new_ObjectManagerClient reader in
    ret (mkObjectStoreServer engine receiver admin client).

(** [ObjectManager::mWSName] *)
Definition mWSName : WSName := "ObjectManagerData".

Definition managerLookupFunc : WSLookup := fun _ => mWSName.

(** [ObjectManager::ObjectManager]: the certificates of [ClusterProxy], the engine and the receiver. *)
Definition new_ObjectManager (reader : INIReader) : M World (option TlsConf * Parts (Q := Q) * RequestReceiver) :=
  if bool_decide (ParseError reader < 0) then stop Uncaught
  else
    let* proxy := server_tls reader in
    let* engine := Init open_ini self_udns hostname no_date stod empty_queue reader [mWSName] None in
    let* receiver := new_ManagerReceiver reader in
    ret (proxy, engine, receiver).

(** Settings of a server on a disk: those of its engine, a cluster this host is in, an address, and the files of its certificates if they are used. *)
Record server_ok (reader : INIReader) (nodes : list (string * Z)) (f : F) : Prop := {
  sv_settings : settings_ok open_ini reader;
  sv_cluster : exists path, text reader "store" "raft.config.path" = Some path /\ path <> "UNKNOWN" /\
    text (open_ini path) "raft.default" "cluster.conf" = Some (String.concat "," (nodes_text 1 nodes)) /\
    number (open_ini path) "raft.default" "self.id" = None;
  sv_nodes : Forall node_ok nodes /\ Z.of_nat (length nodes) < 2 ^ 31;
  sv_self : exists k n, nodes !! k = Some n /\ fst n = default hostname self_udns;
  sv_address : exists ip, text reader "receiver" "ip.port" = Some ip /\ ip <> "UNKNOWN";
  sv_tls : flag reader "tls" "enable" = Some true -> Forall (fun name => Get reader "tls" name "" <> "" /\ is_Some (fs_read f (Get reader "tls" name "")))
    ["key.file"; "cert.file"; "ca.file"];
}.

(** The certificates are read if and only if they are enabled. *)
Lemma server_tls_run reader nodes c m f : server_ok reader nodes f ->
  exists tls, server_tls reader c (m, f) = Done tls c (m, f) /\ (is_Some tls <-> flag reader "tls" "enable" = Some true).
Proof.
  intros Hok. pose proof (sv_tls _ _ _ Hok) as H. unfold server_tls, zoom, parseTlsConf, GetBoolean. cbn [snd fst].
  destruct (flag reader "tls" "enable") as [[|]|] eqn:E; [|exists None; by split; [|split; [intros [? ?]|]]..].
  specialize (H eq_refl). rewrite !Forall_cons in H. destruct H as ((K1 & [k Hk]) & (K2 & [ce Hce]) & (K3 & [a Ha]) & _).
  change (default false (Some true)) with true. cbv iota. rewrite bool_decide_eq_false_2 by naive_solver. unfold content_of, getFileContent. run.
  rewrite Hk. run. rewrite Hce. run. rewrite Ha. run. eexists. by split.
Qed.

(** A server of a cluster knows the address the cluster has for it. *)
Definition knows_itself (nodes : list (string * Z)) (app : AppInfo) : Prop :=
  exists j n, nodes !! j = Some n /\ fst n = default hostname self_udns /\ getMyNodeAddress app = Some (fst n +:+ ":" +:+ to_string (snd n)).

Context `{!NodeTableLaws T} `{!TokenizerLaws K}.

Lemma server_app_run reader nodes c m f : server_ok reader nodes f ->
  exists app m', new_AppInfo open_ini self_udns hostname reader c (m, f) = Done app c (m', f) /\ knows_itself nodes app.
Proof.
  intros Hok. destruct (sv_cluster _ _ _ Hok) as (path & Hp & Hne & Hc & Hs). destruct (sv_self _ _ _ Hok) as (k & n & Hk & Hh).
  destruct (sv_nodes _ _ _ Hok) as [Hl Hlen].
  destruct (application_knows_its_address open_ini self_udns hostname reader nodes c m f path k n) as (a & m' & j & n' & Hrun & Hj & Hn' & Ha & _); try done.
  exists a, m'. split; [done|]. exists j, n'. split_and!; [done|congruence|done].
Qed.

Context `{!MpscQueue (nat * Command (WSConcurInMemoryKVStore (ReadOnlyKVStore RocksDBKVStore))) Q}.
Context `{!MpscQueueLaws (nat * Command (WSConcurInMemoryKVStore (ReadOnlyKVStore RocksDBKVStore))) Q}.


(** A server of the object manager starts likewise, with one working set. *)
Theorem object_manager_starts reader nodes c m f db :
  server_ok reader nodes f ->
  dbOpen (Get reader "rocksdb" "wal.dir" "") (Get reader "rocksdb" "db.dir" "") [kCFMetaDefault; mWSName] = Some db ->
  running empty_queue = true ->
  exists tls engine receiver m', new_ObjectManager reader c (m, f) = Done (tls, engine, receiver) c (m', f) /\
    engine_ready (LOOKUP := managerLookupFunc) reader db engine /\ knows_itself nodes (mAppInfo engine) /\
    Some (mIpPort receiver) = text reader "receiver" "ip.port" /\ mTlsConfOpt receiver = tls /\ (is_Some tls <-> flag reader "tls" "enable" = Some true).
Proof.
  intros Hok Hdb Hq. destruct (server_app_run reader nodes c m f Hok) as (app & m' & Happ & Hself).
  destruct (init_ready (LOOKUP := managerLookupFunc) open_ini self_udns hostname no_date stod empty_queue reader [mWSName] None c (m, f) app (m', f) db)
    as (parts & Hinit & <- & Hready); try done; [apply Hok|apply NoDup_singleton|intros key; by apply list_elem_of_singleton|by apply (bool_decide_unpack _); vm_compute|].
  destruct (server_tls_run reader nodes c m f Hok) as (tls & Htls & Hiff). destruct (server_tls_run reader nodes c m' f Hok) as (tls' & Htls' & _).
  destruct (sv_address _ _ _ Hok) as (ip & Hip & Hipne). assert (Get reader "receiver" "ip.port" "UNKNOWN" = ip) as E by (unfold Get; by rewrite Hip).
  assert (tls' = tls) as -> by (unfold server_tls, zoom in Htls, Htls'; cbn in Htls, Htls'; destruct (parseTlsConf reader "tls" c f); congruence).
  pose proof (so_parsed _ _ (sv_settings _ _ _ Hok)) as Hparse.
  eexists tls, parts, _, m'. unfold new_ObjectManager. rewrite bool_decide_eq_false_2 by lia. rewrite (bind_Done _ _ _ _ _ _ _ Htls), (bind_Done _ _ _ _ _ _ _ Hinit). split.
  - unfold new_ManagerReceiver. rewrite E, bool_decide_eq_true_2 by done. run. rewrite Htls'. reflexivity.
  - cbn [mIpPort mTlsConfOpt]. by rewrite Hip.
Qed.

End Servers.

(** ** Shutdown *)

Section Shutdown.
Context {A Q : Type} `{!MpscQueue A Q}.

(** The servers as [shutdown] sees them: [mIsShutdown] of the server, whether its receiver and its administration are shut down, and
    the threads of its engine. *)
Record Process := mkProcess {
  mIsShutdown : bool;
  receiver_down : bool;
  admin_down : bool;
  engine_threads : Threads (T := A) (Q := Q);
}.

(** A call of [KVEngine::Destroy] that returns. *)
Definition destroyed (t t' : Threads (T := A) (Q := Q)) : Prop :=
  rtc run_step (set_control (Destroy_program (length (workers t))) t) t' /\ control t' = [].

(** [ObjectStore::shutdown] and [ObjectManager::shutdown], from the call to the return; the second leaves [mIsShutdown] as it is. *)
Inductive store_shutdown : Process -> Process -> Prop :=
| store_down p : mIsShutdown p = true -> store_shutdown p p
| store_up p t : mIsShutdown p = false -> destroyed (engine_threads p) t -> store_shutdown p (mkProcess true true true t).

Inductive manager_shutdown : Process -> Process -> Prop :=
| manager_down p : mIsShutdown p = true -> manager_shutdown p p
| manager_up p t : mIsShutdown p = false -> destroyed (engine_threads p) t -> manager_shutdown p (mkProcess (mIsShutdown p) true (admin_down p) t).

Context `{!MpscQueueLaws A Q} `{!QueueShutdownLaws A Q}.

Lemma destroyed_once t : live t -> exists t', destroyed t t'.
Proof.
  intros (Hw & _ & Hj). destruct (destroy_completes (set_control (Destroy_program (length (workers t))) t)) as (t' & Hrun & Hc);
    [by apply settled_destroyed|by intros _|by exists t'].
Qed.

Lemma destroyed_ends t t' : live t -> destroyed t t' -> mEventApplyLoopThread t' = (RunEnded, false).
Proof.
  intros (Hw & _ & Hj) [Hrun Hc]. destruct (joinable_run _ _ Hrun (settled_destroyed t Hw)) as [Hs _]; [by intros _|].
  by apply (returned_still t' Hs Hc).
Qed.

(** A running object store can be shut down, any number of times: after the first the calls do nothing. *)
Theorem store_shuts_down p : mIsShutdown p = false -> live (engine_threads p) ->
  exists p', store_shutdown p p' /\ mIsShutdown p' = true /\ receiver_down p' = true /\ admin_down p' = true /\ forall p'', store_shutdown p' p'' <-> p'' = p'.
Proof.
  intros Hup Hl. destruct (destroyed_once _ Hl) as [t Ht]. eexists. split; [by apply (store_up p t)|]. split_and!; [done..|].
  intros p''. split; [|intros ->; by apply store_down]. intros H. by inversion H; subst.
Qed.

(** A running object manager can be shut down once: [mIsShutdown] is never set, so that the second call destroys the engine again, and never returns. *)
Theorem manager_shuts_down_once p : mIsShutdown p = false -> live (engine_threads p) ->
  (exists p', manager_shutdown p p') /\ forall p' p'', manager_shutdown p p' -> ~ manager_shutdown p' p''.
Proof.
  intros Hup Hl. split.
  - destruct (destroyed_once _ Hl) as [t Ht]. eexists. by apply (manager_up p t).
  - intros p' p'' H1 H2. inversion H1 as [? Hd|? t _ Ht]; subst; [congruence|]. pose proof (destroyed_ends _ _ Hl Ht) as Ha.
    inversion H2 as [? Hd|? t' _ [Hrun Hc]]; subst; cbn in *; [congruence|]. by apply (destroy_twice_throws t t' Ha Hrun).
Qed.

End Shutdown.

(** ** A server at concrete settings

    A cluster of two, with certificates, over an empty database; and an engine of two workers that is ended while a command waits. *)

#[local] Existing Instance concrete_hash.
#[local] Existing Instance list_queue.
#[local] Existing Instance list_queue_laws.

#[local] Instance list_queue_shutdown A : QueueShutdownLaws A (list A * bool).
Proof. split; [by intros [l []]|intros x [[|y l] []] q' H; by simplify_eq/=|by intros [l b]]. Qed.

#[local] Instance no_names : NameService := fun _ _ => None.

Definition settings (l : list (string * string * string)) (section name : string) : option string :=
  (fun p => p.2.2) <$> list_find (fun e => e.1 = (section, name)) l.

Definition raft_ini : INIReader :=
  mkReader 0 (settings [("raft.default", "cluster.conf", "1@east:5245,2@west:5245")]) (fun _ _ => None) (fun _ _ => None).

Definition store_ini : INIReader :=
  mkReader 0
    (settings [("store", "raft.config.path", "conf/raft.ini"); ("snapshot", "dir", "snapshots"); ("receiver", "ip.port", "0.0.0.0:50055");
               ("objectmanager", "address", "1@om1:9000,2@om2:9000");
               ("tls", "key.file", "server.key"); ("tls", "cert.file", "server.crt"); ("tls", "ca.file", "ca.crt")])
    (fun _ _ => None) (fun section name => if bool_decide (section = "tls" /\ name = "enable") then Some true else None).

Definition ini_files (path : string) : INIReader := if bool_decide (path = "conf/raft.ini") then raft_ini else mkReader (-1) (fun _ _ => None) (fun _ _ => None) (fun _ _ => None).

Definition certificates : Files.Disk := Files.mkDisk (<["server.key" := "K"]> (<["server.crt" := "C"]> (<["ca.crt" := "A"]> ∅))) ∅ ∅ 100.

Definition two_nodes : list (string * Z) := [("east", 5245); ("west", 5245)].

Lemma store_ini_ok : server_ok ini_files None "west" store_ini two_nodes certificates.
Proof.
  split.
  - split; [by vm_compute|exists "conf/raft.ini", "1@east:5245,2@west:5245"; by vm_compute|done|exists "snapshots"; by vm_compute|by vm_compute..].
  - exists "conf/raft.ini". by vm_compute.
  - split; [repeat constructor; cbn; done || lia|cbn; lia].
  - exists 1%nat, ("west", 5245). by vm_compute.
  - exists "0.0.0.0:50055". by vm_compute.
  - intros _. repeat (constructor; [split; [done|by eexists; vm_compute]|]). constructor.
Qed.


Definition two_queues : list (list Z * bool) := [([], true); ([], true)].

