(* ===== verification/StoreScenarios.v ===== *)
(** * Scenarios of the object store

    Concrete runs of scans, migrations, routes and watches: the theorems with hypotheses
    applied to concrete inputs, and runs that show where the code does something other than it says. *)

From Stdlib Require Import Ascii.
From S2P Require Import Prelude OrderedMap Status Proto KVStore ProxyKVStore InMemoryKVStore WSConcurInMemoryKVStore RocksDBKVStore.
From S2P Require Import Instances Event Command KVPutCommand KVGenerateCommand CommandProcessor CommandsSpec ControlProto EngineContract Witnesses Scenarios.
From S2P Require Import ConcurInMemoryKVStore HashRing Shards ScanCommand MigrationManager MigrationSpec ObjectStore ObjectStoreSpec RetryClient.
From S2P Require Import ClusterSet ClusterSetSpec RouteSpec WatchCenter ControlScenarios.

#[local] Existing Instance concrete_hash.
#[local] Existing Instance concrete_lookup.
#[local] Existing Instance concrete_ips.
#[local] Existing Instance uninitialised0.

(** ** Scans *)

(** The keys of a column family of the concrete database. *)
Definition add_entry (cf : string) (x : string * string * string) (m : OMap string string) : OMap string string :=
  if bool_decide (x.1.1 = cf) then omap_put x.1.2 x.2 m else m.

#[local] Instance concrete_scan : RocksDBScan concrete_db := fun db cf => foldr (add_entry cf) [] (map_to_list (db : gmap (string * string) string)).

Lemma entries_sorted cf l : omap_sorted (foldr (add_entry cf) [] l).
Proof.
  induction l as [|x l IH]; [constructor|]. cbn [foldr]. unfold add_entry at 1. case_bool_decide; [by apply omap_put_sorted|done].
Qed.

Lemma entries_find cf key raw l : NoDup l.*1 -> omap_find key (foldr (add_entry cf) [] l) = Some raw <-> ((cf, key), raw) ∈ l.
Proof.
  induction l as [|[[cf' key'] raw'] l IH]; [intros _; cbn; set_solver|]. rewrite fmap_cons. intros [Hnot Hnd]%NoDup_cons. cbn [foldr].
  unfold add_entry at 1. cbn [fst snd] in *. rewrite elem_of_cons. case_bool_decide as Hcf.
  - subst cf'. destruct (decide (key = key')) as [->|Hne].
    + rewrite omap_find_put_eq. split; [intros [= ->]; by left|]. intros [[= ->]|Hin]; [done|].
      destruct Hnot. by apply (list_elem_of_fmap_2 fst) in Hin.
    + rewrite omap_find_put_ne by done. rewrite IH by done. naive_solver.
  - rewrite IH by done. naive_solver.
Qed.

#[local] Instance concrete_scan_laws : RocksDBScanLaws concrete_db.
Proof.
  constructor.
  - intros db cf key raw. change DB with (gmap (string * string) string) in db. rewrite (elem_of_omap (K := string)) by apply entries_sorted. unfold dbEntries, concrete_scan. rewrite entries_find by apply NoDup_fst_map_to_list.
    rewrite elem_of_map_to_list. cbn. destruct (db !! (cf, key) : option string) as [v|]; split; congruence.
  - intros db cf. apply entries_sorted.
Qed.

Definition meta0 (version : Z) : Meta := mkMeta NORMAL version 0 0 SINGLE 9 None.
Definition raw0 (v : string) (version : Z) : string := raw_of (meta0 version) (SingleValue v).

(** Two keys of the working set and one of another column family. *)
Definition store_of (w : WSConcur) (x y z : string) : ServerStore :=
  mkWSStore w
    (wrap (mkRocks _ (Some {[("ws", "a") := x; ("ws", "b") := y; ("default", "c") := z]}) "wal" "db" ["ws"] ["default"; "ws"] [] no_observers)).

Lemma iterator_of w x y z c :
  newIterator "ws" c (store_of w x y z) = Done (mkIterator [("a", x); ("b", y)] 0) c (store_of w x y z).
Proof.
  assert (dbEntries (R := concrete_db) ({[("ws", "a") := x; ("ws", "b") := y; ("default", "c") := z]} : gmap (string * string) string) "ws" = [("a", x); ("b", y)])
    as <- by (vm_compute; reflexivity). reflexivity.
Qed.

Lemma raw0_readable key v version : size (serMeta (meta0 version)) < 128 -> readable (S := ServerStore) (key, raw0 v version) (key, v, 0, version).
Proof. intros Hlen. split; [done|]. intros c s. eexists. split; [apply fromRawValue_raw; [by left|exact Hlen]|done]. Qed.

Lemma scan_reads_snapshot_witness :
  let s := store_of wsconcur0 (raw0 "x" 4) (raw0 "y" (2 ^ 32 + 5)) (raw0 "z" 6) in
  exists events it,
    ScanCommand.execute (mkScanRequest "ws" [3] None 100 []) (mkScanResponse [] None RC_UNKNOWN "") clock0 s =
    Done (Status.ok, events, mkScanResponse [("a", "x", 0, 4); ("b", "y", 0, 5)] (Some it) RC_UNKNOWN "") clock0 s /\ hasValue it = false.
Proof.
  intros s. destruct (scan_reads_snapshot (mkScanRequest "ws" [3] None 100 []) clock0 s s
    (mkIterator [("a", raw0 "x" 4); ("b", raw0 "y" (2 ^ 32 + 5))] 0) [("a", "x", 0, 4); ("b", "y", 0, 2 ^ 32 + 5)]) as [events H].
  - apply iterator_of.
  - repeat constructor; apply raw0_readable; vm_compute; reflexivity.
  - reflexivity.
  - eexists _, _. split; [exact H|reflexivity].
Defined.

(** ** Migrations *)

Definition after {A} (f : M MigrationManager A) (m : MigrationManager) : MigrationManager :=
  match f clock0 m with Done _ _ m' => m' | Stop _ => m end.

Definition moving (shards : list Z) : MigrationTask := mkMigrationTask 7 cluster_a cluster_b ((fun s => (s, INITED)) <$> shards) NOT_START.

(** A scan that found one key and has no more. *)
Definition found_one : ScanResponse := mkScanResponse [("k", "v", 0, 4)] (Some (mkIterator [("k", "v")] 1)) RC_OK "succeed".

Definition ws5 : WSName := "cf_for_app5".
Definition ws6 : WSName := "cf_for_app6".
Definition scan5 : ScanTask := mkScanTask 1 ws5 [5] [].
Definition export5 (id : Z) : ExportTask := mkExportTask id ws5 [5] (sr_data found_one).

(** A goal per step of a sequence of known length, and a step that is computed. *)
Ltac unroll := first [apply steps_refl | eapply steps_step; [unroll|]].
Ltac computed := vm_compute; reflexivity.

(** A migration of shard 5, step by step. *)
Definition m1 := after (MigrationManager.beginMigration (moving [5])) (new_MigrationManager 1).
Definition m2 := after (launch (ws5, [5])) m1.
Definition m3 := after (runScan scan5) (set_pool [] m2).
Definition m4 := after (exportBatch scan5 found_one) (set_scanning [] m3).
Definition m5 := after (endBatch scan5 found_one) m4.
Definition m6 := after (rescan (export5 2) []) (set_pool [] m5).
Definition m7 := after (markExportTaskDone 5 2) m6.

Lemma shard5_steps : steps 5 (mkRun m1 [(ws5, [5])] [] []) (mkRun m6 [] [] [(2, [5])]).
Proof.
  unroll.
  - apply (Launches clock0 clock0 m1 m2); computed.
  - apply (Scans clock0 clock0 m2 m3 [] scan5 []); computed.
  - apply (Answers clock0 clock0 m3 m4 [] scan5 [] found_one); computed.
  - apply (Returns clock0 clock0 m4 m5 [] scan5 found_one []); computed.
  - apply (Exports clock0 clock0 m5 m6 [] (export5 2) [] []); computed.
Qed.

Lemma success_means_finished_witness :
  reports m7 = [(mkMigrationProgress 7 SUCCEEDED, mkMigrationEvent 5 MIGRATED "remaining scan: 0, remaining export: 0")] /\
  finished (mkRun m7 [] [] []).
Proof.
  split; [computed|].
  apply (success_means_finished (moving [5]) 1 clock0 [(ws5, [5])] clock0 m1 5 (mkRun m6 [] [] [(2, [5])]) (mkRun m7 [] [] [])
    (mkMigrationProgress 7 SUCCEEDED) (mkMigrationEvent 5 MIGRATED "remaining scan: 0, remaining export: 0")).
  - apply (bool_decide_unpack _). vm_compute. exact I.
  - lia.
  - cbn. lia.
  - computed.
  - exact shard5_steps.
  - reflexivity.
  - apply (Marks clock0 clock0 m6 m7 [] 2 5 [] [] [] []); computed.
  - computed.
  - reflexivity.
Defined.

(** Success while a working set is still to be launched: shards 5 and 6 are moved, shard 5 is done
    before shard 6 has got its scan task. *)
Definition n1 := after (MigrationManager.beginMigration (moving [5; 6])) (new_MigrationManager 1).
Definition n2 := after (launch (ws5, [5])) n1.
Definition n3 := after (runScan scan5) (set_pool [] n2).
Definition n4 := after (exportBatch scan5 found_one) (set_scanning [] n3).
Definition n5 := after (endBatch scan5 found_one) n4.
Definition n6 := after (rescan (export5 2) []) (set_pool [] n5).
Definition n7 := after (markExportTaskDone 5 2) n6.

Theorem success_before_every_scan :
  MigrationManager.beginMigration (moving [5; 6]) clock0 (new_MigrationManager 1) = Done [(ws5, [5]); (ws6, [6])] clock0 n1 /\
  steps 6 (mkRun n1 [(ws5, [5]); (ws6, [6])] [] []) (mkRun n7 [(ws6, [6])] [] []) /\
  fst <$> reports n7 = [mkMigrationProgress 7 SUCCEEDED].
Proof.
  split_and!; [computed| |computed].
  unroll.
  - apply (Launches clock0 clock0 n1 n2); computed.
  - apply (Scans clock0 clock0 n2 n3 [] scan5 []); computed.
  - apply (Answers clock0 clock0 n3 n4 [] scan5 [] found_one); computed.
  - apply (Returns clock0 clock0 n4 n5 [] scan5 found_one []); computed.
  - apply (Exports clock0 clock0 n5 n6 [] (export5 2) [] []); computed.
  - apply (Marks clock0 clock0 n6 n7 [] 2 5 [] [] [(ws6, [6])] []); computed.
Qed.

(** Success that is never reported: the export task is done between the two halves of the callback
    that made it; then the scan is, and nothing is left that would report. *)
Definition k5 := after (rescan (export5 2) []) (set_pool [] m4).
Definition k6 := after (markExportTaskDone 5 2) k5.
Definition k7 := after (endBatch scan5 found_one) k6.

Theorem success_is_not_reported :
  steps 6 (mkRun m1 [(ws5, [5])] [] []) (mkRun k7 [] [] []) /\ finished (mkRun k7 [] [] []) /\ allDone k7 = true /\
  fst <$> reports k7 = [mkMigrationProgress 7 RUNNING].
Proof.
  split_and!; [|repeat split|computed..].
  unroll.
  - apply (Launches clock0 clock0 m1 m2); computed.
  - apply (Scans clock0 clock0 m2 m3 [] scan5 []); computed.
  - apply (Answers clock0 clock0 m3 m4 [] scan5 [] found_one); computed.
  - apply (Exports clock0 clock0 m4 k5 [] (export5 2) [] []); computed.
  - apply (Marks clock0 clock0 k5 k6 [] 2 5 [] [] [] [(scan5, found_one)]); computed.
  - apply (Returns clock0 clock0 k6 k7 [] scan5 found_one []); computed.
Qed.

(** An answer without results, as a call that timed out gives, passes for a batch that was
    imported: the local keys are deleted. *)
Theorem unanswered_batch_is_deleted {E} `{!EngineOps E} (peer : MigrateBatchRequest -> nat -> MigrateBatchResponse) fuel t c (s : MigrationManager * E) :
  mb_results (peer (exportRequest t) O) = [] -> runExport peer (S fuel) t c s = deleteLocalKeys t c s.
Proof. intros H. unfold runExport, exportLocalKeys. cbn [retryExport]. unfold isAllSucceed. rewrite H. reflexivity. Qed.

(** Keys whose deletion failed are scanned again by name; such a scan leaves no iterator, which
    the callback of the scan follows. *)
Theorem rescan_is_undefined {S} `{!KVStore S} `{!ScanStore S} req r t c (s : S) st events r' c' s' :
  sr_iterator r = None -> sq_specificKeys req <> [] ->
  ScanCommand.execute req r c s = Done (st, events, r') c' s' -> forall c m, endBatch t r' c m = Stop Undefined.
Proof.
  intros Hr Hkeys H c1 m. unfold endBatch.
  assert (sr_iterator r' = None) as ->; [|done]. unfold ScanCommand.execute in H.
  destruct (sq_specificKeys req) as [|k ks] eqn:Ek; [done|]. unfold iterateSpecificKeys in H. rewrite Ek in H.
  apply bind_inv in H as ([[[st1 mx] nf] r1] & c2 & s2 & H1 & H). run_in H. simplify_eq.
  revert H1. generalize (k :: ks) as keys, (no_max) as mx0, false as nf0. clear - Hr. intros keys. revert r c s Hr.
  induction keys as [|k keys IH]; intros r c s Hr mx0 nf0 H; cbn [specific_loop] in H; [run_in H; by simplify_eq|].
  apply bind_inv in H as ([s1 out] & c3 & s3 & H1 & H). destruct (_ || _)%bool; [|run_in H; by simplify_eq].
  eapply IH; [|exact H]. done.
Qed.

(** ** Routes *)

(** A route that places the shard of a key, a node of its cluster that has received it, and a put of the key. *)
Definition route_a : RouteInfo := mkRouteInfo 1 [keyToShardId "k"] [([keyToShardId "k"], cluster_a)] [cluster_a].
Definition node_a : ObjectStore := node_of cluster_a route_a.
Definition routed_put (version : Z) : PutRequest :=
  mkPutRequest (mkReqHeader 0 version) (mkWriteEntry "k" "v" false 0 0 0 DEFAULT_UDFMETA).
Definition rput : Command PlainStore := KVPutCommand.command (routed_put 1).

Lemma node_a_history : history node_a [route_a].
Proof. apply (H_update (Some cluster_a) IN_SERVICE route_a empty_task new_ObjectStore []). constructor. Qed.

(** A check that passes changes nothing. *)
Lemma doExecute_passes {S} (cb : Command S -> M S Status.t) cmd c (e : Engine S) :
  (forall c s, cb cmd c s = Done Status.ok c s) -> doExecute (Some cb) cmd c e = doExecute None cmd c e.
Proof.
  intros Hcb. unfold doExecute, bind. destruct (in_kv _ c e) as [[s r] c1 e1|]; [|done]. destruct (Status.isOK s); [|done].
  assert ((if skipPreExecuteCB cmd then ret Status.ok else in_kv (cb cmd)) c1 e1 = Done Status.ok c1 e1) as ->; [|done].
  destruct (skipPreExecuteCB cmd); [done|]. unfold in_kv, zoom. rewrite Hcb. by destruct e1.
Qed.

Lemma rput_passes c s : preExecute node_a rput c s = Done Status.ok c s.
Proof.
  unfold node_a. rewrite (single_key_check cluster_a route_a rput "k") by reflexivity.
  replace (omap_find _ _) with (Some {[keyToShardId "k"]} : option (gset Z)) by (vm_compute; reflexivity). reflexivity.
Qed.

Lemma rput_runs :
  exists c' e' r w, doExecute (Some (preExecute node_a)) rput clock0 plain0 = Done tt c' e' /\
    effects e' = effects plain0 ++ [PersistAsync 3 8 rput r [EvWrite w]].
Proof.
  destruct (put_run (routed_put 1) clock0 plain0) as (r & _ & _ & H); [reflexivity|cbn; lia|].
  eexists _, _, _, _. rewrite doExecute_passes by exact rput_passes. split; [exact H|reflexivity].
Qed.

Lemma replicated_commands_are_routed_witness :
  mStatus (latest (mGlobalInfo node_a)) <> OUT_OF_SERVICE /\
  ((exists route, route ∈ [route_a] /\ places route "1@10.0.0.1:50051,2@10.0.0.2:50051" (keyToShardId "k")) \/
   mStatus (latest (mGlobalInfo node_a)) = IMPORTING /\
   checkIfInMigrationShards (keyToShardId "k") (mMigrationInfoHelper (latest (mGlobalInfo node_a))) = true).
Proof.
  destruct rput_runs as (c' & e' & r & w & Hrun & Heff).
  destruct (replicated_commands_are_routed node_a [route_a] rput rput clock0 plain0 c' e' 3 8 r [EvWrite w]) as (_ & Hst & Hkeys).
  - exact node_a_history.
  - reflexivity.
  - exact Hrun.
  - exact Heff.
  - split; [exact Hst|]. apply (Hkeys "k"). constructor.
Defined.

#[local] Existing Instance bit_codec.
#[local] Existing Instance map_engine.

Lemma manager_up_room : NoDup (mClusterId <$> mClusterVector manager_up) /\ Z.of_nat (1 * length (getRoutingCluster manager_up)) <= RING_LENGTH.
Proof. split; [apply (bool_decide_unpack _); vm_compute; exact I|vm_compute; discriminate]. Qed.


(** ** Where the check says more or less than the route *)

(** A cluster keeps the shards of every route it has received, also those a later route gives to
    another cluster. *)
Theorem moved_shard_is_kept {S} cluster shard h route c (s : S) :
  checkIfInClusterScope cluster shard h c s = Done true c s ->
  checkIfInClusterScope cluster shard (updateRouteInfo route h) c s = Done true c s.
Proof.
  unfold checkIfInClusterScope. intros H.
  assert (shard ∈ scope (mCluster2ShardIds h) cluster) as Hin.
  { unfold scope. destruct (omap_find _ _) as [shards|]; [|done]. case_bool_decide; [done|by run_in H; simplify_eq]. }
  assert (shard ∈ scope (mCluster2ShardIds (updateRouteInfo route h)) cluster) as Hin'.
  { apply updateShardMap_scope. by left. }
  unfold scope in Hin'. destruct (omap_find cluster (mCluster2ShardIds (updateRouteInfo route h))) as [shards|]; [|set_solver].
  cbn in Hin'. by rewrite bool_decide_eq_true_2.
Qed.

(** So a key can have two homes: a route of version 1 has its shard on the first cluster, another
    route of version 1 on the second, and nodes of both accept a put under version 1. *)
Definition route_b : RouteInfo := mkRouteInfo 1 [keyToShardId "k"; 7] [([7], cluster_a); ([keyToShardId "k"], cluster_b)] [cluster_a; cluster_b].
Definition old_home : ObjectStore := ObjectStore.set_info (updateLatestRouteInfo route_b (mGlobalInfo node_a)) node_a.
Definition new_home : ObjectStore := node_of cluster_b route_b.

Theorem moved_key_has_two_homes c s :
  preExecute old_home rput c s = Done Status.ok c s /\ preExecute new_home rput c s = Done Status.ok c s.
Proof.
  split; rewrite preExecute_key by done; change (Command.getTargetKeys rput) with ["k"]; cbn [checkKeys]; unfold bind, checkIfInClusterScope.
  - replace (omap_find _ _) with (Some {[keyToShardId "k"; 7]} : option (gset Z)) by (vm_compute; reflexivity). reflexivity.
  - replace (omap_find _ _) with (Some {[keyToShardId "k"]} : option (gset Z)) by (vm_compute; reflexivity). reflexivity.
Qed.

(** A cluster that imports its first shards is in no placement yet: the exception for keys that
    migrate to it is behind a lookup that throws. *)
Theorem importing_cluster_aborts {S} `{!KVStore S} (cmd : Command S) key addr route task c s :
  Command.getTargetKeys cmd = [key] -> rq_routeVersion (Command.getRequestHeader cmd) = ri_version route ->
  omap_find (clusterToAddressFormat addr) (mCluster2ShardIds (updateRouteInfo route new_route)) = None ->
  preExecute (ObjectStore.set_info (updateLatestInfo (Some addr) IMPORTING route task new_GlobalInfo) new_ObjectStore) cmd c s = Stop Uncaught.
Proof.
  intros Hkeys Hv Hnone. rewrite preExecute_key by done. rewrite Hkeys. cbn [checkKeys]. unfold bind, checkIfInClusterScope.
  replace (omap_find _ _) with (@None (gset Z)) by (symmetry; exact Hnone). done.
Qed.

(** A second migration is refused and the refusal is answered with OK. *)
Theorem refused_migration_answers_ok {E} `{!EngineOps E} maxTaskID status route task m c (o : ObjectStore) (e : E) :
  mMigrationManager o = Some m -> startMigrationCall maxTaskID status route task c (o, e) = Done RC_OK c (o, e).
Proof. intros Hm. unfold startMigrationCall, triggerMigration. run. by rewrite Hm. Qed.

(** ** Watches *)

(** Two watches, of which one ends. *)
Definition watching : list WatchOp :=
  [Watches "w1" ["a"; "b"]; Written "a" "x" 3; Watches "w2" ["a"]; Deleted "a" 4 3; Purge "w1"; Unwatches "w1"; Purge "w2"; Purge "w1"].

Lemma center_refines_mailboxes_witness :
  (operate_all operate watching new_WatchCenter).1 = (operate_all abstract_operate watching ∅).1.
Proof.
  apply (center_refines_mailboxes watching). cbn [watching proper]. split_and!; [set_solver|apply (bool_decide_unpack _); vm_compute; exact I|set_solver| |exact I].
  apply (bool_decide_unpack _). vm_compute. exact I.
Defined.

(** A write with a ttl is not told to the observers of the database, so a watch does not see it. *)
Theorem ttl_write_is_not_observed lookup key value version ttl deadline updateTime udfMeta c (s : RocksDBKVStore) st c' s' :
  RocksDBKVStore.writeTTLKV lookup key value version ttl deadline updateTime udfMeta c s = Done st c' s' ->
  mRocksObserved s' = mRocksObserved s.
Proof.
  unfold RocksDBKVStore.writeTTLKV. intros H. apply bind_inv in H as (h & c1 & s1 & H1 & H). apply bind_inv in H as ([] & c2 & s2 & H2 & H).
  run_in H. simplify_eq. assert (s1 = s) as ->.
  { unfold findCFHandle, handle_at in H1. case_bool_decide; run_in H1; repeat case_match; by simplify_eq. }
  unfold batch in H2. run_in H2. destruct (batchAdd _ _); [|done]. by simplify_eq.
Qed.
