(* ===== verification/AdminScenarios.v ===== *)
(** * Scenarios of the administration tool

    The theorems with hypotheses of AdminSpec.v applied to concrete inputs: a database with one key and a log with
    one entry; and a copy whose key has a ttl. *)

From Stdlib Require Import Ascii.
From S2P Require Import Prelude Status Proto KVStore RocksDBKVStore RocksDBSpec ScanCommand OldRocksDBKVStore Shards RaftEventStore.
From S2P Require Import Instances Admin AdminSpec RaftWitnesses StoreScenarios.

#[local] Existing Instance wsLookupFunc.
#[local] Existing Instance concrete_scan.
#[local] Existing Instance concrete_scan_laws.

(** ** The old format *)

#[local] Instance old_codec : OldCodec := {
  serOldMeta x := strs_enc [Z_enc (om_version x); Z_enc (om_ttl x); Z_enc (om_deadline x)];
  parOldMeta s := match strs_dec s with
                  | [v; t; d] => mkOldMeta (Z_dec v) (Z_dec t) (Z_dec d)
                  | _ => empty_old_meta
                  end;
}.

#[local] Instance old_codec_laws : OldCodecLaws old_codec.
Proof. split. intros [v t d]. cbn [serOldMeta parOldMeta old_codec om_version om_ttl om_deadline]. rewrite strs_dec_enc, !Z_dec_enc. done. Qed.

(** ** A copy *)

(** A key with a ttl, and the milestone. *)
Definition old_row : Z * OldMeta * string := (OLD_NORMAL_WITH_TTL, mkOldMeta 5 60 1060, "v").
Definition old_keys : gmap string (Z * OldMeta * string) := {["k" := old_row]}.
Definition old_db : @DB concrete_db :=
  ({[(old_handle (wsLookupFunc "k"), "k") := old_bytes old_row; (kCFMetaDefault, kPersistedMilestone) := to_string 12]} : gmap (string * string) string).
Definition old_store : RocksDBKVStore := mkRocks _ (Some old_db) "wal" "db" allWS (kCFMetaDefault :: allWS) [] no_observers.
Definition new_store : RocksDBKVStore := mkRocks _ (Some (∅ : gmap (string * string) string)) "wal" "db" allWS (kCFMetaDefault :: allWS) [] no_observers.

Lemma old_store_holds : old_holds old_store old_db old_keys 12.
Proof.
  split_and!; try done; try lia.
  - unfold old_keys. intros key r [<- <-]%lookup_singleton_Some. vm_compute. reflexivity.
  - intros ws key raw Hws. cbn. unfold old_db. destruct (decide ((old_handle ws, key) = (old_handle (wsLookupFunc "k"), "k"))) as [[= -> ->]|Hne].
    + rewrite lookup_insert_eq. intros [= <-]. left. by exists old_row.
    + rewrite lookup_insert_ne by done. destruct (decide ((old_handle ws, key) = (kCFMetaDefault, kPersistedMilestone))) as [[= -> ->]|Hne'].
      * rewrite lookup_singleton_eq. intros [= <-]. by right.
      * by rewrite lookup_singleton_ne.
Qed.

Lemma new_store_empty : rep new_store (mkDisk ∅ [] None).
Proof.
  split; [split_and!; [done|intros key; apply shard_working_set|exact default_not_ws]|]. split; [done|]. split; [constructor|].
  exists (∅ : gmap (string * string) string). split_and!; [done| |by eexists]. intros key. by eexists.
Qed.


(** A key with a minute to live that is copied in November 2022 is not found a second later: its deadline, the
    nanoseconds cut to 32 bits, is in the past. *)
Theorem copied_ttl_is_lost s d o type version deadline value :
  rep s d -> rows d !! "k" = Some (copied (1669000000 * 1000000000) (type, mkOldMeta version 60 deadline, value)) ->
  kvReadKV "k" o (clock_at 1669000001) s = Done (Status.notFound "k not found", o) (later (clock_at 1669000001)) s.
Proof. intros Hrep Hrow. rewrite (readKV_rep "k" o _ s d Hrep), Hrow. reflexivity. Qed.

(** ** A log *)

#[local] Instance list_log : SegmentLog (Z * list LogEntry) := {
  slFirstIndex l := l.1;
  slLastIndex l := l.1 + Z.of_nat (length l.2) - 1;
  slEntry l i := default (mkLogEntry 0 0 true 0 "") (l.2 !! Z.to_nat (i - l.1));
  slAppend l e := (l.1, l.2 ++ [e]);
}.

#[local] Instance list_log_laws : SegmentLogLaws (Z * list LogEntry).
Proof.
  refine {| slEntries l := l.2 |}; [done| |done]. intros [first es] i e H. cbn in *.
  replace (Z.to_nat (first + Z.of_nat i - first)) with i by lia. by rewrite H.
Defined.

(** The entries of a log without encryption, encrypted with the keys of a node. *)
Definition plain_codec : LogCodec := {|
  cryptoEnabled := false;
  latestSecKeyVersion := @latestSecKeyVersion RaftWitnesses.concrete_codec;
  kInvalidSecKeyVersion := @kInvalidSecKeyVersion RaftWitnesses.concrete_codec;
  kOldestSecKeyVersion := @kOldestSecKeyVersion RaftWitnesses.concrete_codec;
  encrypt _ p := p;
  decrypt _ p := Some p;
  serBundle := @serBundle RaftWitnesses.concrete_codec;
  parBundle := @parBundle RaftWitnesses.concrete_codec;
|}.

Definition plain_log : Z * list LogEntry := (1, [mkLogEntry 3 1 true 2 ""; mkLogEntry 3 2 false 0 (@serBundle RaftWitnesses.concrete_codec bundle0)]).

Lemma reencrypted_log_loads_alike_witness :
  exists new', migrateSegments plain_codec RaftWitnesses.concrete_codec plain_log (1, []) = Some new' /\
    decryptEntries (C := RaftWitnesses.concrete_codec) (slEntries new') = Some [(bundle0, 2)].
Proof.
  destruct (reencrypted_log_loads_alike (NL := RaftWitnesses.concrete_codec_laws) plain_codec RaftWitnesses.concrete_codec plain_log (1, []) [(bundle0, 2)])
    as (new' & Hrun & Hload & _).
  - split; reflexivity.
  - reflexivity.
  - vm_compute. reflexivity.
  - exists new'. split; assumption.
Defined.
